(** * Gym-tracker E2E harness: a shallow embedding of the test-orchestration
      core (scenario parser, selector resolution, runners, analyzer,
      orchestrator, report generator) and its checked properties. *)

From Stdlib Require Import String Ascii List ZArith Lia Bool Arith.
Import ListNotations.
Open Scope string_scope.

(** ** JavaScript string primitives used by the sources

    Strings are sequences of code units; the sources only use prefix tests,
    suffix slices, substring search and concatenation, which are modelled
    on [string] (one character per code unit). *)
Module JS.

(** The double-quote character, which the sources embed in messages. *)
Definition dq : string := String (ascii_of_nat 34) EmptyString.

(** The line feed used by multi-line messages. *)
Definition nl : string := String (ascii_of_nat 10) EmptyString.

(** [s.startsWith(p)] *)
Fixpoint startsWith (s p : string) {struct p} : bool :=
  match p with
  | EmptyString => true
  | String a p' =>
      match s with
      | EmptyString => false
      | String b s' => Ascii.eqb a b && startsWith s' p'
      end
  end.

(** [s.slice(n)]: the suffix from index [n], empty past the end. *)
Fixpoint slice (n : nat) (s : string) : string :=
  match n, s with
  | O, _ => s
  | S n', String _ s' => slice n' s'
  | S _, EmptyString => EmptyString
  end.

(** [s.substring(0, n)]: the first [n] code units (fewer if [s] is shorter). *)
Fixpoint take (n : nat) (s : string) : string :=
  match n, s with
  | O, _ => EmptyString
  | S n', String c s' => String c (take n' s')
  | S _, EmptyString => EmptyString
  end.

(** [s.includes(sub)] *)
Fixpoint includes (s sub : string) : bool :=
  startsWith s sub ||
  match s with
  | EmptyString => false
  | String _ s' => includes s' sub
  end.

(** [s.endsWith(suf)] *)
Fixpoint endsWith (s suf : string) : bool :=
  String.eqb s suf ||
  match s with
  | EmptyString => false
  | String _ s' => endsWith s' suf
  end.

(** ASCII lower-casing: [toLowerCase] and the [i] flag of the patterns. *)
Definition lowerAscii (c : ascii) : ascii :=
  let n := nat_of_ascii c in
  if (65 <=? n)%nat && (n <=? 90)%nat then ascii_of_nat (n + 32) else c.

Fixpoint toLowerCase (s : string) : string :=
  match s with
  | EmptyString => EmptyString
  | String c s' => String (lowerAscii c) (toLowerCase s')
  end.

(** [xs.join(sep)] *)
Fixpoint join (sep : string) (xs : list string) : string :=
  match xs with
  | [] => EmptyString
  | [x] => x
  | x :: rest => x ++ sep ++ join sep rest
  end.

(** [s.replace(pat, rep)]: the first occurrence only. *)
Fixpoint replaceFirst (s pat rep : string) : string :=
  if startsWith s pat then rep ++ slice (String.length pat) s
  else match s with
       | EmptyString => EmptyString
       | String c s' => String c (replaceFirst s' pat rep)
       end.

(** A possibly undefined string inside a template literal. *)
Definition undefinedOr (o : option string) : string :=
  match o with Some s => s | None => "undefined" end.

(** [xs.push(x)] *)
Definition push {A} (xs : list A) (x : A) : list A := (xs ++ [x])%list.

(** JavaScript truthiness of a string: only the empty string is falsy. *)
Definition truthy (s : string) : bool :=
  match s with EmptyString => false | _ => true end.

(** Truthiness of an optional string ([undefined] is falsy). *)
Definition truthyOpt (o : option string) : bool :=
  match o with Some s => truthy s | None => false end.

Lemma startsWith_app (p s : string) : startsWith (p ++ s) p = true.
Proof.
  induction p as [|c p IH]; simpl; [reflexivity|].
  now rewrite Ascii.eqb_refl.
Qed.

Lemma slice_app (p s : string) : slice (String.length p) (p ++ s) = s.
Proof. induction p as [|c p IH]; simpl; [reflexivity | exact IH]. Qed.

Lemma app_inv_length {A} (l1 l2 r1 r2 : list A) :
  (l1 ++ r1 = l2 ++ r2)%list -> length l1 = length l2 -> l1 = l2 /\ r1 = r2.
Proof.
  revert l2. induction l1 as [|x l1 IH]; intros [|y l2] E L; try discriminate.
  - now split.
  - cbn in E. inversion E; subst. destruct (IH l2 H1) as [-> ->]; [cbn in L; lia | now split].
Qed.

Lemma string_length_app (a b : string) :
  String.length (a ++ b) = (String.length a + String.length b)%nat.
Proof. induction a as [|c a IH]; simpl; [reflexivity | now rewrite IH]. Qed.

End JS.

(** ** Selector resolution (e2e/src/parser.ts, [resolveElementSelector]) *)
Module Selector.
Import JS.

Record ResolvedSelector := mkSel { strategy : string; selector : string }.

(** The text-based default of the last branch: an XPath that searches the
    text, label, value and name attributes for the raw element string. *)
Definition textFallback (element : string) : ResolvedSelector :=
  {| strategy := "xpath";
     selector :=
       "//*[contains(@text, " ++ dq ++ element ++ dq ++
       ") or contains(@label, " ++ dq ++ element ++ dq ++
       ") or contains(@value, " ++ dq ++ element ++ dq ++
       ") or contains(@name, " ++ dq ++ element ++ dq ++ ")]" |}.

Definition resolveElementSelector (element : string) : ResolvedSelector :=
  if startsWith element "@" then
    {| strategy := "accessibility id"; selector := slice 1 element |}
  else if startsWith element "#" then
    {| strategy := "id"; selector := slice 1 element |}
  else if startsWith element "xpath:" then
    {| strategy := "xpath"; selector := slice 6 element |}
  else textFallback element.

Example resolve_at_foo :
  resolveElementSelector "@foo" = mkSel "accessibility id" "foo".
Proof. reflexivity. Qed.

Example resolve_xpath_div :
  resolveElementSelector "xpath://div" = mkSel "xpath" "//div".
Proof. reflexivity. Qed.

Example resolve_plain_text :
  selector (resolveElementSelector "Save") =
  "//*[contains(@text, " ++ dq ++ "Save" ++ dq ++ ") or contains(@label, "
    ++ dq ++ "Save" ++ dq ++ ") or contains(@value, " ++ dq ++ "Save" ++ dq
    ++ ") or contains(@name, " ++ dq ++ "Save" ++ dq ++ ")]".
Proof. reflexivity. Qed.

Lemma textFallback_longer (e : string) :
  (String.length e < String.length (selector (textFallback e)))%nat.
Proof.
  cbv beta iota delta [selector textFallback].
  rewrite 3 string_length_app. change (String.length dq) with 1%nat. lia.
Qed.

Lemma textFallback_strategy (e : string) : strategy (textFallback e) = "xpath".
Proof. reflexivity. Qed.

(** C7. For every string [s], resolution sends ["@" ++ s] to strategy
    accessibility id with value [s], ["#" ++ s] to strategy id with value
    [s], and ["xpath:" ++ s] to strategy xpath with [s] verbatim; none of
    the three results is the text-based default expansion of its input. *)
Theorem resolve_prefixed_forms (s : string) :
  resolveElementSelector ("@" ++ s) = mkSel "accessibility id" s /\
  resolveElementSelector ("#" ++ s) = mkSel "id" s /\
  resolveElementSelector ("xpath:" ++ s) = mkSel "xpath" s /\
  resolveElementSelector ("@" ++ s) <> textFallback ("@" ++ s) /\
  resolveElementSelector ("#" ++ s) <> textFallback ("#" ++ s) /\
  resolveElementSelector ("xpath:" ++ s) <> textFallback ("xpath:" ++ s).
Proof.
  assert (A : resolveElementSelector ("@" ++ s) = mkSel "accessibility id" s)
    by reflexivity.
  assert (B : resolveElementSelector ("#" ++ s) = mkSel "id" s)
    by reflexivity.
  assert (C : resolveElementSelector ("xpath:" ++ s) = mkSel "xpath" s)
    by reflexivity.
  repeat split; try assumption.
  - rewrite A. discriminate.
  - rewrite B. discriminate.
  - rewrite C. intro E.
    pose proof (textFallback_longer ("xpath:" ++ s)) as L.
    rewrite <- E in L. simpl in L. lia.
Qed.

End Selector.

(** ** Effects: state passing with exceptions

    A computation of the harness runs over a machine state [S] (the browser
    and file system, the adapter's buffers, the orchestrator's accumulators)
    and either returns a value or throws an error message; the state at the
    point of the throw is kept, as the mutated objects are in the source. *)
Module Eff.

Inductive outcome (A : Type) : Type :=
| Returned (a : A)
| Threw (msg : string).
Arguments Returned {A} a.
Arguments Threw {A} msg.

Definition M (S A : Type) : Type := S -> outcome A * S.

Definition ret {S A} (a : A) : M S A := fun s => (Returned a, s).

Definition throw {S A} (msg : string) : M S A := fun s => (Threw msg, s).

Definition bind {S A B} (c : M S A) (k : A -> M S B) : M S B :=
  fun s =>
    match c s with
    | (Returned a, s') => k a s'
    | (Threw msg, s') => (Threw msg, s')
    end.

(** [try { c } catch (err) { h err.message }] *)
Definition tryCatch {S A} (c : M S A) (h : string -> M S A) : M S A :=
  fun s =>
    match c s with
    | (Returned a, s') => (Returned a, s')
    | (Threw msg, s') => h msg s'
    end.

(** The outcome of a pure computation that may throw. *)
Definition raise {S A} (o : outcome A) : M S A := fun s => (o, s).

Definition get {S} : M S S := fun s => (Returned s, s).
Definition modify {S} (f : S -> S) : M S unit := fun s => (Returned tt, f s).

(** A collaborator that cannot throw (the clock, a pure read). *)
Definition total {S A} (f : S -> A * S) : M S A :=
  fun s => let (a, s') := f s in (Returned a, s').

(** Run a computation over a component [T] of the state [S]. *)
Definition zoom {S T A} (proj : S -> T) (upd : T -> S -> S) (c : M T A) : M S A :=
  fun s => let (o, t') := c (proj s) in (o, upd t' s).

Module Notations.
Notation "x <- c ;; k" := (bind c (fun x => k))
  (at level 61, c at next level, right associativity).
Notation "c ;;; k" := (bind c (fun _ => k))
  (at level 61, right associativity).
End Notations.

Lemma bind_Returned {S A B} (c : M S A) (k : A -> M S B) s b s' :
  bind c k s = (Returned b, s') ->
  exists a s1, c s = (Returned a, s1) /\ k a s1 = (Returned b, s').
Proof.
  unfold bind. destruct (c s) as [[a|m] s1]; intros H.
  - now exists a, s1.
  - discriminate.
Qed.

Lemma bind_Threw {S A B} (c : M S A) (k : A -> M S B) s m s' :
  bind c k s = (Threw m, s') ->
  c s = (Threw m, s') \/
  exists a s1, c s = (Returned a, s1) /\ k a s1 = (Threw m, s').
Proof.
  unfold bind. destruct (c s) as [[a|m0] s1]; intros H.
  - right. now exists a, s1.
  - left. inversion H; subst. reflexivity.
Qed.

Lemma bind_run {S A B} (c : M S A) (k : A -> M S B) s a s1 :
  c s = (Returned a, s1) -> bind c k s = k a s1.
Proof. intros E. unfold bind. now rewrite E. Qed.

Lemma bind_assoc {S A B C} (c : M S A) (k : A -> M S B) (h : B -> M S C) s :
  bind (bind c k) h s = bind c (fun a => bind (k a) h) s.
Proof. unfold bind. now destruct (c s) as [[a|m] s1]. Qed.

Lemma bind_ext {S A B} (c : M S A) (k h : A -> M S B) s :
  (forall a s1, k a s1 = h a s1) -> bind c k s = bind c h s.
Proof. intros E. unfold bind. destruct (c s) as [[a|m] s1]; [apply E | reflexivity]. Qed.

End Eff.

(** ** Data model of the agentic harness (e2e/lib/types.ts) *)
Module Types.

Inductive ActionType := click | fill | select | hover | wait | screenshot | navigate.

Inductive ExpectationType :=
| url | url_contains | visible | not_visible | input_value | text_content
| element_count.

Record Expectation := mkExpectation { exp_type : ExpectationType; exp_value : string }.

(** Fields a YAML document may leave out are optional at run time, whatever
    the declared TypeScript type says; [validateScenario] checks them. *)
Record ScenarioStep := mkStep {
  step_id : option string;
  step_action : ActionType;
  step_target : option string;
  step_value : option string;
  step_expect : option (list Expectation)
}.

Record Scenario := mkScenario {
  sc_name : option string;
  sc_description : string;
  sc_preconditions : list string;
  sc_steps : list ScenarioStep;
  sc_postconditions : list string;
  sc_tags : list string
}.

Inductive StepStatus := passed | failed | skipped.
Inductive TestStatus := test_passed | test_failed.

Record StepResult := mkStepResult {
  sr_id : option string;
  sr_action : ActionType;
  sr_target : option string;
  sr_status : StepStatus;
  sr_duration : Z;
  sr_error : option string;
  sr_screenshot : option string;
  sr_actualValue : option string;
  sr_expectedValue : option string
}.

Record TestResult := mkTestResult {
  tr_scenario : option string;
  tr_scenarioFile : string;
  tr_status : TestStatus;
  tr_duration : Z;
  tr_steps : list StepResult;
  tr_screenshots : list string;
  tr_consoleErrors : list string;
  tr_networkErrors : list string;
  tr_timestamp : string
}.

Inductive FailureCategory := selector | timing | state | logic | network.
Inductive Confidence := high | medium | low.

Record Analysis := mkAnalysis {
  an_scenario : option string;
  an_scenarioFile : string;
  an_failedStep : string;
  an_failedStepId : option string;
  an_rootCause : string;
  an_category : FailureCategory;
  an_affectedFiles : list string;
  an_suggestedFix : string;
  an_confidence : Confidence;
  an_timestamp : string
}.

Record FileModification := mkFileModification {
  fm_filePath : string;
  fm_originalContent : string;
  fm_modifiedContent : string;
  fm_changes : string
}.

Record Fix := mkFix {
  fix_analysis : Analysis;
  fix_filesModified : list FileModification;
  fix_typescriptValid : bool;
  fix_timestamp : string
}.

Inductive OrchestratorStatus :=
| initializing | running | st_passed | st_failed | max_retries.

Record OrchestratorState := mkState {
  os_scenarios : list Scenario;
  os_currentScenario : option (option string);
  os_iteration : Z;
  os_maxIterations : Z;
  os_results : list TestResult;
  os_analyses : list Analysis;
  os_fixes : list Fix;
  os_status : OrchestratorStatus;
  os_startTime : string;
  os_endTime : option string
}.

Record OrchestratorConfig := mkOrchestratorConfig {
  maxIterations : Z;
  parallelScenarios : bool;
  stopOnFirstFailure : bool
}.

Record TestRunnerConfig := mkTestRunnerConfig {
  baseUrl : string;
  timeout : Z;
  screenshotOnFailure : bool;
  screenshotOnStep : bool;
  video : bool
}.

Record CodingAgentConfig := mkCodingAgentConfig {
  autoApply : bool;
  maxFilesPerFix : nat;
  validateTypescript : bool
}.

Record ReportSummary := mkSummary {
  totalScenarios : nat;
  sum_passed : nat;
  sum_failed : nat;
  sum_iterations : Z;
  fixesApplied : nat
}.

Record ScenarioReport := mkScenarioReport {
  rep_name : option string;
  rep_file : string;
  rep_status : TestStatus;
  rep_iterations : nat;
  rep_results : list TestResult;
  rep_analyses : list Analysis;
  rep_fixes : list Fix
}.

Record FinalReport := mkFinalReport {
  fr_summary : ReportSummary;
  fr_scenarios : list ScenarioReport;
  fr_fixes : list Fix;
  fr_timestamp : string;
  fr_duration : Z
}.

Definition StepStatus_eqb (a b : StepStatus) : bool :=
  match a, b with
  | passed, passed | failed, failed | skipped, skipped => true
  | _, _ => false
  end.

Definition TestStatus_eqb (a b : TestStatus) : bool :=
  match a, b with
  | test_passed, test_passed | test_failed, test_failed => true
  | _, _ => false
  end.

Lemma TestStatus_eqb_eq a b : TestStatus_eqb a b = true <-> a = b.
Proof. destruct a, b; simpl; split; congruence. Qed.

Lemma StepStatus_eqb_eq a b : StepStatus_eqb a b = true <-> a = b.
Proof. destruct a, b; simpl; split; congruence. Qed.

End Types.

(** ** Insertion-ordered maps with string keys (JavaScript [Map]) *)
Module SMap.

Definition t (V : Type) : Type := list (string * V).

Fixpoint get {V} (m : t V) (k : string) : option V :=
  match m with
  | [] => None
  | (k', v) :: rest => if String.eqb k' k then Some v else get rest k
  end.

Definition has {V} (m : t V) (k : string) : bool :=
  match get m k with Some _ => true | None => false end.

(** [m.set(k, v)]: an existing key keeps its position, a new key goes last. *)
Fixpoint set {V} (m : t V) (k : string) (v : V) : t V :=
  match m with
  | [] => [(k, v)]
  | (k', v') :: rest =>
      if String.eqb k' k then (k', v) :: rest else (k', v') :: set rest k v
  end.

Definition keys {V} (m : t V) : list string := map fst m.
Definition values {V} (m : t V) : list V := map snd m.

End SMap.

(** ** Scenario parser of the agentic harness (e2e/lib/scenarioParser.ts) *)
Module ScenarioParser.
Import JS Eff Eff.Notations Types.

(** What [parseYaml] yields for a scenario document whose present fields
    have the declared types: every field may be absent. *)
Inductive RawExpectation :=
| RawExpString (s : string)
| RawExpObject (entries : list (string * string)).

Record RawStep := mkRawStep {
  raw_id : option string;
  raw_action : option string;
  raw_target : option string;
  raw_value : option string;
  raw_expect : option (list RawExpectation)
}.

Record RawScenario := mkRawScenario {
  raw_name : option string;
  raw_description : option string;
  raw_preconditions : option (list string);
  raw_steps : option (list RawStep);
  raw_postconditions : option (list string);
  raw_tags : option (list string)
}.

(** An empty document parses to [null]. *)
Inductive YamlDoc := YamlNull | YamlScenario (raw : RawScenario).

Definition VALID_ACTIONS : list (string * ActionType) :=
  [("click", click); ("fill", fill); ("select", select); ("hover", hover);
   ("wait", wait); ("screenshot", screenshot); ("navigate", navigate)].

Definition EXPECTATION_TYPES : list (string * ExpectationType) :=
  [("url", url); ("url_contains", url_contains); ("visible", visible);
   ("not_visible", not_visible); ("input_value", input_value);
   ("text_content", text_content); ("element_count", element_count)].

(** The white space and line terminators that [trim] strips, among the
    code units below 256: tab, line feed, vertical tab, form feed, carriage
    return, space and the no-break space. *)
Definition isSpace (c : ascii) : bool :=
  let n := nat_of_ascii c in
  (n =? 32)%nat || ((9 <=? n)%nat && (n <=? 13)%nat) || (n =? 160)%nat.

(** The no-break space, U+00A0. *)
Definition nbsp : string := String (ascii_of_nat 160) EmptyString.

Fixpoint trimStart (s : string) : string :=
  match s with
  | String c s' => if isSpace c then trimStart s' else s
  | EmptyString => EmptyString
  end.

Fixpoint trimEnd (s : string) : string :=
  match s with
  | EmptyString => EmptyString
  | String c s' =>
      match trimEnd s' with
      | EmptyString => if isSpace c then EmptyString else String c EmptyString
      | t => String c t
      end
  end.

Definition trim (s : string) : string := trimEnd (trimStart s).

(** [s.indexOf(':')] as the text before and after the first colon. *)
Fixpoint splitAtColon (s : string) : option (string * string) :=
  match s with
  | EmptyString => None
  | String c s' =>
      if Ascii.eqb c ":"%char then Some (EmptyString, s')
      else match splitAtColon s' with
           | Some (a, b) => Some (String c a, b)
           | None => None
           end
  end.

Section Parse.
Context {S : Type}.

Fixpoint mapM {A B} (f : A -> M S B) (xs : list A) : M S (list B) :=
  match xs with
  | [] => ret []
  | x :: rest => y <- f x ;; ys <- mapM f rest ;; ret (y :: ys)
  end.

Definition invalidExpectation (type : string) : string :=
  "Invalid expectation type " ++ dq ++ type ++ dq ++ ". Valid types: "
    ++ join ", " (map fst EXPECTATION_TYPES).

Definition parseExpectation (raw : RawExpectation) : M S Expectation :=
  match raw with
  | RawExpString s =>
      match splitAtColon s with
      | None => ret (mkExpectation visible s)
      | Some (before, after) =>
          let type := trim before in
          let value := trim after in
          match SMap.get EXPECTATION_TYPES type with
          | None => throw (invalidExpectation type)
          | Some ty => ret (mkExpectation ty value)
          end
      end
  | RawExpObject entries =>
      match entries with
      | [] => throw "undefined is not iterable (cannot read property Symbol(Symbol.iterator))"
      | (type, value) :: _ =>
          match SMap.get EXPECTATION_TYPES type with
          | None => throw (invalidExpectation type)
          | Some ty => ret (mkExpectation ty value)
          end
      end
  end.

Definition parseStep (raw : RawStep) : M S ScenarioStep :=
  match raw_action raw with
  | None => throw "Cannot read properties of undefined (reading 'toLowerCase')"
  | Some rawAction =>
      match SMap.get VALID_ACTIONS (toLowerCase rawAction) with
      | None =>
          throw ("Invalid action " ++ dq ++ rawAction ++ dq ++ " in step " ++ dq
                   ++ undefinedOr (raw_id raw) ++ dq ++ ". Valid actions: "
                   ++ join ", " (map fst VALID_ACTIONS))
      | Some action =>
          expect <- match raw_expect raw with
                    | Some es => es' <- mapM parseExpectation es ;; ret (Some es')
                    | None => ret None
                    end ;;
          ret {| step_id := raw_id raw; step_action := action;
                 step_target := raw_target raw; step_value := raw_value raw;
                 step_expect := expect |}
      end
  end.

(** The body of [parseScenarioFile] once the file is read and parsed. *)
Definition scenarioOfYaml (doc : YamlDoc) : M S Scenario :=
  match doc with
  | YamlNull => throw "Cannot read properties of null (reading 'name')"
  | YamlScenario raw =>
      match raw_description raw with
      | None => throw "Cannot read properties of undefined (reading 'trim')"
      | Some description =>
          match raw_steps raw with
          | None => throw "Cannot read properties of undefined (reading 'map')"
          | Some rawSteps =>
              steps <- mapM parseStep rawSteps ;;
              ret {| sc_name := raw_name raw;
                     sc_description := trim description;
                     sc_preconditions :=
                       match raw_preconditions raw with Some l => l | None => [] end;
                     sc_steps := steps;
                     sc_postconditions :=
                       match raw_postconditions raw with Some l => l | None => [] end;
                     sc_tags := match raw_tags raw with Some l => l | None => [] end |}
          end
      end
  end.

(** The file system and YAML library, as the collaborators they are:
    [readYaml] is [parseYaml(readFileSync(path, 'utf-8'))]. *)
Variable readYaml : string -> M S YamlDoc.
Variable readdirSync : string -> M S (list string).
Variable pathJoin : string -> string -> string.

Definition parseScenarioFile (filePath : string) : M S Scenario :=
  doc <- readYaml filePath ;; scenarioOfYaml doc.

(** The filter of the directory listing. *)
Definition isYamlFile (f : string) : bool := endsWith f ".yaml" || endsWith f ".yml".

Fixpoint loadFiles (scenariosDir : string) (files : list string)
    (scenarios : SMap.t Scenario) : M S (SMap.t Scenario) :=
  match files with
  | [] => ret scenarios
  | file :: rest =>
      let filePath := pathJoin scenariosDir file in
      scenario <- parseScenarioFile filePath ;;
      loadFiles scenariosDir rest (SMap.set scenarios file scenario)
  end.

Definition loadAllScenarios (scenariosDir : string) : M S (SMap.t Scenario) :=
  entries <- readdirSync scenariosDir ;;
  let files := filter isYamlFile entries in
  loadFiles scenariosDir files [].

End Parse.

Definition stepNeedsTarget (a : ActionType) : bool :=
  match a with wait | screenshot => false | _ => true end.

Definition isFill (a : ActionType) : bool :=
  match a with fill => true | _ => false end.

(** The loop of [validateScenario], threading the set of step ids seen. *)
Fixpoint validateSteps (steps : list ScenarioStep) (stepIds : list string)
    (errors : list string) : list string :=
  match steps with
  | [] => errors
  | step :: rest =>
      let '(stepIds1, errors1) :=
        match step_id step with
        | None => (stepIds, push errors "Step is missing an id")
        | Some i =>
            if negb (truthy i) then (stepIds, push errors "Step is missing an id")
            else if existsb (String.eqb i) stepIds
                 then (stepIds, push errors ("Duplicate step id: " ++ i))
                 else (i :: stepIds, errors)
        end in
      let errors2 :=
        if negb (truthyOpt (step_target step)) && stepNeedsTarget (step_action step)
        then push errors1 ("Step " ++ dq ++ undefinedOr (step_id step) ++ dq
                             ++ " is missing a target")
        else errors1 in
      let errors3 :=
        if isFill (step_action step) && negb (truthyOpt (step_value step))
        then push errors2 ("Step " ++ dq ++ undefinedOr (step_id step) ++ dq
                             ++ " has action " ++ dq ++ "fill" ++ dq ++ " but no value")
        else errors2 in
      validateSteps rest stepIds1 errors3
  end.

Definition validateScenario (scenario : Scenario) : list string :=
  let errors0 :=
    if negb (truthyOpt (sc_name scenario)) then ["Scenario must have a name"] else [] in
  let errors1 :=
    match sc_steps scenario with
    | [] => push errors0 "Scenario must have at least one step"
    | _ => errors0
    end in
  validateSteps (sc_steps scenario) [] errors1.

End ScenarioParser.

(** ** Step results: skipping after the first failure *)
Module Skip.

Section Results.
Variable R : Type.
Variable isFailed : R -> Prop.
Variable isSkipped0 : R -> Prop.

(** Every result that follows a failed one is skipped with zero duration. *)
Fixpoint skippedAfterFailure (l : list R) : Prop :=
  match l with
  | [] => True
  | x :: rest => (isFailed x -> Forall isSkipped0 rest) /\ skippedAfterFailure rest
  end.

Lemma skippedAfterFailure_push_skipped l s :
  isSkipped0 s -> skippedAfterFailure l -> skippedAfterFailure (l ++ [s]).
Proof.
  intros Hs. induction l as [|x l IH]; simpl.
  - intros _. split; [intros _; constructor | exact I].
  - intros [Hx Hl]. split; [|now apply IH].
    intros Fx. apply Forall_app. split; [now apply Hx | now constructor].
Qed.

Lemma skippedAfterFailure_push_first l r :
  Forall (fun x => ~ isFailed x) l -> skippedAfterFailure (l ++ [r]).
Proof.
  induction 1 as [|x l Hx _ IH]; simpl.
  - split; [intros _; constructor | exact I].
  - split; [intros Fx; contradiction | exact IH].
Qed.

Lemma skippedAfterFailure_split pre x post :
  skippedAfterFailure (pre ++ x :: post) -> isFailed x -> Forall isSkipped0 post.
Proof.
  induction pre as [|y pre IH]; simpl.
  - intros [H _]. exact H.
  - intros [_ H]. now apply IH.
Qed.

End Results.

End Skip.

(** ** The browser runner (e2e/lib/playwrightAdapter.ts) *)
Module PlaywrightAdapter.
Import JS Eff Eff.Notations Types.

(** The adapter object: the live browser page (with the file system the
    screenshots go to) and the two diagnostic buffers that page events
    append to while the page is driven. *)
Record Adapter (W : Type) := mkAdapter {
  page : W;
  consoleErrors : list string;
  networkErrors : list string
}.
Arguments mkAdapter {W}.
Arguments page {W}.
Arguments consoleErrors {W}.
Arguments networkErrors {W}.

Record ExpectationResult := mkExpectationResult {
  er_passed : bool;
  er_error : option string;
  er_actualValue : option string;
  er_expectedValue : option string
}.

(** The variables of [executeStep] that its [catch] block reads. *)
Record StepLocals := mkLocals {
  l_error : option string;
  l_actualValue : option string;
  l_expectedValue : option string;
  l_screenshot : option string
}.

(** The variables of the step loop of [runScenario]. *)
Record LoopState := mkLoop {
  overallStatus : TestStatus;
  shouldSkip : bool;
  stepResults : list StepResult;
  screenshots : list string
}.

Section Adapter.
Variable W : Type.
Variable config : TestRunnerConfig.

(** The Playwright page, the clock and the file system. *)
Variable pageGoto : string -> M (Adapter W) unit.
Variable waitForAppLoaded : Z -> M (Adapter W) unit.
Variable pageScreenshot : string -> bool -> M (Adapter W) unit.
Variable waitForTimeout : Z -> M (Adapter W) unit.
Variable executeAction : ScenarioStep -> M (Adapter W) unit.
Variable checkExpectation : Expectation -> M (Adapter W) ExpectationResult.
Variable ensureDir : string -> M (Adapter W) unit.
Variable dateNow : Adapter W -> Z * Adapter W.
Variable isoNow : Adapter W -> string * Adapter W.
Variable pathJoin : string -> string -> string.

Definition onAdapter {A} (c : M (Adapter W) A) : M (Adapter W * StepLocals) A :=
  zoom fst (fun a s => (a, snd s)) c.

Definition setLocals (f : StepLocals -> StepLocals) : M (Adapter W * StepLocals) unit :=
  modify (fun s => (fst s, f (snd s))).

Fixpoint checkExpectations (es : list Expectation) : M (Adapter W * StepLocals) unit :=
  match es with
  | [] => ret tt
  | expectation :: rest =>
      result <- onAdapter (checkExpectation expectation) ;;
      if negb (er_passed result) then
        setLocals (fun l => {| l_error := er_error result;
                               l_actualValue := er_actualValue result;
                               l_expectedValue := er_expectedValue result;
                               l_screenshot := l_screenshot l |}) ;;;
        throw (match er_error result with Some e => e | None => EmptyString end)
      else checkExpectations rest
  end.

(** The [try] block of [executeStep]. *)
Definition executeStepBody (step : ScenarioStep) (screenshotDir : string)
    : M (Adapter W * StepLocals) unit :=
  onAdapter (executeAction step) ;;;
  onAdapter (waitForTimeout 100) ;;;
  (if screenshotOnStep config then
     let shot := pathJoin screenshotDir (undefinedOr (step_id step) ++ ".png") in
     setLocals (fun l => {| l_error := l_error l; l_actualValue := l_actualValue l;
                            l_expectedValue := l_expectedValue l;
                            l_screenshot := Some shot |}) ;;;
     onAdapter (pageScreenshot shot false)
   else ret tt) ;;;
  match step_expect step with
  | Some es => checkExpectations es
  | None => ret tt
  end.

Definition executeStep (step : ScenarioStep) (scenarioFile screenshotDir : string)
    : M (Adapter W) StepResult :=
  fun a0 =>
    let (startTime, a1) := dateNow a0 in
    let '(o, (a2, locals)) :=
      executeStepBody step screenshotDir (a1, mkLocals None None None None) in
    let (endTime, a3) := dateNow a2 in
    match o with
    | Returned _ =>
        (Returned {| sr_id := step_id step; sr_action := step_action step;
                     sr_target := step_target step; sr_status := passed;
                     sr_duration := endTime - startTime; sr_error := None;
                     sr_screenshot := l_screenshot locals;
                     sr_actualValue := None; sr_expectedValue := None |}, a3)
    | Threw msg =>
        (Returned {| sr_id := step_id step; sr_action := step_action step;
                     sr_target := step_target step; sr_status := failed;
                     sr_duration := endTime - startTime;
                     sr_error := Some (match l_error locals with
                                       | Some e => e
                                       | None => msg
                                       end);
                     sr_screenshot := l_screenshot locals;
                     sr_actualValue := l_actualValue locals;
                     sr_expectedValue := l_expectedValue locals |}, a3)
    end.

Definition skippedResult (step : ScenarioStep) : StepResult :=
  {| sr_id := step_id step; sr_action := step_action step;
     sr_target := step_target step; sr_status := skipped; sr_duration := 0;
     sr_error := None; sr_screenshot := None;
     sr_actualValue := None; sr_expectedValue := None |}.

(** The [for (const step of scenario.steps)] loop of [runScenario]. *)
Fixpoint runSteps (steps : list ScenarioStep) (scenarioFile screenshotDir : string)
    (st : LoopState) : M (Adapter W) LoopState :=
  match steps with
  | [] => ret st
  | step :: rest =>
      if shouldSkip st then
        runSteps rest scenarioFile screenshotDir
          {| overallStatus := overallStatus st; shouldSkip := shouldSkip st;
             stepResults := push (stepResults st) (skippedResult step);
             screenshots := screenshots st |}
      else
        stepResult <- executeStep step scenarioFile screenshotDir ;;
        let results1 := push (stepResults st) stepResult in
        let shots1 :=
          match sr_screenshot stepResult with
          | Some p => if truthy p then push (screenshots st) p else screenshots st
          | None => screenshots st
          end in
        match sr_status stepResult with
        | failed =>
            shots2 <-
              (if screenshotOnFailure config then
                 let failScreenshot :=
                   pathJoin screenshotDir (undefinedOr (step_id step) ++ "-failure.png") in
                 pageScreenshot failScreenshot true ;;;
                 ret (push shots1 failScreenshot)
               else ret shots1) ;;
            runSteps rest scenarioFile screenshotDir
              {| overallStatus := test_failed; shouldSkip := true;
                 stepResults := results1; screenshots := shots2 |}
        | _ =>
            runSteps rest scenarioFile screenshotDir
              {| overallStatus := overallStatus st; shouldSkip := shouldSkip st;
                 stepResults := results1; screenshots := shots1 |}
        end
  end.

Definition resetCollectors : M (Adapter W) unit :=
  modify (fun a => {| page := page a; consoleErrors := []; networkErrors := [] |}).

Definition runScenario (scenario : Scenario) (scenarioFile screenshotDir : string)
    : M (Adapter W) TestResult :=
  startTime <- total dateNow ;;
  resetCollectors ;;;
  ensureDir screenshotDir ;;;
  pageGoto (baseUrl config) ;;;
  waitForAppLoaded (timeout config) ;;;
  final <- runSteps (sc_steps scenario) scenarioFile screenshotDir
             (mkLoop test_passed false [] []) ;;
  endTime <- total dateNow ;;
  a <- get ;;
  timestamp <- total isoNow ;;
  ret {| tr_scenario := sc_name scenario;
         tr_scenarioFile := scenarioFile;
         tr_status := overallStatus final;
         tr_duration := endTime - startTime;
         tr_steps := stepResults final;
         tr_screenshots := screenshots final;
         tr_consoleErrors := consoleErrors a;
         tr_networkErrors := networkErrors a;
         tr_timestamp := timestamp |}.

(** *** Properties of the step loop *)

Definition isFailed (r : StepResult) : Prop := sr_status r = failed.
Definition isSkipped0 (r : StepResult) : Prop := sr_status r = skipped /\ sr_duration r = 0%Z.

Definition loopInv (st : LoopState) : Prop :=
  Skip.skippedAfterFailure _ isFailed isSkipped0 (stepResults st) /\
  (shouldSkip st = false -> Forall (fun x => ~ isFailed x) (stepResults st)) /\
  (overallStatus st = test_passed <-> Forall (fun x => ~ isFailed x) (stepResults st)) /\
  (shouldSkip st = false -> overallStatus st = test_passed).

Lemma adapter_runSteps_inv steps file dir :
  forall st a st' a',
    loopInv st ->
    runSteps steps file dir st a = (Returned st', a') ->
    loopInv st' /\
    length (stepResults st') = (length (stepResults st) + length steps)%nat.
Proof.
  induction steps as [|step rest IH]; intros st a st' a' Inv Run.
  - inversion Run; subst. split; [exact Inv | simpl; lia].
  - simpl in Run. destruct Inv as (I1 & I2 & I3 & I4).
    destruct (shouldSkip st) eqn:Sk.
    + apply IH in Run.
      * destruct Run as [J L]. split; [exact J|].
        simpl in L. unfold push in L. rewrite length_app in L. simpl in *. lia.
      * unfold loopInv; simpl. repeat split.
        -- apply Skip.skippedAfterFailure_push_skipped; [split; reflexivity | exact I1].
        -- discriminate.
        -- intros E. apply Forall_app. split; [now apply I3|].
           constructor; [|constructor]. unfold isFailed; simpl; discriminate.
        -- intros F. apply I3. unfold push in F. apply Forall_app in F. tauto.
        -- discriminate.
    + specialize (I2 eq_refl).
      apply bind_Returned in Run. destruct Run as (r & a1 & _ & Run).
      destruct (sr_status r) eqn:Sr.
      * apply IH in Run.
        -- destruct Run as [J L]. split; [exact J|].
           simpl in L. unfold push in L. rewrite length_app in L. simpl in *. lia.
        -- unfold loopInv; simpl.
           assert (NF : Forall (fun x => ~ isFailed x) (push (stepResults st) r)).
           { apply Forall_app. split; [exact I2|].
             constructor; [|constructor]. unfold isFailed. congruence. }
           repeat split; auto.
           apply Skip.skippedAfterFailure_push_first. exact I2.
      * apply bind_Returned in Run. destruct Run as (shots2 & a2 & _ & Run).
        apply IH in Run.
        -- destruct Run as [J L]. split; [exact J|].
           simpl in L. unfold push in L. rewrite length_app in L. simpl in *. lia.
        -- unfold loopInv; simpl. repeat split; try discriminate.
           ++ apply Skip.skippedAfterFailure_push_first. exact I2.
           ++ intros F. unfold push in F. apply Forall_app in F.
              destruct F as [_ F]. inversion F; subst. contradiction.
      * apply IH in Run.
        -- destruct Run as [J L]. split; [exact J|].
           simpl in L. unfold push in L. rewrite length_app in L. simpl in *. lia.
        -- unfold loopInv; simpl.
           assert (NF : Forall (fun x => ~ isFailed x) (push (stepResults st) r)).
           { apply Forall_app. split; [exact I2|].
             constructor; [|constructor]. unfold isFailed. congruence. }
           repeat split; auto.
           apply Skip.skippedAfterFailure_push_first. exact I2.
Qed.

Lemma runScenario_steps scenario file dir a result a' :
  runScenario scenario file dir a = (Returned result, a') ->
  exists final a1 a2,
    runSteps (sc_steps scenario) file dir (mkLoop test_passed false [] []) a1
      = (Returned final, a2) /\
    tr_steps result = stepResults final /\
    tr_status result = overallStatus final /\
    tr_scenarioFile result = file /\
    tr_scenario result = sc_name scenario.
Proof.
  unfold runScenario. intros Run.
  repeat (apply bind_Returned in Run; destruct Run as (? & ? & ? & Run)).
  inversion Run; subst; simpl.
  eauto 10.
Qed.

Lemma loopInv_init : loopInv (mkLoop test_passed false [] []).
Proof.
  unfold loopInv; simpl. repeat split; auto.
Qed.

(** After a failed step, every later step of the returned result is skipped
    with duration 0. *)
Lemma adapter_skips_after_failure scenario file dir a result a' :
  runScenario scenario file dir a = (Returned result, a') ->
  forall pre x post,
    tr_steps result = (pre ++ x :: post)%list ->
    sr_status x = failed ->
    Forall (fun y => sr_status y = skipped /\ sr_duration y = 0%Z) post.
Proof.
  intros Run pre x post Split Fx.
  apply runScenario_steps in Run.
  destruct Run as (final & a1 & a2 & Run & Hs & _).
  apply adapter_runSteps_inv in Run; [|apply loopInv_init].
  destruct Run as [(I1 & _) _].
  rewrite <- Hs, Split in I1.
  exact (Skip.skippedAfterFailure_split _ _ _ _ _ _ I1 Fx).
Qed.

(** *** Nothing runs once the skip flag is set *)

(** With the skip flag set the loop only records: it touches neither the
    page nor the clock nor the file system, and appends one skipped
    result per step. *)
Lemma adapter_runSteps_skip steps file dir :
  forall st a,
    shouldSkip st = true ->
    runSteps steps file dir st a
    = (Returned {| overallStatus := overallStatus st; shouldSkip := true;
                   stepResults := (stepResults st ++ map skippedResult steps)%list;
                   screenshots := screenshots st |}, a).
Proof.
  induction steps as [|step rest IH]; intros st a Sk.
  - destruct st as [o k r sh]. cbn in Sk. subst k. cbn. now rewrite app_nil_r.
  - cbn [runSteps]. rewrite Sk. rewrite IH by reflexivity.
    cbn [overallStatus shouldSkip stepResults screenshots map]. unfold push.
    now rewrite <- app_assoc.
Qed.

Lemma adapter_runSteps_app l1 l2 file dir :
  forall st a,
    runSteps (l1 ++ l2) file dir st a
    = bind (runSteps l1 file dir st) (fun st1 => runSteps l2 file dir st1) a.
Proof.
  induction l1 as [|step rest IH]; intros st a; [reflexivity|].
  cbn [app runSteps]. destruct (shouldSkip st); [apply IH|].
  rewrite bind_assoc. apply bind_ext. intros r a1.
  destruct (sr_status r); try apply IH.
  rewrite bind_assoc. apply bind_ext. intros shots2 a2. apply IH.
Qed.

Lemma adapter_runSteps_grows steps file dir :
  forall st a st' a',
    runSteps steps file dir st a = (Returned st', a') ->
    exists ext, stepResults st' = (stepResults st ++ ext)%list.
Proof.
  induction steps as [|step rest IH]; intros st a st' a' Run.
  - inversion Run; subst. exists []. now rewrite app_nil_r.
  - cbn [runSteps] in Run. destruct (shouldSkip st).
    + apply IH in Run. destruct Run as (ext & E). cbn [stepResults] in E.
      unfold push in E. rewrite <- app_assoc in E. eauto.
    + apply bind_Returned in Run. destruct Run as (r & a1 & _ & Run).
      destruct (sr_status r).
      * apply IH in Run. destruct Run as (ext & E). cbn [stepResults] in E.
        unfold push in E. rewrite <- app_assoc in E. eauto.
      * apply bind_Returned in Run. destruct Run as (shots2 & a2 & _ & Run).
        apply IH in Run. destruct Run as (ext & E). cbn [stepResults] in E.
        unfold push in E. rewrite <- app_assoc in E. eauto.
      * apply IH in Run. destruct Run as (ext & E). cbn [stepResults] in E.
        unfold push in E. rewrite <- app_assoc in E. eauto.
Qed.

(** The loop, cut after the step whose result is the failed one, ends in
    the same adapter state as the whole loop, with the same status and
    screenshots; only the skipped results are missing. *)
Lemma adapter_runSteps_cut steps file dir a final a' pre x post :
  runSteps steps file dir (mkLoop test_passed false [] []) a = (Returned final, a') ->
  stepResults final = (pre ++ x :: post)%list ->
  sr_status x = failed ->
  runSteps (firstn (S (length pre)) steps) file dir (mkLoop test_passed false [] []) a
  = (Returned {| overallStatus := overallStatus final; shouldSkip := shouldSkip final;
                 stepResults := (pre ++ [x])%list;
                 screenshots := screenshots final |}, a').
Proof.
  intros Run Split Fx.
  pose proof (adapter_runSteps_inv _ _ _ _ _ _ _ loopInv_init Run) as [_ Len].
  rewrite Split in Len. cbn [stepResults length Nat.add] in Len.
  rewrite length_app in Len. cbn [length] in Len.
  rewrite <- (firstn_skipn (S (length pre)) steps) in Run.
  rewrite adapter_runSteps_app in Run.
  apply bind_Returned in Run. destruct Run as (st1 & a1 & Run1 & Run2).
  pose proof (adapter_runSteps_inv _ _ _ _ _ _ _ loopInv_init Run1) as [Inv1 Len1].
  cbn [stepResults length Nat.add] in Len1.
  rewrite firstn_length_le in Len1 by lia.
  destruct (adapter_runSteps_grows _ _ _ _ _ _ _ Run2) as (ext & Grow).
  rewrite Split in Grow.
  assert (Cut : stepResults st1 = (pre ++ [x])%list /\ ext = post).
  { change (pre ++ x :: post)%list with (pre ++ [x] ++ post)%list in Grow.
    rewrite app_assoc in Grow. symmetry in Grow.
    apply app_inv_length in Grow;
      [tauto | rewrite length_app; cbn [length]; lia]. }
  destruct Cut as [R1 ->].
  assert (Sk : shouldSkip st1 = true).
  { destruct Inv1 as (_ & I2 & _). destruct (shouldSkip st1); [reflexivity|].
    specialize (I2 eq_refl). rewrite R1 in I2. apply Forall_app in I2.
    destruct I2 as [_ I2]. inversion I2; subst. contradiction. }
  rewrite (adapter_runSteps_skip _ _ _ _ _ Sk) in Run2.
  inversion Run2; subst final a'. cbn [overallStatus shouldSkip stepResults screenshots].
  rewrite Run1. destruct st1 as [o k r sh]. cbn in *. now subst.
Qed.

(** The scenario with its first [n] steps only. *)
Definition firstSteps (n : nat) (scenario : Scenario) : Scenario :=
  {| sc_name := sc_name scenario; sc_description := sc_description scenario;
     sc_preconditions := sc_preconditions scenario;
     sc_steps := firstn n (sc_steps scenario);
     sc_postconditions := sc_postconditions scenario; sc_tags := sc_tags scenario |}.

(** The result without the step results that follow the first [n]. *)
Definition firstResults (keep : list StepResult) (result : TestResult) : TestResult :=
  {| tr_scenario := tr_scenario result; tr_scenarioFile := tr_scenarioFile result;
     tr_status := tr_status result; tr_duration := tr_duration result;
     tr_steps := keep; tr_screenshots := tr_screenshots result;
     tr_consoleErrors := tr_consoleErrors result;
     tr_networkErrors := tr_networkErrors result;
     tr_timestamp := tr_timestamp result |}.

(** A run ends as the run of the scenario cut after the failed step
    ends: in the same adapter state (page, file system, clock, buffers)
    and with the same result but for the skipped entries. *)
Lemma adapter_stops_at_failure scenario file dir a result a' pre x post :
  runScenario scenario file dir a = (Returned result, a') ->
  tr_steps result = (pre ++ x :: post)%list ->
  sr_status x = failed ->
  runScenario (firstSteps (S (length pre)) scenario) file dir a
  = (Returned (firstResults (pre ++ [x]) result), a').
Proof.
  unfold runScenario. cbn [firstSteps sc_name sc_steps]. intros Run Split Fx.
  apply bind_Returned in Run. destruct Run as (startTime & a1 & E1 & Run).
  rewrite (bind_run _ _ _ _ _ E1).
  apply bind_Returned in Run. destruct Run as (u2 & a2 & E2 & Run).
  rewrite (bind_run _ _ _ _ _ E2).
  apply bind_Returned in Run. destruct Run as (u3 & a3 & E3 & Run).
  rewrite (bind_run _ _ _ _ _ E3).
  apply bind_Returned in Run. destruct Run as (u4 & a4 & E4 & Run).
  rewrite (bind_run _ _ _ _ _ E4).
  apply bind_Returned in Run. destruct Run as (u5 & a5 & E5 & Run).
  rewrite (bind_run _ _ _ _ _ E5).
  apply bind_Returned in Run. destruct Run as (final & a6 & Loop & Run).
  apply bind_Returned in Run. destruct Run as (endTime & a7 & E7 & Run).
  apply bind_Returned in Run. destruct Run as (a8 & a9 & E8 & Run).
  apply bind_Returned in Run. destruct Run as (timestamp & a10 & E10 & Run).
  inversion Run; subst result a10. cbn [tr_steps] in Split.
  rewrite (bind_run _ _ _ _ _ (adapter_runSteps_cut _ _ _ _ _ _ _ _ _ Loop Split Fx)).
  rewrite (bind_run _ _ _ _ _ E7), (bind_run _ _ _ _ _ E8), (bind_run _ _ _ _ _ E10).
  reflexivity.
Qed.

End Adapter.

End PlaywrightAdapter.

(** ** The mobile scenario format and its parser (e2e/src/types.ts,
       e2e/src/parser.ts) *)
Module AppiumParser.
Import JS Eff Eff.Notations.

Inductive Platform := ios | android.

(** The payload of a single-key step object. *)
Inductive StepArg :=
| ArgString (s : string)
| ArgBool (b : bool)
| ArgNull
| ArgType (field text : string)
| ArgScroll (to : string)
| ArgCount (element : string) (count : Z).

(** A step as it comes out of the YAML document: a bare scalar
    (["- back"]), a single-key object, or a platform branch. *)
#[warnings="-register-all"]
Inductive TestStep :=
| StepString (s : string)
| StepScalar
| StepObject (key : string) (arg : StepArg)
| PlatformStep (iosSteps androidSteps : option (list TestStep)).

Record TestScenario := mkTestScenario {
  ts_name : option string;
  ts_description : option string;
  ts_tags : option (list string);
  ts_requires : option (list string);
  ts_steps : option (list TestStep)
}.

Inductive YamlDoc := YamlNull | YamlScenario (parsed : TestScenario).

Definition platformName (p : Platform) : string :=
  match p with ios => "ios" | android => "android" end.

(** [step.platform[platform]] when the value of the key is [null]. *)
Definition nullPlatform (platform : Platform) : string :=
  "Cannot read properties of null (reading '" ++ platformName platform ++ "')".

(** [filtered.push(...more)], when computing either part may throw. *)
Definition pushAll (filtered more : outcome (list TestStep)) : outcome (list TestStep) :=
  match filtered with
  | Returned xs =>
      match more with
      | Returned ys => Returned (xs ++ ys)%list
      | Threw msg => Threw msg
      end
  | Threw msg => Threw msg
  end.

(** One turn of the loop of [filterStepsForPlatform]: what the step adds
    to [filtered]. Every object with a key [platform] is taken for a
    branch: of a single-key step object [{platform: v}] the value [v] is
    indexed by the platform name, which throws on [null] and finds nothing
    in any other scalar or argument object. *)
Fixpoint filterStep (platform : Platform) (step : TestStep) : outcome (list TestStep) :=
  match step with
  | StepString s => Returned [StepObject s (ArgBool true)]
  | StepScalar => Returned []
  | PlatformStep iosSteps androidSteps =>
      match (match platform with ios => iosSteps | android => androidSteps end) with
      | Some platformSteps =>
          (fix go (l : list TestStep) : outcome (list TestStep) :=
             match l with
             | [] => Returned []
             | x :: rest => pushAll (filterStep platform x) (go rest)
             end) platformSteps
      | None => Returned []
      end
  | StepObject key arg =>
      if String.eqb key "platform" then
        match arg with
        | ArgNull => Threw (nullPlatform platform)
        | _ => Returned []
        end
      else Returned [step]
  end.

Fixpoint filterStepsForPlatform (steps : list TestStep) (platform : Platform)
    : outcome (list TestStep) :=
  match steps with
  | [] => Returned []
  | step :: rest => pushAll (filterStep platform step) (filterStepsForPlatform rest platform)
  end.

Section Parse.
Context {S : Type}.
Variable readYaml : string -> M S YamlDoc.
Variable globYaml : M S (list string).
Variable pathJoin : string -> string -> string.
Variable SCENARIOS_DIR : string.

Definition parseScenarioFile (filePath : string) : M S TestScenario :=
  doc <- readYaml filePath ;;
  match doc with
  | YamlNull => throw "Cannot read properties of null (reading 'name')"
  | YamlScenario parsed =>
      if negb (truthyOpt (ts_name parsed)) then
        throw ("Scenario missing 'name' field: " ++ filePath)
      else
        match ts_steps parsed with
        | None => throw ("Scenario missing 'steps' array: " ++ filePath)
        | Some _ => ret parsed
        end
  end.

Fixpoint loadFiles (files : list string) (scenarios : SMap.t TestScenario)
    : M S (SMap.t TestScenario) :=
  match files with
  | [] => ret scenarios
  | file :: rest =>
      let filePath := pathJoin SCENARIOS_DIR file in
      scenario <- parseScenarioFile filePath ;;
      let scenarioId := replaceFirst file ".yaml" EmptyString in
      loadFiles rest (SMap.set scenarios scenarioId scenario)
  end.

Definition loadAllScenarios : M S (SMap.t TestScenario) :=
  files <- globYaml ;;
  loadFiles files [].

End Parse.

End AppiumParser.

(** ** The mobile runner (e2e/src/executor.ts) *)
Module TestExecutor.
Import JS Eff Eff.Notations AppiumParser.

Inductive Status := passed | failed | skipped.

Record StepResult := mkStepResult {
  sr_step : TestStep;
  sr_status : Status;
  sr_duration : Z;
  sr_error : option string
}.

Record TestResult := mkTestResult {
  tr_scenario : option string;
  tr_platform : Platform;
  tr_status : Status;
  tr_duration : Z;
  tr_steps : list StepResult;
  tr_screenshots : list string;
  tr_error : option string
}.

(** The executor object: the device session (present once initialised)
    and the screenshot list. *)
Record Executor (W : Type) := mkExecutor {
  world : W;
  driver : bool;
  screenshots : list string
}.
Arguments mkExecutor {W}.
Arguments world {W}.
Arguments driver {W}.
Arguments screenshots {W}.

Record LoopState := mkLoop {
  failedFlag : bool;
  errorMessage : option string;
  stepResults : list StepResult
}.

Section Executor.
Variable W : Type.
Variable platform : Platform.

(** The device session, the file system and the clock. *)
Variable driverAction : TestStep -> M (Executor W) unit.
Variable saveScreenshot : string -> M (Executor W) unit.
Variable dateNow : Executor W -> Z * Executor W.
Variable isoNow : Executor W -> string * Executor W.
Variable pathJoin : string -> string -> string.
Variable SCREENSHOT_DIR : string.

(** [s.replace(/[:.]/g, '-')] *)
Fixpoint dashColonsDots (s : string) : string :=
  match s with
  | EmptyString => EmptyString
  | String c s' =>
      String (if Ascii.eqb c ":"%char || Ascii.eqb c "."%char then "-"%char else c)
             (dashColonsDots s')
  end.

Definition captureScreenshot (name : string) : M (Executor W) unit :=
  e <- get ;;
  if negb (driver e) then throw "Driver not initialized"
  else
    iso <- total isoNow ;;
    let timestamp := dashColonsDots iso in
    let filename := platformName platform ++ "-" ++ name ++ "-" ++ timestamp ++ ".png" in
    let filepath := pathJoin SCREENSHOT_DIR filename in
    saveScreenshot filepath ;;;
    modify (fun e => {| world := world e; driver := driver e;
                        screenshots := push (screenshots e) filepath |}).

Definition driverKeys : list string :=
  ["tap"; "type"; "clear"; "swipe"; "scroll"; "see"; "notSee"; "seeElement";
   "notSeeElement"; "seeCount"; "wait"; "waitFor"; "waitForGone"; "back";
   "navigate"].

Definition argText (arg : StepArg) : string :=
  match arg with
  | ArgString s => s
  | ArgBool true => "true"
  | ArgBool false => "false"
  | ArgNull => "null"
  | _ => "[object Object]"
  end.

Definition executeStep (step : TestStep) : M (Executor W) unit :=
  e <- get ;;
  if negb (driver e) then throw "Driver not initialized"
  else
    match step with
    | StepObject key arg =>
        if existsb (String.eqb key) driverKeys then driverAction step
        else if String.eqb key "screenshot" then captureScreenshot (argText arg)
        else ret tt
    | _ => throw "Cannot use 'in' operator to search for 'tap' in a primitive"
    end.

(** The [for (const step of steps)] loop of [runScenario]. *)
Fixpoint runSteps (scenarioName : option string) (steps : list TestStep)
    (st : LoopState) : M (Executor W) LoopState :=
  match steps with
  | [] => ret st
  | step :: rest =>
      if failedFlag st then
        runSteps scenarioName rest
          {| failedFlag := failedFlag st; errorMessage := errorMessage st;
             stepResults := push (stepResults st) (mkStepResult step skipped 0 None) |}
      else
        stepStart <- total dateNow ;;
        st1 <- tryCatch
                 (executeStep step ;;;
                  stepEnd <- total dateNow ;;
                  ret {| failedFlag := failedFlag st; errorMessage := errorMessage st;
                         stepResults :=
                           push (stepResults st)
                                (mkStepResult step passed (stepEnd - stepStart) None) |})
                 (fun msg =>
                    stepEnd <- total dateNow ;;
                    let st' :=
                      {| failedFlag := true; errorMessage := Some msg;
                         stepResults :=
                           push (stepResults st)
                                (mkStepResult step failed (stepEnd - stepStart) (Some msg)) |} in
                    captureScreenshot ("FAILURE-" ++ undefinedOr scenarioName) ;;;
                    ret st') ;;
        runSteps scenarioName rest st1
  end.

Definition runScenario (scenario : TestScenario) : M (Executor W) TestResult :=
  e <- get ;;
  if negb (driver e) then throw "Driver not initialized. Call initialize() first."
  else
    startTime <- total dateNow ;;
    modify (fun e => {| world := world e; driver := driver e; screenshots := [] |}) ;;;
    steps <- match ts_steps scenario with
             | Some l => raise (filterStepsForPlatform l platform)
             | None => throw "steps is not iterable"
             end ;;
    final <- runSteps (ts_name scenario) steps (mkLoop false None []) ;;
    endTime <- total dateNow ;;
    e' <- get ;;
    ret {| tr_scenario := ts_name scenario;
           tr_platform := platform;
           tr_status := if failedFlag final then failed else passed;
           tr_duration := endTime - startTime;
           tr_steps := stepResults final;
           tr_screenshots := screenshots e';
           tr_error := errorMessage final |}.

(** *** Properties of the step loop *)

Definition isFailed (r : StepResult) : Prop := sr_status r = failed.
Definition isSkipped0 (r : StepResult) : Prop := sr_status r = skipped /\ sr_duration r = 0%Z.

Definition loopInv (st : LoopState) : Prop :=
  Skip.skippedAfterFailure _ isFailed isSkipped0 (stepResults st) /\
  (failedFlag st = false -> Forall (fun x => ~ isFailed x) (stepResults st)).

Lemma executor_runSteps_inv name steps :
  forall st e st' e',
    loopInv st ->
    runSteps name steps st e = (Returned st', e') ->
    loopInv st'.
Proof.
  induction steps as [|step rest IH]; intros st e st' e' Inv Run.
  - inversion Run; subst. exact Inv.
  - simpl in Run. destruct Inv as (I1 & I2).
    destruct (failedFlag st) eqn:Fl.
    + apply IH in Run; [exact Run|].
      split; simpl; [|discriminate].
      apply Skip.skippedAfterFailure_push_skipped; [split; reflexivity | exact I1].
    + specialize (I2 eq_refl).
      apply bind_Returned in Run. destruct Run as (stepStart & e1 & _ & Run).
      apply bind_Returned in Run. destruct Run as (st1 & e2 & Try & Run).
      apply IH in Run; [exact Run|].
      unfold tryCatch in Try.
      destruct (bind (executeStep step) _ e1) as [[stOk|msg] e3] eqn:Body.
      * inversion Try; subst st1 e2.
        apply bind_Returned in Body. destruct Body as (? & ? & _ & Body).
        apply bind_Returned in Body. destruct Body as (? & ? & _ & Body).
        inversion Body; subst. split; simpl.
        -- apply Skip.skippedAfterFailure_push_first. exact I2.
        -- intros _. apply Forall_app. split; [exact I2|].
           constructor; [|constructor]. unfold isFailed; simpl; discriminate.
      * apply bind_Returned in Try. destruct Try as (? & ? & _ & Try).
        apply bind_Returned in Try. destruct Try as (? & ? & _ & Try).
        inversion Try; subst. split; simpl; [|discriminate].
        apply Skip.skippedAfterFailure_push_first. exact I2.
Qed.

(** What a returned run is made of: the clock reads, the filtered steps
    and the loop over them. *)
Lemma executor_runScenario_parts scenario e result e' :
  runScenario scenario e = (Returned result, e') ->
  exists l steps startTime e1 final e2 endTime,
    driver e = true /\
    dateNow e = (startTime, e1) /\
    ts_steps scenario = Some l /\
    filterStepsForPlatform l platform = Returned steps /\
    runSteps (ts_name scenario) steps (mkLoop false None [])
      {| world := world e1; driver := driver e1; screenshots := [] |}
      = (Returned final, e2) /\
    dateNow e2 = (endTime, e') /\
    result = {| tr_scenario := ts_name scenario;
                tr_platform := platform;
                tr_status := if failedFlag final then failed else passed;
                tr_duration := endTime - startTime;
                tr_steps := stepResults final;
                tr_screenshots := screenshots e';
                tr_error := errorMessage final |}.
Proof.
  unfold runScenario. intros Run.
  apply bind_Returned in Run. destruct Run as (e0 & e0' & G & Run).
  inversion G; subst e0 e0'.
  destruct (driver e) eqn:D; cbn [negb] in Run; [|discriminate].
  apply bind_Returned in Run. destruct Run as (startTime & e1 & E1 & Run).
  unfold total in E1. destruct (dateNow e) as [t0 e1'] eqn:Now. inversion E1; subst t0 e1'.
  apply bind_Returned in Run. destruct Run as (u & e2 & E2 & Run).
  inversion E2; subst u e2.
  apply bind_Returned in Run. destruct Run as (steps & e3 & E3 & Run).
  destruct (ts_steps scenario) as [l|] eqn:St; [|discriminate].
  unfold raise in E3. inversion E3 as [[F E3']]. subst e3.
  apply bind_Returned in Run. destruct Run as (final & e4 & Loop & Run).
  apply bind_Returned in Run. destruct Run as (endTime & e5 & E5 & Run).
  unfold total in E5. destruct (dateNow e4) as [t1 e5'] eqn:Now2. inversion E5; subst t1 e5'.
  apply bind_Returned in Run. destruct Run as (e6 & e7 & G2 & Run).
  inversion G2; subst e6 e7. inversion Run; subst result e5.
  exists l, steps, startTime, e1, final, e4, endTime. repeat split; assumption.
Qed.

Lemma executor_runScenario_run scenario e l steps startTime e1 final e2 endTime e' :
  driver e = true ->
  dateNow e = (startTime, e1) ->
  ts_steps scenario = Some l ->
  filterStepsForPlatform l platform = Returned steps ->
  runSteps (ts_name scenario) steps (mkLoop false None [])
    {| world := world e1; driver := driver e1; screenshots := [] |}
    = (Returned final, e2) ->
  dateNow e2 = (endTime, e') ->
  runScenario scenario e
  = (Returned {| tr_scenario := ts_name scenario;
                 tr_platform := platform;
                 tr_status := if failedFlag final then failed else passed;
                 tr_duration := endTime - startTime;
                 tr_steps := stepResults final;
                 tr_screenshots := screenshots e';
                 tr_error := errorMessage final |}, e').
Proof.
  intros D Now St F Loop Now2. unfold runScenario.
  unfold bind at 1, get at 1. rewrite D. cbn [negb].
  unfold bind at 1, total at 1. rewrite Now.
  unfold bind at 1, modify at 1.
  rewrite St, F. unfold bind at 1, raise at 1.
  rewrite (bind_run _ _ _ _ _ Loop).
  unfold bind at 1, total at 1. rewrite Now2.
  reflexivity.
Qed.

(** After a failed step, every later step of the returned result is skipped
    with duration 0. *)
Lemma executor_skips_after_failure scenario e result e' :
  runScenario scenario e = (Returned result, e') ->
  forall pre x post,
    tr_steps result = (pre ++ x :: post)%list ->
    sr_status x = failed ->
    Forall (fun y => sr_status y = skipped /\ sr_duration y = 0%Z) post.
Proof.
  intros Run pre x post Split Fx.
  apply executor_runScenario_parts in Run.
  destruct Run as (l & steps & startTime & e1 & final & e2 & endTime
                   & _ & _ & _ & _ & Loop & _ & ->).
  cbn [tr_steps] in Split.
  apply executor_runSteps_inv in Loop.
  - destruct Loop as [I1 _]. rewrite Split in I1.
    exact (Skip.skippedAfterFailure_split _ _ _ _ _ _ I1 Fx).
  - split; simpl; [exact I | intros _; constructor].
Qed.

(** *** Nothing runs once the failure flag is set *)

(** With the failure flag set the loop only records: it touches neither
    the device nor the clock nor the file system, and appends one skipped
    result per step. *)
Lemma executor_runSteps_skip name steps :
  forall st e,
    failedFlag st = true ->
    runSteps name steps st e
    = (Returned {| failedFlag := true; errorMessage := errorMessage st;
                   stepResults :=
                     (stepResults st
                        ++ map (fun step => mkStepResult step skipped 0 None) steps)%list |},
       e).
Proof.
  induction steps as [|step rest IH]; intros st e Fl.
  - destruct st as [f m r]. cbn in Fl. subst f. cbn. now rewrite app_nil_r.
  - cbn [runSteps]. rewrite Fl. rewrite IH by reflexivity.
    cbn [failedFlag errorMessage stepResults map]. unfold push.
    now rewrite <- app_assoc.
Qed.

Lemma executor_runSteps_app name l1 l2 :
  forall st e,
    runSteps name (l1 ++ l2) st e
    = bind (runSteps name l1 st) (fun st1 => runSteps name l2 st1) e.
Proof.
  induction l1 as [|step rest IH]; intros st e; [reflexivity|].
  cbn [app runSteps]. destruct (failedFlag st); [apply IH|].
  rewrite bind_assoc. apply bind_ext. intros stepStart e1.
  rewrite bind_assoc. apply bind_ext. intros st1 e2. apply IH.
Qed.

(** The loop appends one result per step, in order. *)
Lemma executor_runSteps_grows name steps :
  forall st e st' e',
    runSteps name steps st e = (Returned st', e') ->
    exists ext, stepResults st' = (stepResults st ++ ext)%list /\
                map sr_step ext = steps.
Proof.
  induction steps as [|step rest IH]; intros st e st' e' Run.
  - inversion Run; subst. exists []. now rewrite app_nil_r.
  - cbn [runSteps] in Run. destruct (failedFlag st).
    + apply IH in Run. destruct Run as (ext & E & Mp). cbn [stepResults] in E.
      unfold push in E. rewrite <- app_assoc in E.
      eexists. split; [exact E | cbn; now rewrite Mp].
    + apply bind_Returned in Run. destruct Run as (stepStart & e1 & _ & Run).
      apply bind_Returned in Run. destruct Run as (st1 & e2 & Try & Run).
      apply IH in Run. destruct Run as (ext & E & Mp).
      assert (One : exists r, stepResults st1 = push (stepResults st) r /\ sr_step r = step).
      { unfold tryCatch in Try.
        destruct (bind (executeStep step) _ e1) as [[stOk|msg] e3] eqn:Body.
        - inversion Try; subst st1 e2.
          apply bind_Returned in Body. destruct Body as (? & ? & _ & Body).
          apply bind_Returned in Body. destruct Body as (? & ? & _ & Body).
          inversion Body; subst. cbn [stepResults]. eauto.
        - apply bind_Returned in Try. destruct Try as (? & ? & _ & Try).
          apply bind_Returned in Try. destruct Try as (? & ? & _ & Try).
          inversion Try; subst. cbn [stepResults]. eauto. }
      destruct One as (r & R & Sr). rewrite R in E. unfold push in E.
      rewrite <- app_assoc in E.
      eexists. split; [exact E | cbn; now rewrite Sr, Mp].
Qed.

(** The loop over the steps up to the failed one ends in the same
    executor state as the whole loop, with the same flag and message;
    only the skipped results are missing. *)
Lemma executor_runSteps_cut name steps e final e' pre x post :
  runSteps name steps (mkLoop false None []) e = (Returned final, e') ->
  stepResults final = (pre ++ x :: post)%list ->
  sr_status x = failed ->
  steps = (map sr_step (pre ++ [x]) ++ map sr_step post)%list /\
  runSteps name (map sr_step (pre ++ [x])) (mkLoop false None []) e
  = (Returned {| failedFlag := failedFlag final; errorMessage := errorMessage final;
                 stepResults := (pre ++ [x])%list |}, e').
Proof.
  intros Run Split Fx.
  destruct (executor_runSteps_grows _ _ _ _ _ _ Run) as (ext & G & Mp).
  cbn [stepResults app] in G. rewrite Split in G. subst ext.
  assert (Steps : steps = (map sr_step (pre ++ [x]) ++ map sr_step post)%list).
  { rewrite <- Mp, <- map_app, <- app_assoc. reflexivity. }
  split; [exact Steps|].
  rewrite Steps in Run. rewrite executor_runSteps_app in Run.
  apply bind_Returned in Run. destruct Run as (st1 & e1 & Run1 & Run2).
  assert (Inv0 : loopInv (mkLoop false None [])).
  { split; simpl; [exact I | intros _; constructor]. }
  pose proof (executor_runSteps_inv _ _ _ _ _ _ Inv0 Run1) as Inv1.
  destruct (executor_runSteps_grows _ _ _ _ _ _ Run1) as (ext1 & G1 & Mp1).
  cbn [stepResults app] in G1.
  destruct (executor_runSteps_grows _ _ _ _ _ _ Run2) as (ext2 & G2 & _).
  rewrite Split, G1 in G2.
  change (pre ++ x :: post)%list with (pre ++ [x] ++ post)%list in G2.
  rewrite app_assoc in G2.
  apply app_inv_length in G2.
  2:{ rewrite <- (length_map sr_step (pre ++ [x])), <- Mp1. now rewrite length_map. }
  destruct G2 as [R1 _]. rewrite <- R1 in G1.
  assert (Fl : failedFlag st1 = true).
  { destruct Inv1 as (_ & I2). destruct (failedFlag st1); [reflexivity|].
    specialize (I2 eq_refl). rewrite G1 in I2. apply Forall_app in I2.
    destruct I2 as [_ I2]. inversion I2; subst. contradiction. }
  rewrite (executor_runSteps_skip _ _ _ _ Fl) in Run2.
  inversion Run2; subst final e'. cbn [failedFlag errorMessage stepResults].
  rewrite Run1. destruct st1 as [f m r]. cbn in *. now subst.
Qed.

(** The result without the step results that follow the kept ones. *)
Definition firstResults (keep : list StepResult) (result : TestResult) : TestResult :=
  {| tr_scenario := tr_scenario result; tr_platform := tr_platform result;
     tr_status := tr_status result; tr_duration := tr_duration result;
     tr_steps := keep; tr_screenshots := tr_screenshots result;
     tr_error := tr_error result |}.

(** A run ends as the run of any scenario of the same name ends whose
    steps for the platform stop with the failed one: in the same executor
    state (device, file system, clock, screenshot list) and with the same
    result but for the skipped entries. *)
Lemma executor_stops_at_failure scenario e result e' pre x post cut l :
  runScenario scenario e = (Returned result, e') ->
  tr_steps result = (pre ++ x :: post)%list ->
  sr_status x = failed ->
  ts_name cut = ts_name scenario ->
  ts_steps cut = Some l ->
  filterStepsForPlatform l platform = Returned (map sr_step (pre ++ [x])) ->
  runScenario cut e = (Returned (firstResults (pre ++ [x]) result), e').
Proof.
  intros Run Split Fx Name St F.
  apply executor_runScenario_parts in Run.
  destruct Run as (l0 & steps & startTime & e1 & final & e2 & endTime
                   & D & Now & _ & _ & Loop & Now2 & ->).
  cbn [tr_steps] in Split.
  destruct (executor_runSteps_cut _ _ _ _ _ _ _ _ Loop Split Fx) as [_ Cut].
  rewrite <- Name in Cut.
  rewrite (executor_runScenario_run cut e l _ _ _ _ _ _ _ D Now St F Cut Now2).
  unfold firstResults. cbn. now rewrite Name.
Qed.

End Executor.

End TestExecutor.

(** ** The test-runner agent (e2e/agents/testRunner.ts) *)
Module TestRunner.
Import JS Eff Eff.Notations Types.
Import PlaywrightAdapter.

Record TestRunnerInput := mkInput {
  scenarioFile : string;
  scenariosDir : string;
  screenshotDir : string;
  reportsDir : string;
  config : TestRunnerConfig
}.

Record TestRunnerOutput := mkOutput {
  success : bool;
  result : TestResult;
  reportPath : string;
  error : option string
}.

Section TestRunner.
Variable W : Type.

(** The collaborators: the YAML file reader, the Playwright page behind
    the adapter, the report writer and the clock. *)
Variable readYaml : string -> M W ScenarioParser.YamlDoc.
Variable pathJoin : string -> string -> string.
Variable initialize : M (Adapter W) unit.
Variable cleanup : M (Adapter W) unit.
Variable pageGoto : string -> M (Adapter W) unit.
Variable waitForAppLoaded : Z -> M (Adapter W) unit.
Variable pageScreenshot : string -> bool -> M (Adapter W) unit.
Variable waitForTimeout : Z -> M (Adapter W) unit.
Variable executeAction : TestRunnerConfig -> ScenarioStep -> M (Adapter W) unit.
Variable checkExpectation : Expectation -> M (Adapter W) ExpectationResult.
Variable ensureDir : string -> M (Adapter W) unit.
Variable dateNow : W -> Z * W.
Variable isoNow : W -> string * W.
Variable generateTestResultReport : TestResult -> string -> M W string.

(** The clock, read from inside the adapter. *)
Definition onPage {A} (f : W -> A * W) (a : Adapter W) : A * Adapter W :=
  let (x, w) := f (page a) in
  (x, {| page := w; consoleErrors := consoleErrors a; networkErrors := networkErrors a |}).

(** [new PlaywrightAdapter(config)]: a fresh adapter with empty buffers
    around the world, dropped when the computation ends. *)
Definition withAdapter {A} (c : M (Adapter W) A) : M W A :=
  fun w => let (o, a) := c (mkAdapter w [] []) in (o, page a).

Definition createFailedResult (scenarioFile error : string) : W -> TestResult * W :=
  fun w =>
    let (timestamp, w') := isoNow w in
    ({| tr_scenario := Some scenarioFile;
        tr_scenarioFile := scenarioFile;
        tr_status := test_failed;
        tr_duration := 0;
        tr_steps := [];
        tr_screenshots := [];
        tr_consoleErrors := [error];
        tr_networkErrors := [];
        tr_timestamp := timestamp |}, w').

Definition validationMessage (validationErrors : list string) : string :=
  "Validation errors:" ++ nl ++ join nl (map (fun e => "  - " ++ e) validationErrors).

Definition adapterRunScenario (cfg : TestRunnerConfig) :=
  PlaywrightAdapter.runScenario W cfg pageGoto waitForAppLoaded pageScreenshot
    waitForTimeout (executeAction cfg) checkExpectation ensureDir
    (onPage dateNow) (onPage isoNow) pathJoin.

Definition runTestRunner (input : TestRunnerInput) : M W TestRunnerOutput :=
  let scenarioPath := pathJoin (scenariosDir input) (scenarioFile input) in
  parsed <- tryCatch
              (scenario <- ScenarioParser.parseScenarioFile readYaml scenarioPath ;;
               ret (inr scenario))
              (fun error => ret (inl error)) ;;
  match parsed with
  | inl error =>
      failedResult <- total (createFailedResult (scenarioFile input) error) ;;
      ret {| success := false; result := failedResult;
             reportPath := EmptyString; error := Some error |}
  | inr scenario =>
      let validationErrors := ScenarioParser.validateScenario scenario in
      if (0 <? length validationErrors)%nat then
        let error := validationMessage validationErrors in
        failedResult <- total (createFailedResult (scenarioFile input) error) ;;
        ret {| success := false; result := failedResult;
               reportPath := EmptyString; error := Some error |}
      else
        result <-
          withAdapter
            (r <- tryCatch
                    (initialize ;;;
                     let scenarioScreenshotDir :=
                       pathJoin (screenshotDir input)
                                (replaceFirst (scenarioFile input) ".yaml" EmptyString) in
                     adapterRunScenario (config input) scenario (scenarioFile input)
                                        scenarioScreenshotDir)
                    (fun error =>
                       total (onPage (createFailedResult (scenarioFile input) error))) ;;
             cleanup ;;;
             ret r) ;;
        reportPath <- generateTestResultReport result (reportsDir input) ;;
        ret {| success := TestStatus_eqb (tr_status result) test_passed;
               result := result; reportPath := reportPath; error := None |}
  end.

(** The scenario file of the input fails to load: parsing throws [msg], or
    the parsed scenario has validation errors that render as [msg]. *)
Definition loadFails (input : TestRunnerInput) (w : W) (msg : string) : Prop :=
  (exists w1,
     ScenarioParser.parseScenarioFile readYaml
       (pathJoin (scenariosDir input) (scenarioFile input)) w = (Threw msg, w1)) \/
  (exists scenario w1,
     ScenarioParser.parseScenarioFile readYaml
       (pathJoin (scenariosDir input) (scenarioFile input)) w = (Returned scenario, w1) /\
     ScenarioParser.validateScenario scenario <> [] /\
     msg = validationMessage (ScenarioParser.validateScenario scenario)).

Lemma runTestRunner_load_failure input w msg :
  loadFails input w msg ->
  exists timestamp w',
    runTestRunner input w =
      (Returned {| success := false;
                   result := {| tr_scenario := Some (scenarioFile input);
                                tr_scenarioFile := scenarioFile input;
                                tr_status := test_failed;
                                tr_duration := 0;
                                tr_steps := [];
                                tr_screenshots := [];
                                tr_consoleErrors := [msg];
                                tr_networkErrors := [];
                                tr_timestamp := timestamp |};
                   reportPath := EmptyString;
                   error := Some msg |}, w').
Proof.
  intros [(w1 & P) | (scenario & w1 & P & V & E)].
  - unfold runTestRunner, bind at 1, tryCatch, bind at 1. rewrite P.
    unfold ret at 1, bind at 1, total, createFailedResult.
    destruct (isoNow w1) as [ts w2]. now exists ts, w2.
  - unfold runTestRunner, bind at 1, tryCatch, bind at 1. rewrite P.
    unfold ret at 1.
    destruct (ScenarioParser.validateScenario scenario) as [|e errs] eqn:VE;
      [contradiction|].
    cbv beta iota. change (0 <? length (e :: errs))%nat with true. cbv iota.
    unfold bind at 1, total, createFailedResult.
    destruct (isoNow w1) as [ts w2]. subst msg. now exists ts, w2.
Qed.

(** Every result the runner hands back names the scenario file it was
    asked to run, and [success] says whether that result passed. *)
Lemma runTestRunner_contract input w out w' :
  runTestRunner input w = (Returned out, w') ->
  tr_scenarioFile (result out) = scenarioFile input /\
  (success out = true <-> tr_status (result out) = test_passed).
Proof.
  unfold runTestRunner. intros Run.
  apply bind_Returned in Run. destruct Run as (parsed & w1 & _ & Run).
  destruct parsed as [error | scenario].
  - apply bind_Returned in Run. destruct Run as (r & w2 & F & Run).
    inversion Run; subst; simpl.
    unfold total, createFailedResult in F. destruct (isoNow w1).
    inversion F; subst; simpl. split; [reflexivity | split; discriminate].
  - destruct (0 <? length (ScenarioParser.validateScenario scenario))%nat.
    + apply bind_Returned in Run. destruct Run as (r & w2 & F & Run).
      inversion Run; subst; simpl.
      unfold total, createFailedResult in F. destruct (isoNow w1).
      inversion F; subst; simpl. split; [reflexivity | split; discriminate].
    + apply bind_Returned in Run. destruct Run as (r & w2 & A & Run).
      apply bind_Returned in Run. destruct Run as (p & w3 & _ & Run).
      inversion Run; subst; simpl. split; [|apply TestStatus_eqb_eq].
      unfold withAdapter in A.
      destruct (bind _ _ (mkAdapter w1 [] [])) as [o a2] eqn:B.
      inversion A; subst o w2. clear A.
      apply bind_Returned in B. destruct B as (r0 & a1 & T & B).
      apply bind_Returned in B. destruct B as (? & ? & _ & B).
      inversion B; subst r0. clear B.
      unfold tryCatch in T.
      destruct (bind initialize _ (mkAdapter w1 [] [])) as [[r1|m] a3] eqn:Body.
      * inversion T; subst r1 a3.
        apply bind_Returned in Body. destruct Body as (? & ? & _ & Body).
        apply runScenario_steps in Body.
        destruct Body as (? & ? & ? & _ & _ & _ & Hf & _). exact Hf.
      * unfold total, onPage, createFailedResult in T.
        destruct (isoNow (page a3)). inversion T; subst. reflexivity.
Qed.

End TestRunner.

(** C10. When the scenario file fails to parse or to validate,
    [runTestRunner] does not throw: it returns success = false with a
    synthetic TestResult of status failed, no steps, duration 0,
    consoleErrors holding exactly the error message and networkErrors
    empty, so that no StepResult of it has status failed. *)
Theorem runTestRunner_synthetic_failure
    (W : Type) readYaml pathJoin initialize cleanup pageGoto waitForAppLoaded
    pageScreenshot waitForTimeout executeAction checkExpectation ensureDir
    dateNow isoNow generateTestResultReport
    (input : TestRunnerInput) (w : W) (msg : string) :
  loadFails W readYaml pathJoin input w msg ->
  exists out w',
    runTestRunner W readYaml pathJoin initialize cleanup pageGoto waitForAppLoaded
      pageScreenshot waitForTimeout executeAction checkExpectation ensureDir
      dateNow isoNow generateTestResultReport input w = (Returned out, w') /\
    success out = false /\
    tr_status (result out) = test_failed /\
    tr_steps (result out) = [] /\
    tr_duration (result out) = 0%Z /\
    tr_consoleErrors (result out) = [msg] /\
    tr_networkErrors (result out) = [] /\
    ~ exists s, In s (tr_steps (result out)) /\ sr_status s = failed.
Proof.
  intros F.
  destruct (runTestRunner_load_failure W readYaml pathJoin initialize cleanup
              pageGoto waitForAppLoaded pageScreenshot waitForTimeout
              executeAction checkExpectation ensureDir dateNow isoNow
              generateTestResultReport input w msg F) as (ts & w' & Run).
  eexists _, w'. split; [exact Run|]. simpl.
  repeat split; try reflexivity.
  intros (s & [] & _).
Qed.

End TestRunner.

(** ** The regular expressions of the analyzer tables

    The patterns of FAILURE_PATTERNS and FILE_MAPPINGS use literals,
    alternation, capturing groups and the greedy [.+], all under the [i]
    flag; this is a backtracking matcher for that fragment. *)
Module Regex.
Import JS.

Inductive re :=
| Lit (s : string)
| AnyPlus
| Seq (a b : re)
| Alt (a b : re)
| Group (a : re).

(** [s] starts with [p], letters compared without case. *)
Fixpoint startsWithCI (s p : string) {struct p} : bool :=
  match p with
  | EmptyString => true
  | String a p' =>
      match s with
      | EmptyString => false
      | String b s' => Ascii.eqb (lowerAscii a) (lowerAscii b) && startsWithCI s' p'
      end
  end.

(** The dot does not match a line terminator. *)
Definition isLineTerminator (c : ascii) : bool :=
  Ascii.eqb c (ascii_of_nat 10) || Ascii.eqb c (ascii_of_nat 13).

Section Match.
Variable R : Type.

(** Greedy [.*] then the continuation: the longest run first. *)
Fixpoint anyStar (k : string -> option R) (s : string) : option R :=
  match s with
  | EmptyString => k s
  | String c s' =>
      if isLineTerminator c then k s
      else match anyStar k s' with
           | Some r => Some r
           | None => k s
           end
  end.

Fixpoint matchAt (r : re) (k : string -> list string -> option R)
    (s : string) (caps : list string) {struct r} : option R :=
  match r with
  | Lit l =>
      if startsWithCI s l then k (slice (String.length l) s) caps else None
  | AnyPlus =>
      match s with
      | EmptyString => None
      | String c s' =>
          if isLineTerminator c then None else anyStar (fun rest => k rest caps) s'
      end
  | Seq a b => matchAt a (fun s' caps' => matchAt b k s' caps') s caps
  | Alt a b =>
      match matchAt a k s caps with
      | Some x => Some x
      | None => matchAt b k s caps
      end
  | Group a =>
      matchAt a
        (fun s' caps' =>
           k s' (push caps' (take (String.length s - String.length s') s)))
        s caps
  end.

End Match.

(** [s.match(r)]: the captures of the leftmost match, if any. *)
Fixpoint search (r : re) (s : string) : option (list string) :=
  match matchAt _ r (fun _ caps => Some caps) s [] with
  | Some caps => Some caps
  | None =>
      match s with
      | EmptyString => None
      | String _ s' => search r s'
      end
  end.

(** [r.test(s)] *)
Definition test (r : re) (s : string) : bool :=
  match search r s with Some _ => true | None => false end.

Definition alts (ls : list string) : re :=
  match ls with
  | [] => Lit EmptyString
  | l :: rest => fold_left (fun acc x => Alt acc (Lit x)) rest (Lit l)
  end.

Example search_captures :
  search (Seq (Lit "Expected ") (Seq (Group AnyPlus) (Seq (Lit " but got ") (Group AnyPlus))))
         "Expected a but got b but got c" = Some ["a but got b"; "c"].
Proof. reflexivity. Qed.

End Regex.

(** ** The analyzer agent (e2e/agents/analyzer.ts) *)
Module Analyzer.
Import JS Eff Eff.Notations Types Regex.

Record AnalyzerOutput := mkOutput { analysis : Analysis; reportPath : string }.

Definition capture (m : list string) (i : nat) : string := nth (i - 1) m "undefined".

Definition FAILURE_PATTERNS : list (re * FailureCategory * (list string -> string)) :=
  [ (Seq (Lit "Could not find ")
         (Seq (Alt (Lit "clickable") (Lit "fillable"))
              (Seq (Lit " element: ") (Group AnyPlus))),
     selector,
     fun m => "Element " ++ dq ++ capture m 1 ++ dq
                ++ " not found - selector may be incorrect or element not rendered");
    (Seq (Lit ("Expected " ++ dq)) (Seq (Group AnyPlus) (Lit (dq ++ " to be visible"))),
     selector,
     fun m => "Element " ++ dq ++ capture m 1 ++ dq
                ++ " not visible - may not be rendered or wrong selector");
    (Lit "Timeout",
     timing,
     fun _ => "Operation timed out - async operation may be slow or not completing");
    (Seq (Lit "Expected ")
         (Seq (Alt (Lit "URL") (Lit "url"))
              (Seq (Lit " to ")
                   (Seq (Alt (Lit "be") (Lit "contain"))
                        (Seq (Lit (" " ++ dq))
                             (Seq (Group AnyPlus)
                                  (Seq (Lit (dq ++ " but got " ++ dq))
                                       (Seq (Group AnyPlus) (Lit dq)))))))),
     state,
     fun m => "Navigation issue: expected " ++ dq ++ capture m 1 ++ dq ++ " but at "
                ++ dq ++ capture m 2 ++ dq);
    (Seq (Lit ("Expected input value to be " ++ dq))
         (Seq (Group AnyPlus)
              (Seq (Lit (dq ++ " but got " ++ dq)) (Seq (Group AnyPlus) (Lit dq)))),
     state,
     fun m => "State mismatch: expected " ++ dq ++ capture m 1 ++ dq ++ " but got "
                ++ dq ++ capture m 2 ++ dq);
    (Seq (Lit "Page Error: ") (Group AnyPlus),
     logic,
     fun m => "JavaScript error: " ++ capture m 1);
    (alts ["NetworkError"; "Failed to fetch"; "net::ERR"],
     network,
     fun _ => "Network request failed") ].

Definition FILE_MAPPINGS : list (re * list string) :=
  [ (alts ["template"],
     ["src/pages/TemplatePage.tsx"; "src/components/templates/TemplateForm.tsx";
      "src/components/templates/TemplateList.tsx"]);
    (alts ["workout"; "exercise"; "set"],
     ["src/pages/HomePage.tsx"; "src/components/workout/ExerciseCard.tsx";
      "src/components/workout/ExerciseList.tsx"; "src/stores/workoutStore.ts"]);
    (alts ["history"; "session"],
     ["src/pages/HistoryPage.tsx"; "src/components/history/HistoryList.tsx";
      "src/components/history/SessionDetail.tsx"]);
    (alts ["settings"], ["src/pages/SettingsPage.tsx"]);
    (alts ["button"; "click"; "modal"],
     ["src/components/common/Button.tsx"; "src/components/common/Modal.tsx"]);
    (alts ["input"; "fill"; "form"], ["src/components/common/Input.tsx"]);
    (alts ["navigate"; "url"; "route"], ["src/App.tsx"]) ].

(** The pattern loop of [analyzeError]: the first pattern that matches. *)
Fixpoint matchPatterns (error : string)
    (patterns : list (re * FailureCategory * (list string -> string)))
    : option (FailureCategory * string) :=
  match patterns with
  | [] => None
  | (pattern, category, getMessage) :: rest =>
      match search pattern error with
      | Some m => Some (category, getMessage m)
      | None => matchPatterns error rest
      end
  end.

Definition analyzeError (failedStep : StepResult) (testResult : TestResult)
    : FailureCategory * string :=
  let error := match sr_error failedStep with Some e => e | None => EmptyString end in
  match
    (if (0 <? length (tr_consoleErrors testResult))%nat
     then find (fun e => includes e "Error") (tr_consoleErrors testResult)
     else None)
  with
  | Some jsError => (logic, "JavaScript error: " ++ take 200 jsError)
  | None =>
      match tr_networkErrors testResult with
      | firstNetworkError :: _ => (network, "Network failure: " ++ firstNetworkError)
      | [] =>
          match matchPatterns error FAILURE_PATTERNS with
          | Some found => found
          | None =>
              (selector,
               if truthy error then error
               else "Unknown error - step failed without specific error message")
          end
      end
  end.

Definition actionName (a : ActionType) : string :=
  match a with
  | click => "click" | fill => "fill" | select => "select" | hover => "hover"
  | wait => "wait" | screenshot => "screenshot" | navigate => "navigate"
  end.

Definition firstOr (files : list string) (dflt : string) : string :=
  match files with
  | f :: _ => if truthy f then f else dflt
  | [] => dflt
  end.

Definition generateFixSuggestion (failedStep : StepResult) (category : FailureCategory)
    (rootCause : string) (affectedFiles : list string) : string :=
  match category with
  | selector =>
      "Check and update the selector for " ++ dq ++ undefinedOr (sr_target failedStep) ++ dq
        ++ " in " ++ firstOr affectedFiles "the relevant component"
        ++ ". The element may have a different class, id, or text content. Consider using data-testid attributes for more reliable selectors."
  | timing =>
      "Add explicit wait conditions before the " ++ dq ++ actionName (sr_action failedStep) ++ dq
        ++ " action. The element may be loading asynchronously. Consider using Playwright's auto-waiting features or adding a waitForSelector call."
  | state =>
      "Verify the application state before step " ++ dq ++ undefinedOr (sr_id failedStep) ++ dq
        ++ ". The expected state " ++ dq ++ undefinedOr (sr_expectedValue failedStep) ++ dq
        ++ " doesn't match actual " ++ dq ++ undefinedOr (sr_actualValue failedStep) ++ dq
        ++ ". Check the state management logic in " ++ firstOr affectedFiles "the store/hooks"
        ++ "."
  | logic =>
      "Fix the JavaScript error in " ++ firstOr affectedFiles "the application code" ++ ". "
        ++ rootCause ++ ". Review the component logic and error boundaries."
  | network =>
      "Check the API endpoint and network handling. Ensure the backend is running and the endpoint is accessible. Consider adding error handling for failed requests."
  end.

Definition isSelector (c : FailureCategory) : bool :=
  match c with selector => true | _ => false end.

Definition isLogic (c : FailureCategory) : bool :=
  match c with logic => true | _ => false end.

Definition determineConfidence (category : FailureCategory) (affectedFiles : list string)
    (failedStep : StepResult) : Confidence :=
  let n := length affectedFiles in
  if (0 <? n)%nat && (n <=? 2)%nat
     && ((isSelector category && truthyOpt (sr_target failedStep))
         || (isLogic category
             && match sr_error failedStep with
                | Some e => includes e "Error"
                | None => false
                end))
  then high
  else if (0 <? n)%nat || truthyOpt (sr_error failedStep) then medium
  else low.

Section Analyzer.
Variable W : Type.

(** The file system, the clock and the report writer. *)
Variable existsSync : W -> string -> bool.
Variable pathJoin : string -> string -> string.
Variable isoNow : W -> string * W.
Variable generateAnalysisReport : Analysis -> string -> M W string.

Definition addExisting (w : W) (projectRoot : string) (checkDup : bool)
    (files mapped : list string) : list string :=
  fold_left
    (fun acc file =>
       if existsSync w (pathJoin projectRoot file)
          && negb (checkDup && existsb (String.eqb file) acc)
       then push acc file else acc)
    mapped files.

Definition identifyAffectedFiles (failedStep : StepResult) (projectRoot : string)
    : M W (list string) :=
  match sr_target failedStep, sr_id failedStep with
  | None, _ | _, None => throw "Cannot read properties of undefined (reading 'toLowerCase')"
  | Some target, Some id =>
      w <- get ;;
      let searchTerms := toLowerCase target ++ " " ++ toLowerCase id in
      let files :=
        fold_left
          (fun acc mapping =>
             if test (fst mapping) searchTerms
             then addExisting w projectRoot true acc (snd mapping)
             else acc)
          FILE_MAPPINGS [] in
      let files' :=
        match files with
        | [] => addExisting w projectRoot false [] ["src/App.tsx"; "src/pages/HomePage.tsx"]
        | _ => files
        end in
      ret (firstn 5 files')
  end.

Definition runAnalyzer (testResult : TestResult) (projectRoot reportsDir : string)
    : M W AnalyzerOutput :=
  match find (fun s => StepStatus_eqb (sr_status s) failed) (tr_steps testResult) with
  | None => throw "No failed step found in test result"
  | Some failedStep =>
      let '(category, rootCause) := analyzeError failedStep testResult in
      affectedFiles <- identifyAffectedFiles failedStep projectRoot ;;
      let suggestedFix := generateFixSuggestion failedStep category rootCause affectedFiles in
      let confidence := determineConfidence category affectedFiles failedStep in
      timestamp <- total isoNow ;;
      let analysis :=
        {| an_scenario := tr_scenario testResult;
           an_scenarioFile := tr_scenarioFile testResult;
           an_failedStep :=
             actionName (sr_action failedStep) ++ " on " ++ dq
               ++ undefinedOr (sr_target failedStep) ++ dq;
           an_failedStepId := sr_id failedStep;
           an_rootCause := rootCause;
           an_category := category;
           an_affectedFiles := affectedFiles;
           an_suggestedFix := suggestedFix;
           an_confidence := confidence;
           an_timestamp := timestamp |} in
      reportPath <- generateAnalysisReport analysis reportsDir ;;
      ret {| analysis := analysis; reportPath := reportPath |}
  end.

End Analyzer.

End Analyzer.

(** ** The report generator (e2e/lib/reportGenerator.ts) *)
Module ReportGenerator.
Import JS Eff Eff.Notations Types.

Definition isPassed (r : TestResult) : bool := TestStatus_eqb (tr_status r) test_passed.

(** One turn of the loop that groups the results by scenario file. *)
Definition addResult (scenarioReports : SMap.t ScenarioReport) (result : TestResult)
    : SMap.t ScenarioReport :=
  let key := tr_scenarioFile result in
  let reports1 :=
    if negb (SMap.has scenarioReports key) then
      SMap.set scenarioReports key
        {| rep_name := tr_scenario result; rep_file := tr_scenarioFile result;
           rep_status := test_failed; rep_iterations := 0; rep_results := [];
           rep_analyses := []; rep_fixes := [] |}
    else scenarioReports in
  match SMap.get reports1 key with
  | Some report =>
      SMap.set reports1 key
        {| rep_name := rep_name report; rep_file := rep_file report;
           rep_status := if isPassed result then test_passed else rep_status report;
           rep_iterations := S (rep_iterations report);
           rep_results := push (rep_results report) result;
           rep_analyses := rep_analyses report; rep_fixes := rep_fixes report |}
  | None => reports1
  end.

Definition addAnalysis (scenarioReports : SMap.t ScenarioReport) (a : Analysis)
    : SMap.t ScenarioReport :=
  match SMap.get scenarioReports (an_scenarioFile a) with
  | Some report =>
      SMap.set scenarioReports (an_scenarioFile a)
        {| rep_name := rep_name report; rep_file := rep_file report;
           rep_status := rep_status report; rep_iterations := rep_iterations report;
           rep_results := rep_results report;
           rep_analyses := push (rep_analyses report) a; rep_fixes := rep_fixes report |}
  | None => scenarioReports
  end.

Definition addFix (scenarioReports : SMap.t ScenarioReport) (f : Fix)
    : SMap.t ScenarioReport :=
  match SMap.get scenarioReports (an_scenarioFile (fix_analysis f)) with
  | Some report =>
      SMap.set scenarioReports (an_scenarioFile (fix_analysis f))
        {| rep_name := rep_name report; rep_file := rep_file report;
           rep_status := rep_status report; rep_iterations := rep_iterations report;
           rep_results := rep_results report;
           rep_analyses := rep_analyses report; rep_fixes := push (rep_fixes report) f |}
  | None => scenarioReports
  end.

Definition countStatus (st : TestStatus) (scenarios : list ScenarioReport) : nat :=
  length (filter (fun s => TestStatus_eqb (rep_status s) st) scenarios).

(** The aggregation of [generateFinalReport], between reading the clock
    and writing the files. *)
Definition buildFinalReport (state : OrchestratorState) (endTime : string)
    (duration : Z) : FinalReport :=
  let grouped := fold_left addResult (os_results state) [] in
  let withAnalyses := fold_left addAnalysis (os_analyses state) grouped in
  let withFixes := fold_left addFix (os_fixes state) withAnalyses in
  let scenarios := SMap.values withFixes in
  {| fr_summary :=
       {| totalScenarios := length scenarios;
          sum_passed := countStatus test_passed scenarios;
          sum_failed := countStatus test_failed scenarios;
          sum_iterations := os_iteration state;
          fixesApplied := length (os_fixes state) |};
     fr_scenarios := scenarios;
     fr_fixes := os_fixes state;
     fr_timestamp := endTime;
     fr_duration := duration |}.

Section Generate.
Variable W : Type.

(** The clock, [Date] parsing and the two files written (the JSON report
    and the text summary rendered from it). *)
Variable isoNow : W -> string * W.
Variable dateParse : string -> Z.
Variable writeReportFiles : string -> FinalReport -> M W unit.

Definition generateFinalReport (state : OrchestratorState) (outputDir : string)
    : M W FinalReport :=
  endTime <- total isoNow ;;
  let duration := (dateParse endTime - dateParse (os_startTime state))%Z in
  let finalReport := buildFinalReport state endTime duration in
  writeReportFiles outputDir finalReport ;;;
  ret finalReport.

Lemma generateFinalReport_value state outputDir w report w' :
  generateFinalReport state outputDir w = (Returned report, w') ->
  exists endTime duration, report = buildFinalReport state endTime duration.
Proof.
  unfold generateFinalReport. intros Run.
  apply bind_Returned in Run. destruct Run as (endTime & ? & _ & Run).
  apply bind_Returned in Run. destruct Run as (? & ? & _ & Run).
  inversion Run; subst. eauto.
Qed.

End Generate.

End ReportGenerator.

(** ** The orchestrator agent (e2e/agents/orchestrator.ts) *)
Module Orchestrator.
Import JS Eff Eff.Notations Types.

(** The analyzer configuration is carried but never read. *)
Record AnalyzerConfig := mkAnalyzerConfig { maxSuggestions : nat }.

Record AgentConfig := mkAgentConfig {
  orchestrator : OrchestratorConfig;
  testRunner : TestRunnerConfig;
  analyzer : AnalyzerConfig;
  codingAgent : CodingAgentConfig
}.

Record OrchestratorInput := mkInput {
  scenariosDir : string;
  screenshotDir : string;
  reportsDir : string;
  projectRoot : string;
  config : AgentConfig;
  tags : option (list string)
}.

Record OrchestratorOutput := mkOutput {
  success : bool;
  out_state : OrchestratorState;
  out_codingAgentPrompts : list string
}.

Record CodingAgentInput := mkCodingAgentInput {
  ca_analysis : Analysis;
  ca_projectRoot : string;
  ca_reportsDir : string;
  ca_config : CodingAgentConfig
}.

Record CodingAgentOutput := mkCodingAgentOutput {
  ca_success : bool;
  ca_fix : Fix;
  ca_reportPath : string
}.

(** What [runOrchestrator] mutates: the outside world, its [state] object
    and its list of coding-agent prompts. *)
Record Machine (W : Type) := mkMachine {
  world : W;
  state : OrchestratorState;
  codingAgentPrompts : list string
}.
Arguments mkMachine {W}.
Arguments world {W}.
Arguments state {W}.
Arguments codingAgentPrompts {W}.

Definition defaultConfig : AgentConfig :=
  {| orchestrator := {| maxIterations := 5; parallelScenarios := false;
                        stopOnFirstFailure := false |};
     testRunner := {| baseUrl := "http://localhost:5173"; timeout := 30000;
                      screenshotOnFailure := true; screenshotOnStep := true;
                      video := false |};
     analyzer := {| maxSuggestions := 3 |};
     codingAgent := {| autoApply := true; maxFilesPerFix := 3;
                       validateTypescript := true |} |}.

Section Orchestrator.
Variable W : Type.

(** The agents and libraries the orchestrator dispatches to. *)
Variable ensureDirectories : list string -> M W unit.
Variable loadAllScenarios : string -> M W (SMap.t Scenario).
Variable runTestRunner : TestRunner.TestRunnerInput -> M W TestRunner.TestRunnerOutput.
Variable runAnalyzer : TestResult -> string -> string -> M W Analyzer.AnalyzerOutput.
Variable generateCodingAgentPrompt : Analysis -> string -> M W string.
Variable runCodingAgent : CodingAgentInput -> M W CodingAgentOutput.
Variable generateFinalReport : OrchestratorState -> string -> M W FinalReport.
Variable isoNow : W -> string * W.

Definition onWorld {A} (c : M W A) : M (Machine W) A :=
  zoom world (fun w m => {| world := w; state := state m;
                            codingAgentPrompts := codingAgentPrompts m |}) c.

Definition updState (f : OrchestratorState -> OrchestratorState) : M (Machine W) unit :=
  modify (fun m => {| world := world m; state := f (state m);
                      codingAgentPrompts := codingAgentPrompts m |}).

Definition setScenarios (l : list Scenario) (s : OrchestratorState) :=
  {| os_scenarios := l; os_currentScenario := os_currentScenario s;
     os_iteration := os_iteration s; os_maxIterations := os_maxIterations s;
     os_results := os_results s; os_analyses := os_analyses s; os_fixes := os_fixes s;
     os_status := os_status s; os_startTime := os_startTime s;
     os_endTime := os_endTime s |}.

Definition setCurrentScenario (n : option string) (s : OrchestratorState) :=
  {| os_scenarios := os_scenarios s; os_currentScenario := Some n;
     os_iteration := os_iteration s; os_maxIterations := os_maxIterations s;
     os_results := os_results s; os_analyses := os_analyses s; os_fixes := os_fixes s;
     os_status := os_status s; os_startTime := os_startTime s;
     os_endTime := os_endTime s |}.

Definition setIteration (i : Z) (s : OrchestratorState) :=
  {| os_scenarios := os_scenarios s; os_currentScenario := os_currentScenario s;
     os_iteration := i; os_maxIterations := os_maxIterations s;
     os_results := os_results s; os_analyses := os_analyses s; os_fixes := os_fixes s;
     os_status := os_status s; os_startTime := os_startTime s;
     os_endTime := os_endTime s |}.

Definition pushResult (r : TestResult) (s : OrchestratorState) :=
  {| os_scenarios := os_scenarios s; os_currentScenario := os_currentScenario s;
     os_iteration := os_iteration s; os_maxIterations := os_maxIterations s;
     os_results := push (os_results s) r; os_analyses := os_analyses s;
     os_fixes := os_fixes s;
     os_status := os_status s; os_startTime := os_startTime s;
     os_endTime := os_endTime s |}.

Definition pushAnalysis (a : Analysis) (s : OrchestratorState) :=
  {| os_scenarios := os_scenarios s; os_currentScenario := os_currentScenario s;
     os_iteration := os_iteration s; os_maxIterations := os_maxIterations s;
     os_results := os_results s; os_analyses := push (os_analyses s) a;
     os_fixes := os_fixes s;
     os_status := os_status s; os_startTime := os_startTime s;
     os_endTime := os_endTime s |}.

Definition pushFix (f : Fix) (s : OrchestratorState) :=
  {| os_scenarios := os_scenarios s; os_currentScenario := os_currentScenario s;
     os_iteration := os_iteration s; os_maxIterations := os_maxIterations s;
     os_results := os_results s; os_analyses := os_analyses s;
     os_fixes := push (os_fixes s) f;
     os_status := os_status s; os_startTime := os_startTime s;
     os_endTime := os_endTime s |}.

Definition setStatus (st : OrchestratorStatus) (s : OrchestratorState) :=
  {| os_scenarios := os_scenarios s; os_currentScenario := os_currentScenario s;
     os_iteration := os_iteration s; os_maxIterations := os_maxIterations s;
     os_results := os_results s; os_analyses := os_analyses s; os_fixes := os_fixes s;
     os_status := st; os_startTime := os_startTime s;
     os_endTime := os_endTime s |}.

Definition setEndTime (t : string) (s : OrchestratorState) :=
  {| os_scenarios := os_scenarios s; os_currentScenario := os_currentScenario s;
     os_iteration := os_iteration s; os_maxIterations := os_maxIterations s;
     os_results := os_results s; os_analyses := os_analyses s; os_fixes := os_fixes s;
     os_status := os_status s; os_startTime := os_startTime s;
     os_endTime := Some t |}.

Definition pushPrompt (p : string) : M (Machine W) unit :=
  modify (fun m => {| world := world m; state := state m;
                      codingAgentPrompts := push (codingAgentPrompts m) p |}).

Section Loops.
Variable input : OrchestratorInput.

Definition cfg : OrchestratorConfig := orchestrator (config input).

(** The rest of one turn of the [while] loop after a failed attempt that
    was not the last allowed one: analyze, prompt, fix. *)
Definition analyzeAndFix (testResult : TestRunner.TestRunnerOutput) : M (Machine W) unit :=
  analysisResult <- onWorld (runAnalyzer (TestRunner.result testResult)
                                         (projectRoot input) (reportsDir input)) ;;
  updState (pushAnalysis (Analyzer.analysis analysisResult)) ;;;
  codingPrompt <- onWorld (generateCodingAgentPrompt (Analyzer.analysis analysisResult)
                                                     (projectRoot input)) ;;
  pushPrompt codingPrompt ;;;
  if autoApply (codingAgent (config input)) then
    fixResult <- onWorld (runCodingAgent
                            {| ca_analysis := Analyzer.analysis analysisResult;
                               ca_projectRoot := projectRoot input;
                               ca_reportsDir := reportsDir input;
                               ca_config := codingAgent (config input) |}) ;;
    updState (pushFix (ca_fix fixResult))
  else ret tt.

(** [while (!passed && iteration < maxIterations)], returning the final
    [passed] and [iteration]. Each turn raises [iteration] by one, so
    [maxIterations - iteration] turns are enough; [fuel] counts them. *)
Fixpoint attempts (fuel : nat) (scenarioFile : string) (passed : bool) (iteration : Z)
    : M (Machine W) (bool * Z) :=
  if negb passed && (iteration <? maxIterations cfg)%Z then
    match fuel with
    | O => ret (passed, iteration)
    | S fuel' =>
        let iteration := (iteration + 1)%Z in
        updState (setIteration iteration) ;;;
        testResult <- onWorld (runTestRunner
                                 {| TestRunner.scenarioFile := scenarioFile;
                                    TestRunner.scenariosDir := scenariosDir input;
                                    TestRunner.screenshotDir := screenshotDir input;
                                    TestRunner.reportsDir := reportsDir input;
                                    TestRunner.config := testRunner (config input) |}) ;;
        updState (pushResult (TestRunner.result testResult)) ;;;
        if TestRunner.success testResult then ret (true, iteration)
        else if (iteration >=? maxIterations cfg)%Z then ret (passed, iteration)
        else
          analyzeAndFix testResult ;;;
          if stopOnFirstFailure cfg && negb passed then ret (passed, iteration)
          else attempts fuel' scenarioFile passed iteration
    end
  else ret (passed, iteration).

Definition attemptLoop (scenarioFile : string) : M (Machine W) (bool * Z) :=
  attempts (Z.to_nat (maxIterations cfg)) scenarioFile false 0.

(** [for (const [scenarioFile, scenario] of scenarioMap)] *)
Fixpoint forScenarios (entries : list (string * Scenario)) : M (Machine W) unit :=
  match entries with
  | [] => ret tt
  | (scenarioFile, scenario) :: rest =>
      updState (setCurrentScenario (sc_name scenario)) ;;;
      exit <- attemptLoop scenarioFile ;;
      let passed := fst exit in
      let iteration := snd exit in
      if negb passed then
        updState (setStatus (if (iteration >=? maxIterations cfg)%Z
                             then max_retries else st_failed)) ;;;
        if stopOnFirstFailure cfg then ret tt else forScenarios rest
      else forScenarios rest
  end.

Definition isPassed (r : TestResult) : bool := TestStatus_eqb (tr_status r) test_passed.

Definition isRunning (s : OrchestratorStatus) : bool :=
  match s with running => true | _ => false end.

Definition isStatusPassed (s : OrchestratorStatus) : bool :=
  match s with st_passed => true | _ => false end.

(** "Determine final status" *)
Definition finalStatus (s : OrchestratorState) : OrchestratorState :=
  let allPassed := (0 <? length (os_results s))%nat && forallb isPassed (os_results s) in
  if allPassed then setStatus st_passed s
  else if isRunning (os_status s) then setStatus st_failed s
  else s.

(** The body of [runOrchestrator] once [state] is initialised. *)
Definition orchestrate : M (Machine W) OrchestratorOutput :=
  onWorld (ensureDirectories [screenshotDir input; reportsDir input]) ;;;
  scenarioMap <- onWorld (loadAllScenarios (scenariosDir input)) ;;
  updState (setScenarios (SMap.values scenarioMap)) ;;;
  if (length (SMap.values scenarioMap) =? 0)%nat then
    updState (setStatus st_failed) ;;;
    m <- get ;;
    ret {| success := false; out_state := state m; out_codingAgentPrompts := [] |}
  else
      updState (setStatus running) ;;;
      forScenarios scenarioMap ;;;
      updState finalStatus ;;;
      endTime <- onWorld (total isoNow) ;;
      updState (setEndTime endTime) ;;;
      m <- get ;;
      onWorld (generateFinalReport (state m) (reportsDir input)) ;;;
      m' <- get ;;
      ret {| success := isStatusPassed (os_status (state m'));
             out_state := state m';
             out_codingAgentPrompts := codingAgentPrompts m' |}.

Definition initialState (startTime : string) : OrchestratorState :=
  {| os_scenarios := []; os_currentScenario := None; os_iteration := 0;
     os_maxIterations := maxIterations cfg; os_results := []; os_analyses := [];
     os_fixes := []; os_status := initializing; os_startTime := startTime;
     os_endTime := None |}.

(** The machine on which the body starts: [state] as initialised at the
    top of [runOrchestrator], no prompts yet. *)
Definition start (w : W) : Machine W :=
  let (startTime, w') := isoNow w in
  {| world := w'; state := initialState startTime; codingAgentPrompts := [] |}.

Definition runOrchestrator : M W OrchestratorOutput :=
  fun w => let (o, m) := orchestrate (start w) in (o, world m).

(** *** The retry loop, attempt by attempt *)

(** The runner's contract (met by the test-runner agent): a returned
    result names the scenario file that was asked for, and [success] tells
    whether that result passed. *)
Hypothesis runner_contract :
  forall i w out w',
    runTestRunner i w = (Returned out, w') ->
    tr_scenarioFile (TestRunner.result out) = TestRunner.scenarioFile i /\
    (TestRunner.success out = true <-> tr_status (TestRunner.result out) = test_passed).

Definition notPassed (r : TestResult) : Prop := tr_status r <> test_passed.

Definition attemptsOf (f : string) (results : list TestResult) : nat :=
  length (filter (fun r => String.eqb (tr_scenarioFile r) f) results).

Lemma onWorld_state {A} (c : M W A) m o m' :
  onWorld c m = (o, m') ->
  state m' = state m /\ codingAgentPrompts m' = codingAgentPrompts m.
Proof.
  unfold onWorld, zoom. destruct (c (world m)) as [o' w']. intros E.
  inversion E; subst. split; reflexivity.
Qed.

Lemma analyzeAndFix_keeps testResult m o m' :
  analyzeAndFix testResult m = (o, m') ->
  os_results (state m') = os_results (state m) /\
  os_status (state m') = os_status (state m) /\
  os_iteration (state m') = os_iteration (state m).
Proof.
  unfold analyzeAndFix, bind, updState, pushPrompt, modify, ret. intros Run.
  destruct (onWorld (runAnalyzer _ _ _) m) as [[a|msg] m1] eqn:A;
    apply onWorld_state in A; destruct A as [A _].
  2:{ inversion Run; subst. now rewrite A. }
  destruct (onWorld (generateCodingAgentPrompt _ _) _) as [[p|msg] m2] eqn:P;
    apply onWorld_state in P; destruct P as [P _]; simpl in P.
  2:{ inversion Run; subst. rewrite P, <- A. repeat split. }
  destruct (autoApply (codingAgent (config input))).
  2:{ inversion Run; subst. simpl. rewrite P, <- A. repeat split. }
  destruct (onWorld (runCodingAgent _) _) as [[fx|msg] m3] eqn:F;
    apply onWorld_state in F; destruct F as [F _]; simpl in F.
  - inversion Run; subst. simpl. rewrite F, P, <- A. repeat split.
  - inversion Run; subst. rewrite F, P, <- A. repeat split.
Qed.

(** What one run of the [while] loop for scenario file [f], entered with
    [passed = false] and [iteration = i0], does to the state: it appends
    the results [new]. *)
Definition attemptsPost (f : string) (i0 : Z) (m : Machine W)
    (o : outcome (bool * Z)) (m' : Machine W) (new : list TestResult) : Prop :=
  os_results (state m') = (os_results (state m) ++ new)%list /\
  Forall (fun r => tr_scenarioFile r = f) new /\
  os_status (state m') = os_status (state m) /\
  (length new <= Z.to_nat (maxIterations cfg - i0))%nat /\
  (stopOnFirstFailure cfg = true -> (length new <= 1)%nat) /\
  match o with
  | Returned (p, it) =>
      it = (i0 + Z.of_nat (length new))%Z /\
      os_iteration (state m') = (if (0 <? length new)%nat then it
                                 else os_iteration (state m)) /\
      (p = true ->
       exists l r, new = (l ++ [r])%list /\ tr_status r = test_passed /\
                   Forall notPassed l) /\
      (p = false ->
       Forall notPassed new /\
       ((maxIterations cfg <= it)%Z \/
        (stopOnFirstFailure cfg = true /\ length new = 1%nat)))
  | Threw _ => Forall notPassed new
  end.

Lemma attempts_post f fuel :
  forall i0 m o m',
    (Z.to_nat (maxIterations cfg - i0) <= fuel)%nat ->
    attempts fuel f false i0 m = (o, m') ->
    exists new, attemptsPost f i0 m o m' new.
Proof.
  induction fuel as [|fuel IH]; intros i0 m o m' Fuel Run.
  - (* no turn left: the guard is false *)
    simpl in Run.
    destruct (i0 <? maxIterations cfg)%Z eqn:G; [apply Z.ltb_lt in G; lia|].
    apply Z.ltb_ge in G. simpl in Run. inversion Run; subst.
    exists []. unfold attemptsPost. rewrite app_nil_r. simpl.
    repeat split; auto; try lia.
  - cbn [attempts] in Run.
    destruct (i0 <? maxIterations cfg)%Z eqn:G; cbn [negb andb] in Run.
    2:{ apply Z.ltb_ge in G. inversion Run; subst.
        exists []. unfold attemptsPost. rewrite app_nil_r. simpl.
        repeat split; auto; try lia. }
    apply Z.ltb_lt in G.
    unfold bind at 1, updState at 1, modify in Run.
    unfold bind at 1 in Run.
    match type of Run with
    | context [onWorld ?c ?m1] => destruct (onWorld c m1) as [[out|msg] m2] eqn:T
    end.
    2:{ (* the runner throws *)
        apply onWorld_state in T. destruct T as [T _]. simpl in T.
        inversion Run; subst. exists []. unfold attemptsPost.
        rewrite app_nil_r, T. simpl. repeat split; auto; lia. }
    pose proof T as T'. apply onWorld_state in T'. destruct T' as [T' _]. simpl in T'.
    assert (C : tr_scenarioFile (TestRunner.result out) = f /\
                (TestRunner.success out = true <->
                 tr_status (TestRunner.result out) = test_passed)).
    { unfold onWorld, zoom in T.
      match type of T with
      | context [runTestRunner ?i ?w] =>
          destruct (runTestRunner i w) as [o1 w1] eqn:R
      end.
      inversion T; subst o1. apply runner_contract in R. exact R. }
    destruct C as [Cf Cs].
    unfold bind at 1, updState at 1, modify in Run.
    destruct (TestRunner.success out) eqn:Su.
    + (* the attempt passed *)
      inversion Run; subst. exists [TestRunner.result out]. unfold attemptsPost.
      simpl. rewrite T'. simpl. unfold push.
      repeat split; auto; try lia; try discriminate.
      intros _. exists [], (TestRunner.result out).
      repeat split; [now apply Cs | constructor].
    + assert (NP : notPassed (TestRunner.result out)).
      { unfold notPassed. intros P. apply Cs in P. discriminate. }
      destruct (i0 + 1 >=? maxIterations cfg)%Z eqn:Last.
      * (* the last allowed attempt failed *)
        apply Z.geb_le in Last.
        inversion Run; subst. exists [TestRunner.result out]. unfold attemptsPost.
        simpl. rewrite T'. simpl. unfold push.
        repeat split; auto; try lia; try discriminate.
      * rewrite Z.geb_leb in Last. apply Z.leb_gt in Last.
        unfold bind at 1 in Run.
        match type of Run with
        | context [analyzeAndFix ?t ?m3] =>
            destruct (analyzeAndFix t m3) as [[u|msg] m4] eqn:A
        end;
          apply analyzeAndFix_keeps in A; destruct A as (A1 & A2 & A3);
          simpl in A1, A2, A3; rewrite T' in A1, A2, A3; simpl in A1, A2, A3.
        2:{ (* analysis or fix throws *)
            inversion Run; subst. exists [TestRunner.result out]. unfold attemptsPost.
            simpl. rewrite A1, A2. unfold push.
            repeat split; auto; try lia. }
        destruct (stopOnFirstFailure cfg) eqn:Stop; cbn [negb andb] in Run.
        -- (* stop on the first failure *)
           inversion Run; subst. exists [TestRunner.result out]. unfold attemptsPost.
           simpl. rewrite A1, A2, A3. unfold push.
           repeat split; auto; try lia; try discriminate.
        -- (* try again *)
           apply IH in Run; [|lia].
           destruct Run as (new & R1 & R2 & R3 & R4 & _ & R6).
           exists (TestRunner.result out :: new). unfold attemptsPost.
           rewrite R1, A1, R3, A2. unfold push. rewrite <- app_assoc. simpl.
           split; [reflexivity|]. split; [now constructor|]. split; [reflexivity|].
           split; [lia|]. split; [rewrite Stop; discriminate|].
           destruct o as [[p it]|msg]; [|now constructor].
           destruct R6 as (I1 & I2 & I3 & I4).
           split; [lia|]. split.
           ++ rewrite I2, A3. destruct (0 <? length new)%nat eqn:L; [reflexivity|].
              apply Nat.ltb_ge in L. lia.
           ++ split.
              ** intros P. destruct (I3 P) as (l & r & E & Pr & Fl).
                 exists (TestRunner.result out :: l), r. subst new.
                 repeat split; auto.
              ** intros P. destruct (I4 P) as (Fn & [Hm | [Hs _]]).
                 --- split; [now constructor | now left].
                 --- rewrite Stop in Hs. discriminate.
Qed.

(** Fuel beyond [maxIterations - iteration] changes nothing: the loop
    never stops for lack of it. *)
Lemma attempts_fuel_enough f :
  forall fuel1 fuel2 passed i0 m,
    (Z.to_nat (maxIterations cfg - i0) <= fuel1)%nat ->
    (Z.to_nat (maxIterations cfg - i0) <= fuel2)%nat ->
    attempts fuel1 f passed i0 m = attempts fuel2 f passed i0 m.
Proof.
  induction fuel1 as [|fuel1 IH]; intros fuel2 passed i0 m F1 F2.
  - assert (G : (i0 <? maxIterations cfg)%Z = false) by (apply Z.ltb_ge; lia).
    destruct fuel2; cbn [attempts]; rewrite G, andb_false_r; reflexivity.
  - destruct fuel2 as [|fuel2].
    + assert (G : (i0 <? maxIterations cfg)%Z = false) by (apply Z.ltb_ge; lia).
      cbn [attempts]. rewrite G, andb_false_r. reflexivity.
    + cbn [attempts].
      destruct (negb passed && (i0 <? maxIterations cfg)%Z) eqn:G; [|reflexivity].
      apply andb_true_iff in G. destruct G as [_ G]. apply Z.ltb_lt in G.
      unfold bind.
      destruct (updState _ m) as [[u|?] m1]; [|reflexivity].
      destruct (onWorld _ m1) as [[out|?] m2]; [|reflexivity].
      destruct (updState _ m2) as [[u2|?] m3]; [|reflexivity].
      destruct (TestRunner.success out); [reflexivity|].
      destruct (i0 + 1 >=? maxIterations cfg)%Z; [reflexivity|].
      destruct (analyzeAndFix out m3) as [[u3|?] m4]; [|reflexivity].
      destruct (stopOnFirstFailure cfg && negb passed); [reflexivity|].
      apply IH; lia.
Qed.

(** The machine on entering the loop body for a scenario, and on leaving
    it after the scenario did not pass. *)
Definition enter (scenario : Scenario) (m : Machine W) : Machine W :=
  {| world := world m; state := setCurrentScenario (sc_name scenario) (state m);
     codingAgentPrompts := codingAgentPrompts m |}.

Definition mark (iteration : Z) (m : Machine W) : Machine W :=
  {| world := world m;
     state := setStatus (if (iteration >=? maxIterations cfg)%Z
                         then max_retries else st_failed) (state m);
     codingAgentPrompts := codingAgentPrompts m |}.

(** Case analysis of a run of the scenario loop. *)
Lemma forScenarios_cases
    (P : list (string * Scenario) -> Machine W -> outcome unit -> Machine W -> Prop) :
  (forall m, P [] m (Returned tt) m) ->
  (forall f sc rest m msg m1,
     attemptLoop f (enter sc m) = (Threw msg, m1) ->
     P ((f, sc) :: rest) m (Threw msg) m1) ->
  (forall f sc rest m it m1 o m',
     attemptLoop f (enter sc m) = (Returned (true, it), m1) ->
     forScenarios rest m1 = (o, m') -> P rest m1 o m' ->
     P ((f, sc) :: rest) m o m') ->
  (forall f sc rest m it m1,
     attemptLoop f (enter sc m) = (Returned (false, it), m1) ->
     stopOnFirstFailure cfg = true ->
     P ((f, sc) :: rest) m (Returned tt) (mark it m1)) ->
  (forall f sc rest m it m1 o m',
     attemptLoop f (enter sc m) = (Returned (false, it), m1) ->
     stopOnFirstFailure cfg = false ->
     forScenarios rest (mark it m1) = (o, m') -> P rest (mark it m1) o m' ->
     P ((f, sc) :: rest) m o m') ->
  forall entries m o m', forScenarios entries m = (o, m') -> P entries m o m'.
Proof.
  intros Nil Throws Pass Stop Next.
  induction entries as [|[f sc] rest IH]; intros m o m' Run.
  - inversion Run; subst. apply Nil.
  - cbn [forScenarios] in Run.
    unfold bind at 1, updState at 1, modify in Run. fold (enter sc m) in Run.
    unfold bind at 1 in Run.
    destruct (attemptLoop f (enter sc m)) as [[[p it]|msg] m1] eqn:A.
    2:{ inversion Run; subst. now apply Throws. }
    cbn [fst snd] in Run. destruct p; cbn [negb] in Run.
    + eapply Pass; eauto.
    + unfold bind at 1, updState at 1, modify in Run. fold (mark it m1) in Run.
      destruct (stopOnFirstFailure cfg) eqn:S.
      * inversion Run; subst. now apply Stop.
      * eapply Next; eauto.
Qed.

Lemma attemptLoop_post f sc m o m' :
  attemptLoop f (enter sc m) = (o, m') ->
  exists new,
    os_results (state m') = (os_results (state m) ++ new)%list /\
    Forall (fun r => tr_scenarioFile r = f) new /\
    os_status (state m') = os_status (state m) /\
    (length new <= Z.to_nat (maxIterations cfg))%nat /\
    (stopOnFirstFailure cfg = true -> (length new <= 1)%nat) /\
    match o with
    | Returned (p, it) =>
        it = Z.of_nat (length new) /\
        os_iteration (state m') = (if (0 <? length new)%nat then it
                                   else os_iteration (state m)) /\
        (p = true ->
         exists l r, new = (l ++ [r])%list /\ tr_status r = test_passed /\
                     Forall notPassed l) /\
        (p = false ->
         Forall notPassed new /\
         ((maxIterations cfg <= it)%Z \/
          (stopOnFirstFailure cfg = true /\ length new = 1%nat)))
    | Threw _ => Forall notPassed new
    end.
Proof.
  unfold attemptLoop. intros Run.
  apply attempts_post in Run; [|rewrite Z.sub_0_r; lia].
  destruct Run as (new & R). exists new. unfold attemptsPost in R.
  rewrite Z.sub_0_r in R. simpl in R. exact R.
Qed.

(** *** Counting the attempts of a scenario file *)

Lemma attemptsOf_app f a b :
  attemptsOf f (a ++ b) = (attemptsOf f a + attemptsOf f b)%nat.
Proof. unfold attemptsOf. now rewrite filter_app, length_app. Qed.

Lemma attemptsOf_all f l :
  Forall (fun r => tr_scenarioFile r = f) l -> attemptsOf f l = length l.
Proof.
  unfold attemptsOf. induction 1 as [|r l E _ IH]; simpl; [reflexivity|].
  rewrite E, String.eqb_refl. simpl. now rewrite IH.
Qed.

Lemma attemptsOf_none f l :
  Forall (fun r => tr_scenarioFile r <> f) l -> attemptsOf f l = 0%nat.
Proof.
  unfold attemptsOf. induction 1 as [|r l E _ IH]; simpl; [reflexivity|].
  apply String.eqb_neq in E. now rewrite E.
Qed.

Lemma attemptsOf_le f l : (attemptsOf f l <= length l)%nat.
Proof. unfold attemptsOf. apply filter_length_le. Qed.

Lemma attemptsOf_pos f l :
  (0 < attemptsOf f l)%nat -> exists r, In r l /\ tr_scenarioFile r = f.
Proof.
  unfold attemptsOf. intros H.
  destruct (filter _ l) as [|r rest] eqn:F; [simpl in H; lia|].
  assert (I : In r (filter (fun r => String.eqb (tr_scenarioFile r) f) l))
    by (rewrite F; now left).
  apply filter_In in I. destruct I as [I E]. apply String.eqb_eq in E. eauto.
Qed.

Lemma other_file f g l :
  Forall (fun r => tr_scenarioFile r = f) l -> f <> g ->
  Forall (fun r => tr_scenarioFile r <> g) l.
Proof. intros H N. eapply Forall_impl; [|exact H]. simpl. intros r E. congruence. Qed.

Lemma files_elsewhere f keys l :
  Forall (fun r => In (tr_scenarioFile r) keys) l -> ~ In f keys ->
  Forall (fun r => tr_scenarioFile r <> f) l.
Proof.
  intros H N. eapply Forall_impl; [|exact H]. simpl. intros r I E.
  apply N. now rewrite <- E.
Qed.

Lemma snoc_cases {A} (l : list A) : l = [] \/ exists pre x, l = (pre ++ [x])%list.
Proof.
  destruct l as [|a l]; [now left | right].
  destruct (exists_last (l := a :: l)) as (pre & x & E); [discriminate | eauto].
Qed.

Lemma app_snoc_split {A} (a b pre : list A) x :
  (a ++ b = pre ++ [x])%list ->
  (b = [] /\ a = (pre ++ [x])%list) \/
  (exists pre', b = (pre' ++ [x])%list /\ pre = (a ++ pre')%list).
Proof.
  intros E. destruct (snoc_cases b) as [-> | (pre' & y & ->)].
  - left. rewrite app_nil_r in E. now split.
  - right. rewrite app_assoc in E. apply app_inj_tail in E.
    destruct E as [E1 E2]. subst. eauto.
Qed.

(** *** The scenario loop *)

Definition hasPassed (r : TestResult) : Prop := tr_status r = test_passed.

(** What a run of the scenario loop over [entries] does to the state: it
    appends the results [new]. *)
Definition forPost (entries : list (string * Scenario)) (m : Machine W)
    (o : outcome unit) (m' : Machine W) (new : list TestResult) : Prop :=
  os_results (state m') = (os_results (state m) ++ new)%list /\
  Forall (fun r => In (tr_scenarioFile r) (map fst entries)) new /\
  (forall f, (attemptsOf f new <= Z.to_nat (maxIterations cfg))%nat) /\
  (stopOnFirstFailure cfg = true ->
   exists passes tail,
     new = (passes ++ tail)%list /\ Forall hasPassed passes /\
     (tail = [] \/ exists r, tail = [r] /\ notPassed r)) /\
  match o with
  | Threw _ => True
  | Returned _ =>
      (new = [] -> os_iteration (state m') = os_iteration (state m)) /\
      (forall pre r, new = (pre ++ [r])%list ->
         os_iteration (state m') = Z.of_nat (attemptsOf (tr_scenarioFile r) new)) /\
      (stopOnFirstFailure cfg = false ->
         os_status (state m') = os_status (state m) \/
         os_status (state m') = max_retries) /\
      ((1 <= maxIterations cfg)%Z ->
       forall f, attemptsOf f new = Z.to_nat (maxIterations cfg) ->
                 (forall r, In r new -> tr_scenarioFile r = f -> notPassed r) ->
                 os_status (state m') = max_retries)
  end.

Lemma one_scenario_post new0 :
  (length new0 <= Z.to_nat (maxIterations cfg))%nat ->
  Forall notPassed new0 ->
  (stopOnFirstFailure cfg = true -> (length new0 <= 1)%nat) ->
  (forall f', (attemptsOf f' new0 <= Z.to_nat (maxIterations cfg))%nat) /\
  (stopOnFirstFailure cfg = true ->
   exists passes tail,
     new0 = (passes ++ tail)%list /\ Forall hasPassed passes /\
     (tail = [] \/ exists r, tail = [r] /\ notPassed r)).
Proof.
  intros Len NP S1. split.
  - intros f'. pose proof (attemptsOf_le f' new0). lia.
  - intros S. specialize (S1 S). exists [], new0. split; [reflexivity|].
    split; [constructor|].
    destruct new0 as [|r [|r' l]]; [now left | right | simpl in S1; lia].
    exists r. split; [reflexivity|]. now inversion NP.
Qed.

Lemma forScenarios_post entries m o m' :
  forScenarios entries m = (o, m') ->
  NoDup (map fst entries) ->
  exists new, forPost entries m o m' new.
Proof.
  revert entries m o m'.
  apply (forScenarios_cases
           (fun entries m o m' =>
              NoDup (map fst entries) -> exists new, forPost entries m o m' new)).
  - (* no scenario left *)
    intros m _. exists []. unfold forPost. rewrite app_nil_r.
    split; [reflexivity|]. split; [constructor|]. split; [intros; unfold attemptsOf; simpl; lia|].
    split; [intros _; exists [], []; repeat split; auto|].
    split; [reflexivity|]. split.
    + intros pre r E. destruct pre; discriminate.
    + split; [now left|]. intros M f C _. unfold attemptsOf in C. simpl in C. lia.
  - (* the attempt loop throws *)
    intros f sc rest m msg m1 A _.
    apply attemptLoop_post in A.
    destruct A as (new0 & R & Fl & St & Len & S1 & NP).
    destruct (one_scenario_post new0 Len NP S1) as (B & S5).
    exists new0. unfold forPost. simpl in R.
    split; [exact R|]. split.
    { eapply Forall_impl; [|exact Fl]. simpl. intros r E. now left. }
    split; [exact B|]. split; [exact S5 | exact I].
  - (* the scenario passed *)
    intros f sc rest m it m1 o m' A _ IH ND.
    apply attemptLoop_post in A.
    destruct A as (new0 & R & Fl & St & Len & S1 & It & Iter & Ptrue & _).
    destruct (Ptrue eq_refl) as (l & r0 & E0 & P0 & NPl). subst new0.
    simpl in ND. apply NoDup_cons_iff in ND. destruct ND as [NI ND'].
    destruct (IH ND') as (newr & Rr & Kr & Br & S5r & Or).
    simpl in R, St, Iter.
    exists ((l ++ [r0]) ++ newr)%list. unfold forPost.
    split; [rewrite Rr, R; symmetry; apply app_assoc|].
    split.
    { apply Forall_app. split.
      - eapply Forall_impl; [|exact Fl]. simpl. intros r E. now left.
      - eapply Forall_impl; [|exact Kr]. simpl. intros r E. now right. }
    split.
    { intros f'. rewrite attemptsOf_app. destruct (string_dec f f') as [<-|N].
      - rewrite (attemptsOf_none f newr) by (eapply files_elsewhere; eauto).
        pose proof (attemptsOf_le f (l ++ [r0])). lia.
      - rewrite (attemptsOf_none f' (l ++ [r0])) by (eapply other_file; eauto).
        apply Br. }
    split.
    { intros S. specialize (S1 S). rewrite length_app in S1. simpl in S1.
      destruct l; [|simpl in S1; lia].
      destruct (S5r S) as (passes & tail & En & Fp & T).
      exists (r0 :: passes), tail. subst newr. split; [reflexivity|].
      split; [now constructor | exact T]. }
    destruct o as [u|]; [|exact I].
    destruct Or as (Ie & Il & St2 & Exh).
    assert (Len0 : (0 <? length (l ++ [r0]))%nat = true).
    { apply Nat.ltb_lt. rewrite length_app. simpl. lia. }
    rewrite Len0 in Iter.
    split.
    { intros E. destruct l; discriminate. }
    split.
    { intros pre r E. apply app_snoc_split in E.
      destruct E as [[-> E] | (pre' & -> & ->)].
      - rewrite app_nil_r, (Ie eq_refl), Iter, It.
        assert (Fr : tr_scenarioFile r = f).
        { rewrite Forall_forall in Fl. apply Fl. rewrite E.
          apply in_or_app. right. now left. }
        rewrite Fr. now rewrite (attemptsOf_all f _ Fl).
      - rewrite (Il pre' r eq_refl), (attemptsOf_app _ (l ++ [r0]) (pre' ++ [r])).
        assert (Fr : tr_scenarioFile r <> f).
        { rewrite Forall_forall in Kr. intros Ef. apply NI. rewrite <- Ef.
          apply Kr. apply in_or_app. right. now left. }
        rewrite (attemptsOf_none _ (l ++ [r0]));
          [reflexivity | eapply other_file; eauto]. }
    split.
    { intros S. destruct (St2 S) as [H|H]; [left; congruence | now right]. }
    intros M f' C NoP. destruct (string_dec f f') as [<-|N].
    + exfalso. apply (NoP r0); [| |exact P0].
      * apply in_or_app. left. apply in_or_app. right. now left.
      * rewrite Forall_forall in Fl. apply Fl. apply in_or_app. right. now left.
    + apply (Exh M f').
      * rewrite attemptsOf_app in C.
        rewrite (attemptsOf_none f' (l ++ [r0])) in C by (eapply other_file; eauto).
        exact C.
      * intros r Ir. apply NoP. apply in_or_app. now right.
  - (* the scenario did not pass and the batch stops *)
    intros f sc rest m it m1 A S _.
    apply attemptLoop_post in A.
    destruct A as (new0 & R & Fl & St & Len & S1 & It & Iter & _ & Pfalse).
    destruct (Pfalse eq_refl) as (NP & Why).
    destruct (one_scenario_post new0 Len NP S1) as (B & S5).
    simpl in R, St, Iter.
    exists new0. unfold forPost. simpl.
    split; [exact R|]. split.
    { eapply Forall_impl; [|exact Fl]. simpl. intros r E. now left. }
    split; [exact B|]. split; [exact S5|].
    split.
    { intros ->. exact Iter. }
    split.
    { intros pre r E.
      assert (L : (0 <? length new0)%nat = true).
      { apply Nat.ltb_lt. rewrite E, length_app. simpl. lia. }
      rewrite L in Iter. rewrite Iter, It.
      assert (Fr : tr_scenarioFile r = f).
      { rewrite Forall_forall in Fl. apply Fl. rewrite E.
        apply in_or_app. right. now left. }
      rewrite Fr. now rewrite (attemptsOf_all f _ Fl). }
    split; [intros S'; congruence|].
    intros M f' C NoP.
    assert (Ef : f' = f).
    { destruct (attemptsOf_pos f' new0) as (r & Ir & Er); [lia|].
      rewrite Forall_forall in Fl. rewrite <- Er. now apply Fl. }
    subst f'. rewrite (attemptsOf_all f _ Fl) in C.
    assert (G : (it >=? maxIterations cfg)%Z = true) by (apply Z.geb_le; lia).
    now rewrite G.
  - (* the scenario did not pass and the batch goes on *)
    intros f sc rest m it m1 o m' A S _ IH ND.
    apply attemptLoop_post in A.
    destruct A as (new0 & R & Fl & St & Len & S1 & It & Iter & _ & Pfalse).
    destruct (Pfalse eq_refl) as (NP & Why).
    assert (Max : (maxIterations cfg <= it)%Z).
    { destruct Why as [H | [H _]]; [exact H | congruence]. }
    assert (G : (it >=? maxIterations cfg)%Z = true) by (apply Z.geb_le; lia).
    simpl in ND. apply NoDup_cons_iff in ND. destruct ND as [NI ND'].
    destruct (IH ND') as (newr & Rr & Kr & Br & S5r & Or).
    simpl in R, St, Iter, Rr.
    exists (new0 ++ newr)%list. unfold forPost.
    split; [rewrite Rr, R; symmetry; apply app_assoc|].
    split.
    { apply Forall_app. split.
      - eapply Forall_impl; [|exact Fl]. simpl. intros r E. now left.
      - eapply Forall_impl; [|exact Kr]. simpl. intros r E. now right. }
    split.
    { intros f'. rewrite attemptsOf_app. destruct (string_dec f f') as [<-|N].
      - rewrite (attemptsOf_none f newr) by (eapply files_elsewhere; eauto).
        pose proof (attemptsOf_le f new0). lia.
      - rewrite (attemptsOf_none f' new0) by (eapply other_file; eauto).
        apply Br. }
    split; [intros S'; congruence|].
    destruct o as [u|]; [|exact I].
    destruct Or as (Ie & Il & St2 & Exh). simpl in Ie, Il, St2.
    rewrite G in St2. simpl in St2.
    split.
    { intros E. apply app_eq_nil in E. destruct E as [-> ->].
      rewrite (Ie eq_refl). exact Iter. }
    split.
    { intros pre r E. apply app_snoc_split in E.
      destruct E as [[-> E] | (pre' & -> & ->)].
      - rewrite app_nil_r, (Ie eq_refl).
        assert (L : (0 <? length new0)%nat = true).
        { apply Nat.ltb_lt. rewrite E, length_app. simpl. lia. }
        rewrite L in Iter. rewrite Iter, It.
        assert (Fr : tr_scenarioFile r = f).
        { rewrite Forall_forall in Fl. apply Fl. rewrite E.
          apply in_or_app. right. now left. }
        rewrite Fr. now rewrite (attemptsOf_all f _ Fl).
      - rewrite (Il pre' r eq_refl), (attemptsOf_app _ new0 (pre' ++ [r])).
        assert (Fr : tr_scenarioFile r <> f).
        { rewrite Forall_forall in Kr. intros Ef. apply NI. rewrite <- Ef.
          apply Kr. apply in_or_app. right. now left. }
        rewrite (attemptsOf_none _ new0);
          [reflexivity | eapply other_file; eauto]. }
    split.
    { intros _. right. destruct (St2 S) as [H|H]; exact H. }
    intros _ f' _ _. destruct (St2 S) as [H|H]; exact H.
Qed.

(** *** The whole run *)

(** The loader's contract (met by the scenario parser): the mapping it
    returns has each file once. *)
Hypothesis loader_contract :
  forall dir w scenarios w',
    loadAllScenarios dir w = (Returned scenarios, w') -> NoDup (SMap.keys scenarios).

Lemma isPassed_iff r : isPassed r = true <-> hasPassed r.
Proof. apply TestStatus_eqb_eq. Qed.

Lemma allPassed_false results r :
  In r results -> notPassed r ->
  (0 <? length results)%nat && forallb isPassed results = false.
Proof.
  intros I NP. apply andb_false_iff. right.
  destruct (forallb isPassed results) eqn:F; [|reflexivity].
  rewrite forallb_forall in F. apply F, isPassed_iff in I. contradiction.
Qed.

(** What a run of the orchestrator's body does to the state: it appends
    the results [new]. *)
Definition runPost (m : Machine W) (o : outcome OrchestratorOutput) (m' : Machine W)
    (new : list TestResult) : Prop :=
  os_results (state m') = (os_results (state m) ++ new)%list /\
  (forall f, (attemptsOf f new <= Z.to_nat (maxIterations cfg))%nat) /\
  (stopOnFirstFailure cfg = true ->
   exists passes tail,
     new = (passes ++ tail)%list /\ Forall hasPassed passes /\
     (tail = [] \/ exists r, tail = [r] /\ notPassed r)) /\
  match o with
  | Threw _ => True
  | Returned out =>
      out_state out = state m' /\
      success out = isStatusPassed (os_status (state m')) /\
      (new = [] -> os_iteration (state m') = os_iteration (state m)) /\
      (forall pre r, new = (pre ++ [r])%list ->
         os_iteration (state m') = Z.of_nat (attemptsOf (tr_scenarioFile r) new)) /\
      ((1 <= maxIterations cfg)%Z ->
       forall f, attemptsOf f new = Z.to_nat (maxIterations cfg) ->
                 (forall r, In r new -> tr_scenarioFile r = f -> notPassed r) ->
                 os_status (state m') = max_retries)
  end.

Lemma finalStatus_keeps s :
  os_results (finalStatus s) = os_results s /\
  os_iteration (finalStatus s) = os_iteration s.
Proof.
  unfold finalStatus.
  destruct ((0 <? length (os_results s))%nat && forallb isPassed (os_results s));
    [split; reflexivity|].
  destruct (isRunning (os_status s)); split; reflexivity.
Qed.

Lemma orchestrate_post m o m' :
  orchestrate m = (o, m') -> exists new, runPost m o m' new.
Proof.
  unfold orchestrate. intros Run.
  assert (Empty : forall m1 : Machine W,
             os_results (state m1) = os_results (state m) ->
             os_results (state m1) = (os_results (state m) ++ [])%list /\
             (forall f, (attemptsOf f [] <= Z.to_nat (maxIterations cfg))%nat) /\
             (stopOnFirstFailure cfg = true ->
              exists passes tail,
                @nil TestResult = (passes ++ tail)%list /\ Forall hasPassed passes /\
                (tail = [] \/ exists r, tail = [r] /\ notPassed r))).
  { intros m1 E. rewrite app_nil_r. split; [exact E|].
    split; [intros; unfold attemptsOf; simpl; lia|].
    intros _. exists [], []. repeat split; auto. }
  unfold bind at 1 in Run.
  destruct (onWorld (ensureDirectories _) m) as [[u|msg] m1] eqn:D;
    apply onWorld_state in D; destruct D as [D _].
  2:{ inversion Run; subst. exists []. unfold runPost.
      destruct (Empty m') as (A & B & C); [now rewrite D|].
      exact (conj A (conj B (conj C I))). }
  unfold bind at 1 in Run.
  destruct (onWorld (loadAllScenarios _) m1) as [[scenarioMap|msg] m2] eqn:L.
  2:{ apply onWorld_state in L. destruct L as [L _].
      inversion Run; subst. exists []. unfold runPost.
      destruct (Empty m') as (A & B & C); [now rewrite L, D|].
      exact (conj A (conj B (conj C I))). }
  assert (ND : NoDup (map fst scenarioMap)).
  { unfold onWorld, zoom in L.
    destruct (loadAllScenarios (scenariosDir input) (world m1)) as [o1 w1] eqn:Ld.
    inversion L; subst o1. apply loader_contract in Ld. exact Ld. }
  apply onWorld_state in L. destruct L as [L _].
  unfold bind at 1, updState at 1, modify in Run.
  destruct (length (SMap.values scenarioMap) =? 0)%nat.
  { (* no scenario found *)
    unfold bind, updState, modify, get, ret in Run. inversion Run; subst.
    exists []. unfold runPost. simpl.
    destruct (Empty m2) as (A & B & C); [now rewrite L, D|].
    rewrite L, D, app_nil_r.
    split; [reflexivity|]. split; [exact B|]. split; [exact C|].
    split; [reflexivity|]. split; [reflexivity|]. split; [reflexivity|].
    split; [intros pre r E; destruct pre; discriminate|].
    intros M f Cn _. unfold attemptsOf in Cn. simpl in Cn. lia. }
  unfold bind at 1, updState at 1, modify in Run.
  unfold bind at 1 in Run.
  match type of Run with
  | context [forScenarios scenarioMap ?m3] =>
      destruct (forScenarios scenarioMap m3) as [[u'|msg] m4] eqn:F;
        apply forScenarios_post in F; [|exact ND | | exact ND];
        destruct F as (new & R & _ & B & S5 & Or); simpl in R; rewrite L, D in R
  end.
  2:{ inversion Run; subst. exists new. unfold runPost.
      exact (conj R (conj B (conj S5 I))). }
  destruct Or as (Ie & Il & _ & Exh). simpl in Ie, Il. rewrite L, D in Ie.
  unfold bind at 1, updState at 1, modify in Run.
  destruct (finalStatus_keeps (state m4)) as [FR FI].
  unfold bind at 1 in Run.
  match type of Run with
  | context [onWorld (total isoNow) ?m5] =>
      destruct (onWorld (total isoNow) m5) as [[endTime|msg] m6] eqn:T;
        apply onWorld_state in T; destruct T as [T _]; simpl in T
  end.
  2:{ inversion Run; subst. exists new. unfold runPost.
      rewrite T, FR. exact (conj R (conj B (conj S5 I))). }
  unfold bind at 1, updState at 1, modify in Run.
  unfold bind at 1, get at 1 in Run.
  unfold bind at 1 in Run.
  match type of Run with
  | context [onWorld ?c ?m7] =>
      destruct (onWorld c m7) as [[report|msg] m8] eqn:G;
        apply onWorld_state in G; destruct G as [G _]; simpl in G
  end.
  2:{ inversion Run; subst. exists new. unfold runPost.
      rewrite G, T. simpl. rewrite FR. exact (conj R (conj B (conj S5 I))). }
  unfold bind, get, ret in Run. inversion Run; subst. clear Run.
  exists new. unfold runPost. simpl. rewrite G, T. simpl. rewrite FR, FI.
  split; [exact R|]. split; [exact B|]. split; [exact S5|].
  split; [reflexivity|]. split; [reflexivity|].
  split; [exact Ie|]. split; [exact Il|].
  intros M f C NoP. specialize (Exh M f C NoP).
  destruct (attemptsOf_pos f new) as (r & Ir & Er); [lia|].
  unfold finalStatus.
  rewrite (allPassed_false (os_results (state m4)) r);
    [| rewrite R; apply in_or_app; now right | now apply NoP].
  rewrite Exh. simpl. exact Exh.
Qed.

(** *** The iteration counter and the status *)

(** The counter set before each call of the runner stays within the bound. *)
Definition iterationWithin (lo : Z) (m m' : Machine W) : Prop :=
  os_iteration (state m') = os_iteration (state m) \/
  (lo < os_iteration (state m') <= maxIterations cfg)%Z.

Lemma attempts_iteration f fuel :
  forall i0 m o m',
    attempts fuel f false i0 m = (o, m') -> iterationWithin i0 m m'.
Proof.
  unfold iterationWithin.
  induction fuel as [|fuel IH]; intros i0 m o m' Run.
  - simpl in Run. destruct (i0 <? maxIterations cfg)%Z; inversion Run; now left.
  - cbn [attempts] in Run.
    destruct (i0 <? maxIterations cfg)%Z eqn:G; cbn [negb andb] in Run;
      [|inversion Run; now left].
    apply Z.ltb_lt in G.
    unfold bind at 1, updState at 1, modify in Run.
    unfold bind at 1 in Run.
    match type of Run with
    | context [onWorld ?c ?m1] =>
        destruct (onWorld c m1) as [[out|msg] m2] eqn:T;
          apply onWorld_state in T; destruct T as [T _]; simpl in T
    end.
    2:{ inversion Run; subst. rewrite T. simpl. right. lia. }
    unfold bind at 1, updState at 1, modify in Run.
    destruct (TestRunner.success out).
    { inversion Run; subst. simpl. rewrite T. simpl. right. lia. }
    destruct (i0 + 1 >=? maxIterations cfg)%Z.
    { inversion Run; subst. simpl. rewrite T. simpl. right. lia. }
    unfold bind at 1 in Run.
    match type of Run with
    | context [analyzeAndFix ?t ?m3] =>
        destruct (analyzeAndFix t m3) as [[u|msg] m4] eqn:A;
          apply analyzeAndFix_keeps in A; destruct A as (_ & _ & A3);
          simpl in A3; rewrite T in A3; simpl in A3
    end.
    2:{ inversion Run; subst. rewrite A3. right. lia. }
    destruct (stopOnFirstFailure cfg); cbn [negb andb] in Run.
    { inversion Run; subst. rewrite A3. right. lia. }
    apply IH in Run. rewrite A3 in Run. right. destruct Run as [H | H]; lia.
Qed.

Lemma forScenarios_iteration entries m o m' :
  forScenarios entries m = (o, m') -> iterationWithin 0 m m'.
Proof.
  revert entries m o m'.
  apply (forScenarios_cases (fun _ m _ m' => iterationWithin 0 m m'));
    unfold iterationWithin, attemptLoop.
  - intros m. now left.
  - intros f sc rest m msg m1 A. now apply attempts_iteration in A.
  - intros f sc rest m it m1 o m' A _ IH. apply attempts_iteration in A.
    unfold iterationWithin in A. simpl in A. destruct IH as [H|H], A as [H'|H']; lia.
  - intros f sc rest m it m1 A _. now apply attempts_iteration in A.
  - intros f sc rest m it m1 o m' A _ _ IH. apply attempts_iteration in A.
    unfold iterationWithin in A. simpl in A, IH.
    destruct IH as [H|H], A as [H'|H']; lia.
Qed.

(** The scenario loop leaves the status alone or sets it to max_retries or
    to failed. *)
Lemma forScenarios_status entries m o m' :
  forScenarios entries m = (o, m') ->
  os_status (state m') = os_status (state m) \/
  os_status (state m') = max_retries \/ os_status (state m') = st_failed.
Proof.
  revert entries m o m'.
  apply (forScenarios_cases
           (fun _ m _ m' =>
              os_status (state m') = os_status (state m) \/
              os_status (state m') = max_retries \/ os_status (state m') = st_failed)).
  - intros m. now left.
  - intros f sc rest m msg m1 A. apply attemptLoop_post in A.
    destruct A as (new & _ & _ & St & _). now left.
  - intros f sc rest m it m1 o m' A _ IH. apply attemptLoop_post in A.
    destruct A as (new & _ & _ & St & _). simpl in St. rewrite <- St. exact IH.
  - intros f sc rest m it m1 _ _. simpl.
    destruct (it >=? maxIterations cfg)%Z; auto.
  - intros f sc rest m it m1 o m' _ _ _ IH. simpl in IH.
    destruct (it >=? maxIterations cfg)%Z; destruct IH as [H | [H | H]]; auto.
Qed.

Lemma allPassed_iff results :
  (0 <? length results)%nat && forallb isPassed results = true <->
  results <> [] /\ Forall hasPassed results.
Proof.
  rewrite andb_true_iff, Nat.ltb_lt, forallb_forall, Forall_forall. split.
  - intros [L F]. split; [destruct results; [simpl in L; lia | discriminate]|].
    intros r I. now apply isPassed_iff, F.
  - intros [N F]. split; [destruct results; [contradiction | simpl; lia]|].
    intros r I. now apply isPassed_iff, F.
Qed.

(** The status and the counter at the end of the body, for a body started
    with the status not yet passed. *)
Lemma orchestrate_status m out m' :
  os_status (state m) <> st_passed ->
  os_results (state m) = [] ->
  orchestrate m = (Returned out, m') ->
  (os_status (out_state out) = st_passed <->
   os_results (out_state out) <> [] /\ Forall hasPassed (os_results (out_state out))).
Proof.
  unfold orchestrate. intros NPs Em Run.
  apply bind_Returned in Run. destruct Run as (? & m1 & D & Run).
  apply onWorld_state in D. destruct D as [D _].
  apply bind_Returned in Run. destruct Run as (scenarioMap & m2 & L & Run).
  apply onWorld_state in L. destruct L as [L _].
  apply bind_Returned in Run. destruct Run as (? & m3 & U & Run).
  unfold updState, modify in U. inversion U; subst m3. clear U.
  destruct (length (SMap.values scenarioMap) =? 0)%nat.
  { unfold bind, updState, modify, get, ret in Run. inversion Run; subst. simpl.
    rewrite L, D, Em. split; [discriminate | intros [N _]; contradiction]. }
  apply bind_Returned in Run. destruct Run as (? & m4 & U & Run).
  unfold updState, modify in U. inversion U; subst m4. clear U.
  apply bind_Returned in Run. destruct Run as (? & m5 & F & Run).
  apply forScenarios_status in F. simpl in F.
  apply bind_Returned in Run. destruct Run as (? & m6 & U & Run).
  unfold updState, modify in U. inversion U; subst m6. clear U.
  apply bind_Returned in Run. destruct Run as (endTime & m7 & T & Run).
  apply onWorld_state in T. destruct T as [T _]. simpl in T.
  apply bind_Returned in Run. destruct Run as (? & m8 & U & Run).
  unfold updState, modify in U. inversion U; subst m8. clear U.
  apply bind_Returned in Run. destruct Run as (? & m9 & U & Run).
  unfold get in U. inversion U; subst. clear U.
  apply bind_Returned in Run. destruct Run as (? & m10 & G & Run).
  apply onWorld_state in G. destruct G as [G _]. simpl in G.
  unfold bind, get, ret in Run. inversion Run; subst. clear Run. simpl.
  rewrite G, T. simpl.
  destruct (finalStatus_keeps (state m5)) as [FR _]. rewrite FR.
  rewrite <- allPassed_iff. unfold finalStatus.
  destruct ((0 <? length (os_results (state m5)))%nat
            && forallb isPassed (os_results (state m5))) eqn:A.
  - simpl. split; reflexivity.
  - split; [|discriminate]. intros H. exfalso.
    destruct F as [F | [F | F]]; rewrite F in H; simpl in H;
      rewrite ?F in H; discriminate.
Qed.

Lemma orchestrate_iteration m o m' :
  orchestrate m = (o, m') -> iterationWithin 0 m m'.
Proof.
  unfold orchestrate, iterationWithin. intros Run.
  unfold bind at 1 in Run.
  destruct (onWorld (ensureDirectories _) m) as [[u|msg] m1] eqn:D;
    apply onWorld_state in D; destruct D as [D _].
  2:{ inversion Run; subst. left. now rewrite D. }
  unfold bind at 1 in Run.
  destruct (onWorld (loadAllScenarios _) m1) as [[scenarioMap|msg] m2] eqn:L;
    apply onWorld_state in L; destruct L as [L _].
  2:{ inversion Run; subst. left. now rewrite L, D. }
  unfold bind at 1, updState at 1, modify in Run.
  destruct (length (SMap.values scenarioMap) =? 0)%nat.
  { unfold bind, updState, modify, get, ret in Run. inversion Run; subst.
    left. simpl. now rewrite L, D. }
  unfold bind at 1, updState at 1, modify in Run.
  unfold bind at 1 in Run.
  match type of Run with
  | context [forScenarios scenarioMap ?m3] =>
      destruct (forScenarios scenarioMap m3) as [[u'|msg] m4] eqn:F;
        apply forScenarios_iteration in F; unfold iterationWithin in F;
        simpl in F; rewrite L, D in F
  end.
  2:{ inversion Run; subst. exact F. }
  unfold bind at 1, updState at 1, modify in Run.
  destruct (finalStatus_keeps (state m4)) as [_ FI].
  unfold bind at 1 in Run.
  match type of Run with
  | context [onWorld (total isoNow) ?m5] =>
      destruct (onWorld (total isoNow) m5) as [[endTime|msg] m6] eqn:T;
        apply onWorld_state in T; destruct T as [T _]; simpl in T
  end.
  2:{ inversion Run; subst. rewrite T, FI. exact F. }
  unfold bind at 1, updState at 1, modify in Run.
  unfold bind at 1, get at 1 in Run.
  unfold bind at 1 in Run.
  match type of Run with
  | context [onWorld ?c ?m7] =>
      destruct (onWorld c m7) as [[report|msg] m8] eqn:G;
        apply onWorld_state in G; destruct G as [G _]; simpl in G
  end.
  2:{ inversion Run; subst. rewrite G, T. simpl. rewrite FI. exact F. }
  unfold bind, get, ret in Run. inversion Run; subst.
  rewrite G, T. simpl. rewrite FI. exact F.
Qed.

End Loops.

End Orchestrator.

End Orchestrator.

(** ** The harness assembled: the agents plugged into the orchestrator *)
Module Harness.
Import JS Eff Eff.Notations Types.

(** The external collaborators of the whole harness over a world [W]: the
    file system and YAML library, the Playwright page, the clock, the
    report writers and the coding agent (the fix applier). *)
Record Env (W : Type) := mkEnv {
  readYaml : string -> M W ScenarioParser.YamlDoc;
  readdirSync : string -> M W (list string);
  pathJoin : string -> string -> string;
  existsSync : W -> string -> bool;
  ensureDirectories : list string -> M W unit;
  initialize : M (PlaywrightAdapter.Adapter W) unit;
  cleanup : M (PlaywrightAdapter.Adapter W) unit;
  pageGoto : string -> M (PlaywrightAdapter.Adapter W) unit;
  waitForAppLoaded : Z -> M (PlaywrightAdapter.Adapter W) unit;
  pageScreenshot : string -> bool -> M (PlaywrightAdapter.Adapter W) unit;
  waitForTimeout : Z -> M (PlaywrightAdapter.Adapter W) unit;
  executeAction : TestRunnerConfig -> ScenarioStep -> M (PlaywrightAdapter.Adapter W) unit;
  checkExpectation : Expectation ->
                     M (PlaywrightAdapter.Adapter W) PlaywrightAdapter.ExpectationResult;
  ensureDir : string -> M (PlaywrightAdapter.Adapter W) unit;
  dateNow : W -> Z * W;
  isoNow : W -> string * W;
  dateParse : string -> Z;
  generateTestResultReport : TestResult -> string -> M W string;
  generateAnalysisReport : Analysis -> string -> M W string;
  writeReportFiles : string -> FinalReport -> M W unit;
  generateCodingAgentPrompt : Analysis -> string -> M W string;
  runCodingAgent : Orchestrator.CodingAgentInput -> M W Orchestrator.CodingAgentOutput
}.
Arguments readYaml {W}.
Arguments readdirSync {W}.
Arguments pathJoin {W}.
Arguments existsSync {W}.
Arguments ensureDirectories {W}.
Arguments initialize {W}.
Arguments cleanup {W}.
Arguments pageGoto {W}.
Arguments waitForAppLoaded {W}.
Arguments pageScreenshot {W}.
Arguments waitForTimeout {W}.
Arguments executeAction {W}.
Arguments checkExpectation {W}.
Arguments ensureDir {W}.
Arguments dateNow {W}.
Arguments isoNow {W}.
Arguments dateParse {W}.
Arguments generateTestResultReport {W}.
Arguments generateAnalysisReport {W}.
Arguments writeReportFiles {W}.
Arguments generateCodingAgentPrompt {W}.
Arguments runCodingAgent {W}.

Section Assembled.
Context {W : Type} (env : Env W).

Definition loadAllScenarios : string -> M W (SMap.t Scenario) :=
  ScenarioParser.loadAllScenarios (readYaml env) (readdirSync env) (pathJoin env).

Definition runTestRunner : TestRunner.TestRunnerInput -> M W TestRunner.TestRunnerOutput :=
  TestRunner.runTestRunner W (readYaml env) (pathJoin env) (initialize env) (cleanup env)
    (pageGoto env) (waitForAppLoaded env) (pageScreenshot env) (waitForTimeout env)
    (executeAction env) (checkExpectation env) (ensureDir env) (dateNow env) (isoNow env)
    (generateTestResultReport env).

Definition runAnalyzer : TestResult -> string -> string -> M W Analyzer.AnalyzerOutput :=
  Analyzer.runAnalyzer W (existsSync env) (pathJoin env) (isoNow env)
    (generateAnalysisReport env).

Definition generateFinalReport : OrchestratorState -> string -> M W FinalReport :=
  ReportGenerator.generateFinalReport W (isoNow env) (dateParse env) (writeReportFiles env).

Definition orchestrate (input : Orchestrator.OrchestratorInput)
    : M (Orchestrator.Machine W) Orchestrator.OrchestratorOutput :=
  Orchestrator.orchestrate W (ensureDirectories env) loadAllScenarios runTestRunner
    runAnalyzer (generateCodingAgentPrompt env) (runCodingAgent env) generateFinalReport
    (isoNow env) input.

Definition start (input : Orchestrator.OrchestratorInput) (w : W)
    : Orchestrator.Machine W :=
  Orchestrator.start W (isoNow env) input w.

Definition runOrchestrator (input : Orchestrator.OrchestratorInput)
    : M W Orchestrator.OrchestratorOutput :=
  Orchestrator.runOrchestrator W (ensureDirectories env) loadAllScenarios runTestRunner
    runAnalyzer (generateCodingAgentPrompt env) (runCodingAgent env) generateFinalReport
    (isoNow env) input.

End Assembled.

End Harness.

(** ** A scripted application, browser and device, for running the models
       on examples *)
Module Script.
Import JS Eff Eff.Notations Types.

(** The world: a millisecond clock that every read advances by five, and
    whether the coding agent has patched the application yet. *)
Record World := mkWorld { clock : Z; patched : bool }.

Definition pathJoin (a b : string) : string := a ++ "/" ++ b.

Definition tick (w : World) : World := {| clock := (clock w + 5)%Z; patched := patched w |}.

Definition dateNow (w : World) : Z * World := (clock w, tick w).

Definition isoNow (w : World) : string * World := ("2025-01-01T00:00:00.000Z", w).

Section Browser.
Import PlaywrightAdapter.

Definition quiet {A S} (_ : A) : M S unit := ret tt.

(** The application under test: ["Never There"] is never on the page, and
    ["Save Workout"] is there only once the application is patched. *)
Definition executeAction (_ : TestRunnerConfig) (step : ScenarioStep)
    : M (Adapter World) unit :=
  fun a =>
    match step_target step with
    | Some "Never There" =>
        (Threw "Could not find clickable element: Never There", a)
    | Some "Save Workout" =>
        if patched (page a) then (Returned tt, a)
        else (Threw "Could not find clickable element: Save Workout", a)
    | _ => (Returned tt, a)
    end.

Definition checkExpectation (e : Expectation) : M (Adapter World) ExpectationResult :=
  ret (mkExpectationResult true None None None).

Definition runnerConfig : TestRunnerConfig :=
  {| baseUrl := "http://localhost:5173"; timeout := 30000;
     screenshotOnFailure := true; screenshotOnStep := true; video := false |}.

Definition freshAdapter : Adapter World := mkAdapter (mkWorld 0 false) [] [].

End Browser.

Import ScenarioParser.

Definition rawClick (id target : string) : RawStep :=
  mkRawStep (Some id) (Some "click") (Some target) None None.

Definition rawDoc (name : option string) (steps : list RawStep) : YamlDoc :=
  YamlScenario (mkRawScenario name (Some "A scripted scenario") None (Some steps) None None).

(** The scenario files on disk, by file name. *)
Definition readYaml (path : string) : M World YamlDoc :=
  if endsWith path "/settings.yaml" then
    ret (rawDoc (Some "Open settings") [rawClick "open-settings" "Settings"])
  else if endsWith path "/history.yaml" then
    ret (rawDoc (Some "Open history") [rawClick "open-history" "History"])
  else if endsWith path "/save-workout.yaml" then
    ret (rawDoc (Some "Save workout")
           [rawClick "start" "Start Workout"; rawClick "save" "Save Workout";
            rawClick "done" "Done"])
  else if endsWith path "/never.yaml" then
    ret (rawDoc (Some "Never passes") [rawClick "ghost" "Never There"])
  else if endsWith path "/no-name.yaml" then
    ret (rawDoc None [rawClick "open-settings" "Settings"])
  else if endsWith path "/tap-workout.yaml" then
    ret (rawDoc (Some "Tap workout")
           [mkRawStep (Some "tap-start") (Some "tap") (Some "Start Workout") None None])
  else throw ("ENOENT: no such file or directory, open '" ++ path ++ "'").

(** The scenario directories on disk. *)
Definition readdirSync (dir : string) : M World (list string) :=
  if String.eqb dir "green" then ret ["history.yaml"; "settings.yaml"]
  else if String.eqb dir "retry" then ret ["save-workout.yaml"]
  else if String.eqb dir "batch" then ret ["save-workout.yaml"; "settings.yaml"]
  else if String.eqb dir "stuck" then ret ["never.yaml"; "settings.yaml"]
  else if String.eqb dir "mixed" then ret ["no-name.yaml"; "README.md"; "settings.yaml"]
  else if String.eqb dir "broken" then ret ["settings.yaml"; "tap-workout.yaml"; "history.yaml"]
  else if String.eqb dir "late" then ret ["settings.yaml"; "never.yaml"; "history.yaml"]
  else ret [].

(** The coding agent patches the application and reports one file. *)
Definition runCodingAgent (i : Orchestrator.CodingAgentInput)
    : M World Orchestrator.CodingAgentOutput :=
  fun w =>
    (Returned {| Orchestrator.ca_success := true;
                 Orchestrator.ca_fix :=
                   {| fix_analysis := Orchestrator.ca_analysis i;
                      fix_filesModified :=
                        [mkFileModification "src/pages/HomePage.tsx" "old" "new"
                                            "add the Save Workout button"];
                      fix_typescriptValid := true;
                      fix_timestamp := "2025-01-01T00:00:00.000Z" |};
                 Orchestrator.ca_reportPath := "reports/fix.json" |},
     {| clock := clock w; patched := true |}).

Definition env : Harness.Env World :=
  {| Harness.readYaml := readYaml;
     Harness.readdirSync := readdirSync;
     Harness.pathJoin := pathJoin;
     Harness.existsSync := fun _ _ => true;
     Harness.ensureDirectories := quiet;
     Harness.initialize := ret tt;
     Harness.cleanup := ret tt;
     Harness.pageGoto := quiet;
     Harness.waitForAppLoaded := quiet;
     Harness.pageScreenshot := fun _ _ => ret tt;
     Harness.waitForTimeout := quiet;
     Harness.executeAction := executeAction;
     Harness.checkExpectation := checkExpectation;
     Harness.ensureDir := quiet;
     Harness.dateNow := dateNow;
     Harness.isoNow := isoNow;
     Harness.dateParse := fun _ => 0%Z;
     Harness.generateTestResultReport := fun _ _ => ret "reports/result.json";
     Harness.generateAnalysisReport := fun _ _ => ret "reports/analysis.json";
     Harness.writeReportFiles := fun _ _ => ret tt;
     Harness.generateCodingAgentPrompt := fun _ _ => ret "You are a Coding Agent fixing a test failure.";
     Harness.runCodingAgent := runCodingAgent |}.

Definition orchestratorInput (dir : string) (maxIter : Z) (stop : bool)
    : Orchestrator.OrchestratorInput :=
  {| Orchestrator.scenariosDir := dir;
     Orchestrator.screenshotDir := "e2e/screenshots";
     Orchestrator.reportsDir := "e2e/reports";
     Orchestrator.projectRoot := "/app";
     Orchestrator.config :=
       {| Orchestrator.orchestrator :=
            {| maxIterations := maxIter; parallelScenarios := false;
               stopOnFirstFailure := stop |};
          Orchestrator.testRunner := runnerConfig;
          Orchestrator.analyzer := Orchestrator.analyzer Orchestrator.defaultConfig;
          Orchestrator.codingAgent := Orchestrator.codingAgent Orchestrator.defaultConfig |};
     Orchestrator.tags := None |}.

Definition runnerInput (dir file : string) : TestRunner.TestRunnerInput :=
  {| TestRunner.scenarioFile := file; TestRunner.scenariosDir := dir;
     TestRunner.screenshotDir := "e2e/screenshots";
     TestRunner.reportsDir := "e2e/reports";
     TestRunner.config := runnerConfig |}.

Definition world0 : World := mkWorld 0 false.

(** The final orchestrator state of a scripted run (the initial state if
    the run throws). *)
Definition finalState (dir : string) (maxIter : Z) (stop : bool) : OrchestratorState :=
  Orchestrator.state
    (snd (Harness.orchestrate env (orchestratorInput dir maxIter stop)
            (Harness.start env (orchestratorInput dir maxIter stop) world0))).

Definition runScenario :=
  PlaywrightAdapter.runScenario World runnerConfig quiet quiet (fun _ _ => ret tt) quiet
    (executeAction runnerConfig) checkExpectation quiet
    (TestRunner.onPage World dateNow) (TestRunner.onPage World isoNow) pathJoin.

Definition threeSteps : Scenario :=
  {| sc_name := Some "Save workout"; sc_description := "three clicks";
     sc_preconditions := [];
     sc_steps := [mkStep (Some "start") click (Some "Start Workout") None None;
                  mkStep (Some "save") click (Some "Save Workout") None None;
                  mkStep (Some "done") click (Some "Done") None None];
     sc_postconditions := []; sc_tags := [] |}.

Section Device.
Import AppiumParser TestExecutor.

Definition deviceNow (e : Executor World) : Z * Executor World :=
  (clock (world e), {| world := tick (world e); driver := driver e;
                       screenshots := screenshots e |}).

Definition deviceIso (e : Executor World) : string * Executor World :=
  ("2025-01-01T00:00:00.000Z", e).

(** A device on which tapping ["Missing Button"] fails. *)
Definition driverAction (step : TestStep) : M (Executor World) unit :=
  match step with
  | StepObject "tap" (ArgString "Missing Button") =>
      throw "element (Missing Button) still not existing after 10000ms"
  | _ => ret tt
  end.

Definition runOnDevice :=
  TestExecutor.runScenario World ios driverAction (fun _ => ret tt)
    deviceNow deviceIso pathJoin "screenshots".

Definition tapThenSee : TestScenario :=
  {| ts_name := Some "Tap and see"; ts_description := None; ts_tags := None;
     ts_requires := None;
     ts_steps := Some [StepObject "tap" (ArgString "Missing Button");
                       PlatformStep (Some [StepObject "see" (ArgString "Done")])
                                    (Some [StepObject "see" (ArgString "OK")]);
                       StepString "back"] |}.

Definition readyDevice : Executor World := mkExecutor world0 true [].

Definition mobileDoc (name : option string) : AppiumParser.YamlDoc :=
  AppiumParser.YamlScenario
    (mkTestScenario name None None None (Some [StepObject "tap" (ArgString "Start")])).

(** The mobile scenario files on disk. *)
Definition mobileReadYaml (path : string) : M World AppiumParser.YamlDoc :=
  if endsWith path "/smoke-test.yaml" then ret (mobileDoc (Some "Smoke test"))
  else if endsWith path "/templates/create-template.yaml" then
    ret (mobileDoc (Some "Create template"))
  else if endsWith path "/no-name.yaml" then ret (mobileDoc None)
  else throw ("ENOENT: no such file or directory, open '" ++ path ++ "'").

(** What the glob finds in a directory with one file missing its name. *)
Definition globYaml : M World (list string) :=
  ret ["smoke-test.yaml"; "no-name.yaml"; "templates/create-template.yaml"].

(** What the glob finds in a directory of well-formed files. *)
Definition globGood : M World (list string) :=
  ret ["smoke-test.yaml"; "templates/create-template.yaml"].

End Device.

End Script.

(** ** The runner contract: no step runs after the first failure *)
Module Runner.
Import Eff Types.

Example browser_run_statuses :
  map sr_status (match fst (Script.runScenario Script.threeSteps "save-workout.yaml" "shots"
                                Script.freshAdapter) with
                 | Returned r => tr_steps r
                 | Threw _ => []
                 end) = [passed; failed; skipped].
Proof. vm_compute. reflexivity. Qed.

Example device_run_statuses :
  map TestExecutor.sr_status
      (match fst (Script.runOnDevice Script.tapThenSee Script.readyDevice) with
       | Returned r => TestExecutor.tr_steps r
       | Threw _ => []
       end) = [TestExecutor.failed; TestExecutor.skipped; TestExecutor.skipped].
Proof. vm_compute. reflexivity. Qed.

(** C1. In the TestResult returned by a scenario run of either runner (the
    browser adapter and the mobile executor), whenever a StepResult has
    status failed, every StepResult after it has status skipped and
    duration 0, and no step was executed after it: the run ends in the
    same adapter (executor) state, and with the same result but for the
    skipped entries, as the run of the scenario cut off after the failed
    step; for, once the skip flag is set, the step loop returns in the
    state in which it was entered. *)
Theorem steps_skipped_after_first_failure
    (W : Type) (config : TestRunnerConfig)
    pageGoto waitForAppLoaded pageScreenshot waitForTimeout executeAction
    checkExpectation ensureDir dateNow isoNow pathJoin
    (scenario : Scenario) (scenarioFile screenshotDir : string)
    (a a' : PlaywrightAdapter.Adapter W) (result : TestResult)
    (platform : AppiumParser.Platform) driverAction saveScreenshot deviceNow deviceIso
    devicePathJoin SCREENSHOT_DIR
    (mobileScenario : AppiumParser.TestScenario)
    (e e' : TestExecutor.Executor W) (mobileResult : TestExecutor.TestResult) :
  (PlaywrightAdapter.runScenario W config pageGoto waitForAppLoaded pageScreenshot
     waitForTimeout executeAction checkExpectation ensureDir dateNow isoNow pathJoin
     scenario scenarioFile screenshotDir a = (Returned result, a') ->
   forall pre x post,
     tr_steps result = (pre ++ x :: post)%list ->
     sr_status x = failed ->
     Forall (fun y => sr_status y = skipped /\ sr_duration y = 0%Z) post /\
     PlaywrightAdapter.runScenario W config pageGoto waitForAppLoaded pageScreenshot
       waitForTimeout executeAction checkExpectation ensureDir dateNow isoNow pathJoin
       (PlaywrightAdapter.firstSteps (S (length pre)) scenario) scenarioFile screenshotDir a
     = (Returned (PlaywrightAdapter.firstResults (pre ++ [x]) result), a')) /\
  (forall steps file dir st a0,
     PlaywrightAdapter.shouldSkip st = true ->
     PlaywrightAdapter.runSteps W config pageScreenshot waitForTimeout executeAction
       checkExpectation dateNow pathJoin steps file dir st a0
     = (Returned {| PlaywrightAdapter.overallStatus := PlaywrightAdapter.overallStatus st;
                    PlaywrightAdapter.shouldSkip := true;
                    PlaywrightAdapter.stepResults :=
                      (PlaywrightAdapter.stepResults st
                         ++ map PlaywrightAdapter.skippedResult steps)%list;
                    PlaywrightAdapter.screenshots := PlaywrightAdapter.screenshots st |},
        a0)) /\
  (TestExecutor.runScenario W platform driverAction saveScreenshot deviceNow deviceIso
     devicePathJoin SCREENSHOT_DIR mobileScenario e = (Returned mobileResult, e') ->
   forall pre x post,
     TestExecutor.tr_steps mobileResult = (pre ++ x :: post)%list ->
     TestExecutor.sr_status x = TestExecutor.failed ->
     Forall (fun y => TestExecutor.sr_status y = TestExecutor.skipped /\
                      TestExecutor.sr_duration y = 0%Z) post /\
     forall cut l,
       AppiumParser.ts_name cut = AppiumParser.ts_name mobileScenario ->
       AppiumParser.ts_steps cut = Some l ->
       AppiumParser.filterStepsForPlatform l platform
         = Returned (map TestExecutor.sr_step (pre ++ [x])) ->
       TestExecutor.runScenario W platform driverAction saveScreenshot deviceNow deviceIso
         devicePathJoin SCREENSHOT_DIR cut e
       = (Returned (TestExecutor.firstResults (pre ++ [x]) mobileResult), e')) /\
  (forall name steps st e0,
     TestExecutor.failedFlag st = true ->
     TestExecutor.runSteps W platform driverAction saveScreenshot deviceNow deviceIso
       devicePathJoin SCREENSHOT_DIR name steps st e0
     = (Returned {| TestExecutor.failedFlag := true;
                    TestExecutor.errorMessage := TestExecutor.errorMessage st;
                    TestExecutor.stepResults :=
                      (TestExecutor.stepResults st
                         ++ map (fun step =>
                                   TestExecutor.mkStepResult step TestExecutor.skipped 0 None)
                                steps)%list |},
        e0)).
Proof.
  split; [|split; [|split]].
  - intros Run pre x post Split Fx. split.
    + exact (PlaywrightAdapter.adapter_skips_after_failure _ _ _ _ _ _ _ _ _ _ _ _ _ _ _ _ _ _
               Run pre x post Split Fx).
    + exact (PlaywrightAdapter.adapter_stops_at_failure _ _ _ _ _ _ _ _ _ _ _ _ _ _ _ _ _ _
               _ _ _ Run Split Fx).
  - intros steps file dir st a0. apply PlaywrightAdapter.adapter_runSteps_skip.
  - intros Run pre x post Split Fx. split.
    + exact (TestExecutor.executor_skips_after_failure _ _ _ _ _ _ _ _ _ _ _ _
               Run pre x post Split Fx).
    + intros cut l. now apply TestExecutor.executor_stops_at_failure with (post := post).
  - intros name steps st e0. apply TestExecutor.executor_runSteps_skip.
Qed.

Lemma steps_skipped_after_first_failure_witness :
  (exists result a',
     Script.runScenario Script.threeSteps "save-workout.yaml" "shots" Script.freshAdapter
       = (Returned result, a') /\
     map sr_status (tr_steps result) = [passed; failed; skipped] /\
     Forall (fun y => sr_status y = skipped /\ sr_duration y = 0%Z)
            (skipn 2 (tr_steps result)) /\
     Script.runScenario (PlaywrightAdapter.firstSteps 2 Script.threeSteps)
       "save-workout.yaml" "shots" Script.freshAdapter
     = (Returned (PlaywrightAdapter.firstResults (firstn 2 (tr_steps result)) result), a')) /\
  (exists mobileResult e',
     Script.runOnDevice Script.tapThenSee Script.readyDevice = (Returned mobileResult, e') /\
     map TestExecutor.sr_status (TestExecutor.tr_steps mobileResult)
       = [TestExecutor.failed; TestExecutor.skipped; TestExecutor.skipped] /\
     Forall (fun y => TestExecutor.sr_status y = TestExecutor.skipped /\
                      TestExecutor.sr_duration y = 0%Z)
            (skipn 1 (TestExecutor.tr_steps mobileResult)) /\
     Script.runOnDevice
       (AppiumParser.mkTestScenario (Some "Tap and see") None None None
          (Some [AppiumParser.StepObject "tap" (AppiumParser.ArgString "Missing Button")]))
       Script.readyDevice
     = (Returned (TestExecutor.firstResults (firstn 1 (TestExecutor.tr_steps mobileResult))
                    mobileResult), e')).
Proof.
  epose proof
    (steps_skipped_after_first_failure Script.World Script.runnerConfig
       Script.quiet Script.quiet (fun _ _ => ret tt) Script.quiet
       (Script.executeAction Script.runnerConfig) Script.checkExpectation Script.quiet
       (TestRunner.onPage Script.World Script.dateNow)
       (TestRunner.onPage Script.World Script.isoNow) Script.pathJoin
       Script.threeSteps "save-workout.yaml" "shots" Script.freshAdapter _ _
       AppiumParser.ios Script.driverAction (fun _ => ret tt)
       Script.deviceNow Script.deviceIso Script.pathJoin "screenshots"
       Script.tapThenSee Script.readyDevice _ _) as (HA & _ & HB & _).
  specialize (HA eq_refl [_] _ [_] eq_refl eq_refl).
  specialize (HB eq_refl [] _ [_; _] eq_refl eq_refl).
  destruct HA as [SkA CutA]. destruct HB as [SkB CutB].
  split.
  - eexists _, _. split; [vm_compute; reflexivity|].
    split; [vm_compute; reflexivity|]. split; [exact SkA | exact CutA].
  - eexists _, _. split; [vm_compute; reflexivity|].
    split; [vm_compute; reflexivity|]. split; [exact SkB|].
    apply (CutB (AppiumParser.mkTestScenario (Some "Tap and see") None None None
                   (Some [AppiumParser.StepObject "tap"
                            (AppiumParser.ArgString "Missing Button")]))
                [AppiumParser.StepObject "tap" (AppiumParser.ArgString "Missing Button")]);
      reflexivity.
Defined.

End Runner.

(** ** The synthetic result of a scenario file that fails to load *)
Module LoadFailure.
Import JS Eff Types.

Example no_name_file_fails_validation :
  TestRunner.loadFails Script.World Script.readYaml Script.pathJoin
    (Script.runnerInput "mixed" "no-name.yaml") Script.world0
    (TestRunner.validationMessage ["Scenario must have a name"]).
Proof.
  right. eexists _, _.
  split; [reflexivity | split; [vm_compute; discriminate | reflexivity]].
Qed.

Lemma runTestRunner_synthetic_failure_witness :
  exists out w',
    Harness.runTestRunner Script.env (Script.runnerInput "mixed" "no-name.yaml")
      Script.world0 = (Returned out, w') /\
    TestRunner.success out = false /\
    tr_status (TestRunner.result out) = test_failed /\
    tr_steps (TestRunner.result out) = [] /\
    tr_duration (TestRunner.result out) = 0%Z /\
    tr_consoleErrors (TestRunner.result out)
      = [TestRunner.validationMessage ["Scenario must have a name"]] /\
    tr_networkErrors (TestRunner.result out) = [] /\
    ~ exists s, In s (tr_steps (TestRunner.result out)) /\ sr_status s = failed.
Proof.
  apply (TestRunner.runTestRunner_synthetic_failure Script.World Script.readYaml
           Script.pathJoin (ret tt) (ret tt) Script.quiet Script.quiet
           (fun _ _ => ret tt) Script.quiet Script.executeAction
           Script.checkExpectation Script.quiet Script.dateNow Script.isoNow
           (fun _ _ => ret "reports/result.json")
           (Script.runnerInput "mixed" "no-name.yaml") Script.world0).
  right. eexists _, _.
  split; [reflexivity | split; [vm_compute; discriminate | reflexivity]].
Defined.

End LoadFailure.

(** ** Loading a directory of scenario files *)
Module Loading.
Import JS Eff Eff.Notations Types.

Section Lib.
Context {S : Type}.
Variable readYaml : string -> M S ScenarioParser.YamlDoc.
Variable pathJoin : string -> string -> string.


Lemma lib_load_aborts dir pre file post :
  forall acc s acc1 s1 msg s2,
    ScenarioParser.loadFiles readYaml pathJoin dir pre acc s = (Returned acc1, s1) ->
    ScenarioParser.parseScenarioFile readYaml (pathJoin dir file) s1 = (Threw msg, s2) ->
    ScenarioParser.loadFiles readYaml pathJoin dir (pre ++ file :: post)%list acc s = (Threw msg, s2).
Proof.
  induction pre as [|f pre IH]; intros acc s acc1 s1 msg s2 Pre Bad.
  - inversion Pre; subst. cbn [app ScenarioParser.loadFiles].
    unfold bind at 1. now rewrite Bad.
  - cbn [app ScenarioParser.loadFiles] in *.
    unfold bind at 1 in Pre. unfold bind at 1.
    destruct (ScenarioParser.parseScenarioFile readYaml (pathJoin dir f) s) as [[sc|m] s0]; [|discriminate].
    eapply IH; eassumption.
Qed.

Lemma set_has {V} (m : SMap.t V) k v k' :
  SMap.has (SMap.set m k v) k' = String.eqb k k' || SMap.has m k'.
Proof.
  unfold SMap.has. induction m as [|[k0 v0] m IH]; simpl.
  - destruct (String.eqb k k'); reflexivity.
  - destruct (String.eqb k0 k) eqn:E0; simpl.
    + apply String.eqb_eq in E0. subst k0.
      destruct (String.eqb k k'); reflexivity.
    + destruct (String.eqb k0 k') eqn:E1; simpl.
      * now rewrite orb_true_r.
      * exact IH.
Qed.

Lemma lib_load_complete dir files :
  forall acc s scenarios s',
    ScenarioParser.loadFiles readYaml pathJoin dir files acc s = (Returned scenarios, s') ->
    (forall k, SMap.has acc k = true -> SMap.has scenarios k = true) /\
    forall file, In file files -> SMap.has scenarios file = true.
Proof.
  induction files as [|f files IH]; intros acc s scenarios s' Run.
  - inversion Run; subst. split; [auto | intros ? []].
  - simpl in Run. apply bind_Returned in Run. destruct Run as (sc & s1 & _ & Run).
    apply IH in Run. destruct Run as [Keep All]. split.
    + intros k Hk. apply Keep. rewrite set_has, Hk. apply orb_true_r.
    + intros file [<- | In']; [|now apply All].
      apply Keep. rewrite set_has, String.eqb_refl. reflexivity.
Qed.

End Lib.

Section Mobile.
Context {S : Type}.
Variable readYaml : string -> M S AppiumParser.YamlDoc.
Variable pathJoin : string -> string -> string.
Variable SCENARIOS_DIR : string.


Lemma mobile_load_aborts pre file post :
  forall acc s acc1 s1 msg s2,
    AppiumParser.loadFiles readYaml pathJoin SCENARIOS_DIR pre acc s = (Returned acc1, s1) ->
    AppiumParser.parseScenarioFile readYaml (pathJoin SCENARIOS_DIR file) s1 = (Threw msg, s2) ->
    AppiumParser.loadFiles readYaml pathJoin SCENARIOS_DIR (pre ++ file :: post)%list acc s = (Threw msg, s2).
Proof.
  induction pre as [|f pre IH]; intros acc s acc1 s1 msg s2 Pre Bad.
  - inversion Pre; subst. cbn [app AppiumParser.loadFiles].
    unfold bind at 1. now rewrite Bad.
  - cbn [app AppiumParser.loadFiles] in *.
    unfold bind at 1 in Pre. unfold bind at 1.
    destruct (AppiumParser.parseScenarioFile readYaml (pathJoin SCENARIOS_DIR f) s) as [[sc|m] s0];
      [|discriminate].
    eapply IH; eassumption.
Qed.

Lemma mobile_missing_name path s parsed s1 :
  readYaml path s = (Returned (AppiumParser.YamlScenario parsed), s1) ->
  truthyOpt (AppiumParser.ts_name parsed) = false ->
  AppiumParser.parseScenarioFile readYaml path s = (Threw ("Scenario missing 'name' field: " ++ path), s1).
Proof.
  intros R N. unfold AppiumParser.parseScenarioFile, bind.
  rewrite R, N. reflexivity.
Qed.

Lemma mobile_load_complete files :
  forall acc s scenarios s',
    AppiumParser.loadFiles readYaml pathJoin SCENARIOS_DIR files acc s = (Returned scenarios, s') ->
    (forall k, SMap.has acc k = true -> SMap.has scenarios k = true) /\
    forall file, In file files ->
                 SMap.has scenarios (replaceFirst file ".yaml" EmptyString) = true.
Proof.
  induction files as [|f files IH]; intros acc s scenarios s' Run.
  - inversion Run; subst. split; [auto | intros ? []].
  - simpl in Run. apply bind_Returned in Run. destruct Run as (sc & s1 & _ & Run).
    apply IH in Run. destruct Run as [Keep All]. split.
    + intros k Hk. apply Keep. rewrite set_has, Hk. apply orb_true_r.
    + intros file [<- | In']; [|now apply All].
      apply Keep. rewrite set_has, String.eqb_refl. reflexivity.
Qed.

End Mobile.

(** The directory ["broken"] holds two well-formed files around one with
    an unknown action; the mobile directory holds two well-formed files
    around one without a name. Each well-formed file parses on its own,
    yet neither load returns a mapping. *)
Lemma load_aborts_on_one_bad_file :
  (exists sc w, ScenarioParser.parseScenarioFile Script.readYaml
                  (Script.pathJoin "broken" "settings.yaml") Script.world0
                = (Returned sc, w)) /\
  (exists sc w, ScenarioParser.parseScenarioFile Script.readYaml
                  (Script.pathJoin "broken" "history.yaml") Script.world0
                = (Returned sc, w)) /\
  ScenarioParser.loadAllScenarios Script.readYaml Script.readdirSync Script.pathJoin
    "broken" Script.world0
  = (Threw ("Invalid action " ++ dq ++ "tap" ++ dq ++ " in step " ++ dq ++ "tap-start"
              ++ dq ++ ". Valid actions: click, fill, select, hover, wait, screenshot, navigate"),
     Script.world0) /\
  (exists sc w, AppiumParser.parseScenarioFile Script.mobileReadYaml
                  (Script.pathJoin "scenarios" "smoke-test.yaml") Script.world0
                = (Returned sc, w)) /\
  AppiumParser.loadAllScenarios Script.mobileReadYaml Script.globYaml Script.pathJoin
    "scenarios" Script.world0
  = (Threw "Scenario missing 'name' field: scenarios/no-name.yaml", Script.world0).
Proof.
  split; [eexists _, _; reflexivity|].
  split; [eexists _, _; reflexivity|].
  split; [reflexivity|].
  split; [eexists _, _; reflexivity | reflexivity].
Qed.

(** C4 (amended). Both loaders parse the files of the directory one after
    another without catching errors. If the files before some file parse
    and that file fails to parse, the whole load throws that file's error
    and returns no mapping, whatever files follow; in the mobile parser a
    file without a name fails with a message that carries the file's
    path. When a load returns, every scenario file of the listing is a key
    of the returned mapping (in the mobile parser, less its [.yaml]). *)
Theorem load_all_or_nothing
    (S : Type) (readYaml : string -> M S ScenarioParser.YamlDoc)
    (readdirSync : string -> M S (list string))
    (mobileReadYaml : string -> M S AppiumParser.YamlDoc)
    (globYaml : M S (list string))
    (pathJoin : string -> string -> string) (dir : string) :
  (forall entries pre file post s0 s acc1 s1 msg s2,
     readdirSync dir s0 = (Returned entries, s) ->
     filter ScenarioParser.isYamlFile entries = (pre ++ file :: post)%list ->
     ScenarioParser.loadFiles readYaml pathJoin dir pre [] s = (Returned acc1, s1) ->
     ScenarioParser.parseScenarioFile readYaml (pathJoin dir file) s1 = (Threw msg, s2) ->
     ScenarioParser.loadAllScenarios readYaml readdirSync pathJoin dir s0
       = (Threw msg, s2)) /\
  (forall pre file post s0 s acc1 s1 parsed s2,
     globYaml s0 = (Returned (pre ++ file :: post)%list, s) ->
     AppiumParser.loadFiles mobileReadYaml pathJoin dir pre [] s = (Returned acc1, s1) ->
     mobileReadYaml (pathJoin dir file) s1
       = (Returned (AppiumParser.YamlScenario parsed), s2) ->
     truthyOpt (AppiumParser.ts_name parsed) = false ->
     AppiumParser.loadAllScenarios mobileReadYaml globYaml pathJoin dir s0
       = (Threw ("Scenario missing 'name' field: " ++ pathJoin dir file), s2)) /\
  (forall s0 scenarios s',
     ScenarioParser.loadAllScenarios readYaml readdirSync pathJoin dir s0
       = (Returned scenarios, s') ->
     exists entries s,
       readdirSync dir s0 = (Returned entries, s) /\
       forall file, In file entries -> ScenarioParser.isYamlFile file = true ->
                    SMap.has scenarios file = true) /\
  (forall s0 scenarios s',
     AppiumParser.loadAllScenarios mobileReadYaml globYaml pathJoin dir s0
       = (Returned scenarios, s') ->
     exists files s,
       globYaml s0 = (Returned files, s) /\
       forall file, In file files ->
                    SMap.has scenarios (replaceFirst file ".yaml" EmptyString) = true).
Proof.
  split; [|split; [|split]].
  - intros entries pre file post s0 s acc1 s1 msg s2 Dir Files Pre Bad.
    unfold ScenarioParser.loadAllScenarios, bind at 1. rewrite Dir, Files.
    eapply lib_load_aborts; eassumption.
  - intros pre file post s0 s acc1 s1 parsed s2 Glob Pre Doc Name.
    unfold AppiumParser.loadAllScenarios, bind at 1. rewrite Glob.
    eapply mobile_load_aborts; [eassumption|].
    eapply mobile_missing_name; eassumption.
  - intros s0 scenarios s' Run. unfold ScenarioParser.loadAllScenarios in Run.
    apply bind_Returned in Run. destruct Run as (entries & s & Dir & Run).
    exists entries, s. split; [exact Dir|]. intros file I Y.
    eapply lib_load_complete; [exact Run|]. apply filter_In. now split.
  - intros s0 scenarios s' Run. unfold AppiumParser.loadAllScenarios in Run.
    apply bind_Returned in Run. destruct Run as (files & s & Glob & Run).
    exists files, s. split; [exact Glob|]. intros file I.
    eapply mobile_load_complete; eassumption.
Qed.

Lemma load_all_or_nothing_witness :
  ScenarioParser.loadAllScenarios Script.readYaml Script.readdirSync Script.pathJoin
    "broken" Script.world0
  = (Threw ("Invalid action " ++ dq ++ "tap" ++ dq ++ " in step " ++ dq ++ "tap-start"
              ++ dq ++ ". Valid actions: click, fill, select, hover, wait, screenshot, navigate"),
     Script.world0) /\
  AppiumParser.loadAllScenarios Script.mobileReadYaml Script.globYaml Script.pathJoin
    "broken" Script.world0
  = (Threw ("Scenario missing 'name' field: " ++ Script.pathJoin "broken" "no-name.yaml"),
     Script.world0) /\
  (exists scenarios w,
     ScenarioParser.loadAllScenarios Script.readYaml Script.readdirSync Script.pathJoin
       "green" Script.world0 = (Returned scenarios, w) /\
     SMap.has scenarios "settings.yaml" = true) /\
  (exists scenarios w,
     AppiumParser.loadAllScenarios Script.mobileReadYaml Script.globGood Script.pathJoin
       "green" Script.world0 = (Returned scenarios, w) /\
     SMap.has scenarios "templates/create-template" = true).
Proof.
  destruct (load_all_or_nothing Script.World Script.readYaml Script.readdirSync
              Script.mobileReadYaml Script.globYaml Script.pathJoin "broken")
    as (A & B & _ & _).
  destruct (load_all_or_nothing Script.World Script.readYaml Script.readdirSync
              Script.mobileReadYaml Script.globGood Script.pathJoin "green")
    as (_ & _ & C & D).
  split; [|split; [|split]].
  - exact (A ["settings.yaml"; "tap-workout.yaml"; "history.yaml"]
             ["settings.yaml"] "tap-workout.yaml" ["history.yaml"]
             Script.world0 Script.world0 _ Script.world0 _ Script.world0
             eq_refl eq_refl eq_refl eq_refl).
  - exact (B ["smoke-test.yaml"] "no-name.yaml" ["templates/create-template.yaml"]
             Script.world0 Script.world0 _ Script.world0
             (AppiumParser.mkTestScenario None None None None
                (Some [AppiumParser.StepObject "tap" (AppiumParser.ArgString "Start")]))
             Script.world0 eq_refl eq_refl eq_refl eq_refl).
  - eexists _, _. split; [vm_compute; reflexivity|].
    destruct (C Script.world0 _ _ eq_refl) as (entries & s & Dir & Keys).
    vm_compute in Dir. inversion Dir; subst entries.
    apply Keys; [simpl; tauto | vm_compute; reflexivity].
  - eexists _, _. split; [vm_compute; reflexivity|].
    destruct (D Script.world0 _ _ eq_refl) as (files & s & Glob & Keys).
    vm_compute in Glob. inversion Glob; subst files.
    apply (Keys "templates/create-template.yaml"). simpl; tauto.
Defined.

End Loading.

(** ** Root-cause classification by the analyzer *)
Module Classification.
Import JS Eff Eff.Notations Types Analyzer.

Definition failedSave : StepResult :=
  {| sr_id := Some "save"; sr_action := click; sr_target := Some "Save Workout";
     sr_status := failed; sr_duration := 130;
     sr_error := Some "Could not find clickable element: Save Workout";
     sr_screenshot := None; sr_actualValue := None; sr_expectedValue := None |}.

(** A failed run during which the browser logged [consoleErrors]. *)
Definition failedRun (consoleErrors : list string) : TestResult :=
  {| tr_scenario := Some "Save workout"; tr_scenarioFile := "save-workout.yaml";
     tr_status := test_failed; tr_duration := 420;
     tr_steps :=
       [ {| sr_id := Some "start"; sr_action := click; sr_target := Some "Start Workout";
            sr_status := passed; sr_duration := 120; sr_error := None;
            sr_screenshot := None; sr_actualValue := None; sr_expectedValue := None |};
         failedSave;
         {| sr_id := Some "done"; sr_action := click; sr_target := Some "Done";
            sr_status := skipped; sr_duration := 0; sr_error := None;
            sr_screenshot := None; sr_actualValue := None; sr_expectedValue := None |} ];
     tr_screenshots := []; tr_consoleErrors := consoleErrors; tr_networkErrors := [];
     tr_timestamp := "2025-01-01T00:00:00.000Z" |}.

Definition resource404 : string :=
  "Failed to load resource: the server responded with a status of 404 (Not Found)".

Definition pageError : string :=
  "Page Error: TypeError: Cannot read properties of undefined (reading 'map')".

Lemma analyzeError_console_Error failedStep testResult jsError :
  find (fun e => includes e "Error") (tr_consoleErrors testResult) = Some jsError ->
  analyzeError failedStep testResult = (logic, "JavaScript error: " ++ take 200 jsError).
Proof.
  intros F. unfold analyzeError.
  destruct (tr_consoleErrors testResult) as [|e es] eqn:E; [discriminate|].
  change (0 <? length (e :: es))%nat with true. cbv iota.
  now rewrite F.
Qed.

(** A run whose only console error is a failed resource load (no
    ["Error"] in its text) and whose failed step reports a missing
    element: the buffer is not empty, yet the analysis is [selector]. *)
Lemma console_error_not_classified_logic :
  tr_status (failedRun [resource404]) = test_failed /\
  tr_consoleErrors (failedRun [resource404]) <> [] /\
  exists out w',
    Harness.runAnalyzer Script.env (failedRun [resource404]) "/app" "e2e/reports"
      Script.world0 = (Returned out, w') /\
    an_category (analysis out) = selector /\
    an_rootCause (analysis out)
      = "Element " ++ dq ++ "Save Workout" ++ dq
          ++ " not found - selector may be incorrect or element not rendered".
Proof.
  split; [reflexivity|]. split; [discriminate|].
  eexists _, _. split; [vm_compute; reflexivity|]. split; reflexivity.
Qed.

(** C6 (amended). If some console error captured during the run contains
    the text ["Error"], the analysis has category logic and its root cause
    is ["JavaScript error: "] followed by the first 200 characters of the
    first such console error, whatever the failed step's own error string
    and the network errors are. *)
Theorem console_Error_takes_precedence
    (W : Type) existsSync pathJoin isoNow generateAnalysisReport
    (testResult : TestResult) (jsError : string) :
  find (fun e => includes e "Error") (tr_consoleErrors testResult) = Some jsError ->
  (forall failedStep,
     analyzeError failedStep testResult
       = (logic, "JavaScript error: " ++ take 200 jsError)) /\
  (forall projectRoot reportsDir (w w' : W) out,
     runAnalyzer W existsSync pathJoin isoNow generateAnalysisReport
       testResult projectRoot reportsDir w = (Returned out, w') ->
     an_category (analysis out) = logic /\
     an_rootCause (analysis out) = "JavaScript error: " ++ take 200 jsError).
Proof.
  intros F. split.
  - intros failedStep. now apply analyzeError_console_Error.
  - intros projectRoot reportsDir w w' out Run. unfold runAnalyzer in Run.
    destruct (find _ (tr_steps testResult)) as [failedStep|]; [|discriminate].
    rewrite (analyzeError_console_Error failedStep testResult jsError F) in Run.
    apply bind_Returned in Run. destruct Run as (files & ? & _ & Run).
    apply bind_Returned in Run. destruct Run as (ts & ? & _ & Run).
    apply bind_Returned in Run. destruct Run as (path & ? & _ & Run).
    inversion Run; subst. simpl. split; reflexivity.
Qed.

Lemma console_Error_takes_precedence_witness :
  analyzeError failedSave (failedRun [resource404; pageError])
    = (logic, "JavaScript error: " ++ take 200 pageError) /\
  exists out w',
    Harness.runAnalyzer Script.env (failedRun [resource404; pageError]) "/app"
      "e2e/reports" Script.world0 = (Returned out, w') /\
    an_category (analysis out) = logic /\
    an_rootCause (analysis out) = "JavaScript error: " ++ take 200 pageError.
Proof.
  destruct (console_Error_takes_precedence Script.World (fun _ _ => true)
              Script.pathJoin Script.isoNow (fun _ _ => ret "reports/analysis.json")
              (failedRun [resource404; pageError]) pageError eq_refl) as [A B].
  split; [apply A|].
  eexists _, _. split; [vm_compute; reflexivity|].
  exact (B "/app" "e2e/reports" Script.world0 _ _ eq_refl).
Defined.

End Classification.

(** ** Facts about insertion-ordered maps *)
Module SMapFacts.
Import SMap.

Lemma get_set_eq {V} (m : t V) k v : get (set m k v) k = Some v.
Proof.
  induction m as [|[k0 v0] m IH]; simpl.
  - now rewrite String.eqb_refl.
  - destruct (String.eqb k0 k) eqn:E; simpl; rewrite E; [reflexivity | exact IH].
Qed.

Lemma get_set_neq {V} (m : t V) k v k' : k <> k' -> get (set m k v) k' = get m k'.
Proof.
  intros N. induction m as [|[k0 v0] m IH]; simpl.
  - apply String.eqb_neq in N. now rewrite N.
  - destruct (String.eqb k0 k) eqn:E; simpl.
    + apply String.eqb_eq in E. subst k0.
      apply String.eqb_neq in N. now rewrite N.
    + destruct (String.eqb k0 k'); [reflexivity | exact IH].
Qed.

Lemma keys_set_present {V} (m : t V) k v v0 :
  get m k = Some v0 -> keys (set m k v) = keys m.
Proof.
  unfold keys. induction m as [|[k0 v1] m IH]; simpl; [discriminate|].
  destruct (String.eqb k0 k) eqn:E; simpl; intros G.
  - reflexivity.
  - f_equal. now apply IH.
Qed.

Lemma keys_set_absent {V} (m : t V) k v :
  get m k = None -> keys (set m k v) = (keys m ++ [k])%list.
Proof.
  unfold keys. induction m as [|[k0 v1] m IH]; simpl; [reflexivity|].
  destruct (String.eqb k0 k) eqn:E; simpl; intros G; [discriminate|].
  f_equal. now apply IH.
Qed.

Lemma get_Some_In {V} (m : t V) k v : get m k = Some v -> In (k, v) m.
Proof.
  induction m as [|[k0 v0] m IH]; simpl; [discriminate|].
  destruct (String.eqb k0 k) eqn:E; intros G.
  - apply String.eqb_eq in E. inversion G; subst. now left.
  - right. now apply IH.
Qed.

Lemma get_None_keys {V} (m : t V) k : get m k = None -> ~ In k (keys m).
Proof.
  unfold keys. induction m as [|[k0 v0] m IH]; simpl; [tauto|].
  destruct (String.eqb k0 k) eqn:E; intros G; [discriminate|].
  apply String.eqb_neq in E. intros [H|H]; [contradiction | now apply IH].
Qed.

Lemma In_get {V} (m : t V) k v : NoDup (keys m) -> In (k, v) m -> get m k = Some v.
Proof.
  unfold keys. induction m as [|[k0 v0] m IH]; simpl; [tauto|].
  intros ND [H|H].
  - inversion H; subst. now rewrite String.eqb_refl.
  - inversion ND as [|? ? NI ND']; subst.
    destruct (String.eqb k0 k) eqn:E.
    + apply String.eqb_eq in E. subst k0. exfalso. apply NI.
      change k with (fst (k, v)). now apply in_map.
    + now apply IH.
Qed.

Lemma NoDup_snoc {A} (l : list A) x : NoDup l -> ~ In x l -> NoDup (l ++ [x]).
Proof.
  induction 1 as [|y l NI ND IH]; simpl; intros N.
  - constructor; [tauto | constructor].
  - constructor.
    + rewrite in_app_iff. simpl. intros [H|[H|[]]]; [contradiction | subst; tauto].
    + apply IH. tauto.
Qed.

(** Overwriting the value of a present key with one that has the same
    image under [f] leaves the list of keys and images unchanged. *)
Lemma map_set_same {V B} (f : V -> B) (m : t V) k v v0 :
  get m k = Some v0 -> f v = f v0 ->
  map (fun kv => (fst kv, f (snd kv))) (set m k v)
  = map (fun kv => (fst kv, f (snd kv))) m.
Proof.
  induction m as [|[k0 v1] m IH]; simpl; [discriminate|].
  destruct (String.eqb k0 k) eqn:E; simpl; intros G Fv.
  - inversion G; subst. now rewrite Fv.
  - f_equal. now apply IH.
Qed.

End SMapFacts.

(** ** Grouping of the results by scenario file in the final report *)
Module Grouping.
Import JS Eff Eff.Notations Types ReportGenerator SMapFacts.

Definition fileIs (k : string) (r : TestResult) : bool := String.eqb (tr_scenarioFile r) k.

(** The report that the grouping loop holds for file [k] after the
    results [seen]. *)
Definition reportFor (k : string) (seen : list TestResult) : option ScenarioReport :=
  match find (fileIs k) seen with
  | None => None
  | Some first =>
      Some {| rep_name := tr_scenario first; rep_file := k;
              rep_status := if existsb isPassed (filter (fileIs k) seen)
                            then test_passed else test_failed;
              rep_iterations := length (filter (fileIs k) seen);
              rep_results := filter (fileIs k) seen;
              rep_analyses := []; rep_fixes := [] |}
  end.

Definition grouped (reports : SMap.t ScenarioReport) (seen : list TestResult) : Prop :=
  NoDup (SMap.keys reports) /\ forall k, SMap.get reports k = reportFor k seen.

Lemma find_snoc {A} (p : A -> bool) l x :
  find p (l ++ [x]) = match find p l with
                      | Some y => Some y
                      | None => if p x then Some x else None
                      end.
Proof.
  induction l as [|y l IH]; simpl; [reflexivity|].
  destruct (p y); [reflexivity | exact IH].
Qed.

Lemma reportFor_snoc_other k seen r :
  tr_scenarioFile r <> k -> reportFor k (seen ++ [r]) = reportFor k seen.
Proof.
  intros N. unfold reportFor. rewrite find_snoc, filter_app. simpl.
  assert (E : fileIs k r = false) by (unfold fileIs; now apply String.eqb_neq).
  rewrite E, app_nil_r. destruct (find (fileIs k) seen); reflexivity.
Qed.

Lemma fileIs_refl r : fileIs (tr_scenarioFile r) r = true.
Proof. apply String.eqb_refl. Qed.

Lemma grouped_step reports seen r :
  grouped reports seen -> grouped (addResult reports r) (seen ++ [r]).
Proof.
  intros [ND G]. unfold addResult.
  set (key := tr_scenarioFile r).
  unfold SMap.has. rewrite (G key).
  destruct (reportFor key seen) as [rep|] eqn:R; cbv beta iota delta [negb].
  - (* the file already has a report *)
    rewrite (G key), R. split.
    + erewrite keys_set_present; [exact ND | rewrite G; exact R].
    + intros k. destruct (String.eqb key k) eqn:E.
      * apply String.eqb_eq in E. subst k. rewrite get_set_eq.
        assert (FR : fileIs key r = true) by apply fileIs_refl.
        unfold reportFor in *. rewrite find_snoc, filter_app. simpl.
        rewrite FR.
        destruct (find (fileIs key) seen) as [first|]; [|discriminate].
        inversion R; subst rep; simpl. unfold push.
        rewrite existsb_app, length_app. simpl. rewrite Nat.add_1_r.
        destruct (existsb isPassed (filter (fileIs key) seen)), (isPassed r);
          reflexivity.
      * apply String.eqb_neq in E. rewrite get_set_neq by exact E.
        rewrite reportFor_snoc_other by exact E. apply G.
  - (* first result of the file *)
    rewrite get_set_eq. split.
    + erewrite keys_set_present by apply get_set_eq.
      rewrite keys_set_absent by (rewrite G; exact R).
      apply NoDup_snoc; [exact ND|]. apply get_None_keys. rewrite G. exact R.
    + intros k. destruct (String.eqb key k) eqn:E.
      * apply String.eqb_eq in E. subst k. rewrite get_set_eq.
        assert (FR : fileIs key r = true) by apply fileIs_refl.
        unfold reportFor in *. rewrite find_snoc, filter_app. simpl.
        rewrite FR.
        destruct (find (fileIs key) seen) as [first|] eqn:Fd; [discriminate|].
        assert (Em : filter (fileIs key) seen = []).
        { clear -Fd. induction seen as [|x l IH]; simpl in *; [reflexivity|].
          destruct (fileIs key x); [discriminate | now apply IH]. }
        rewrite Em. simpl. unfold push. simpl.
        destruct (isPassed r); reflexivity.
      * apply String.eqb_neq in E. rewrite !get_set_neq by exact E.
        rewrite reportFor_snoc_other by exact E. apply G.
Qed.

Lemma grouped_fold results :
  forall reports seen,
    grouped reports seen ->
    grouped (fold_left addResult results reports) (seen ++ results).
Proof.
  induction results as [|r results IH]; intros reports seen G; simpl.
  - now rewrite app_nil_r.
  - change (r :: results) with ([r] ++ results)%list. rewrite app_assoc.
    apply IH. now apply grouped_step.
Qed.

Lemma grouped_results results : grouped (fold_left addResult results []) results.
Proof.
  apply (grouped_fold results [] []). split; [constructor | reflexivity].
Qed.

(** The fields of a report that the analysis and fix loops leave alone. *)
Definition core (rep : ScenarioReport) :=
  (rep_name rep, rep_file rep, rep_status rep, rep_iterations rep, rep_results rep).

Definition cores (reports : SMap.t ScenarioReport) :=
  map (fun kv => (fst kv, core (snd kv))) reports.

Lemma addAnalysis_cores reports a : cores (addAnalysis reports a) = cores reports.
Proof.
  unfold addAnalysis.
  destruct (SMap.get reports (an_scenarioFile a)) as [rep|] eqn:G; [|reflexivity].
  unfold cores. eapply map_set_same; [exact G | reflexivity].
Qed.

Lemma addFix_cores reports f : cores (addFix reports f) = cores reports.
Proof.
  unfold addFix.
  destruct (SMap.get reports (an_scenarioFile (fix_analysis f))) as [rep|] eqn:G;
    [|reflexivity].
  unfold cores. eapply map_set_same; [exact G | reflexivity].
Qed.

Lemma fold_cores {A} (step : SMap.t ScenarioReport -> A -> SMap.t ScenarioReport) :
  (forall m a, cores (step m a) = cores m) ->
  forall l m, cores (fold_left step l m) = cores m.
Proof.
  intros H l. induction l as [|a l IH]; intros m; simpl; [reflexivity|].
  now rewrite IH, H.
Qed.

Lemma cores_final state :
  cores (fold_left addFix (os_fixes state)
           (fold_left addAnalysis (os_analyses state)
              (fold_left addResult (os_results state) [])))
  = cores (fold_left addResult (os_results state) []).
Proof.
  rewrite (fold_cores addFix addFix_cores).
  now rewrite (fold_cores addAnalysis addAnalysis_cores).
Qed.

Lemma cores_keys m m' : cores m = cores m' -> SMap.keys m = SMap.keys m'.
Proof.
  unfold cores, SMap.keys. intros E.
  apply (f_equal (map fst)) in E. rewrite !map_map in E. exact E.
Qed.

Lemma cores_In m m' k rep :
  cores m = cores m' -> In (k, rep) m ->
  exists rep', In (k, rep') m' /\ core rep' = core rep.
Proof.
  intros E I.
  assert (I' : In (k, core rep) (cores m)).
  { unfold cores. apply in_map_iff. exists (k, rep). split; [reflexivity | exact I]. }
  rewrite E in I'. unfold cores in I'. apply in_map_iff in I'.
  destruct I' as ([k' rep'] & Eq & I2). cbn [fst snd] in Eq.
  assert (Ek : k' = k) by congruence.
  assert (Ec : core rep' = core rep) by congruence. subst k'.
  exists rep'. split; [exact I2 | exact Ec].
Qed.

Lemma find_fileIs_In k seen :
  (exists first, find (fileIs k) seen = Some first) <->
  In k (map tr_scenarioFile seen).
Proof.
  split.
  - intros (first & F). apply find_some in F. destruct F as [I E].
    apply String.eqb_eq in E. subst k. now apply in_map.
  - intros I. apply in_map_iff in I. destruct I as (r & E & I).
    destruct (find (fileIs k) seen) as [first|] eqn:F; [eauto|].
    exfalso. apply (find_none _ _ F) in I. unfold fileIs in I.
    subst k. now rewrite String.eqb_refl in I.
Qed.

(** Each entry of the final report is the grouping of one scenario file. *)
Lemma final_report_entry state k rep :
  In (k, rep)
     (fold_left addFix (os_fixes state)
        (fold_left addAnalysis (os_analyses state)
           (fold_left addResult (os_results state) []))) ->
  exists first,
    find (fileIs k) (os_results state) = Some first /\
    rep_file rep = k /\
    rep_results rep = filter (fileIs k) (os_results state) /\
    rep_iterations rep = length (filter (fileIs k) (os_results state)) /\
    rep_status rep = (if existsb isPassed (filter (fileIs k) (os_results state))
                      then test_passed else test_failed).
Proof.
  intros I.
  destruct (cores_In _ _ _ _ (cores_final state) I) as (rep' & I' & C).
  destruct (grouped_results (os_results state)) as [ND G].
  apply In_get in I'; [|exact ND]. rewrite G in I'. unfold reportFor in I'.
  destruct (find (fileIs k) (os_results state)) as [first|]; [|discriminate].
  exists first. inversion I'; subst rep'. unfold core in C. simpl in C.
  inversion C. repeat split; congruence.
Qed.

Lemma In_keys_get {V} (m : SMap.t V) k :
  In k (SMap.keys m) -> exists v, SMap.get m k = Some v.
Proof.
  unfold SMap.keys. induction m as [|[k0 v0] m IH]; simpl; [tauto|].
  intros [H|H].
  - subst k0. rewrite String.eqb_refl. eauto.
  - destruct (String.eqb k0 k); eauto.
Qed.

Lemma files_are_keys (m : SMap.t ScenarioReport) :
  (forall k rep, In (k, rep) m -> rep_file rep = k) ->
  map rep_file (SMap.values m) = SMap.keys m.
Proof.
  unfold SMap.values, SMap.keys. induction m as [|[k0 v0] m IH]; simpl; intros H.
  - reflexivity.
  - f_equal; [apply H; now left | apply IH; intros; apply H; now right].
Qed.

Lemma existsb_passed_filter k results :
  existsb isPassed (filter (fileIs k) results) = true <->
  exists r, In r results /\ tr_scenarioFile r = k /\ tr_status r = test_passed.
Proof.
  rewrite existsb_exists. split.
  - intros (r & I & P). apply filter_In in I. destruct I as [I F].
    exists r. repeat split; [exact I | now apply String.eqb_eq |].
    now apply TestStatus_eqb_eq.
  - intros (r & I & F & P). exists r. split.
    + apply filter_In. split; [exact I | now apply String.eqb_eq].
    + now apply TestStatus_eqb_eq.
Qed.

(** C8. The final report has exactly one ScenarioReport per scenario
    file occurring in the state's results; it holds the results of that
    file in order, and its status is passed if and only if at least one
    of these results has status passed, whatever their order, and failed
    otherwise. *)
Theorem report_status_passed_iff_any_attempt_passed
    (W : Type) isoNow dateParse writeReportFiles
    (state : OrchestratorState) (outputDir : string) (w w' : W) (report : FinalReport) :
  generateFinalReport W isoNow dateParse writeReportFiles state outputDir w
    = (Returned report, w') ->
  NoDup (map rep_file (fr_scenarios report)) /\
  (forall f, In f (map rep_file (fr_scenarios report)) <->
             In f (map tr_scenarioFile (os_results state))) /\
  forall rep, In rep (fr_scenarios report) ->
    rep_results rep
      = filter (fun r => String.eqb (tr_scenarioFile r) (rep_file rep)) (os_results state) /\
    (rep_status rep = test_passed <->
     exists r, In r (os_results state) /\ tr_scenarioFile r = rep_file rep /\
               tr_status r = test_passed) /\
    (rep_status rep = test_failed <->
     ~ exists r, In r (os_results state) /\ tr_scenarioFile r = rep_file rep /\
                 tr_status r = test_passed).
Proof.
  intros Run. apply generateFinalReport_value in Run.
  destruct Run as (endTime & duration & ->). unfold buildFinalReport. simpl.
  set (final := fold_left addFix _ _).
  assert (Entry : forall k rep, In (k, rep) final -> _) by
    (intros k rep; exact (final_report_entry state k rep)).
  assert (Files : map rep_file (SMap.values final) = SMap.keys final).
  { apply files_are_keys. intros k rep I.
    destruct (Entry k rep I) as (? & _ & F & _). exact F. }
  assert (Keys : SMap.keys final
                 = SMap.keys (fold_left addResult (os_results state) [])).
  { apply cores_keys. apply cores_final. }
  destruct (grouped_results (os_results state)) as [ND G].
  split; [|split].
  - rewrite Files, Keys. exact ND.
  - intros f. rewrite Files, Keys. rewrite <- find_fileIs_In. split.
    + intros I. apply In_keys_get in I. destruct I as (v & Gv).
      rewrite G in Gv. unfold reportFor in Gv.
      destruct (find (fileIs f) (os_results state)); [eauto | discriminate].
    + intros (first & Fd).
      destruct (SMap.get (fold_left addResult (os_results state) []) f) eqn:Gv.
      * apply get_Some_In in Gv. change f with (fst (f, s)). now apply in_map.
      * rewrite G in Gv. unfold reportFor in Gv. rewrite Fd in Gv. discriminate.
  - intros rep I. unfold SMap.values in I. apply in_map_iff in I.
    destruct I as ([k rep0] & E & I). simpl in E. subst rep0.
    destruct (Entry k rep I) as (first & _ & F & R & _ & St).
    rewrite F. split; [exact R|].
    rewrite St. rewrite <- existsb_passed_filter.
    destruct (existsb isPassed (filter (fileIs k) (os_results state)));
      split; split; congruence.
Qed.

(** The summary's iterations count is the state's [iteration] field, and
    fixesApplied is the number of Fix records in the state. *)
Lemma summary_reads_state
    (W : Type) isoNow dateParse writeReportFiles
    (state : OrchestratorState) (outputDir : string) (w w' : W) (report : FinalReport) :
  generateFinalReport W isoNow dateParse writeReportFiles state outputDir w
    = (Returned report, w') ->
  sum_iterations (fr_summary report) = os_iteration state /\
  fixesApplied (fr_summary report) = length (os_fixes state).
Proof.
  intros Run. apply generateFinalReport_value in Run.
  destruct Run as (endTime & duration & ->). split; reflexivity.
Qed.

Lemma report_status_passed_iff_any_attempt_passed_witness :
  exists report w',
    ReportGenerator.generateFinalReport Script.World Script.isoNow (fun _ => 0%Z)
      (fun _ _ => ret tt) (Script.finalState "retry" 5 false) "e2e/reports"
      Script.world0 = (Returned report, w') /\
    map (fun rep => (rep_file rep, rep_status rep, length (rep_results rep)))
        (fr_scenarios report) = [("save-workout.yaml", test_passed, 2%nat)] /\
    NoDup (map rep_file (fr_scenarios report)) /\
    (forall f, In f (map rep_file (fr_scenarios report)) <->
               In f (map tr_scenarioFile (os_results (Script.finalState "retry" 5 false)))) /\
    forall rep, In rep (fr_scenarios report) ->
      rep_results rep
        = filter (fun r => String.eqb (tr_scenarioFile r) (rep_file rep))
                 (os_results (Script.finalState "retry" 5 false)) /\
      (rep_status rep = test_passed <->
       exists r, In r (os_results (Script.finalState "retry" 5 false)) /\
                 tr_scenarioFile r = rep_file rep /\ tr_status r = test_passed) /\
      (rep_status rep = test_failed <->
       ~ exists r, In r (os_results (Script.finalState "retry" 5 false)) /\
                   tr_scenarioFile r = rep_file rep /\ tr_status r = test_passed).
Proof.
  eexists _, _. split; [vm_compute; reflexivity|].
  split; [vm_compute; reflexivity|].
  eapply (report_status_passed_iff_any_attempt_passed Script.World Script.isoNow
            (fun _ => 0%Z) (fun _ _ => ret tt) (Script.finalState "retry" 5 false)
            "e2e/reports" Script.world0).
  vm_compute. reflexivity.
Defined.

End Grouping.

(** ** The retry controller on the assembled harness *)
Module Retry.
Import JS Eff Eff.Notations Types Orchestrator SMapFacts.

Lemma set_keys_NoDup {V} (m : SMap.t V) k v :
  NoDup (SMap.keys m) -> NoDup (SMap.keys (SMap.set m k v)).
Proof.
  intros ND. destruct (SMap.get m k) as [v0|] eqn:G.
  - now rewrite (keys_set_present m k v v0 G).
  - rewrite (keys_set_absent m k v G). apply NoDup_snoc; [exact ND|].
    now apply get_None_keys.
Qed.

Lemma loadFiles_NoDup {S} (readYaml : string -> M S ScenarioParser.YamlDoc) pathJoin dir :
  forall files acc s scenarios s',
    NoDup (SMap.keys acc) ->
    ScenarioParser.loadFiles readYaml pathJoin dir files acc s = (Returned scenarios, s') ->
    NoDup (SMap.keys scenarios).
Proof.
  induction files as [|f files IH]; intros acc s scenarios s' ND Run.
  - inversion Run; subst. exact ND.
  - cbn [ScenarioParser.loadFiles] in Run.
    apply bind_Returned in Run. destruct Run as (sc & s1 & _ & Run).
    eapply IH; [|exact Run]. now apply set_keys_NoDup.
Qed.

Section Assembled.
Context {W : Type} (env : Harness.Env W) (input : OrchestratorInput).

Lemma loader_meets_contract dir w scenarios w' :
  Harness.loadAllScenarios env dir w = (Returned scenarios, w') ->
  NoDup (SMap.keys scenarios).
Proof.
  unfold Harness.loadAllScenarios, ScenarioParser.loadAllScenarios. intros Run.
  apply bind_Returned in Run. destruct Run as (entries & s1 & _ & Run).
  eapply loadFiles_NoDup; [|exact Run]. constructor.
Qed.

Lemma runner_meets_contract i w out w' :
  Harness.runTestRunner env i w = (Returned out, w') ->
  tr_scenarioFile (TestRunner.result out) = TestRunner.scenarioFile i /\
  (TestRunner.success out = true <-> tr_status (TestRunner.result out) = test_passed).
Proof. apply TestRunner.runTestRunner_contract. Qed.

(** A run of the orchestrator's body from the initial machine. *)
Lemma run_post w o m' :
  Harness.orchestrate env input (Harness.start env input w) = (o, m') ->
  exists new,
    os_results (state m') = new /\
    runPost W input (Harness.start env input w) o m' new.
Proof.
  intros Run. unfold Harness.orchestrate in Run.
  eapply orchestrate_post in Run;
    [| exact runner_meets_contract | exact loader_meets_contract].
  destruct Run as (new & R). exists new. split; [|exact R].
  destruct R as (R & _). rewrite R.
  unfold Harness.start, start. destruct (Harness.isoNow env w). reflexivity.
Qed.

End Assembled.

Example retried_scenario_run :
  map (fun r => (tr_scenarioFile r, tr_status r))
      (os_results (Script.finalState "retry" 5 false))
  = [("save-workout.yaml", test_failed); ("save-workout.yaml", test_passed)].
Proof. vm_compute. reflexivity. Qed.

(** The status the code computes: passed exactly when at least one
    attempt was recorded and every recorded attempt passed. *)
Lemma final_status_passed_iff_every_attempt_passed
    (W : Type) (env : Harness.Env W) (input : OrchestratorInput) (w : W)
    (out : OrchestratorOutput) (m' : Machine W) :
  Harness.orchestrate env input (Harness.start env input w) = (Returned out, m') ->
  (os_status (out_state out) = st_passed <->
   os_results (out_state out) <> [] /\
   Forall (fun r => tr_status r = test_passed) (os_results (out_state out))) /\
  (success out = true <-> os_status (out_state out) = st_passed).
Proof.
  intros Run. split.
  - unfold Harness.orchestrate in Run.
    eapply orchestrate_status in Run; [exact Run | exact (runner_meets_contract env) | |];
      unfold Harness.start, start; destruct (Harness.isoNow env w); simpl;
      [discriminate | reflexivity].
  - apply run_post in Run. destruct Run as (new & _ & _ & _ & _ & Eo & Su & _).
    rewrite Su, Eo. destruct (os_status (state m')); simpl; split; congruence.
Qed.

(** C3. With maxIterations at least 1, the orchestrator records at most
    maxIterations attempts (results) for any scenario file and its
    iteration counter never passes maxIterations, whether it returns or
    throws; and when it returns with some scenario file having
    maxIterations attempts none of which passed, the final status is
    max_retries (not failed) and success is false. *)
Theorem attempts_bounded_and_exhaustion_marked
    (W : Type) (env : Harness.Env W) (input : OrchestratorInput) (w : W)
    (o : outcome OrchestratorOutput) (m' : Machine W) :
  (1 <= maxIterations (orchestrator (config input)))%Z ->
  Harness.orchestrate env input (Harness.start env input w) = (o, m') ->
  (forall f,
     (Z.of_nat (attemptsOf f (os_results (state m')))
      <= maxIterations (orchestrator (config input)))%Z) /\
  (os_iteration (state m') <= maxIterations (orchestrator (config input)))%Z /\
  (forall out f,
     o = Returned out ->
     Z.of_nat (attemptsOf f (os_results (state m')))
       = maxIterations (orchestrator (config input)) ->
     (forall r, In r (os_results (state m')) -> tr_scenarioFile r = f ->
                tr_status r <> test_passed) ->
     out_state out = state m' /\
     os_status (out_state out) = max_retries /\
     success out = false).
Proof.
  intros M Run.
  assert (It : (os_iteration (state m') <= maxIterations (orchestrator (config input)))%Z).
  { unfold Harness.orchestrate in Run. apply orchestrate_iteration in Run.
    unfold iterationWithin, cfg in Run.
    assert (I0 : os_iteration (state (Harness.start env input w)) = 0%Z).
    { unfold Harness.start, start. destruct (Harness.isoNow env w). reflexivity. }
    rewrite I0 in Run. destruct Run as [H | H]; lia. }
  apply run_post in Run.
  destruct Run as (new & E & _ & B & _ & O). rewrite E. split; [|split].
  - intros f. specialize (B f). unfold cfg in B. lia.
  - exact It.
  - intros out f -> C NoP. destruct O as (Eo & Su & _ & _ & Exh).
    assert (St : os_status (state m') = max_retries).
    { apply (Exh M f); [unfold cfg; lia | exact NoP]. }
    split; [exact Eo|]. rewrite Eo, Su, St. split; reflexivity.
Qed.

Lemma no_pass_by_computation f l :
  forallb (fun r => negb (String.eqb (tr_scenarioFile r) f && isPassed r)) l = true ->
  forall r, In r l -> tr_scenarioFile r = f -> tr_status r <> test_passed.
Proof.
  intros H r I F P. rewrite forallb_forall in H. specialize (H r I).
  rewrite F, String.eqb_refl in H. unfold isPassed in H. rewrite P in H. discriminate.
Qed.

Lemma attempts_bounded_and_exhaustion_marked_witness :
  (Z.of_nat (attemptsOf "never.yaml" (os_results (Script.finalState "stuck" 2 false)))
   <= 2)%Z /\
  os_status (Script.finalState "stuck" 2 false) = max_retries.
Proof.
  pose proof (attempts_bounded_and_exhaustion_marked Script.World Script.env
                (Script.orchestratorInput "stuck" 2 false) Script.world0 _ _
                ltac:(simpl; lia) (surjective_pairing _)) as (Bound & _ & Marked).
  split; [exact (Bound "never.yaml")|].
  assert (Ho : exists out,
             fst (Harness.orchestrate Script.env
                    (Script.orchestratorInput "stuck" 2 false)
                    (Harness.start Script.env
                       (Script.orchestratorInput "stuck" 2 false) Script.world0))
             = Returned out) by (eexists; vm_compute; reflexivity).
  destruct Ho as (out & Ho).
  destruct (Marked out "never.yaml" Ho) as (Eo & St & _).
  - vm_compute. reflexivity.
  - apply no_pass_by_computation. vm_compute. reflexivity.
  - unfold Script.finalState. rewrite <- Eo. exact St.
Defined.

Lemma nothing_after_first_failure (passes tail : list TestResult) :
  Forall hasPassed passes ->
  (tail = [] \/ exists r, tail = [r] /\ notPassed r) ->
  forall pre r post,
    (passes ++ tail = pre ++ r :: post)%list -> notPassed r -> post = [].
Proof.
  intros Fp T. induction Fp as [|p ps Pp _ IH]; intros pre r post E NP.
  - simpl in E. destruct T as [-> | (r' & -> & _)].
    + destruct pre; discriminate.
    + destruct pre as [|a pre]; simpl in E.
      * now inversion E.
      * inversion E as [[Ea Er]]. destruct pre; discriminate.
  - destruct pre as [|a pre]; simpl in E.
    + inversion E; subst. contradiction.
    + inversion E; subst. eapply IH; eauto.
Qed.

(** With the flag set, maxIterations 3 and the two scenario files of
    ["batch"], the first attempt of save-workout.yaml fails: two retries
    remain and a fix has just been applied, yet the scenario is not
    retried and settings.yaml is never run. *)
Lemma stop_flag_abandons_scenario_with_retries_left :
  stopOnFirstFailure (orchestrator (config (Script.orchestratorInput "batch" 3 true)))
    = true /\
  length (os_scenarios (Script.finalState "batch" 3 true)) = 2%nat /\
  map (fun r => (tr_scenarioFile r, tr_status r))
      (os_results (Script.finalState "batch" 3 true))
    = [("save-workout.yaml", test_failed)] /\
  (os_iteration (Script.finalState "batch" 3 true)
   < maxIterations (orchestrator (config (Script.orchestratorInput "batch" 3 true))))%Z /\
  length (os_fixes (Script.finalState "batch" 3 true)) = 1%nat /\
  os_status (Script.finalState "batch" 3 true) = st_failed.
Proof. vm_compute. repeat split; reflexivity. Qed.

(** C5 (amended). When stopOnFirstFailure is set, the orchestrator stops
    processing the whole scenario batch at the first failed attempt of any
    scenario, whether or not that attempt was the last allowed one: in the
    accumulated results no attempt of any scenario follows an attempt that
    did not pass. *)
Theorem stop_flag_stops_at_first_failed_attempt
    (W : Type) (env : Harness.Env W) (input : OrchestratorInput) (w : W)
    (o : outcome OrchestratorOutput) (m' : Machine W) :
  stopOnFirstFailure (orchestrator (config input)) = true ->
  Harness.orchestrate env input (Harness.start env input w) = (o, m') ->
  forall pre r post,
    os_results (state m') = (pre ++ r :: post)%list ->
    tr_status r <> test_passed ->
    post = [].
Proof.
  intros S Run pre r post E NP. apply run_post in Run.
  destruct Run as (new & En & _ & _ & S5 & _).
  destruct (S5 S) as (passes & tail & Es & Fp & T).
  eapply (nothing_after_first_failure passes tail Fp T pre r post); [|exact NP].
  now rewrite <- Es, <- En.
Qed.

Lemma stop_flag_stops_at_first_failed_attempt_witness :
  stopOnFirstFailure (orchestrator (config (Script.orchestratorInput "late" 2 true)))
    = true /\
  map (fun r => (tr_scenarioFile r, tr_status r))
      (os_results (Script.finalState "late" 2 true))
    = [("settings.yaml", test_passed); ("never.yaml", test_failed)] /\
  os_results (Script.finalState "late" 2 true)
    = ([nth 0 (os_results (Script.finalState "late" 2 true)) (Classification.failedRun [])]
         ++ nth 1 (os_results (Script.finalState "late" 2 true)) (Classification.failedRun [])
         :: [])%list /\
  tr_status (nth 1 (os_results (Script.finalState "late" 2 true))
                 (Classification.failedRun [])) <> test_passed /\
  @nil TestResult = [].
Proof.
  unfold Script.finalState.
  split; [reflexivity|]. split; [vm_compute; reflexivity|].
  pose proof (stop_flag_stops_at_first_failed_attempt Script.World Script.env
                (Script.orchestratorInput "late" 2 true) Script.world0 _ _
                eq_refl (surjective_pairing _)) as H.
  match goal with
  | |- ?A = ?B /\ ?C /\ _ =>
      assert (E : A = B) by (vm_compute; reflexivity);
      assert (NP : C) by (vm_compute; discriminate)
  end.
  split; [exact E|]. split; [exact NP|]. exact (H _ _ _ E NP).
Defined.

(** C2, at a failing input. With maxIterations 5 and the single scenario
    file of ["retry"], the first attempt fails, the coding agent patches the application and the
    second attempt passes: the scenario ended in passed (the final report
    counts one passed and no failed scenario), yet the final status is
    failed and success is false. *)
Theorem retried_scenario_that_passes_yields_failed :
  map (fun r => (tr_scenarioFile r, tr_status r))
      (os_results (Script.finalState "retry" 5 false))
    = [("save-workout.yaml", test_failed); ("save-workout.yaml", test_passed)] /\
  os_status (Script.finalState "retry" 5 false) = st_failed /\
  (exists m',
     Harness.orchestrate Script.env (Script.orchestratorInput "retry" 5 false)
       (Harness.start Script.env (Script.orchestratorInput "retry" 5 false) Script.world0)
     = (Returned {| success := false;
                    out_state := Script.finalState "retry" 5 false;
                    out_codingAgentPrompts :=
                      ["You are a Coding Agent fixing a test failure."] |}, m')) /\
  (let summary :=
     fr_summary (ReportGenerator.buildFinalReport (Script.finalState "retry" 5 false)
                   "2025-01-01T00:00:00.000Z" 0) in
   (totalScenarios summary, sum_passed summary, sum_failed summary) = (1, 1, 0)%nat).
Proof.
  split; [vm_compute; reflexivity|]. split; [vm_compute; reflexivity|].
  split; [eexists; vm_compute; reflexivity | vm_compute; reflexivity].
Qed.

(** Two scenario files that both pass at the first attempt: two attempts
    were made in all, and the summary's iterations count is 1. *)
Lemma summary_iterations_is_not_the_total :
  exists report w',
    Harness.generateFinalReport Script.env (Script.finalState "green" 5 false)
      "e2e/reports" Script.world0 = (Returned report, w') /\
    map tr_scenarioFile (os_results (Script.finalState "green" 5 false))
      = ["history.yaml"; "settings.yaml"] /\
    sum_iterations (fr_summary report) = 1%Z /\
    sum_iterations (fr_summary report)
      <> Z.of_nat (length (os_results (Script.finalState "green" 5 false))).
Proof.
  eexists _, _. split; [vm_compute; reflexivity|].
  split; [vm_compute; reflexivity|]. split; [vm_compute; reflexivity|].
  vm_compute. discriminate.
Qed.

(** C9 (amended). In the final report of an orchestrator run, the
    summary's iterations count is the state's [iteration] field, which is
    the number of attempts made on the scenario processed last (the
    scenario file of the last result), not the total over all scenarios;
    fixesApplied is the number of Fix records accumulated. *)
Theorem summary_iterations_counts_last_scenario
    (W : Type) (env : Harness.Env W) (input : OrchestratorInput) (w w1 w2 : W)
    (out : OrchestratorOutput) (m' : Machine W) (report : FinalReport) :
  Harness.orchestrate env input (Harness.start env input w) = (Returned out, m') ->
  Harness.generateFinalReport env (out_state out) (reportsDir input) w1
    = (Returned report, w2) ->
  sum_iterations (fr_summary report) = os_iteration (out_state out) /\
  fixesApplied (fr_summary report) = length (os_fixes (out_state out)) /\
  (forall pre r,
     os_results (out_state out) = (pre ++ [r])%list ->
     sum_iterations (fr_summary report)
       = Z.of_nat (attemptsOf (tr_scenarioFile r) (os_results (out_state out)))).
Proof.
  intros Run Gen.
  apply Grouping.summary_reads_state in Gen. destruct Gen as [Gi Gf].
  apply run_post in Run. destruct Run as (new & En & _ & _ & _ & Eo & _ & _ & Il & _).
  split; [exact Gi|]. split; [exact Gf|].
  intros pre r E. rewrite Gi, Eo, En. apply (Il pre). now rewrite <- En, <- Eo.
Qed.

Lemma summary_iterations_counts_last_scenario_witness :
  exists out m' report w2,
    Harness.orchestrate Script.env (Script.orchestratorInput "stuck" 2 false)
      (Harness.start Script.env (Script.orchestratorInput "stuck" 2 false) Script.world0)
      = (Returned out, m') /\
    Harness.generateFinalReport Script.env (out_state out)
      (reportsDir (Script.orchestratorInput "stuck" 2 false)) Script.world0
      = (Returned report, w2) /\
    map tr_scenarioFile (os_results (out_state out))
      = ["never.yaml"; "never.yaml"; "settings.yaml"] /\
    sum_iterations (fr_summary report) = 1%Z /\
    sum_iterations (fr_summary report) = os_iteration (out_state out) /\
    fixesApplied (fr_summary report) = length (os_fixes (out_state out)) /\
    (forall pre r,
       os_results (out_state out) = (pre ++ [r])%list ->
       sum_iterations (fr_summary report)
         = Z.of_nat (attemptsOf (tr_scenarioFile r) (os_results (out_state out)))).
Proof.
  eexists _, _, _, _.
  split; [vm_compute; reflexivity|]. split; [vm_compute; reflexivity|].
  split; [vm_compute; reflexivity|]. split; [vm_compute; reflexivity|].
  eapply (summary_iterations_counts_last_scenario Script.World Script.env
            (Script.orchestratorInput "stuck" 2 false) Script.world0 Script.world0).
  - vm_compute. reflexivity.
  - vm_compute. reflexivity.
Defined.

End Retry.

(** ** What [validateScenario] accepts *)
Module Validation.
Import JS Types ScenarioParser.

(** The target and value requirements of one step. *)
Definition fieldsOk (step : ScenarioStep) : Prop :=
  (stepNeedsTarget (step_action step) = true -> truthyOpt (step_target step) = true) /\
  (step_action step = fill -> truthyOpt (step_value step) = true).

(** A scenario that needs no correction: a non-empty name, at least one
    step, every step with a non-empty id of its own, a target unless the
    action is wait or screenshot, and a value when the action is fill. *)
Definition wellFormed (scenario : Scenario) : Prop :=
  truthyOpt (sc_name scenario) = true /\
  sc_steps scenario <> [] /\
  (exists ids, map step_id (sc_steps scenario) = map Some ids /\
               Forall (fun i => truthy i = true) ids /\ NoDup ids) /\
  Forall fieldsOk (sc_steps scenario).

(** The same, in the order the loop checks it, with the ids seen so far. *)
Fixpoint stepsOk (seen : list string) (steps : list ScenarioStep) : Prop :=
  match steps with
  | [] => True
  | step :: rest =>
      match step_id step with
      | Some i => truthy i = true /\ ~ In i seen /\ fieldsOk step /\ stepsOk (i :: seen) rest
      | None => False
      end
  end.

Lemma existsb_eqb_false i l : existsb (String.eqb i) l = false <-> ~ In i l.
Proof.
  split.
  - intros E I. assert (T : existsb (String.eqb i) l = true).
    { apply existsb_exists. exists i. split; [exact I | apply String.eqb_refl]. }
    congruence.
  - intros N. destruct (existsb (String.eqb i) l) eqn:E; [|reflexivity].
    apply existsb_exists in E. destruct E as (x & I & E).
    apply String.eqb_eq in E. subst x. contradiction.
Qed.

Lemma validateSteps_extends steps :
  forall seen errors, exists extra,
    validateSteps steps seen errors = (errors ++ extra)%list.
Proof.
  induction steps as [|step rest IH]; intros seen errors; simpl.
  - exists []. now rewrite app_nil_r.
  - unfold push.
    destruct (step_id step) as [i|];
      [destruct (negb (truthy i)); [|destruct (existsb (String.eqb i) seen)]|];
      destruct (negb (truthyOpt (step_target step)) && stepNeedsTarget (step_action step));
      destruct (isFill (step_action step) && negb (truthyOpt (step_value step)));
      match goal with
      | |- context [validateSteps rest ?s ?e] =>
          destruct (IH s e) as (extra & E); rewrite E; clear E
      end;
      rewrite <- ?app_assoc; eauto.
Qed.

Lemma validateSteps_nil_start steps seen errors :
  validateSteps steps seen errors = [] -> errors = [].
Proof.
  destruct (validateSteps_extends steps seen errors) as (extra & E).
  rewrite E. intros H. now apply app_eq_nil in H.
Qed.

Lemma isFill_true a : isFill a = true <-> a = fill.
Proof. destruct a; simpl; split; congruence. Qed.

Lemma fieldsOk_checks step :
  fieldsOk step <->
  negb (truthyOpt (step_target step)) && stepNeedsTarget (step_action step) = false /\
  isFill (step_action step) && negb (truthyOpt (step_value step)) = false.
Proof.
  unfold fieldsOk. rewrite <- (isFill_true (step_action step)).
  destruct (truthyOpt (step_target step)), (stepNeedsTarget (step_action step)),
    (isFill (step_action step)), (truthyOpt (step_value step)); simpl; intuition congruence.
Qed.

Lemma validateSteps_clean steps :
  forall seen, validateSteps steps seen [] = [] <-> stepsOk seen steps.
Proof.
  induction steps as [|step rest IH]; intros seen; simpl.
  - tauto.
  - unfold push.
    destruct (step_id step) as [i|].
    + rewrite (fieldsOk_checks step).
      destruct (truthy i) eqn:T; simpl.
      * destruct (existsb (String.eqb i) seen) eqn:D.
        -- split.
           ++ intros H. apply validateSteps_nil_start in H.
              destruct (negb (truthyOpt (step_target step)) && stepNeedsTarget (step_action step)),
                (isFill (step_action step) && negb (truthyOpt (step_value step)));
                discriminate.
           ++ intros (_ & N & _). apply existsb_eqb_false in N. congruence.
        -- apply existsb_eqb_false in D.
           destruct (negb (truthyOpt (step_target step)) && stepNeedsTarget (step_action step));
             destruct (isFill (step_action step) && negb (truthyOpt (step_value step)));
             simpl;
             try (split; [intros H; apply validateSteps_nil_start in H; discriminate
                         | intros (_ & _ & [? ?] & _); discriminate]).
           rewrite IH. tauto.
      * split; [|intros (? & _); discriminate].
        intros H. apply validateSteps_nil_start in H.
        destruct (negb (truthyOpt (step_target step)) && stepNeedsTarget (step_action step)),
          (isFill (step_action step) && negb (truthyOpt (step_value step)));
          discriminate.
    + split; [|tauto].
      intros H. apply validateSteps_nil_start in H.
      destruct (negb (truthyOpt (step_target step)) && stepNeedsTarget (step_action step)),
        (isFill (step_action step) && negb (truthyOpt (step_value step)));
        discriminate.
Qed.

Lemma stepsOk_ids steps :
  forall seen,
    stepsOk seen steps <->
    (exists ids, map step_id steps = map Some ids /\
                 Forall (fun i => truthy i = true) ids /\ NoDup ids /\
                 forall i, In i ids -> ~ In i seen) /\
    Forall fieldsOk steps.
Proof.
  induction steps as [|step rest IH]; intros seen; simpl.
  - split; [intros _ | tauto].
    split; [exists []; repeat split; try constructor; intros ? [] | constructor].
  - destruct (step_id step) as [i|] eqn:Id.
    + rewrite IH. split.
      * intros (T & N & F & (ids & M & Tr & ND & Dis) & Fs).
        split; [|now constructor].
        exists (i :: ids). simpl. rewrite M. repeat split.
        -- now constructor.
        -- constructor; [|exact ND]. intros I. apply (Dis i I). now left.
        -- intros j [<- | J]; [exact N|]. intros S. apply (Dis j J). now right.
      * intros ((ids & M & Tr & ND & Dis) & Fs).
        destruct ids as [|j ids]; [discriminate|]. simpl in M.
        inversion M; subst j. inversion Tr; subst. inversion ND; subst.
        inversion Fs; subst.
        split; [assumption|]. split; [apply Dis; now left|].
        split; [assumption|]. split; [|assumption].
        exists ids. split; [assumption|]. split; [assumption|]. split; [assumption|].
        intros k K [<- | S]; [contradiction|]. apply (Dis k); [now right | exact S].
    + split; [tauto|]. intros ((ids & M & _) & _).
      destruct ids; discriminate.
Qed.

(** X1. [validateScenario] returns no error exactly for the scenarios
    with a non-empty name and at least one step, whose steps each have a
    non-empty id that no earlier step has, a non-empty target unless the
    action is wait or screenshot, and a non-empty value when the action
    is fill. (The base URL and the expectations are not looked at.) *)
Theorem validateScenario_accepts_exactly_wellFormed (scenario : Scenario) :
  validateScenario scenario = [] <-> wellFormed scenario.
Proof.
  unfold validateScenario, wellFormed, push.
  destruct (truthyOpt (sc_name scenario)) eqn:Name; simpl.
  - destruct (sc_steps scenario) as [|step rest] eqn:Steps.
    + simpl. split; [discriminate | intros (_ & N & _); now contradiction N].
    + rewrite validateSteps_clean, stepsOk_ids. split.
      * intros ((ids & M & T & ND & _) & Fs).
        repeat split; [discriminate | exists ids; auto | exact Fs].
      * intros (_ & _ & (ids & M & T & ND) & Fs).
        split; [exists ids; repeat split; auto | exact Fs].
  - split; [|intros (? & _); discriminate].
    intros H. apply validateSteps_nil_start in H.
    destruct (sc_steps scenario); discriminate.
Qed.

End Validation.

(** ** What the step and expectation parsers accept *)
Module StepParsing.
Import JS Eff Eff.Notations Types ScenarioParser.

(** The name of an expectation type in a scenario file. *)
Definition typeName (t : ExpectationType) : string :=
  match t with
  | url => "url" | url_contains => "url_contains" | visible => "visible"
  | not_visible => "not_visible" | input_value => "input_value"
  | text_content => "text_content" | element_count => "element_count"
  end.

Lemma get_action_name x a :
  SMap.get VALID_ACTIONS x = Some a -> Analyzer.actionName a = x.
Proof.
  unfold VALID_ACTIONS. cbn [SMap.get].
  repeat match goal with
         | |- context [String.eqb ?k x] =>
             let E := fresh "E" in
             destruct (String.eqb k x) eqn:E;
             [apply String.eqb_eq in E; intros H; inversion H; subst; reflexivity|]
         end.
  discriminate.
Qed.

Lemma get_action_none x :
  (forall a, Analyzer.actionName a <> x) -> SMap.get VALID_ACTIONS x = None.
Proof.
  intros N. destruct (SMap.get VALID_ACTIONS x) as [a|] eqn:G; [|reflexivity].
  apply get_action_name in G. now apply N in G.
Qed.

Lemma get_action_some a : SMap.get VALID_ACTIONS (Analyzer.actionName a) = Some a.
Proof. destruct a; reflexivity. Qed.

Lemma get_type_name x t : SMap.get EXPECTATION_TYPES x = Some t -> typeName t = x.
Proof.
  unfold EXPECTATION_TYPES. cbn [SMap.get].
  repeat match goal with
         | |- context [String.eqb ?k x] =>
             let E := fresh "E" in
             destruct (String.eqb k x) eqn:E;
             [apply String.eqb_eq in E; intros H; inversion H; subst; reflexivity|]
         end.
  discriminate.
Qed.

Lemma get_type_none x :
  (forall t, typeName t <> x) -> SMap.get EXPECTATION_TYPES x = None.
Proof.
  intros N. destruct (SMap.get EXPECTATION_TYPES x) as [t|] eqn:G; [|reflexivity].
  apply get_type_name in G. now apply N in G.
Qed.

Section Parse.
Context {S : Type}.

Lemma parseExpectation_state raw (s : S) o s' :
  parseExpectation raw s = (o, s') -> s' = s.
Proof.
  unfold parseExpectation, ret, throw.
  destruct raw as [str | entries].
  - destruct (splitAtColon str) as [[before after]|].
    + destruct (SMap.get EXPECTATION_TYPES (trim before)); intros H; now inversion H.
    + intros H; now inversion H.
  - destruct entries as [|[type value] rest]; [intros H; now inversion H|].
    destruct (SMap.get EXPECTATION_TYPES type); intros H; now inversion H.
Qed.

Lemma mapM_parseExpectation_state es :
  forall (s : S) o s', mapM parseExpectation es s = (o, s') -> s' = s.
Proof.
  induction es as [|e es IH]; intros s o s' Run; simpl in Run.
  - now inversion Run.
  - unfold bind at 1 in Run.
    destruct (parseExpectation e s) as [[x|msg] s1] eqn:P;
      apply parseExpectation_state in P; subst s1; [|now inversion Run].
    unfold bind at 1 in Run.
    destruct (mapM parseExpectation es s) as [[xs|msg] s2] eqn:R;
      apply IH in R; subst s2; now inversion Run.
Qed.

End Parse.

(** X2. The action of a raw step is matched without regard to case and
    stored in lower case; the id, target and value are copied as they
    are; the state is not touched. An action outside the seven is
    refused with a message that quotes the raw action and the step id. *)
Theorem parseStep_normalises_action
    (S : Type) (raw : RawStep) (rawAction : string) (s : S) :
  raw_action raw = Some rawAction ->
  (forall step s',
     parseStep raw s = (Returned step, s') ->
     s' = s /\
     Analyzer.actionName (step_action step) = toLowerCase rawAction /\
     step_id step = raw_id raw /\ step_target step = raw_target raw /\
     step_value step = raw_value raw) /\
  (forall a,
     Analyzer.actionName a = toLowerCase rawAction -> raw_expect raw = None ->
     parseStep raw s
       = (Returned {| step_id := raw_id raw; step_action := a;
                      step_target := raw_target raw; step_value := raw_value raw;
                      step_expect := None |}, s)) /\
  ((forall a, Analyzer.actionName a <> toLowerCase rawAction) ->
   parseStep raw s
     = (Threw ("Invalid action " ++ dq ++ rawAction ++ dq ++ " in step " ++ dq
                 ++ undefinedOr (raw_id raw) ++ dq
                 ++ ". Valid actions: click, fill, select, hover, wait, screenshot, navigate"),
        s)).
Proof.
  intros A. unfold parseStep. rewrite A. split; [|split].
  - intros step s' Run.
    destruct (SMap.get VALID_ACTIONS (toLowerCase rawAction)) as [a|] eqn:G;
      [|discriminate].
    apply get_action_name in G.
    apply bind_Returned in Run. destruct Run as (expect & s1 & E & Run).
    inversion Run; subst; simpl. split; [|auto].
    destruct (raw_expect raw) as [es|]; [|now inversion E].
    apply bind_Returned in E. destruct E as (es' & s2 & M & E).
    apply mapM_parseExpectation_state in M. inversion E; subst. reflexivity.
  - intros a N X. rewrite <- N, get_action_some, X. reflexivity.
  - intros N. now rewrite (get_action_none _ N).
Qed.

Lemma parseStep_normalises_action_witness :
  parseStep (mkRawStep (Some "open") (Some "Click") (Some "Settings") None None) tt
  = (Returned (mkStep (Some "open") click (Some "Settings") None None), tt) /\
  parseStep (mkRawStep (Some "open") (Some "tap") (Some "Settings") None None) tt
  = (Threw ("Invalid action " ++ dq ++ "tap" ++ dq ++ " in step " ++ dq ++ "open" ++ dq
              ++ ". Valid actions: click, fill, select, hover, wait, screenshot, navigate"),
     tt).
Proof.
  split.
  - apply (proj1 (proj2 (parseStep_normalises_action unit
             (mkRawStep (Some "open") (Some "Click") (Some "Settings") None None)
             "Click" tt eq_refl)) click); reflexivity.
  - apply (proj2 (proj2 (parseStep_normalises_action unit
             (mkRawStep (Some "open") (Some "tap") (Some "Settings") None None)
             "tap" tt eq_refl))).
    intros a. destruct a; discriminate.
Defined.

Lemma no_colon_splitAtColon s : includes s ":" = false <-> splitAtColon s = None.
Proof.
  induction s as [|c s IH]; cbn [includes startsWith splitAtColon orb]; [tauto|].
  rewrite andb_true_r.
  replace (Ascii.eqb ":" c) with (Ascii.eqb c ":") by apply Ascii.eqb_sym.
  destruct (Ascii.eqb c ":"); cbn [orb]; [split; discriminate|].
  rewrite IH. destruct (splitAtColon s) as [[a b]|]; split; congruence.
Qed.

Lemma splitAtColon_first before after :
  includes before ":" = false ->
  splitAtColon (before ++ ":" ++ after) = Some (before, after).
Proof.
  induction before as [|c before IH]; [reflexivity|].
  change (String c before ++ ":" ++ after) with (String c (before ++ ":" ++ after)).
  cbn [includes startsWith splitAtColon orb].
  rewrite andb_true_r.
  replace (Ascii.eqb ":" c) with (Ascii.eqb c ":") by apply Ascii.eqb_sym.
  destruct (Ascii.eqb c ":"); cbn [orb]; [discriminate|].
  intros N. now rewrite (IH N).
Qed.

(** X3. A string expectation is cut at its first colon: the text before it,
    trimmed, must be one of the seven type names (else it is refused with
    that text), and the text after it, trimmed, is the value, further
    colons included; a string with no colon is a visibility check on the
    whole string, untrimmed. The state is not touched. *)
Theorem parseExpectation_string_forms (S : Type) (s : S) :
  (forall ty before after,
     includes before ":" = false -> trim before = typeName ty ->
     parseExpectation (RawExpString (before ++ ":" ++ after)) s
       = (Returned (mkExpectation ty (trim after)), s)) /\
  (forall raw,
     includes raw ":" = false ->
     parseExpectation (RawExpString raw) s = (Returned (mkExpectation visible raw), s)) /\
  (forall before after,
     includes before ":" = false -> (forall ty, typeName ty <> trim before) ->
     parseExpectation (RawExpString (before ++ ":" ++ after)) s
       = (Threw ("Invalid expectation type " ++ dq ++ trim before ++ dq
                   ++ ". Valid types: url, url_contains, visible, not_visible, input_value, text_content, element_count"),
          s)).
Proof.
  split; [|split].
  - intros ty before after N T. unfold parseExpectation.
    rewrite (splitAtColon_first _ _ N), T.
    destruct ty; reflexivity.
  - intros raw N. unfold parseExpectation.
    apply no_colon_splitAtColon in N. now rewrite N.
  - intros before after N U. unfold parseExpectation.
    rewrite (splitAtColon_first _ _ N), (get_type_none _ U). reflexivity.
Qed.

Lemma parseExpectation_string_forms_witness :
  parseExpectation (RawExpString (" url " ++ ":" ++ " http://localhost:5173/history ")) tt
  = (Returned (mkExpectation url "http://localhost:5173/history"), tt) /\
  parseExpectation
    (RawExpString (("visible" ++ nbsp) ++ ":" ++ (nbsp ++ "Save" ++ nbsp))) tt
  = (Returned (mkExpectation visible "Save"), tt) /\
  parseExpectation (RawExpString " Save Workout") tt
  = (Returned (mkExpectation visible " Save Workout"), tt) /\
  parseExpectation (RawExpString ("Visible" ++ ":" ++ " Save")) tt
  = (Threw ("Invalid expectation type " ++ dq ++ "Visible" ++ dq
              ++ ". Valid types: url, url_contains, visible, not_visible, input_value, text_content, element_count"),
     tt).
Proof.
  destruct (parseExpectation_string_forms unit tt) as (A & B & C).
  split; [|split; [|split]].
  - apply (A url " url " " http://localhost:5173/history "); reflexivity.
  - apply (A visible ("visible" ++ nbsp) (nbsp ++ "Save" ++ nbsp)); reflexivity.
  - apply (B " Save Workout"). reflexivity.
  - apply (C "Visible" " Save"); [reflexivity|].
    intros ty. destruct ty; discriminate.
Defined.

End StepParsing.

(** ** Flattening of platform branches *)
Module PlatformFilter.
Import JS AppiumParser.

(** A step that the executor can dispatch on: a single-key object. *)
Definition isAction (step : TestStep) : Prop :=
  match step with StepObject _ _ => True | _ => False end.

Section NestedInduction.
Variable P : TestStep -> Prop.

Definition branchAll (o : option (list TestStep)) : Prop :=
  match o with Some l => Forall P l | None => True end.

Hypothesis onString : forall s, P (StepString s).
Hypothesis onScalar : P StepScalar.
Hypothesis onObject : forall key arg, P (StepObject key arg).
Hypothesis onPlatform :
  forall iosSteps androidSteps,
    branchAll iosSteps -> branchAll androidSteps -> P (PlatformStep iosSteps androidSteps).

Fixpoint TestStep_nested_ind (step : TestStep) : P step :=
  let all :=
    fix all (l : list TestStep) : Forall P l :=
      match l with
      | [] => Forall_nil P
      | x :: rest => Forall_cons x (TestStep_nested_ind x) (all rest)
      end in
  match step with
  | StepString s => onString s
  | StepScalar => onScalar
  | StepObject key arg => onObject key arg
  | PlatformStep iosSteps androidSteps =>
      onPlatform iosSteps androidSteps
        (match iosSteps return branchAll iosSteps with
         | Some l => all l
         | None => I
         end)
        (match androidSteps return branchAll androidSteps with
         | Some l => all l
         | None => I
         end)
  end.

End NestedInduction.

(** A step object that is not taken for a branch: its key is not
    [platform]. *)
Definition plain (step : TestStep) : bool :=
  match step with
  | StepObject key _ => negb (String.eqb key "platform")
  | _ => false
  end.

(** [step.platform[platform]], when it is a list. *)
Definition chosen (platform : Platform) (iosSteps androidSteps : option (list TestStep))
    : list TestStep :=
  match (match platform with ios => iosSteps | android => androidSteps end) with
  | Some platformSteps => platformSteps
  | None => []
  end.

(** What the filter lets through: step objects, and among those keyed
    [platform] only the one a bare string turns into. *)
Definition passes (step : TestStep) : Prop :=
  match step with
  | StepObject key arg => String.eqb key "platform" = true -> arg = ArgBool true
  | _ => False
  end.

Lemma filterStep_branch platform l :
  (fix go (l : list TestStep) : Eff.outcome (list TestStep) :=
     match l with
     | [] => Eff.Returned []
     | x :: rest => pushAll (filterStep platform x) (go rest)
     end) l
  = filterStepsForPlatform l platform.
Proof. induction l as [|x l IH]; cbn; [reflexivity | now rewrite IH]. Qed.

Lemma filterStep_PlatformStep platform iosSteps androidSteps :
  filterStep platform (PlatformStep iosSteps androidSteps)
  = filterStepsForPlatform (chosen platform iosSteps androidSteps) platform.
Proof.
  unfold chosen. cbn [filterStep].
  destruct (match platform with ios => iosSteps | android => androidSteps end) as [l|];
    [apply filterStep_branch | reflexivity].
Qed.

Lemma pushAll_nil_r x : pushAll x (Eff.Returned []) = x.
Proof. destruct x as [xs|m]; cbn; [now rewrite app_nil_r | reflexivity]. Qed.

Lemma pushAll_assoc x y z : pushAll x (pushAll y z) = pushAll (pushAll x y) z.
Proof.
  destruct x as [xs|m]; [|reflexivity].
  destruct y as [ys|m]; [|reflexivity].
  destruct z as [zs|m]; [|reflexivity].
  cbn. now rewrite app_assoc.
Qed.

Lemma pushAll_Returned x y l :
  pushAll x y = Eff.Returned l ->
  exists xs ys, x = Eff.Returned xs /\ y = Eff.Returned ys /\ l = (xs ++ ys)%list.
Proof.
  destruct x as [xs|m]; [|discriminate]. destruct y as [ys|m]; [|discriminate].
  cbn. intros E. inversion E. eauto.
Qed.

Lemma pushAll_Threw x y m :
  pushAll x y = Eff.Threw m -> x = Eff.Threw m \/ y = Eff.Threw m.
Proof.
  destruct x as [xs|m0]; [|cbn; intros E; inversion E; now left].
  destruct y as [ys|m0]; [discriminate|]. cbn. intros E. inversion E. now right.
Qed.

Lemma filter_app a b platform :
  filterStepsForPlatform (a ++ b) platform
  = pushAll (filterStepsForPlatform a platform) (filterStepsForPlatform b platform).
Proof.
  induction a as [|x a IH]; cbn [app filterStepsForPlatform].
  - now destruct (filterStepsForPlatform b platform).
  - now rewrite IH, pushAll_assoc.
Qed.

Lemma filter_plain steps platform :
  forallb plain steps = true -> filterStepsForPlatform steps platform = Eff.Returned steps.
Proof.
  induction steps as [|x l IH]; cbn [forallb filterStepsForPlatform]; [reflexivity|].
  intros H. apply andb_true_iff in H. destruct H as [Hx Hl]. rewrite (IH Hl).
  destruct x as [s| |key arg|i a]; try discriminate.
  cbn [plain] in Hx. apply negb_true_iff in Hx. cbn [filterStep]. now rewrite Hx.
Qed.

(** What one step contributes, and how it can fail. *)
Definition sound (platform : Platform) (o : Eff.outcome (list TestStep)) : Prop :=
  match o with
  | Eff.Returned l => Forall passes l
  | Eff.Threw msg => msg = nullPlatform platform
  end.

Lemma pushAll_sound platform x y :
  sound platform x -> sound platform y -> sound platform (pushAll x y).
Proof.
  destruct x as [xs|m]; [|now cbn]. destruct y as [ys|m]; [|now cbn].
  cbn. intros X Y. apply Forall_app. now split.
Qed.

Lemma filter_sound_list platform steps :
  Forall (fun step => sound platform (filterStep platform step)) steps ->
  sound platform (filterStepsForPlatform steps platform).
Proof.
  induction 1 as [|x l Hx _ IH]; cbn [filterStepsForPlatform]; [constructor|].
  now apply pushAll_sound.
Qed.

Lemma filterStep_sound platform step : sound platform (filterStep platform step).
Proof.
  induction step using TestStep_nested_ind.
  - cbn. constructor; [|constructor]. cbn. reflexivity.
  - cbn. constructor.
  - cbn [filterStep]. destruct (String.eqb key "platform") eqn:K.
    + destruct arg; cbn; try constructor; reflexivity.
    + cbn. constructor; [|constructor]. cbn. rewrite K. discriminate.
  - rewrite filterStep_PlatformStep. apply filter_sound_list. unfold chosen.
    destruct platform.
    + destruct iosSteps as [l|]; [assumption | constructor].
    + destruct androidSteps as [l|]; [assumption | constructor].
Qed.

Lemma filter_sound steps platform : sound platform (filterStepsForPlatform steps platform).
Proof.
  apply filter_sound_list. apply Forall_forall. intros step _. apply filterStep_sound.
Qed.

Lemma filter_again filtered platform :
  Forall passes filtered ->
  filterStepsForPlatform filtered platform = Eff.Returned (filter plain filtered).
Proof.
  induction 1 as [|x l Hx _ IH]; cbn [filterStepsForPlatform filter]; [reflexivity|].
  rewrite IH. destruct x as [s| |key arg|i a]; try contradiction.
  cbn [passes] in Hx. cbn [filterStep plain].
  destruct (String.eqb key "platform"); cbn [negb].
  - now rewrite (Hx eq_refl).
  - reflexivity.
Qed.

(** X4. [filterStepsForPlatform] works through the list in order; it
    replaces a platform branch by the filtered steps of the chosen
    platform (whatever the other platform holds), turns a bare string into
    a step object, drops other scalars and keeps a step object whose key
    is not [platform], so that a list of such objects is returned as it
    is. What it returns holds step objects only, and filtering that again
    returns it without its objects keyed [platform]. It throws only the
    TypeError of reading the platform of a [null]. *)
Theorem filterStepsForPlatform_replaces_branches (platform : Platform) :
  (forall a b,
     filterStepsForPlatform (a ++ b) platform
     = pushAll (filterStepsForPlatform a platform) (filterStepsForPlatform b platform)) /\
  (forall iosSteps androidSteps,
     filterStepsForPlatform [PlatformStep iosSteps androidSteps] platform
     = filterStepsForPlatform (chosen platform iosSteps androidSteps) platform) /\
  (forall s,
     filterStepsForPlatform [StepString s] platform
     = Eff.Returned [StepObject s (ArgBool true)]) /\
  filterStepsForPlatform [StepScalar] platform = Eff.Returned [] /\
  (forall steps,
     forallb plain steps = true ->
     filterStepsForPlatform steps platform = Eff.Returned steps) /\
  (forall steps filtered,
     filterStepsForPlatform steps platform = Eff.Returned filtered ->
     Forall isAction filtered /\
     filterStepsForPlatform filtered platform = Eff.Returned (filter plain filtered)) /\
  (forall steps msg,
     filterStepsForPlatform steps platform = Eff.Threw msg ->
     msg = nullPlatform platform).
Proof.
  split; [intros a b; apply filter_app|].
  split.
  { intros i a. cbn [filterStepsForPlatform].
    now rewrite pushAll_nil_r, filterStep_PlatformStep. }
  split; [reflexivity|]. split; [reflexivity|].
  split; [intros steps; apply filter_plain|].
  split.
  - intros steps filtered F.
    pose proof (filter_sound steps platform) as S. rewrite F in S. cbn [sound] in S.
    split; [|now apply filter_again].
    eapply Forall_impl; [|exact S]. intros [s| |key arg|i a]; cbn; tauto.
  - intros steps msg F.
    pose proof (filter_sound steps platform) as S. now rewrite F in S.
Qed.

Lemma filterStepsForPlatform_replaces_branches_witness :
  filterStepsForPlatform
    [StepObject "tap" (ArgString "Start"); StepObject "see" (ArgString "Home")] android
  = Eff.Returned
      [StepObject "tap" (ArgString "Start"); StepObject "see" (ArgString "Home")] /\
  (Forall isAction
     [StepObject "platform" (ArgBool true); StepObject "tap" (ArgString "Done");
      StepObject "see" (ArgString "Home")] /\
   filterStepsForPlatform
     [StepObject "platform" (ArgBool true); StepObject "tap" (ArgString "Done");
      StepObject "see" (ArgString "Home")] ios
   = Eff.Returned [StepObject "tap" (ArgString "Done"); StepObject "see" (ArgString "Home")]) /\
  "Cannot read properties of null (reading 'ios')" = nullPlatform ios.
Proof.
  pose proof (filterStepsForPlatform_replaces_branches android) as (_ & _ & _ & _ & P & _).
  pose proof (filterStepsForPlatform_replaces_branches ios) as (_ & _ & _ & _ & _ & R & T).
  split; [apply P; reflexivity|]. split.
  - apply (R [StepString "platform";
              PlatformStep (Some [StepObject "tap" (ArgString "Done");
                                  PlatformStep (Some [StepObject "see" (ArgString "Home")])
                                               None])
                           (Some [StepObject "tap" (ArgString "OK")]);
              StepScalar]).
    reflexivity.
  - apply (T [PlatformStep (Some [StepObject "platform" ArgNull]) None]). reflexivity.
Defined.

End PlatformFilter.

(** ** The shape of a mobile run's result *)
Module ExecutorResult.
Import JS Eff Eff.Notations AppiumParser TestExecutor.

Section Executor.
Variable W : Type.
Variable platform : Platform.
Variable driverAction : TestStep -> M (Executor W) unit.
Variable saveScreenshot : string -> M (Executor W) unit.
Variable dateNow : Executor W -> Z * Executor W.
Variable isoNow : Executor W -> string * Executor W.
Variable pathJoin : string -> string -> string.
Variable SCREENSHOT_DIR : string.

(** The loop variables agree with the results pushed so far: either no
    step failed yet and all results are passed, or exactly one result is
    failed, it carries the recorded error message, the ones before it are
    passed and the ones after it skipped. *)
Definition shape (st : LoopState) : Prop :=
  if failedFlag st then
    exists pre x post msg,
      stepResults st = (pre ++ x :: post)%list /\
      Forall (fun r => sr_status r = passed) pre /\
      sr_status x = failed /\ sr_error x = Some msg /\ errorMessage st = Some msg /\
      Forall (fun r => sr_status r = skipped) post
  else
    Forall (fun r => sr_status r = passed) (stepResults st) /\ errorMessage st = None.

Lemma executor_runSteps_shape name steps :
  forall st e st' e',
    shape st ->
    runSteps W platform driverAction saveScreenshot dateNow isoNow pathJoin SCREENSHOT_DIR
      name steps st e = (Returned st', e') ->
    shape st' /\
    map sr_step (stepResults st') = (map sr_step (stepResults st) ++ steps)%list.
Proof.
  induction steps as [|step rest IH]; intros st e st' e' Sh Run.
  - inversion Run; subst. split; [exact Sh | now rewrite app_nil_r].
  - simpl in Run. unfold shape in Sh. destruct (failedFlag st) eqn:Fl.
    + apply IH in Run.
      * destruct Run as [Sh' Mp]. split; [exact Sh'|].
        rewrite Mp. simpl. unfold push. rewrite map_app. simpl.
        now rewrite <- app_assoc.
      * unfold shape. simpl.
        destruct Sh as (pre & x & post & msg & E & P & Fx & Ex & Em & Sk).
        exists pre, x, (post ++ [mkStepResult step skipped 0 None])%list, msg.
        unfold push. rewrite E, <- app_assoc. simpl.
        repeat split; auto. apply Forall_app. split; [exact Sk | repeat constructor].
    + destruct Sh as [P Em].
      apply bind_Returned in Run. destruct Run as (stepStart & e1 & _ & Run).
      apply bind_Returned in Run. destruct Run as (st1 & e2 & Try & Run).
      apply IH in Run.
      * destruct Run as [Sh' Mp]. split; [exact Sh'|]. rewrite Mp.
        unfold tryCatch in Try.
        destruct (bind (executeStep W platform driverAction saveScreenshot isoNow
                          pathJoin SCREENSHOT_DIR step) _ e1) as [[stOk|msg] e3] eqn:Body.
        -- inversion Try; subst st1 e2.
           apply bind_Returned in Body. destruct Body as (? & ? & _ & Body).
           apply bind_Returned in Body. destruct Body as (? & ? & _ & Body).
           inversion Body; subst. simpl. unfold push. rewrite map_app. simpl.
           now rewrite <- app_assoc.
        -- apply bind_Returned in Try. destruct Try as (? & ? & _ & Try).
           apply bind_Returned in Try. destruct Try as (? & ? & _ & Try).
           inversion Try; subst. simpl. unfold push. rewrite map_app. simpl.
           now rewrite <- app_assoc.
      * unfold tryCatch in Try.
        destruct (bind (executeStep W platform driverAction saveScreenshot isoNow
                          pathJoin SCREENSHOT_DIR step) _ e1) as [[stOk|msg] e3] eqn:Body.
        -- inversion Try; subst st1 e2.
           apply bind_Returned in Body. destruct Body as (? & ? & _ & Body).
           apply bind_Returned in Body. destruct Body as (? & ? & _ & Body).
           inversion Body; subst. unfold shape. simpl. split; [|exact Em].
           apply Forall_app. split; [exact P | repeat constructor].
        -- apply bind_Returned in Try. destruct Try as (stepEnd & ? & _ & Try).
           apply bind_Returned in Try. destruct Try as (? & ? & _ & Try).
           inversion Try; subst. unfold shape. simpl.
           exists (stepResults st),
             (mkStepResult step failed (stepEnd - stepStart) (Some msg)), [], msg.
           repeat split; auto.
Qed.

End Executor.

(** X5. A run of the mobile executor needs an initialised driver (else it
    throws before touching anything). When it returns, the results are
    those of the platform-filtered steps, in order; the status is passed
    exactly when every step result is passed, with no error recorded;
    otherwise it is failed, exactly one step result is failed, and the
    result's error is that step's error. *)
Theorem executor_result_mirrors_steps
    (W : Type) (platform : Platform) driverAction saveScreenshot dateNow isoNow
    pathJoin (SCREENSHOT_DIR : string) (scenario : TestScenario) (e : Executor W) :
  (driver e = false ->
   runScenario W platform driverAction saveScreenshot dateNow isoNow pathJoin
     SCREENSHOT_DIR scenario e
   = (Threw "Driver not initialized. Call initialize() first.", e)) /\
  (forall result e',
     runScenario W platform driverAction saveScreenshot dateNow isoNow pathJoin
       SCREENSHOT_DIR scenario e = (Returned result, e') ->
     (exists steps,
        ts_steps scenario = Some steps /\
        filterStepsForPlatform steps platform = Returned (map sr_step (tr_steps result))) /\
     tr_scenario result = ts_name scenario /\
     ((tr_status result = passed /\ tr_error result = None /\
       Forall (fun r => sr_status r = passed) (tr_steps result)) \/
      (tr_status result = failed /\
       exists pre x post msg,
         tr_steps result = (pre ++ x :: post)%list /\
         Forall (fun r => sr_status r = passed) pre /\
         sr_status x = failed /\ sr_error x = Some msg /\ tr_error result = Some msg /\
         Forall (fun r => sr_status r = skipped) post))).
Proof.
  split.
  - intros D. unfold runScenario, bind, get. now rewrite D.
  - intros result e' Run. apply executor_runScenario_parts in Run.
    destruct Run as (l & steps & startTime & e1 & final & e2 & endTime
                     & _ & _ & St & F & Loop & _ & ->).
    cbn [tr_steps tr_scenario tr_status tr_error].
    apply executor_runSteps_shape in Loop;
      [|unfold shape; simpl; split; [constructor | reflexivity]].
    destruct Loop as [Sh Mp]. simpl in Mp.
    split; [exists l; split; [exact St | now rewrite Mp]|]. split; [reflexivity|].
    unfold shape in Sh. destruct (failedFlag final).
    + right. split; [reflexivity | exact Sh].
    + left. destruct Sh as [P Em]. auto.
Qed.

Lemma executor_result_mirrors_steps_witness :
  Script.runOnDevice Script.tapThenSee (mkExecutor Script.world0 false [])
  = (Threw "Driver not initialized. Call initialize() first.",
     mkExecutor Script.world0 false []) /\
  exists result e',
    Script.runOnDevice Script.tapThenSee Script.readyDevice = (Returned result, e') /\
    map (fun r => (sr_step r, sr_status r)) (tr_steps result)
    = [(StepObject "tap" (ArgString "Missing Button"), failed);
       (StepObject "see" (ArgString "Done"), skipped);
       (StepObject "back" (ArgBool true), skipped)] /\
    (exists steps,
       ts_steps Script.tapThenSee = Some steps /\
       filterStepsForPlatform steps ios = Returned (map sr_step (tr_steps result))) /\
    tr_scenario result = ts_name Script.tapThenSee /\
    ((tr_status result = passed /\ tr_error result = None /\
      Forall (fun r => sr_status r = passed) (tr_steps result)) \/
     (tr_status result = failed /\
      exists pre x post msg,
        tr_steps result = (pre ++ x :: post)%list /\
        Forall (fun r => sr_status r = passed) pre /\
        sr_status x = failed /\ sr_error x = Some msg /\ tr_error result = Some msg /\
        Forall (fun r => sr_status r = skipped) post)).
Proof.
  split.
  - apply (proj1 (executor_result_mirrors_steps Script.World ios Script.driverAction
                    (fun _ => ret tt) Script.deviceNow Script.deviceIso Script.pathJoin
                    "screenshots" Script.tapThenSee (mkExecutor Script.world0 false []))).
    reflexivity.
  - eexists _, _. split; [vm_compute; reflexivity|].
    split; [vm_compute; reflexivity|].
    eapply (proj2 (executor_result_mirrors_steps Script.World ios Script.driverAction
                    (fun _ => ret tt) Script.deviceNow Script.deviceIso Script.pathJoin
                    "screenshots" Script.tapThenSee Script.readyDevice)).
    vm_compute. reflexivity.
Defined.

End ExecutorResult.

(** ** The shape of a browser run's result *)
Module AdapterResult.
Import JS Eff Eff.Notations Types PlaywrightAdapter.

Definition describes (step : ScenarioStep) (r : StepResult) : Prop :=
  sr_id r = step_id step /\ sr_action r = step_action step /\ sr_target r = step_target step.

Definition passedClean (r : StepResult) : Prop :=
  sr_status r = passed /\ sr_error r = None.

Section Adapter.
Variable W : Type.
Variable config : TestRunnerConfig.
Variable pageGoto : string -> M (Adapter W) unit.
Variable waitForAppLoaded : Z -> M (Adapter W) unit.
Variable pageScreenshot : string -> bool -> M (Adapter W) unit.
Variable waitForTimeout : Z -> M (Adapter W) unit.
Variable executeAction : ScenarioStep -> M (Adapter W) unit.
Variable checkExpectation : Expectation -> M (Adapter W) ExpectationResult.
Variable ensureDir : string -> M (Adapter W) unit.
Variable dateNow : Adapter W -> Z * Adapter W.
Variable isoNow : Adapter W -> string * Adapter W.
Variable pathJoin : string -> string -> string.

(** [executeStep] never throws: whatever the page does, it returns a
    result for its step, passed without an error or failed with one. *)
Lemma executeStep_result step file dir a :
  exists r a',
    executeStep W config pageScreenshot waitForTimeout executeAction checkExpectation
      dateNow pathJoin step file dir a = (Returned r, a') /\
    describes step r /\
    (passedClean r \/ (sr_status r = failed /\ exists msg, sr_error r = Some msg)).
Proof.
  unfold executeStep. destruct (dateNow a) as [startTime a1].
  destruct (executeStepBody W config pageScreenshot waitForTimeout executeAction
              checkExpectation pathJoin step dir (a1, mkLocals None None None None))
    as [[u|msg] [a2 locals]].
  - destruct (dateNow a2) as [endTime a3]. eexists _, _. split; [reflexivity|].
    split; [unfold describes; simpl; auto | left; split; reflexivity].
  - destruct (dateNow a2) as [endTime a3]. eexists _, _. split; [reflexivity|].
    split; [unfold describes; simpl; auto | right; split; [reflexivity | simpl; eauto]].
Qed.

Definition failShot (dir : string) (x : StepResult) : string :=
  pathJoin dir (undefinedOr (sr_id x) ++ "-failure.png").

(** The loop variables agree with the results pushed so far. *)
Definition shape (dir : string) (st : LoopState) : Prop :=
  if shouldSkip st then
    overallStatus st = test_failed /\
    exists pre x post,
      stepResults st = (pre ++ x :: post)%list /\
      Forall passedClean pre /\
      sr_status x = failed /\ (exists msg, sr_error x = Some msg) /\
      Forall (fun r => sr_status r = skipped) post /\
      (screenshotOnFailure config = true ->
       exists shots, screenshots st = (shots ++ [failShot dir x])%list)
  else
    overallStatus st = test_passed /\ Forall passedClean (stepResults st).

Lemma adapter_runSteps_shape steps file dir :
  forall st a st' a',
    shape dir st ->
    runSteps W config pageScreenshot waitForTimeout executeAction checkExpectation
      dateNow pathJoin steps file dir st a = (Returned st', a') ->
    shape dir st' /\
    exists new,
      stepResults st' = (stepResults st ++ new)%list /\
      Forall2 describes steps new.
Proof.
  induction steps as [|step rest IH]; intros st a st' a' Sh Run.
  - inversion Run; subst. split; [exact Sh|].
    exists []. split; [now rewrite app_nil_r | constructor].
  - simpl in Run. unfold shape in Sh. destruct (shouldSkip st) eqn:Sk.
    + apply IH in Run.
      * destruct Run as [Sh' (new & E & D)]. split; [exact Sh'|].
        exists (skippedResult step :: new). simpl in E. unfold push in E.
        rewrite <- app_assoc in E. split; [exact E|].
        constructor; [repeat split | exact D].
      * unfold shape. simpl.
        destruct Sh as (St & pre & x & post & E & P & Fx & Ex & Skd & Shot).
        split; [exact St|].
        exists pre, x, (post ++ [skippedResult step])%list.
        unfold push. rewrite E, <- app_assoc. simpl.
        repeat split; auto. apply Forall_app. split; [exact Skd | repeat constructor].
    + destruct Sh as [St P].
      apply bind_Returned in Run. destruct Run as (r & a1 & Ex & Run).
      destruct (executeStep_result step file dir a) as (r0 & a0 & Ex0 & D & Out).
      rewrite Ex0 in Ex. inversion Ex; subst r0 a0. clear Ex.
      assert (Tail : forall st1 a2,
                 shape dir st1 ->
                 stepResults st1 = push (stepResults st) r ->
                 runSteps W config pageScreenshot waitForTimeout executeAction
                   checkExpectation dateNow pathJoin rest file dir st1 a2
                 = (Returned st', a') ->
                 shape dir st' /\
                 exists new,
                   stepResults st' = (stepResults st ++ new)%list /\
                   Forall2 describes (step :: rest) new).
      { intros st1 a2 Sh1 E1 Run1. apply IH in Run1; [|exact Sh1].
        destruct Run1 as [Sh' (new & E & Dn)]. split; [exact Sh'|].
        exists (r :: new). rewrite E, E1. unfold push. rewrite <- app_assoc.
        split; [reflexivity | now constructor]. }
      destruct Out as [[Ps Er] | [Fl Er]].
      * rewrite Ps in Run. eapply Tail; [ | | exact Run]; [|reflexivity].
        unfold shape. simpl. split; [exact St|].
        apply Forall_app. split; [exact P | repeat constructor; assumption].
      * rewrite Fl in Run.
        apply bind_Returned in Run. destruct Run as (shots2 & a2 & Sh2 & Run).
        eapply Tail; [ | | exact Run]; [|reflexivity].
        unfold shape. simpl. split; [reflexivity|].
        exists (stepResults st), r, []. repeat split; auto.
        intros On. rewrite On in Sh2.
        apply bind_Returned in Sh2. destruct Sh2 as (? & ? & _ & Sh2).
        inversion Sh2; subst. unfold push, failShot.
        destruct D as (Id & _). rewrite Id. eauto.
Qed.

End Adapter.

(** X6. When a browser run returns, its step results describe the scenario's
    steps one for one, in order. Either the status is passed and every
    step result is passed without an error; or the status is failed,
    exactly one step result is failed, it carries an error message, the
    results before it are passed and the ones after it skipped, and, when
    failure screenshots are on, the last screenshot of the run is that
    step's failure screenshot. *)
Theorem adapter_result_mirrors_steps
    (W : Type) (config : TestRunnerConfig) pageGoto waitForAppLoaded pageScreenshot
    waitForTimeout executeAction checkExpectation ensureDir dateNow isoNow pathJoin
    (scenario : Scenario) (file dir : string) (a a' : Adapter W) (result : TestResult) :
  runScenario W config pageGoto waitForAppLoaded pageScreenshot waitForTimeout
    executeAction checkExpectation ensureDir dateNow isoNow pathJoin scenario file dir a
    = (Returned result, a') ->
  Forall2 describes (sc_steps scenario) (tr_steps result) /\
  ((tr_status result = test_passed /\ Forall passedClean (tr_steps result)) \/
   (tr_status result = test_failed /\
    exists pre x post,
      tr_steps result = (pre ++ x :: post)%list /\
      Forall passedClean pre /\
      sr_status x = failed /\ (exists msg, sr_error x = Some msg) /\
      Forall (fun r => sr_status r = skipped) post /\
      (screenshotOnFailure config = true ->
       exists shots,
         tr_screenshots result
         = (shots ++ [pathJoin dir (undefinedOr (sr_id x) ++ "-failure.png")%string])%list))).
Proof.
  unfold runScenario. intros Run.
  repeat (apply bind_Returned in Run; destruct Run as (? & ? & ? & Run)).
  inversion Run; subst; simpl. clear Run.
  match goal with
  | H : runSteps _ _ _ _ _ _ _ _ _ _ _ _ _ = _ |- _ =>
      apply adapter_runSteps_shape in H;
        [destruct H as [Sh (new & E & D)]
        | unfold shape; simpl; split; [reflexivity | constructor]]
  end.
  simpl in E. subst. split; [exact D|].
  unfold shape in Sh. destruct (shouldSkip _).
  - right. exact Sh.
  - left. exact Sh.
Qed.

Lemma adapter_result_mirrors_steps_witness :
  exists result a',
    Script.runScenario Script.threeSteps "save-workout.yaml" "shots" Script.freshAdapter
    = (Returned result, a') /\
    map (fun r => (sr_id r, sr_status r)) (tr_steps result)
    = [(Some "start", passed); (Some "save", failed); (Some "done", skipped)] /\
    tr_screenshots result
    = ["shots/start.png"; "shots/save-failure.png"] /\
    Forall2 describes (sc_steps Script.threeSteps) (tr_steps result) /\
    ((tr_status result = test_passed /\ Forall passedClean (tr_steps result)) \/
     (tr_status result = test_failed /\
      exists pre x post,
        tr_steps result = (pre ++ x :: post)%list /\
        Forall passedClean pre /\
        sr_status x = failed /\ (exists msg, sr_error x = Some msg) /\
        Forall (fun r => sr_status r = skipped) post /\
        (screenshotOnFailure Script.runnerConfig = true ->
         exists shots,
           tr_screenshots result
           = (shots ++ [Script.pathJoin "shots" (undefinedOr (sr_id x) ++ "-failure.png")%string])%list))).
Proof.
  eexists _, _. split; [vm_compute; reflexivity|].
  split; [vm_compute; reflexivity|]. split; [vm_compute; reflexivity|].
  eapply (adapter_result_mirrors_steps Script.World Script.runnerConfig
            Script.quiet Script.quiet (fun _ _ => ret tt) Script.quiet
            (Script.executeAction Script.runnerConfig) Script.checkExpectation
            Script.quiet (TestRunner.onPage Script.World Script.dateNow)
            (TestRunner.onPage Script.World Script.isoNow) Script.pathJoin
            Script.threeSteps "save-workout.yaml" "shots" Script.freshAdapter).
  vm_compute. reflexivity.
Defined.

End AdapterResult.

(** ** Diagnosis by the analyzer *)
Module Diagnosis.
Import JS Eff Eff.Notations Types Regex Analyzer.

(** No line terminator occurs in the string. *)
Fixpoint oneLine (s : string) : bool :=
  match s with
  | EmptyString => true
  | String c s' => negb (isLineTerminator c) && oneLine s'
  end.

Lemma take_all s : take (String.length s) s = s.
Proof. induction s as [|c s IH]; simpl; [reflexivity | now rewrite IH]. Qed.

Lemma startsWithCI_app l rest : startsWithCI (l ++ rest) l = true.
Proof.
  induction l as [|c l IH]; simpl; [reflexivity|].
  now rewrite Ascii.eqb_refl.
Qed.

(** The string is empty or starts with a line terminator: the dot
    cannot go on. *)
Definition atBreak (s : string) : bool :=
  match s with
  | EmptyString => true
  | String c _ => isLineTerminator c
  end.

Lemma take_app l rest : take (String.length l) (l ++ rest) = l.
Proof. induction l as [|c l IH]; cbn; [now destruct rest | now rewrite IH]. Qed.

(** The greedy [.*] runs to the end of the line when the rest of the
    pattern accepts what follows. *)
Lemma anyStar_to_break {R} (k : string -> option R) line rest r :
  oneLine line = true -> atBreak rest = true -> k rest = Some r ->
  anyStar R k (line ++ rest) = Some r.
Proof.
  intros L B K. induction line as [|c line IH]; cbn [append].
  - destruct rest as [|c rest]; cbn in *; [exact K | now rewrite B].
  - cbn [oneLine] in L. apply andb_true_iff in L. destruct L as [C L].
    apply negb_true_iff in C. cbn [anyStar]. rewrite C. now rewrite (IH L).
Qed.

Lemma group_to_break {R} (k : string -> list string -> option R) line rest caps r :
  truthy line = true -> oneLine line = true -> atBreak rest = true ->
  k rest (push caps line) = Some r ->
  matchAt R (Group AnyPlus) k (line ++ rest) caps = Some r.
Proof.
  intros T L B K. destruct line as [|c t]; [discriminate|].
  cbn [matchAt append]. cbn [oneLine] in L.
  apply andb_true_iff in L. destruct L as [C L].
  apply negb_true_iff in C. rewrite C.
  apply anyStar_to_break; [exact L | exact B |].
  change (String c (t ++ rest)) with (String c t ++ rest).
  rewrite string_length_app, Nat.add_sub, take_app. exact K.
Qed.

Lemma search_here r s caps :
  matchAt _ r (fun _ caps => Some caps) s [] = Some caps -> search r s = Some caps.
Proof. intros H. destruct s; simpl; now rewrite H. Qed.

Definition notFound : re :=
  Seq (Lit "Could not find ")
      (Seq (Alt (Lit "clickable") (Lit "fillable"))
           (Seq (Lit " element: ") (Group AnyPlus))).

Lemma search_clickable line rest :
  truthy line = true -> oneLine line = true -> atBreak rest = true ->
  search notFound ("Could not find clickable element: " ++ line ++ rest) = Some [line].
Proof.
  intros T L B. apply search_here.
  change ("Could not find clickable element: " ++ line ++ rest)
    with ("Could not find " ++ ("clickable" ++ (" element: " ++ (line ++ rest)))).
  unfold notFound. cbn [matchAt].
  repeat (progress (rewrite ?startsWithCI_app, ?slice_app)).
  assert (G : matchAt (list string) (Group AnyPlus) (fun _ caps => Some caps)
                (line ++ rest) [] = Some [line]) by now apply group_to_break.
  cbn [matchAt] in G. rewrite G. reflexivity.
Qed.

Lemma search_fillable line rest :
  truthy line = true -> oneLine line = true -> atBreak rest = true ->
  search notFound ("Could not find fillable element: " ++ line ++ rest) = Some [line].
Proof.
  intros T L B. apply search_here.
  change ("Could not find fillable element: " ++ line ++ rest)
    with ("Could not find " ++ ("fillable" ++ (" element: " ++ (line ++ rest)))).
  unfold notFound. cbn [matchAt].
  repeat (progress (rewrite ?startsWithCI_app, ?slice_app)).
  change (startsWithCI ("fillable" ++ " element: " ++ line ++ rest) "clickable") with false.
  cbv iota.
  assert (G : matchAt (list string) (Group AnyPlus) (fun _ caps => Some caps)
                (line ++ rest) [] = Some [line]) by now apply group_to_break.
  cbn [matchAt] in G. rewrite G. reflexivity.
Qed.

Lemma find_none_all {A} (p : A -> bool) l :
  (forall x, In x l -> p x = false) -> find p l = None.
Proof.
  induction l as [|x l IH]; simpl; intros H; [reflexivity|].
  rewrite (H x (or_introl eq_refl)). apply IH. intros y I. apply H. now right.
Qed.

(** X7. When no console error contains ["Error"]: the first network error,
    if there is one, decides (category network); otherwise a step that
    failed without an error message is put down as selector with a stock
    root cause, and the runner's own element-not-found message is
    diagnosed as selector with the first line of the target quoted (the
    whole target when it has no line break), provided that line is not
    empty. *)
Theorem analyzeError_after_console (failedStep : StepResult) (testResult : TestResult) :
  (forall e, In e (tr_consoleErrors testResult) -> includes e "Error" = false) ->
  (forall n rest,
     tr_networkErrors testResult = n :: rest ->
     analyzeError failedStep testResult = (network, "Network failure: " ++ n)) /\
  (tr_networkErrors testResult = [] ->
   (truthyOpt (sr_error failedStep) = false ->
    analyzeError failedStep testResult
      = (selector, "Unknown error - step failed without specific error message")) /\
   (forall kind line rest,
      kind = "clickable" \/ kind = "fillable" ->
      truthy line = true -> oneLine line = true -> atBreak rest = true ->
      sr_error failedStep
        = Some ("Could not find " ++ kind ++ " element: " ++ line ++ rest) ->
      analyzeError failedStep testResult
        = (selector,
           "Element " ++ dq ++ line ++ dq
             ++ " not found - selector may be incorrect or element not rendered"))).
Proof.
  intros Quiet.
  assert (F : (if (0 <? length (tr_consoleErrors testResult))%nat
               then find (fun e => includes e "Error") (tr_consoleErrors testResult)
               else None) = None).
  { destruct (0 <? _)%nat; [now apply find_none_all | reflexivity]. }
  unfold analyzeError. rewrite F. split.
  - intros n rest N. now rewrite N.
  - intros N. rewrite N. split.
    + intros E.
      assert (Em : match sr_error failedStep with Some e => e | None => EmptyString end
                   = EmptyString).
      { destruct (sr_error failedStep) as [[|c e]|]; [reflexivity | discriminate | reflexivity]. }
      rewrite Em. reflexivity.
    + intros kind line rest K T L B E. rewrite E.
      change FAILURE_PATTERNS
        with ((notFound, selector,
               fun m => "Element " ++ dq ++ capture m 1 ++ dq
                          ++ " not found - selector may be incorrect or element not rendered")
              :: tl FAILURE_PATTERNS).
      cbn [matchPatterns].
      destruct K as [-> | ->].
      * change ("Could not find " ++ "clickable" ++ " element: " ++ line ++ rest)
          with ("Could not find clickable element: " ++ line ++ rest).
        now rewrite (search_clickable line rest T L B).
      * change ("Could not find " ++ "fillable" ++ " element: " ++ line ++ rest)
          with ("Could not find fillable element: " ++ line ++ rest).
        now rewrite (search_fillable line rest T L B).
Qed.

Lemma analyzeError_after_console_witness :
  analyzeError Classification.failedSave
    {| tr_scenario := Some "Save workout"; tr_scenarioFile := "save-workout.yaml";
       tr_status := test_failed; tr_duration := 420;
       tr_steps := [Classification.failedSave]; tr_screenshots := [];
       tr_consoleErrors := [Classification.resource404];
       tr_networkErrors := ["GET http://localhost:5173/api/workouts - net::ERR_FAILED"];
       tr_timestamp := "2025-01-01T00:00:00.000Z" |}
  = (network, "Network failure: GET http://localhost:5173/api/workouts - net::ERR_FAILED") /\
  analyzeError Classification.failedSave
    (Classification.failedRun [Classification.resource404])
  = (selector,
     "Element " ++ dq ++ "Save Workout" ++ dq
       ++ " not found - selector may be incorrect or element not rendered") /\
  analyzeError
    {| sr_id := Some "pick"; sr_action := click; sr_target := Some "Bench press";
       sr_status := failed; sr_duration := 5012;
       sr_error := Some ("Could not find clickable element: Bench press" ++ nl ++ "3 x 10");
       sr_screenshot := None; sr_actualValue := None; sr_expectedValue := None |}
    (Classification.failedRun [Classification.resource404])
  = (selector,
     "Element " ++ dq ++ "Bench press" ++ dq
       ++ " not found - selector may be incorrect or element not rendered").
Proof.
  split; [|split].
  - eapply (proj1 (analyzeError_after_console Classification.failedSave _ _)).
    reflexivity.
  - eapply (proj2 (proj2 (analyzeError_after_console Classification.failedSave
                            (Classification.failedRun [Classification.resource404]) _)
                     eq_refl)
              "clickable" "Save Workout" EmptyString); try reflexivity. now left.
  - eapply (proj2 (proj2 (analyzeError_after_console _
                            (Classification.failedRun [Classification.resource404]) _)
                     eq_refl)
              "clickable" "Bench press" (nl ++ "3 x 10")); try reflexivity. now left.
  Unshelve.
  + intros e [<- | []]. reflexivity.
  + intros e [<- | []]. reflexivity.
  + intros e [<- | []]. reflexivity.
Defined.


(** *** The files an analysis points at *)

Lemma In_firstn {A} n (l : list A) x : In x (firstn n l) -> In x l.
Proof.
  revert n. induction l as [|y l IH]; intros [|n]; simpl; try tauto.
  intros [H | H]; [now left | right; now apply (IH n)].
Qed.

Lemma NoDup_firstn {A} n (l : list A) : NoDup l -> NoDup (firstn n l).
Proof.
  intros ND. revert n. induction ND as [|y l N _ IH]; intros [|n]; simpl; try constructor.
  - intros I. apply N. now apply In_firstn in I.
  - apply IH.
Qed.

Lemma Forall_firstn {A} (P : A -> Prop) n l : Forall P l -> Forall P (firstn n l).
Proof.
  rewrite !Forall_forall. intros H x I. apply H. now apply In_firstn in I.
Qed.

Lemma existsb_eqb_In x l : existsb (String.eqb x) l = false -> ~ In x l.
Proof.
  intros E I. assert (T : existsb (String.eqb x) l = true).
  { apply existsb_exists. exists x. split; [exact I | apply String.eqb_refl]. }
  congruence.
Qed.

(** Every file the tables of the analyzer can name. *)
Definition knownFiles : list string := flat_map snd FILE_MAPPINGS.

Section Files.
Variable W : Type.
Variable existsSync : W -> string -> bool.
Variable pathJoin : string -> string -> string.
Variable w : W.
Variable projectRoot : string.

Definition present (file : string) : Prop :=
  existsSync w (pathJoin projectRoot file) = true /\ In file knownFiles.

Lemma addExisting_keeps mapped :
  forall acc,
    (forall f, In f mapped -> In f knownFiles) ->
    NoDup acc -> Forall present acc ->
    NoDup (addExisting W existsSync pathJoin w projectRoot true acc mapped) /\
    Forall present (addExisting W existsSync pathJoin w projectRoot true acc mapped).
Proof.
  unfold addExisting.
  induction mapped as [|file mapped IH]; intros acc K ND P; simpl; [now split|].
  apply IH.
  - intros f I. apply K. now right.
  - destruct (existsSync w (pathJoin projectRoot file)) eqn:E; simpl; [|exact ND].
    destruct (existsb (String.eqb file) acc) eqn:D; simpl; [exact ND|].
    apply SMapFacts.NoDup_snoc; [exact ND | now apply existsb_eqb_In].
  - destruct (existsSync w (pathJoin projectRoot file)) eqn:E; simpl; [|exact P].
    destruct (existsb (String.eqb file) acc) eqn:D; simpl; [exact P|].
    apply Forall_app. split; [exact P|]. constructor; [|constructor].
    split; [exact E | apply K; now left].
Qed.

Lemma mappings_keep (searchTerms : string) maps :
  forall acc,
    (forall m, In m maps -> forall f, In f (snd m) -> In f knownFiles) ->
    NoDup acc -> Forall present acc ->
    NoDup (fold_left
             (fun acc mapping =>
                if test (fst mapping) searchTerms
                then addExisting W existsSync pathJoin w projectRoot true acc (snd mapping)
                else acc) maps acc) /\
    Forall present
      (fold_left
         (fun acc mapping =>
            if test (fst mapping) searchTerms
            then addExisting W existsSync pathJoin w projectRoot true acc (snd mapping)
            else acc) maps acc).
Proof.
  induction maps as [|m maps IH]; intros acc K ND P; simpl; [now split|].
  destruct (test (fst m) searchTerms).
  - destruct (addExisting_keeps (snd m) acc) as [ND' P']; auto.
    { apply K. now left. }
    apply IH; auto. intros m' I. apply K. now right.
  - apply IH; auto. intros m' I. apply K. now right.
Qed.

Lemma In_by_eqb x l : existsb (String.eqb x) l = true -> In x l.
Proof.
  intros E. apply existsb_exists in E. destruct E as (y & I & E).
  apply String.eqb_eq in E. now subst y.
Qed.

Lemma defaults_keep :
  NoDup (addExisting W existsSync pathJoin w projectRoot false []
           ["src/App.tsx"; "src/pages/HomePage.tsx"]) /\
  Forall present (addExisting W existsSync pathJoin w projectRoot false []
                    ["src/App.tsx"; "src/pages/HomePage.tsx"]).
Proof.
  assert (KA : In "src/App.tsx" knownFiles) by (apply In_by_eqb; vm_compute; reflexivity).
  assert (KH : In "src/pages/HomePage.tsx" knownFiles)
    by (apply In_by_eqb; vm_compute; reflexivity).
  assert (D : ~ In "src/App.tsx" ["src/pages/HomePage.tsx"]).
  { intros [E | []]. discriminate E. }
  unfold addExisting, push. cbn [fold_left andb negb app].
  destruct (existsSync w (pathJoin projectRoot "src/App.tsx")) eqn:A;
    destruct (existsSync w (pathJoin projectRoot "src/pages/HomePage.tsx")) eqn:H;
    cbn [andb negb app]; split.
  - constructor; [exact D | constructor; [intros [] | constructor]].
  - constructor; [now split | constructor; [now split | constructor]].
  - constructor; [intros [] | constructor].
  - constructor; [now split | constructor].
  - constructor; [intros [] | constructor].
  - constructor; [now split | constructor].
  - constructor.
  - constructor.
Qed.

End Files.

(** X8. For a failed step that has a target and an id, the affected files
    are computed without touching anything: at most five, no file twice,
    each one named by the analyzer's tables and present under the project
    root. A step without a target or without an id makes it throw. *)
Theorem identifyAffectedFiles_bounded
    (W : Type) (existsSync : W -> string -> bool) (pathJoin : string -> string -> string)
    (failedStep : StepResult) (projectRoot : string) (w : W) :
  (forall target id,
     sr_target failedStep = Some target -> sr_id failedStep = Some id ->
     exists files,
       identifyAffectedFiles W existsSync pathJoin failedStep projectRoot w
         = (Returned files, w) /\
       (length files <= 5)%nat /\ NoDup files /\
       Forall (fun f => existsSync w (pathJoin projectRoot f) = true /\ In f knownFiles)
              files) /\
  (sr_target failedStep = None \/ sr_id failedStep = None ->
   identifyAffectedFiles W existsSync pathJoin failedStep projectRoot w
     = (Threw "Cannot read properties of undefined (reading 'toLowerCase')", w)).
Proof.
  split.
  - intros target id T I. unfold identifyAffectedFiles. rewrite T, I.
    unfold bind, get, ret.
    eexists. split; [reflexivity|]. split; [apply firstn_le_length|].
    destruct (mappings_keep W existsSync pathJoin w projectRoot
                (toLowerCase target ++ " " ++ toLowerCase id) FILE_MAPPINGS [])
      as [ND P];
      [ intros m Im file Ifile; unfold knownFiles; apply in_flat_map; eauto
      | constructor | constructor | ].
    destruct (defaults_keep W existsSync pathJoin w projectRoot) as [ND0 P0].
    destruct (fold_left _ FILE_MAPPINGS []) as [|f files].
    + split; [now apply NoDup_firstn | now apply Forall_firstn].
    + split; [now apply NoDup_firstn | now apply Forall_firstn].
  - intros [T | I]; unfold identifyAffectedFiles.
    + now rewrite T.
    + rewrite I. destruct (sr_target failedStep); reflexivity.
Qed.

Lemma identifyAffectedFiles_bounded_witness :
  exists files,
    identifyAffectedFiles Script.World (fun _ _ => true) Script.pathJoin
      Classification.failedSave "/app" Script.world0 = (Returned files, Script.world0) /\
    files = ["src/pages/HomePage.tsx"; "src/components/workout/ExerciseCard.tsx";
             "src/components/workout/ExerciseList.tsx"; "src/stores/workoutStore.ts"] /\
    (length files <= 5)%nat /\ NoDup files.
Proof.
  destruct (proj1 (identifyAffectedFiles_bounded Script.World (fun _ _ => true)
                     Script.pathJoin Classification.failedSave "/app" Script.world0)
              "Save Workout" "save" eq_refl eq_refl) as (files & Run & Len & ND & _).
  exists files. split; [exact Run|].
  split; [|split; assumption].
  vm_compute in Run. now inversion Run.
Defined.


(** *** The analysis as a whole *)

Lemma find_first {A} (p : A -> bool) l x :
  find p l = Some x ->
  exists pre post,
    l = (pre ++ x :: post)%list /\ Forall (fun y => p y = false) pre /\ p x = true.
Proof.
  induction l as [|y l IH]; simpl; [discriminate|].
  destruct (p y) eqn:Py.
  - intros E. inversion E; subst. exists [], l. repeat split; [constructor | exact Py].
  - intros F. destruct (IH F) as (pre & post & E & N & Px).
    exists (y :: pre), post. subst l. repeat split; [now constructor | exact Px].
Qed.

Lemma failed_eqb_false s : StepStatus_eqb (sr_status s) failed = false <-> sr_status s <> failed.
Proof. destruct (sr_status s); simpl; split; congruence. Qed.

Lemma identifyAffectedFiles_length
    (W : Type) existsSync pathJoin failedStep projectRoot (w w' : W) files :
  identifyAffectedFiles W existsSync pathJoin failedStep projectRoot w
    = (Returned files, w') ->
  (length files <= 5)%nat.
Proof.
  unfold identifyAffectedFiles.
  destruct (sr_target failedStep) as [target|]; [|discriminate].
  destruct (sr_id failedStep) as [id|]; [|discriminate].
  unfold bind, get, ret. intros E.
  remember (firstn 5 _) as found eqn:Found in E.
  injection E as <- _. subst found. apply firstn_le_length.
Qed.

Lemma runAnalyzer_no_failed_step
    (W : Type) existsSync pathJoin isoNow generateAnalysisReport
    (testResult : TestResult) (projectRoot reportsDir : string) (w : W) :
  Forall (fun s => sr_status s <> failed) (tr_steps testResult) ->
  runAnalyzer W existsSync pathJoin isoNow generateAnalysisReport
    testResult projectRoot reportsDir w
  = (Threw "No failed step found in test result", w).
Proof.
  intros NF. unfold runAnalyzer.
  rewrite find_none_all; [reflexivity|].
  intros s I. apply failed_eqb_false.
  rewrite Forall_forall in NF. now apply NF.
Qed.

(** X9. The analyzer needs a failed step: on a result none of whose steps is
    failed it throws before reading anything. When it returns, the
    analysis is about the first failed step of the result: it names that
    step's id, the result's scenario and file, the category and root
    cause that [analyzeError] gives for that step, and at most five
    affected files. *)
Theorem runAnalyzer_reports_first_failed_step
    (W : Type) existsSync pathJoin isoNow generateAnalysisReport
    (testResult : TestResult) (projectRoot reportsDir : string) (w : W) :
  (Forall (fun s => sr_status s <> failed) (tr_steps testResult) ->
   runAnalyzer W existsSync pathJoin isoNow generateAnalysisReport
     testResult projectRoot reportsDir w
   = (Threw "No failed step found in test result", w)) /\
  (forall out w',
     runAnalyzer W existsSync pathJoin isoNow generateAnalysisReport
       testResult projectRoot reportsDir w = (Returned out, w') ->
     exists pre x post,
       tr_steps testResult = (pre ++ x :: post)%list /\
       Forall (fun s => sr_status s <> failed) pre /\ sr_status x = failed /\
       an_scenario (analysis out) = tr_scenario testResult /\
       an_scenarioFile (analysis out) = tr_scenarioFile testResult /\
       an_failedStepId (analysis out) = sr_id x /\
       (an_category (analysis out), an_rootCause (analysis out))
         = analyzeError x testResult /\
       an_confidence (analysis out)
         = determineConfidence (an_category (analysis out))
             (an_affectedFiles (analysis out)) x /\
       (length (an_affectedFiles (analysis out)) <= 5)%nat).
Proof.
  split.
  - apply runAnalyzer_no_failed_step.
  - intros out w' Run. unfold runAnalyzer in Run.
    destruct (find _ (tr_steps testResult)) as [x|] eqn:F; [|discriminate].
    apply find_first in F. destruct F as (pre & post & E & N & Fx).
    exists pre, x, post. split; [exact E|].
    split; [eapply Forall_impl; [|exact N]; intros s; apply failed_eqb_false|].
    split; [now apply StepStatus_eqb_eq|].
    destruct (analyzeError x testResult) as [category rootCause] eqn:A.
    apply bind_Returned in Run. destruct Run as (files & w1 & Files & Run).
    apply bind_Returned in Run. destruct Run as (ts & w2 & _ & Run).
    apply bind_Returned in Run. destruct Run as (path & w3 & _ & Run).
    inversion Run; subst.
    cbv beta iota delta [analysis an_scenario an_scenarioFile an_failedStepId an_category
                         an_rootCause an_confidence an_affectedFiles].
    split; [reflexivity|]. split; [reflexivity|]. split; [reflexivity|].
    split; [reflexivity|]. split; [reflexivity|].
    eapply identifyAffectedFiles_length. exact Files.
Qed.

Lemma runAnalyzer_reports_first_failed_step_witness :
  Harness.runAnalyzer Script.env
    {| tr_scenario := Some "no-name.yaml"; tr_scenarioFile := "no-name.yaml";
       tr_status := test_failed; tr_duration := 0; tr_steps := [];
       tr_screenshots := []; tr_consoleErrors := ["Validation errors"];
       tr_networkErrors := []; tr_timestamp := "2025-01-01T00:00:00.000Z" |}
    "/app" "e2e/reports" Script.world0
  = (Threw "No failed step found in test result", Script.world0) /\
  exists out w',
    Harness.runAnalyzer Script.env
      (Classification.failedRun [Classification.resource404]) "/app" "e2e/reports"
      Script.world0 = (Returned out, w') /\
    an_failedStepId (analysis out) = Some "save" /\
    exists pre x post,
      tr_steps (Classification.failedRun [Classification.resource404])
        = (pre ++ x :: post)%list /\
      Forall (fun s => sr_status s <> failed) pre /\ sr_status x = failed /\
      an_scenario (analysis out) = Some "Save workout" /\
      an_scenarioFile (analysis out) = "save-workout.yaml" /\
      an_failedStepId (analysis out) = sr_id x /\
      (an_category (analysis out), an_rootCause (analysis out))
        = analyzeError x (Classification.failedRun [Classification.resource404]) /\
      an_confidence (analysis out)
        = determineConfidence (an_category (analysis out))
            (an_affectedFiles (analysis out)) x /\
      (length (an_affectedFiles (analysis out)) <= 5)%nat.
Proof.
  split.
  - apply (proj1 (runAnalyzer_reports_first_failed_step Script.World (fun _ _ => true)
                    Script.pathJoin Script.isoNow (fun _ _ => ret "reports/analysis.json")
                    _ "/app" "e2e/reports" Script.world0)).
    constructor.
  - eexists _, _. split; [vm_compute; reflexivity|].
    split; [reflexivity|].
    eapply (proj2 (runAnalyzer_reports_first_failed_step Script.World (fun _ _ => true)
                     Script.pathJoin Script.isoNow (fun _ _ => ret "reports/analysis.json")
                     (Classification.failedRun [Classification.resource404])
                     "/app" "e2e/reports" Script.world0)).
    vm_compute. reflexivity.
Defined.

End Diagnosis.

(** ** The orchestrator at the edges of a run *)
Module Coordination.
Import JS Eff Eff.Notations Types Orchestrator.

Section Assembled.
Context {W : Type} (env : Harness.Env W) (input : OrchestratorInput).

Lemma onWorld_run {A} (c : M W A) (m : Machine W) o w' :
  c (world m) = (o, w') ->
  onWorld W c m = (o, {| world := w'; state := state m;
                         codingAgentPrompts := codingAgentPrompts m |}).
Proof. intros E. unfold onWorld, zoom. now rewrite E. Qed.

(** The machine once the directories exist and the scenarios are loaded. *)
Definition loaded (m : Machine W) (w : W) (scenarioMap : SMap.t Scenario) : Machine W :=
  {| world := w; state := setScenarios (SMap.values scenarioMap) (state m);
     codingAgentPrompts := codingAgentPrompts m |}.

Lemma orchestrate_loaded m w1 w2 scenarioMap :
  Harness.ensureDirectories env [screenshotDir input; reportsDir input] (world m)
    = (Returned tt, w1) ->
  Harness.loadAllScenarios env (scenariosDir input) w1 = (Returned scenarioMap, w2) ->
  Harness.orchestrate env input m
  = (if (length (SMap.values scenarioMap) =? 0)%nat then
       updState W (setStatus st_failed) ;;;
       m <- get ;;
       ret {| success := false; out_state := state m; out_codingAgentPrompts := [] |}
     else
       updState W (setStatus running) ;;;
       forScenarios W (Harness.runTestRunner env) (Harness.runAnalyzer env)
         (Harness.generateCodingAgentPrompt env) (Harness.runCodingAgent env) input
         scenarioMap ;;;
       updState W (finalStatus) ;;;
       endTime <- onWorld W (total (Harness.isoNow env)) ;;
       updState W (setEndTime endTime) ;;;
       m <- get ;;
       onWorld W (Harness.generateFinalReport env (state m) (reportsDir input)) ;;;
       m' <- get ;;
       ret {| success := isStatusPassed (os_status (state m'));
              out_state := state m';
              out_codingAgentPrompts := codingAgentPrompts m' |})
    (loaded m w2 scenarioMap).
Proof.
  intros D L. unfold Harness.orchestrate, orchestrate.
  unfold bind at 1. rewrite (onWorld_run _ m _ _ D).
  unfold bind at 1. erewrite onWorld_run by exact L.
  unfold bind at 1, updState at 1, modify. reflexivity.
Qed.


Lemma runOrchestrator_body w o m' :
  Harness.orchestrate env input (Harness.start env input w) = (o, m') ->
  Harness.runOrchestrator env input w = (o, world m').
Proof.
  intros Run. unfold Harness.runOrchestrator, runOrchestrator.
  unfold Harness.orchestrate, Harness.start in Run. now rewrite Run.
Qed.

Lemma start_state w :
  state (Harness.start env input w)
    = initialState input (fst (Harness.isoNow env w)) /\
  codingAgentPrompts (Harness.start env input w) = [].
Proof.
  unfold Harness.start, start. destruct (Harness.isoNow env w). split; reflexivity.
Qed.

Lemma no_yaml_files entries :
  Forall (fun f => ScenarioParser.isYamlFile f = false) entries ->
  filter ScenarioParser.isYamlFile entries = [].
Proof.
  induction 1 as [|f l Hf _ IH]; simpl; [reflexivity|]. now rewrite Hf.
Qed.

End Assembled.

(** X10. A scenario directory without any [.yaml] or [.yml] file: the run
    returns at once with success false and status failed; no attempt is
    made, no end time is set and no final report is written (the world
    is left as the directory listing left it). *)
Theorem no_scenarios_fails_without_report
    (W : Type) (env : Harness.Env W) (input : OrchestratorInput)
    (w w1 w2 : W) (entries : list string) :
  Harness.ensureDirectories env [screenshotDir input; reportsDir input]
    (world (Harness.start env input w)) = (Returned tt, w1) ->
  Harness.readdirSync env (scenariosDir input) w1 = (Returned entries, w2) ->
  Forall (fun f => ScenarioParser.isYamlFile f = false) entries ->
  exists out,
    Harness.runOrchestrator env input w = (Returned out, w2) /\
    success out = false /\ out_codingAgentPrompts out = [] /\
    os_status (out_state out) = st_failed /\
    os_results (out_state out) = [] /\ os_scenarios (out_state out) = [] /\
    os_endTime (out_state out) = None.
Proof.
  intros D R N.
  assert (L : Harness.loadAllScenarios env (scenariosDir input) w1 = (Returned [], w2)).
  { unfold Harness.loadAllScenarios, ScenarioParser.loadAllScenarios, bind.
    rewrite R, (no_yaml_files entries N). reflexivity. }
  pose proof (orchestrate_loaded env input _ _ _ _ D L) as Run.
  cbn [SMap.values map length Nat.eqb] in Run.
  unfold bind, updState, modify, get, ret in Run.
  apply runOrchestrator_body in Run. cbn [world loaded] in Run.
  eexists. split; [exact Run|].
  destruct (start_state env input w) as [St _].
  cbn [success out_codingAgentPrompts out_state state loaded].
  rewrite St. repeat split.
Qed.

Lemma no_scenarios_fails_without_report_witness :
  exists out,
    Harness.runOrchestrator Script.env (Script.orchestratorInput "empty" 5 false)
      Script.world0 = (Returned out, Script.world0) /\
    success out = false /\ out_codingAgentPrompts out = [] /\
    os_status (out_state out) = st_failed /\
    os_results (out_state out) = [] /\ os_scenarios (out_state out) = [] /\
    os_endTime (out_state out) = None.
Proof.
  apply (no_scenarios_fails_without_report Script.World Script.env
           (Script.orchestratorInput "empty" 5 false)
           Script.world0 Script.world0 Script.world0 []).
  - reflexivity.
  - reflexivity.
  - constructor.
Defined.


(** X11. A failed result without a failed step (what the runner hands back
    when the scenario file does not validate or the browser does not
    start) on an attempt that is not the last allowed one: the analyzer
    refuses it and nothing catches that, so the whole run throws, with
    the status still running, no end time and no final report. *)
Theorem stepless_failure_aborts_run
    (W : Type) (env : Harness.Env W) (input : OrchestratorInput)
    (w w1 w2 w3 : W) (f : string) (sc : Scenario) (rest : SMap.t Scenario)
    (out : TestRunner.TestRunnerOutput) :
  (2 <= maxIterations (orchestrator (config input)))%Z ->
  Harness.ensureDirectories env [screenshotDir input; reportsDir input]
    (world (Harness.start env input w)) = (Returned tt, w1) ->
  Harness.loadAllScenarios env (scenariosDir input) w1
    = (Returned ((f, sc) :: rest), w2) ->
  Harness.runTestRunner env
    {| TestRunner.scenarioFile := f;
       TestRunner.scenariosDir := scenariosDir input;
       TestRunner.screenshotDir := screenshotDir input;
       TestRunner.reportsDir := reportsDir input;
       TestRunner.config := testRunner (config input) |} w2 = (Returned out, w3) ->
  TestRunner.success out = false ->
  Forall (fun s => sr_status s <> failed) (tr_steps (TestRunner.result out)) ->
  Harness.runOrchestrator env input w
    = (Threw "No failed step found in test result", w3) /\
  exists m',
    Harness.orchestrate env input (Harness.start env input w)
      = (Threw "No failed step found in test result", m') /\
    os_results (state m') = [TestRunner.result out] /\
    os_analyses (state m') = [] /\
    os_status (state m') = running /\ os_endTime (state m') = None.
Proof.
  intros Max D L R Fail NoStep.
  assert (Run : exists m',
             Harness.orchestrate env input (Harness.start env input w)
               = (Threw "No failed step found in test result", m') /\
             world m' = w3 /\
             os_results (state m') = [TestRunner.result out] /\
             os_analyses (state m') = [] /\
             os_status (state m') = running /\ os_endTime (state m') = None).
  { rewrite (orchestrate_loaded env input _ _ _ _ D L).
    cbn [SMap.values map length Nat.eqb].
    unfold bind at 1, updState at 1, modify.
    unfold bind at 1. cbn [forScenarios].
    unfold bind at 1, updState at 1, modify.
    unfold bind at 1, attemptLoop.
    destruct (Z.to_nat (maxIterations (cfg input))) as [|fuel] eqn:Fuel;
      [unfold cfg in Fuel; lia|].
    cbn [attempts negb andb].
    assert (G : (0 <? maxIterations (cfg input))%Z = true)
      by (apply Z.ltb_lt; unfold cfg; lia).
    rewrite G.
    unfold bind at 1, updState at 1, modify.
    unfold bind at 1. erewrite onWorld_run by (cbn [world loaded]; exact R).
    unfold bind at 1, updState at 1, modify.
    rewrite Fail.
    assert (G2 : (0 + 1 >=? maxIterations (cfg input))%Z = false)
      by (rewrite Z.geb_leb; apply Z.leb_gt; unfold cfg; lia).
    rewrite G2.
    unfold bind at 1, analyzeAndFix. unfold bind at 1.
    erewrite onWorld_run
      by (cbn [world]; unfold Harness.runAnalyzer;
          apply Diagnosis.runAnalyzer_no_failed_step; exact NoStep).
    eexists. split; [reflexivity|].
    destruct (start_state env input w) as [St _].
    cbn [world state loaded]. rewrite St. repeat split. }
  destruct Run as (m' & Run & Wd & Facts).
  split; [|exists m'; split; [exact Run | exact Facts]].
  apply runOrchestrator_body in Run. now rewrite Wd in Run.
Qed.


Lemma stepless_failure_aborts_run_witness :
  exists out w3,
    Harness.runTestRunner Script.env (Script.runnerInput "mixed" "no-name.yaml")
      Script.world0 = (Returned out, w3) /\
    tr_consoleErrors (TestRunner.result out)
      = ["Validation errors:" ++ nl ++ "  - Scenario must have a name"] /\
    Harness.runOrchestrator Script.env (Script.orchestratorInput "mixed" 5 false)
      Script.world0
    = (Threw "No failed step found in test result", w3) /\
    exists m',
      Harness.orchestrate Script.env (Script.orchestratorInput "mixed" 5 false)
        (Harness.start Script.env (Script.orchestratorInput "mixed" 5 false) Script.world0)
      = (Threw "No failed step found in test result", m') /\
      os_results (state m') = [TestRunner.result out] /\
      os_analyses (state m') = [] /\
      os_status (state m') = running /\ os_endTime (state m') = None.
Proof.
  eexists _, _. split; [vm_compute; reflexivity|].
  split; [vm_compute; reflexivity|].
  eapply (stepless_failure_aborts_run Script.World Script.env
            (Script.orchestratorInput "mixed" 5 false)
            Script.world0 Script.world0 Script.world0).
  - vm_compute. discriminate.
  - vm_compute. reflexivity.
  - vm_compute. reflexivity.
  - vm_compute. reflexivity.
  - vm_compute. reflexivity.
  - vm_compute. constructor.
Defined.

End Coordination.

(** ** The orchestrator's bookkeeping *)
Module Bookkeeping.
Import JS Eff Eff.Notations Types Orchestrator.

(** The attempts recorded as not passed. *)
Definition failedCount (results : list TestResult) : nat :=
  length (filter (fun r => negb (TestStatus_eqb (tr_status r) test_passed)) results).

Lemma failedCount_push results r :
  failedCount (push results r)
  = (failedCount results
     + (if TestStatus_eqb (tr_status r) test_passed then 0 else 1))%nat.
Proof.
  unfold failedCount, push. rewrite filter_app, length_app. simpl.
  destruct (TestStatus_eqb (tr_status r) test_passed); reflexivity.
Qed.

Section Assembled.
Context {W : Type} (env : Harness.Env W) (input : OrchestratorInput).

(** One prompt per analysis, one fix per analysis when fixes are applied
    automatically and none otherwise, and no more analyses than failed
    attempts. *)
Definition books (m : Machine W) : Prop :=
  length (codingAgentPrompts m) = length (os_analyses (state m)) /\
  length (os_fixes (state m))
    = (if autoApply (codingAgent (config input))
       then length (os_analyses (state m)) else 0%nat) /\
  (length (os_analyses (state m)) <= failedCount (os_results (state m)))%nat.

Lemma analyzeAndFix_books testResult m m' :
  analyzeAndFix W (Harness.runAnalyzer env) (Harness.generateCodingAgentPrompt env)
    (Harness.runCodingAgent env) input testResult m = (Returned tt, m') ->
  os_results (state m') = os_results (state m) /\
  length (os_analyses (state m')) = S (length (os_analyses (state m))) /\
  length (codingAgentPrompts m') = S (length (codingAgentPrompts m)) /\
  length (os_fixes (state m'))
    = (if autoApply (codingAgent (config input))
       then S (length (os_fixes (state m))) else length (os_fixes (state m))).
Proof.
  unfold analyzeAndFix. intros Run.
  apply bind_Returned in Run. destruct Run as (a & m1 & A & Run).
  apply onWorld_state in A. destruct A as [A1 A2].
  apply bind_Returned in Run. destruct Run as (? & m2 & U & Run).
  unfold updState, modify in U. inversion U; subst m2. clear U.
  apply bind_Returned in Run. destruct Run as (p & m3 & P & Run).
  apply onWorld_state in P. destruct P as [P1 P2]. cbn [state codingAgentPrompts] in P1, P2.
  apply bind_Returned in Run. destruct Run as (? & m4 & U & Run).
  unfold pushPrompt, modify in U. inversion U; subst m4. clear U.
  destruct (autoApply (codingAgent (config input))).
  - apply bind_Returned in Run. destruct Run as (fx & m5 & F & Run).
    apply onWorld_state in F. destruct F as [F1 F2]. cbn [state codingAgentPrompts] in F1, F2.
    unfold updState, modify in Run. inversion Run; subst m'. clear Run.
    cbn [state codingAgentPrompts]. rewrite F1, F2, P1, P2, A1, A2.
    unfold pushFix, pushAnalysis, push; cbn [os_results os_analyses os_fixes].
    rewrite !length_app. cbn [length]. repeat split; lia.
  - inversion Run; subst m'. clear Run.
    cbn [state codingAgentPrompts]. rewrite P1, P2, A1, A2.
    unfold pushAnalysis, push; cbn [os_results os_analyses os_fixes].
    rewrite !length_app. cbn [length]. repeat split; lia.
Qed.

Lemma attempts_books f fuel :
  forall i0 m p it m',
    attempts W (Harness.runTestRunner env) (Harness.runAnalyzer env)
      (Harness.generateCodingAgentPrompt env) (Harness.runCodingAgent env) input
      fuel f false i0 m = (Returned (p, it), m') ->
    books m -> books m'.
Proof.
  induction fuel as [|fuel IH]; intros i0 m p it m' Run B.
  - cbn [attempts] in Run.
    destruct (negb false && (i0 <? maxIterations (cfg input))%Z);
      inversion Run; subst; exact B.
  - cbn [attempts] in Run.
    destruct (negb false && (i0 <? maxIterations (cfg input))%Z);
      [|inversion Run; subst; exact B].
    apply bind_Returned in Run. destruct Run as (? & m1 & U & Run).
    unfold updState, modify in U. inversion U; subst m1. clear U.
    apply bind_Returned in Run. destruct Run as (out & m2 & R & Run).
    assert (Rs := R). apply onWorld_state in Rs. destruct Rs as [R1 R2].
    cbn [state codingAgentPrompts] in R1, R2.
    assert (C : TestRunner.success out = true
                <-> tr_status (TestRunner.result out) = test_passed).
    { unfold onWorld, zoom in R.
      destruct (Harness.runTestRunner env _ _) as [o w'] eqn:E.
      inversion R; subst o. apply TestRunner.runTestRunner_contract in E. apply E. }
    apply bind_Returned in Run. destruct Run as (? & m3 & U & Run).
    unfold updState, modify in U. inversion U; subst m3. clear U.
    destruct B as (B1 & B2 & B3).
    assert (B' : forall n,
               n = (if TestRunner.success out then 0 else 1)%nat ->
               length (codingAgentPrompts m2) = length (os_analyses (state m)) /\
               length (os_fixes (state m))
                 = (if autoApply (codingAgent (config input))
                    then length (os_analyses (state m)) else 0%nat) /\
               failedCount (push (os_results (state m)) (TestRunner.result out))
                 = (failedCount (os_results (state m)) + n)%nat).
    { intros n ->. rewrite R2. cbn [codingAgentPrompts].
      split; [exact B1|]. split; [exact B2|].
      rewrite failedCount_push. f_equal.
      destruct (TestRunner.success out) eqn:S.
      - destruct C as [C _]. rewrite (C eq_refl). reflexivity.
      - destruct (TestStatus_eqb _ _) eqn:T; [|reflexivity].
        apply TestStatus_eqb_eq in T. apply C in T. discriminate. }
    destruct (TestRunner.success out) eqn:S.
    + inversion Run; subst. destruct (B' 0%nat eq_refl) as (P1 & P2 & P3).
      unfold books. cbn [state codingAgentPrompts]. rewrite R1.
      unfold pushResult, setIteration; cbn [os_results os_analyses os_fixes].
      rewrite P3. repeat split; try assumption. lia.
    + destruct (B' 1%nat eq_refl) as (P1 & P2 & P3).
      destruct (i0 + 1 >=? maxIterations (cfg input))%Z.
      * inversion Run; subst.
        unfold books. cbn [state codingAgentPrompts]. rewrite R1.
        unfold pushResult, setIteration; cbn [os_results os_analyses os_fixes].
        rewrite P3. repeat split; try assumption. lia.
      * apply bind_Returned in Run. destruct Run as ([] & m4 & A & Run).
        apply analyzeAndFix_books in A. destruct A as (A1 & A2 & A3 & A4).
        cbn [state codingAgentPrompts] in A1, A2, A3, A4. rewrite R1 in A1, A2, A4.
        unfold pushResult, setIteration in A1, A2, A4;
          cbn [os_results os_analyses os_fixes] in A1, A2, A4.
        assert (B4 : books m4).
        { unfold books. rewrite A1, A2, A3, A4, P3, P1.
          split; [reflexivity|]. split; [|lia].
          destruct (autoApply (codingAgent (config input))); [now rewrite P2 | exact P2]. }
        destruct (stopOnFirstFailure (cfg input) && negb false).
        -- inversion Run; subst. exact B4.
        -- eapply IH; eassumption.
Qed.


Lemma forScenarios_books entries m m' :
  forScenarios W (Harness.runTestRunner env) (Harness.runAnalyzer env)
    (Harness.generateCodingAgentPrompt env) (Harness.runCodingAgent env) input
    entries m = (Returned tt, m') ->
  books m -> books m'.
Proof.
  intros Run.
  apply (forScenarios_cases W (Harness.runTestRunner env) (Harness.runAnalyzer env)
           (Harness.generateCodingAgentPrompt env) (Harness.runCodingAgent env) input
           (fun _ m o m' => o = Returned tt -> books m -> books m'))
    with (entries := entries) (o := Returned tt); auto.
  - intros f sc rest m0 msg m1 _ E. discriminate E.
  - intros f sc rest m0 it m1 o m2 A _ IH E B. apply IH; [exact E|].
    unfold attemptLoop in A. eapply attempts_books; [exact A|]. exact B.
  - intros f sc rest m0 it m1 A _ _ B.
    unfold attemptLoop in A. eapply attempts_books in A; [|exact B]. exact A.
  - intros f sc rest m0 it m1 o m2 A _ _ IH E B. apply IH; [exact E|].
    unfold attemptLoop in A. eapply attempts_books in A; [|exact B]. exact A.
Qed.

End Assembled.

(** X12. When a run returns: there is one coding-agent prompt per analysis;
    one fix per analysis if fixes are applied automatically and no fix
    otherwise; and there are no more analyses than attempts recorded as
    not passed. *)
Theorem prompts_and_fixes_follow_analyses
    (W : Type) (env : Harness.Env W) (input : OrchestratorInput) (w : W)
    (out : OrchestratorOutput) (m' : Machine W) :
  Harness.orchestrate env input (Harness.start env input w) = (Returned out, m') ->
  length (out_codingAgentPrompts out) = length (os_analyses (out_state out)) /\
  length (os_fixes (out_state out))
    = (if autoApply (codingAgent (config input))
       then length (os_analyses (out_state out)) else 0%nat) /\
  (length (os_analyses (out_state out))
   <= length (filter (fun r => negb (TestStatus_eqb (tr_status r) test_passed))
                     (os_results (out_state out))))%nat.
Proof.
  intros Run.
  destruct (Coordination.start_state env input w) as [St Pr].
  unfold Harness.orchestrate, orchestrate in Run.
  apply bind_Returned in Run. destruct Run as (? & m1 & D & Run).
  apply onWorld_state in D. destruct D as [D1 D2].
  apply bind_Returned in Run. destruct Run as (scenarioMap & m2 & L & Run).
  apply onWorld_state in L. destruct L as [L1 L2].
  apply bind_Returned in Run. destruct Run as (? & m3 & U & Run).
  unfold updState, modify in U. inversion U; subst m3. clear U.
  assert (B0 : forall st,
             books input
               {| world := world m2;
                  state := setStatus st (setScenarios (SMap.values scenarioMap) (state m2));
                  codingAgentPrompts := codingAgentPrompts m2 |}).
  { intros st. unfold books. cbn [state codingAgentPrompts].
    unfold setStatus, setScenarios; cbn [os_analyses os_fixes os_results].
    rewrite L1, L2, D1, D2, St, Pr. unfold initialState; cbn [os_analyses os_fixes os_results].
    destruct (autoApply (codingAgent (config input))); repeat split; simpl; lia. }
  destruct (length (SMap.values scenarioMap) =? 0)%nat.
  { unfold bind, updState, modify, get, ret in Run. inversion Run; subst.
    cbn [out_state out_codingAgentPrompts state].
    destruct (B0 st_failed) as (_ & B2 & B3). cbn [state] in B2, B3.
    split; [|split; [exact B2 | exact B3]].
    unfold setStatus, setScenarios; cbn [os_analyses].
    rewrite L1, D1, St. reflexivity. }
  apply bind_Returned in Run. destruct Run as (? & m4 & U & Run).
  unfold updState, modify in U. inversion U; subst m4. clear U.
  apply bind_Returned in Run. destruct Run as ([] & m5 & F & Run).
  apply forScenarios_books in F; [|apply B0].
  apply bind_Returned in Run. destruct Run as (? & m6 & U & Run).
  unfold updState, modify in U. inversion U; subst m6. clear U.
  apply bind_Returned in Run. destruct Run as (endTime & m7 & T & Run).
  apply onWorld_state in T. destruct T as [T1 T2]. cbn [state codingAgentPrompts] in T1, T2.
  apply bind_Returned in Run. destruct Run as (? & m8 & U & Run).
  unfold updState, modify in U. inversion U; subst m8. clear U.
  apply bind_Returned in Run. destruct Run as (? & m9 & U & Run).
  unfold get in U. inversion U; subst. clear U.
  apply bind_Returned in Run. destruct Run as (? & m10 & G & Run).
  apply onWorld_state in G. destruct G as [G1 G2]. cbn [state codingAgentPrompts] in G1, G2.
  unfold bind, get, ret in Run. inversion Run; subst. clear Run.
  cbn [out_state out_codingAgentPrompts]. rewrite G1, G2, T1, T2.
  destruct F as (F1 & F2 & F3).
  assert (K : os_analyses (setEndTime endTime (finalStatus (state m5))) = os_analyses (state m5)
              /\ os_fixes (setEndTime endTime (finalStatus (state m5))) = os_fixes (state m5)
              /\ os_results (setEndTime endTime (finalStatus (state m5)))
                 = os_results (state m5)).
  { unfold setEndTime, finalStatus; cbn [os_analyses os_fixes os_results].
    destruct (_ && _); [|destruct (isRunning _)]; repeat split. }
  destruct K as (K1 & K2 & K3). rewrite K1, K2, K3.
  split; [exact F1|]. split; [exact F2 | exact F3].
Qed.

Lemma prompts_and_fixes_follow_analyses_witness :
  exists out m',
    Harness.orchestrate Script.env (Script.orchestratorInput "stuck" 3 false)
      (Harness.start Script.env (Script.orchestratorInput "stuck" 3 false) Script.world0)
      = (Returned out, m') /\
    map tr_status (os_results (out_state out))
      = [test_failed; test_failed; test_failed; test_passed] /\
    length (os_analyses (out_state out)) = 2%nat /\
    length (out_codingAgentPrompts out) = length (os_analyses (out_state out)) /\
    length (os_fixes (out_state out))
      = (if autoApply (codingAgent (config (Script.orchestratorInput "stuck" 3 false)))
         then length (os_analyses (out_state out)) else 0%nat) /\
    (length (os_analyses (out_state out))
     <= length (filter (fun r => negb (TestStatus_eqb (tr_status r) test_passed))
                       (os_results (out_state out))))%nat.
Proof.
  eexists _, _. split; [vm_compute; reflexivity|].
  split; [vm_compute; reflexivity|]. split; [vm_compute; reflexivity|].
  eapply (prompts_and_fixes_follow_analyses Script.World Script.env
            (Script.orchestratorInput "stuck" 3 false) Script.world0).
  vm_compute. reflexivity.
Defined.

End Bookkeeping.

(** ** Totals of the final report *)
Module ReportTotals.
Import JS Eff Eff.Notations Types ReportGenerator SMapFacts Grouping.

Definition iterationsOf (reports : SMap.t ScenarioReport) : nat :=
  list_sum (map rep_iterations (SMap.values reports)).

Lemma iterations_set_absent (m : SMap.t ScenarioReport) k v :
  SMap.get m k = None ->
  iterationsOf (SMap.set m k v) = (iterationsOf m + rep_iterations v)%nat.
Proof.
  unfold iterationsOf, SMap.values.
  induction m as [|[k0 v0] m IH]; simpl; intros G; [lia|].
  destruct (String.eqb k0 k); [discriminate|]. simpl. rewrite (IH G). lia.
Qed.

Lemma iterations_set_present (m : SMap.t ScenarioReport) k v v0 :
  SMap.get m k = Some v0 ->
  (iterationsOf (SMap.set m k v) + rep_iterations v0
   = iterationsOf m + rep_iterations v)%nat.
Proof.
  unfold iterationsOf, SMap.values.
  induction m as [|[k1 v1] m IH]; simpl; intros G; [discriminate|].
  destruct (String.eqb k1 k).
  - inversion G; subst. simpl. lia.
  - simpl. specialize (IH G). lia.
Qed.

Lemma addResult_iterations reports r :
  iterationsOf (addResult reports r) = S (iterationsOf reports).
Proof.
  unfold addResult, SMap.has.
  destruct (SMap.get reports (tr_scenarioFile r)) as [rep|] eqn:G; cbn [negb].
  - rewrite G.
    pose proof (iterations_set_present reports (tr_scenarioFile r)
                  {| rep_name := rep_name rep; rep_file := rep_file rep;
                     rep_status := if isPassed r then test_passed else rep_status rep;
                     rep_iterations := S (rep_iterations rep);
                     rep_results := push (rep_results rep) r;
                     rep_analyses := rep_analyses rep; rep_fixes := rep_fixes rep |}
                  rep G) as E.
    cbn [rep_iterations] in E.
    apply (Nat.add_cancel_r _ _ (rep_iterations rep)).
    etransitivity; [exact E | lia].
  - rewrite get_set_eq.
    match goal with
    | |- iterationsOf (SMap.set (SMap.set _ _ ?fresh) _ ?next) = _ =>
        pose proof (iterations_set_present (SMap.set reports (tr_scenarioFile r) fresh)
                      (tr_scenarioFile r) next fresh (get_set_eq _ _ _)) as E;
          pose proof (iterations_set_absent reports (tr_scenarioFile r) fresh G) as E0
    end.
    cbn [rep_iterations] in E, E0.
    apply (Nat.add_cancel_r _ _ 0%nat).
    etransitivity; [exact E|]. rewrite E0. lia.
Qed.

Lemma grouped_iterations results :
  forall reports,
    iterationsOf (fold_left addResult results reports)
    = (iterationsOf reports + length results)%nat.
Proof.
  induction results as [|r results IH]; intros reports; simpl; [lia|].
  rewrite IH, addResult_iterations. lia.
Qed.

Lemma cores_iterations m m' : cores m = cores m' -> iterationsOf m = iterationsOf m'.
Proof.
  intros E. unfold iterationsOf, SMap.values. rewrite !map_map.
  assert (F : forall m0 : SMap.t ScenarioReport,
             map (fun x => rep_iterations (snd x)) m0
             = map (fun c => snd (fst (snd c))) (cores m0)).
  { intros m0. unfold cores, core. rewrite map_map. reflexivity. }
  now rewrite !F, E.
Qed.

Lemma count_two_statuses scenarios :
  (countStatus test_passed scenarios + countStatus test_failed scenarios
   = length scenarios)%nat.
Proof.
  unfold countStatus. induction scenarios as [|s l IH]; simpl; [reflexivity|].
  destruct (rep_status s); simpl; lia.
Qed.

(** X13. In the final report the passed and failed counts add up to the
    number of scenario reports; each scenario report counts as many
    iterations as it holds results, at least one; the iterations of all
    scenario reports add up to the number of results in the state; and
    the report's fixes are the state's. *)
Theorem report_totals_add_up
    (W : Type) isoNow dateParse writeReportFiles
    (state : OrchestratorState) (outputDir : string) (w w' : W) (report : FinalReport) :
  generateFinalReport W isoNow dateParse writeReportFiles state outputDir w
    = (Returned report, w') ->
  totalScenarios (fr_summary report) = length (fr_scenarios report) /\
  (sum_passed (fr_summary report) + sum_failed (fr_summary report)
   = totalScenarios (fr_summary report))%nat /\
  list_sum (map rep_iterations (fr_scenarios report)) = length (os_results state) /\
  Forall (fun rep => rep_iterations rep = length (rep_results rep) /\
                     (1 <= rep_iterations rep)%nat)
         (fr_scenarios report) /\
  fr_fixes report = os_fixes state.
Proof.
  intros Run. apply generateFinalReport_value in Run.
  destruct Run as (endTime & duration & ->). unfold buildFinalReport.
  cbn [fr_summary fr_scenarios fr_fixes totalScenarios sum_passed sum_failed].
  set (final := fold_left addFix _ _).
  split; [reflexivity|]. split; [apply count_two_statuses|].
  split; [|split; [|reflexivity]].
  - change (iterationsOf final = length (os_results state)).
    unfold final. rewrite (cores_iterations _ _ (cores_final state)).
    rewrite grouped_iterations. reflexivity.
  - apply Forall_forall. intros rep I. unfold SMap.values in I.
    apply in_map_iff in I. destruct I as ([k rep0] & E & I). simpl in E. subst rep0.
    apply final_report_entry in I.
    destruct I as (first & F & _ & R & It & _). rewrite It, R.
    split; [reflexivity|].
    apply find_some in F. destruct F as [I F].
    assert (I' : In first (filter (fileIs k) (os_results state)))
      by (apply filter_In; now split).
    destruct (filter (fileIs k) (os_results state)); [contradiction | simpl; lia].
Qed.

Lemma report_totals_add_up_witness :
  exists report w',
    generateFinalReport Script.World Script.isoNow (fun _ => 0%Z) (fun _ _ => ret tt)
      (Script.finalState "stuck" 3 false) "e2e/reports" Script.world0
      = (Returned report, w') /\
    map (fun rep => (rep_file rep, rep_status rep, rep_iterations rep)) (fr_scenarios report)
      = [("never.yaml", test_failed, 3%nat); ("settings.yaml", test_passed, 1%nat)] /\
    totalScenarios (fr_summary report) = length (fr_scenarios report) /\
    (sum_passed (fr_summary report) + sum_failed (fr_summary report)
     = totalScenarios (fr_summary report))%nat /\
    list_sum (map rep_iterations (fr_scenarios report))
      = length (os_results (Script.finalState "stuck" 3 false)) /\
    Forall (fun rep => rep_iterations rep = length (rep_results rep) /\
                       (1 <= rep_iterations rep)%nat)
           (fr_scenarios report) /\
    fr_fixes report = os_fixes (Script.finalState "stuck" 3 false).
Proof.
  eexists _, _. split; [vm_compute; reflexivity|].
  split; [vm_compute; reflexivity|].
  eapply (report_totals_add_up Script.World Script.isoNow (fun _ => 0%Z)
            (fun _ _ => ret tt) (Script.finalState "stuck" 3 false) "e2e/reports"
            Script.world0).
  vm_compute. reflexivity.
Defined.

End ReportTotals.

(** ** Analyses and fixes in the scenario reports of the final report *)
Module Attachments.
Import JS Eff Eff.Notations Types ReportGenerator SMapFacts Grouping.

(** [analysis.scenarioFile === k], [fix.analysis.scenarioFile === k] *)
Definition analysisOf (k : string) (a : Analysis) : bool :=
  String.eqb (an_scenarioFile a) k.

Definition fixOf (k : string) (f : Fix) : bool :=
  String.eqb (an_scenarioFile (fix_analysis f)) k.

(** What the loops over [analyses] and [fixes] make of the entry that a
    map of reports holds for the file [k]. *)
Definition extended (k : string) (analyses : list Analysis) (fixes : list Fix)
    (before after : option ScenarioReport) : Prop :=
  match before, after with
  | Some rep0, Some rep =>
      core rep = core rep0 /\
      rep_analyses rep = (rep_analyses rep0 ++ filter (analysisOf k) analyses)%list /\
      rep_fixes rep = (rep_fixes rep0 ++ filter (fixOf k) fixes)%list
  | None, None => True
  | _, _ => False
  end.

Lemma extended_refl k before : extended k [] [] before before.
Proof.
  destruct before as [rep|]; simpl; [|exact I].
  now rewrite !app_nil_r.
Qed.

Lemma extended_trans k as1 fs1 as2 fs2 x y z :
  extended k as1 fs1 x y -> extended k as2 fs2 y z ->
  extended k (as1 ++ as2) (fs1 ++ fs2) x z.
Proof.
  unfold extended.
  destruct x as [rx|], y as [ry|], z as [rz|]; try tauto.
  intros (C1 & A1 & F1) (C2 & A2 & F2).
  rewrite !filter_app, !app_assoc, <- A1, <- F1.
  split; [congruence | split; assumption].
Qed.

Lemma addAnalysis_get reports a k :
  extended k [a] [] (SMap.get reports k) (SMap.get (addAnalysis reports a) k).
Proof.
  unfold addAnalysis.
  destruct (SMap.get reports (an_scenarioFile a)) as [report|] eqn:G.
  - destruct (String.eqb_spec (an_scenarioFile a) k) as [E|N].
    + subst k. rewrite G, get_set_eq. unfold extended.
      cbn [filter]. unfold analysisOf. rewrite String.eqb_refl.
      cbn [rep_analyses rep_fixes]. unfold push. rewrite app_nil_r.
      repeat split.
    + rewrite get_set_neq by exact N.
      destruct (SMap.get reports k) as [rep|]; [|exact I].
      unfold extended. cbn [filter]. unfold analysisOf.
      destruct (String.eqb_spec (an_scenarioFile a) k); [contradiction|].
      now rewrite !app_nil_r.
  - destruct (SMap.get reports k) as [rep|] eqn:Gk; [|exact I].
    unfold extended. cbn [filter]. unfold analysisOf.
    destruct (String.eqb_spec (an_scenarioFile a) k); [congruence|].
    now rewrite !app_nil_r.
Qed.

Lemma addFix_get reports f k :
  extended k [] [f] (SMap.get reports k) (SMap.get (addFix reports f) k).
Proof.
  unfold addFix.
  destruct (SMap.get reports (an_scenarioFile (fix_analysis f))) as [report|] eqn:G.
  - destruct (String.eqb_spec (an_scenarioFile (fix_analysis f)) k) as [E|N].
    + subst k. rewrite G, get_set_eq. unfold extended.
      cbn [filter]. unfold fixOf. rewrite String.eqb_refl.
      cbn [rep_analyses rep_fixes]. unfold push. rewrite app_nil_r.
      repeat split.
    + rewrite get_set_neq by exact N.
      destruct (SMap.get reports k) as [rep|]; [|exact I].
      unfold extended. cbn [filter]. unfold fixOf.
      destruct (String.eqb_spec (an_scenarioFile (fix_analysis f)) k); [contradiction|].
      now rewrite !app_nil_r.
  - destruct (SMap.get reports k) as [rep|] eqn:Gk; [|exact I].
    unfold extended. cbn [filter]. unfold fixOf.
    destruct (String.eqb_spec (an_scenarioFile (fix_analysis f)) k); [congruence|].
    now rewrite !app_nil_r.
Qed.

Lemma analyses_get analyses k : forall reports,
  extended k analyses []
    (SMap.get reports k) (SMap.get (fold_left addAnalysis analyses reports) k).
Proof.
  induction analyses as [|a rest IH]; intros reports; cbn [fold_left].
  - apply extended_refl.
  - apply (extended_trans k [a] [] rest [] _ _ _ (addAnalysis_get reports a k) (IH _)).
Qed.

Lemma fixes_get fixes k : forall reports,
  extended k [] fixes
    (SMap.get reports k) (SMap.get (fold_left addFix fixes reports) k).
Proof.
  induction fixes as [|f rest IH]; intros reports; cbn [fold_left].
  - apply extended_refl.
  - apply (extended_trans k [] [f] [] rest _ _ _ (addFix_get reports f k) (IH _)).
Qed.

Lemma final_entry_attachments state k rep :
  In (k, rep)
     (fold_left addFix (os_fixes state)
        (fold_left addAnalysis (os_analyses state)
           (fold_left addResult (os_results state) []))) ->
  rep_analyses rep = filter (analysisOf k) (os_analyses state) /\
  rep_fixes rep = filter (fixOf k) (os_fixes state).
Proof.
  intros I.
  destruct (grouped_results (os_results state)) as [ND G].
  apply In_get in I.
  2:{ rewrite (cores_keys _ _ (cores_final state)). exact ND. }
  pose proof (extended_trans k _ _ _ _ _ _ _
                (analyses_get (os_analyses state) k
                   (fold_left addResult (os_results state) []))
                (fixes_get (os_fixes state) k _)) as X.
  rewrite I, G, app_nil_r in X. cbn [app] in X.
  unfold reportFor in X.
  destruct (find (fileIs k) (os_results state)); [|contradiction].
  unfold extended in X. cbn [rep_analyses rep_fixes app] in X. tauto.
Qed.

(** X14. Every scenario report of the final report holds, in their order, the
    analyses of the state made for its file and the fixes of the state
    whose analysis was made for its file, and nothing else; an analysis
    for a file that has no result appears in no scenario report. *)
Theorem report_holds_analyses_and_fixes_of_its_file
    (W : Type) isoNow dateParse writeReportFiles
    (state : OrchestratorState) (outputDir : string) (w w' : W) (report : FinalReport) :
  generateFinalReport W isoNow dateParse writeReportFiles state outputDir w
    = (Returned report, w') ->
  (forall rep, In rep (fr_scenarios report) ->
     rep_analyses rep = filter (analysisOf (rep_file rep)) (os_analyses state) /\
     rep_fixes rep = filter (fixOf (rep_file rep)) (os_fixes state)) /\
  (forall a rep,
     ~ In (an_scenarioFile a) (map tr_scenarioFile (os_results state)) ->
     In rep (fr_scenarios report) -> ~ In a (rep_analyses rep)).
Proof.
  intros Run. apply generateFinalReport_value in Run.
  destruct Run as (endTime & duration & ->). unfold buildFinalReport. simpl.
  set (final := fold_left addFix _ _).
  assert (Entry : forall rep, In rep (SMap.values final) ->
            exists k, In (k, rep) final /\ rep_file rep = k /\
                      In k (map tr_scenarioFile (os_results state))).
  { intros rep I. unfold SMap.values in I. apply in_map_iff in I.
    destruct I as ([k rep0] & E & I). simpl in E. subst rep0.
    exists k. split; [exact I|].
    destruct (final_report_entry state k rep I) as (first & Fd & F & _).
    split; [exact F|]. apply find_fileIs_In. eauto. }
  split.
  - intros rep I. destruct (Entry rep I) as (k & I' & F & _). rewrite F.
    now apply final_entry_attachments.
  - intros a rep N I Ia. destruct (Entry rep I) as (k & I' & F & K).
    destruct (final_entry_attachments state k rep I') as [A _].
    rewrite A in Ia. apply filter_In in Ia. destruct Ia as [_ E].
    apply String.eqb_eq in E. congruence.
Qed.

Lemma report_holds_analyses_and_fixes_of_its_file_witness :
  exists report w',
    generateFinalReport Script.World Script.isoNow (fun _ => 0%Z) (fun _ _ => ret tt)
      (Script.finalState "stuck" 3 false) "e2e/reports" Script.world0
      = (Returned report, w') /\
    map (fun rep => (rep_file rep, length (rep_analyses rep))) (fr_scenarios report)
      = [("never.yaml", 2%nat); ("settings.yaml", 0%nat)] /\
    (forall rep, In rep (fr_scenarios report) ->
       rep_analyses rep
         = filter (analysisOf (rep_file rep))
             (os_analyses (Script.finalState "stuck" 3 false)) /\
       rep_fixes rep
         = filter (fixOf (rep_file rep))
             (os_fixes (Script.finalState "stuck" 3 false))) /\
    (forall a rep,
       ~ In (an_scenarioFile a)
            (map tr_scenarioFile (os_results (Script.finalState "stuck" 3 false))) ->
       In rep (fr_scenarios report) -> ~ In a (rep_analyses rep)).
Proof.
  eexists _, _. split; [vm_compute; reflexivity|].
  split; [vm_compute; reflexivity|].
  eapply (report_holds_analyses_and_fixes_of_its_file Script.World Script.isoNow
            (fun _ => 0%Z) (fun _ _ => ret tt) (Script.finalState "stuck" 3 false)
            "e2e/reports" Script.world0).
  vm_compute. reflexivity.
Defined.

End Attachments.

(** ** Selection of scenarios by tag
       (e2e/lib/scenarioParser.ts [filterScenariosByTags],
        e2e/src/parser.ts [getScenariosByTag]) *)
Module Tags.
Import JS Types SMapFacts.

(** [tags.includes(tag)], [scenarioTags.has(tag)] *)
Definition hasTag (tags : list string) (tag : string) : bool :=
  existsb (String.eqb tag) tags.

(** [list && list.length > 0] *)
Definition given (tags : option (list string)) : bool :=
  match tags with
  | Some l => (0 <? length l)%nat
  | None => false
  end.

Definition orEmpty (tags : option (list string)) : list string :=
  match tags with Some l => l | None => [] end.

Definition filterScenariosByTags (scenarios : SMap.t Scenario)
    (includeTags excludeTags : option (list string)) : SMap.t Scenario :=
  fold_left
    (fun filtered entry =>
       let file := fst entry in
       let scenario := snd entry in
       let scenarioTags := sc_tags scenario in
       if given includeTags && negb (existsb (hasTag scenarioTags) (orEmpty includeTags))
       then filtered
       else if given excludeTags && existsb (hasTag scenarioTags) (orEmpty excludeTags)
            then filtered
            else SMap.set filtered file scenario)
    scenarios [].

Definition getScenariosByTag (scenarios : SMap.t AppiumParser.TestScenario) (tag : string)
    : SMap.t AppiumParser.TestScenario :=
  fold_left
    (fun filtered entry =>
       let id := fst entry in
       let scenario := snd entry in
       if match AppiumParser.ts_tags scenario with
          | Some tags => hasTag tags tag
          | None => false
          end
       then SMap.set filtered id scenario
       else filtered)
    scenarios [].

(** *** Properties *)

Lemma set_absent {V} (m : SMap.t V) k v :
  ~ In k (SMap.keys m) -> SMap.set m k v = (m ++ [(k, v)])%list.
Proof.
  unfold SMap.keys. induction m as [|[k0 v0] m IH]; simpl; intros N; [reflexivity|].
  destruct (String.eqb k0 k) eqn:E.
  - apply String.eqb_eq in E. subst k0. exfalso. apply N. now left.
  - f_equal. apply IH. intros I. apply N. now right.
Qed.

Lemma keys_filter_incl {V} (p : string * V -> bool) (l : SMap.t V) k :
  In k (SMap.keys (filter p l)) -> In k (SMap.keys l).
Proof.
  unfold SMap.keys. rewrite !in_map_iff. intros ([k0 v0] & E & I).
  apply filter_In in I. exists (k0, v0). tauto.
Qed.

(** Collecting the entries that pass a test into a fresh map keeps them
    as they are, in their order. *)
Lemma collect_is_filter {V} (p : string * V -> bool) (l : SMap.t V) :
  forall acc,
    NoDup (SMap.keys (acc ++ l)%list) ->
    fold_left (fun filtered entry =>
                 if p entry then SMap.set filtered (fst entry) (snd entry) else filtered)
              l acc
    = (acc ++ filter p l)%list.
Proof.
  induction l as [|[k v] l IH]; intros acc ND; simpl.
  - now rewrite app_nil_r.
  - assert (ND' : NoDup (SMap.keys ((acc ++ [(k, v)]) ++ l)%list))
      by now rewrite <- app_assoc.
    assert (Fresh : ~ In k (SMap.keys acc)).
    { unfold SMap.keys in ND. rewrite map_app in ND. simpl in ND.
      apply NoDup_remove_2 in ND. intros I. apply ND. apply in_or_app. now left. }
    destruct (p (k, v)) eqn:P; simpl.
    + rewrite (set_absent acc k v Fresh), (IH _ ND'), <- app_assoc. reflexivity.
    + apply IH. unfold SMap.keys in *. rewrite map_app in *. simpl in ND.
      apply NoDup_remove_1 in ND. exact ND.
Qed.

Lemma fold_left_ext {A B} (f g : A -> B -> A) l :
  (forall a b, f a b = g a b) -> forall a, fold_left f l a = fold_left g l a.
Proof.
  intros E. induction l as [|b l IH]; intros a; simpl; [reflexivity|].
  now rewrite E, IH.
Qed.

(** Whether [filterScenariosByTags] keeps a scenario with these tags. *)
Definition kept (includeTags excludeTags : option (list string)) (tags : list string)
    : bool :=
  (negb (given includeTags) || existsb (hasTag tags) (orEmpty includeTags))
  && negb (existsb (hasTag tags) (orEmpty excludeTags)).

Lemma existsb_orEmpty_given tags f :
  existsb f (orEmpty tags) = given tags && existsb f (orEmpty tags).
Proof. destruct tags as [[|t l]|]; reflexivity. Qed.

(** X15. On a map (no key twice), [filterScenariosByTags] returns the entries
    of the map, in their order, whose scenario has at least one of the
    include tags (when any is given) and none of the exclude tags; with
    no tags given it returns the map as it is. *)
Theorem filterScenariosByTags_is_filter
    (scenarios : SMap.t Scenario) (includeTags excludeTags : option (list string)) :
  NoDup (SMap.keys scenarios) ->
  filterScenariosByTags scenarios includeTags excludeTags
    = filter (fun entry => kept includeTags excludeTags (sc_tags (snd entry))) scenarios /\
  (forall scenario,
     kept includeTags excludeTags (sc_tags scenario) = true <->
     (given includeTags = true ->
      exists tag, In tag (orEmpty includeTags) /\ In tag (sc_tags scenario)) /\
     (forall tag, In tag (orEmpty excludeTags) -> ~ In tag (sc_tags scenario))) /\
  (given includeTags = false -> given excludeTags = false ->
   filterScenariosByTags scenarios includeTags excludeTags = scenarios).
Proof.
  intros ND.
  assert (F : filterScenariosByTags scenarios includeTags excludeTags
              = filter (fun entry => kept includeTags excludeTags (sc_tags (snd entry)))
                       scenarios).
  { unfold filterScenariosByTags.
    rewrite <- (app_nil_l (filter _ scenarios)).
    rewrite <- (collect_is_filter _ scenarios []) by exact ND.
    apply fold_left_ext. intros filtered [file scenario]. cbn [fst snd]. unfold kept.
    rewrite (existsb_orEmpty_given excludeTags).
    destruct (given includeTags), (existsb (hasTag (sc_tags scenario)) (orEmpty includeTags)),
      (given excludeTags), (existsb (hasTag (sc_tags scenario)) (orEmpty excludeTags));
      reflexivity. }
  split; [exact F|]. split.
  - intros scenario. unfold kept, hasTag.
    rewrite andb_true_iff, orb_true_iff, negb_true_iff, negb_true_iff. split.
    + intros [Inc Exc]. split.
      * intros G. destruct Inc as [Inc | Inc]; [congruence|].
        apply existsb_exists in Inc. destruct Inc as (tag & I & H).
        apply existsb_exists in H. destruct H as (t & It & E).
        apply String.eqb_eq in E. subst t. eauto.
      * intros tag I It.
        assert (T : existsb (fun tag => existsb (String.eqb tag) (sc_tags scenario))
                            (orEmpty excludeTags) = true).
        { apply existsb_exists. exists tag. split; [exact I|].
          apply existsb_exists. exists tag. split; [exact It | apply String.eqb_refl]. }
        congruence.
    + intros [Inc Exc]. split.
      * destruct (given includeTags); [right | now left].
        destruct (Inc eq_refl) as (tag & I & It).
        apply existsb_exists. exists tag. split; [exact I|].
        apply existsb_exists. exists tag. split; [exact It | apply String.eqb_refl].
      * destruct (existsb _ (orEmpty excludeTags)) eqn:X; [|reflexivity].
        apply existsb_exists in X. destruct X as (tag & I & H).
        apply existsb_exists in H. destruct H as (t & It & E).
        apply String.eqb_eq in E. subst t. now apply Exc in I.
  - intros NI NE. rewrite F.
    assert (A : forall tags, kept includeTags excludeTags tags = true).
    { intros tags. unfold kept. rewrite NI.
      rewrite (existsb_orEmpty_given excludeTags), NE. reflexivity. }
    clear F ND. induction scenarios as [|e l IH]; simpl; [reflexivity|].
    now rewrite A, IH.
Qed.


Lemma filterScenariosByTags_is_filter_witness :
  filterScenariosByTags
    [("a.yaml", mkScenario (Some "A") "a" [] [] [] ["smoke"; "templates"]);
     ("b.yaml", mkScenario (Some "B") "b" [] [] [] ["smoke"; "slow"]);
     ("c.yaml", mkScenario (Some "C") "c" [] [] [] [])]
    (Some ["smoke"]) (Some ["slow"])
  = [("a.yaml", mkScenario (Some "A") "a" [] [] [] ["smoke"; "templates"])] /\
  filterScenariosByTags
    [("a.yaml", mkScenario (Some "A") "a" [] [] [] ["smoke"; "templates"]);
     ("c.yaml", mkScenario (Some "C") "c" [] [] [] [])]
    (Some []) None
  = [("a.yaml", mkScenario (Some "A") "a" [] [] [] ["smoke"; "templates"]);
     ("c.yaml", mkScenario (Some "C") "c" [] [] [] [])].
Proof.
  split.
  - reflexivity.
  - apply (filterScenariosByTags_is_filter
             [("a.yaml", mkScenario (Some "A") "a" [] [] [] ["smoke"; "templates"]);
              ("c.yaml", mkScenario (Some "C") "c" [] [] [] [])]
             (Some []) None); [|reflexivity|reflexivity].
    repeat constructor; simpl; intuition discriminate.
Defined.

Lemma NoDup_keys_filter {V} (p : string * V -> bool) (l : SMap.t V) :
  NoDup (SMap.keys l) -> NoDup (SMap.keys (filter p l)).
Proof.
  induction l as [|[k v] l IH]; simpl; intros ND; [constructor|].
  inversion ND; subst. destruct (p (k, v)); simpl; [|now apply IH].
  constructor; [|now apply IH]. intros I. now apply keys_filter_incl in I.
Qed.

Lemma get_filter {V} (p : string * V -> bool) (l : SMap.t V) k v :
  NoDup (SMap.keys l) ->
  SMap.get (filter p l) k = Some v <-> SMap.get l k = Some v /\ p (k, v) = true.
Proof.
  intros ND. split.
  - intros G. apply get_Some_In in G. apply filter_In in G. destruct G as [I P].
    split; [now apply In_get | exact P].
  - intros [G P]. apply In_get; [now apply NoDup_keys_filter|].
    apply filter_In. split; [now apply get_Some_In | exact P].
Qed.

(** X16. On a map (no key twice), [getScenariosByTag] returns the entries of
    the map, in their order, whose scenario lists the tag: an id is in
    the result, with its scenario, exactly when it is in the map and the
    scenario has tags that contain the tag. *)
Theorem getScenariosByTag_is_filter
    (scenarios : SMap.t AppiumParser.TestScenario) (tag : string) :
  NoDup (SMap.keys scenarios) ->
  getScenariosByTag scenarios tag
    = filter (fun entry => match AppiumParser.ts_tags (snd entry) with
                           | Some tags => hasTag tags tag
                           | None => false
                           end) scenarios /\
  forall id scenario,
    SMap.get (getScenariosByTag scenarios tag) id = Some scenario <->
    SMap.get scenarios id = Some scenario /\
    exists tags, AppiumParser.ts_tags scenario = Some tags /\ In tag tags.
Proof.
  intros ND.
  assert (F : getScenariosByTag scenarios tag
              = filter (fun entry => match AppiumParser.ts_tags (snd entry) with
                                     | Some tags => hasTag tags tag
                                     | None => false
                                     end) scenarios).
  { unfold getScenariosByTag.
    rewrite <- (app_nil_l (filter _ scenarios)).
    now rewrite <- (collect_is_filter _ scenarios []) by exact ND. }
  split; [exact F|]. intros id scenario. rewrite F, get_filter by exact ND.
  cbn [snd]. split.
  - intros [G T]. split; [exact G|].
    destruct (AppiumParser.ts_tags scenario) as [tags|]; [|discriminate].
    exists tags. split; [reflexivity|].
    unfold hasTag in T. apply existsb_exists in T. destruct T as (t & I & E).
    apply String.eqb_eq in E. now subst t.
  - intros [G (tags & T & I)]. split; [exact G|]. rewrite T.
    apply existsb_exists. exists tag. split; [exact I | apply String.eqb_refl].
Qed.

Lemma getScenariosByTag_is_filter_witness :
  getScenariosByTag
    [("smoke-test", AppiumParser.mkTestScenario (Some "Smoke") None (Some ["smoke"]) None
                      (Some []));
     ("history", AppiumParser.mkTestScenario (Some "History") None None None (Some []));
     ("templates/create", AppiumParser.mkTestScenario (Some "Create") None
                            (Some ["templates"; "smoke"]) None (Some []))]
    "smoke"
  = [("smoke-test", AppiumParser.mkTestScenario (Some "Smoke") None (Some ["smoke"]) None
                      (Some []));
     ("templates/create", AppiumParser.mkTestScenario (Some "Create") None
                            (Some ["templates"; "smoke"]) None (Some []))].
Proof.
  refine (eq_trans
            (proj1 (getScenariosByTag_is_filter
                      [("smoke-test", AppiumParser.mkTestScenario (Some "Smoke") None
                                        (Some ["smoke"]) None (Some []));
                       ("history", AppiumParser.mkTestScenario (Some "History") None None
                                     None (Some []));
                       ("templates/create", AppiumParser.mkTestScenario (Some "Create") None
                                              (Some ["templates"; "smoke"]) None (Some []))]
                      "smoke" _)) _).
  - repeat constructor; simpl; intuition discriminate.
  - reflexivity.
Defined.

End Tags.

(** ** The coding agent (e2e/agents/codingAgent.ts) *)
Module CodingAgent.
Import JS Eff Eff.Notations Types Orchestrator.

Definition categoryName (c : FailureCategory) : string :=
  match c with
  | Types.selector => "selector" | Types.timing => "timing" | Types.state => "state"
  | Types.logic => "logic" | Types.network => "network"
  end.

Section CodingAgent.
Variable W : Type.

(** The file system, the TypeScript compiler run by [validateTypeScript]
    (whose failure is caught and reported as [false]), the clock and the
    report writer. *)
Variable existsSync : W -> string -> bool.
Variable readFileSync : string -> M W string.
Variable validateTypeScript : string -> W -> bool * W.
Variable pathJoin : string -> string -> string.
Variable isoNow : W -> string * W.
Variable generateFixReport : Fix -> string -> M W string.

(** The loop over the affected files. *)
Fixpoint readAffected (analysis : Analysis) (projectRoot : string) (files : list string)
    (filesModified : list FileModification) : M W (list FileModification) :=
  match files with
  | [] => ret filesModified
  | file :: rest =>
      let filePath := pathJoin projectRoot file in
      w <- get ;;
      if negb (existsSync w filePath) then readAffected analysis projectRoot rest filesModified
      else
        originalContent <- readFileSync filePath ;;
        readAffected analysis projectRoot rest
          (push filesModified
             {| fm_filePath := file;
                fm_originalContent := originalContent;
                fm_modifiedContent := originalContent;
                fm_changes := "Analyzed for " ++ categoryName (an_category analysis)
                                ++ " fix: " ++ an_rootCause analysis |})
  end.

Definition runCodingAgent (input : CodingAgentInput) : M W CodingAgentOutput :=
  let analysis := ca_analysis input in
  let projectRoot := ca_projectRoot input in
  let config := ca_config input in
  filesModified <- readAffected analysis projectRoot
                     (firstn (maxFilesPerFix config) (an_affectedFiles analysis)) [] ;;
  typescriptValid <-
    (if validateTypescript config && (0 <? length filesModified)%nat
     then total (validateTypeScript projectRoot)
     else ret true) ;;
  timestamp <- total isoNow ;;
  let fix' := {| fix_analysis := analysis; fix_filesModified := filesModified;
                fix_typescriptValid := typescriptValid; fix_timestamp := timestamp |} in
  reportPath <- generateFixReport fix' (ca_reportsDir input) ;;
  ret {| ca_success := typescriptValid; ca_fix := fix'; ca_reportPath := reportPath |}.

End CodingAgent.

(** *** Properties *)

(** [l] is [m] with some elements left out. *)
Inductive subsequence {A} : list A -> list A -> Prop :=
| sub_nil : subsequence [] []
| sub_skip x l m : subsequence l m -> subsequence l (x :: m)
| sub_take x l m : subsequence l m -> subsequence (x :: l) (x :: m).

Lemma subsequence_length {A} (l m : list A) :
  subsequence l m -> (length l <= length m)%nat.
Proof. induction 1; simpl; lia. Qed.

Definition untouched (analysis : Analysis) (m : FileModification) : Prop :=
  fm_modifiedContent m = fm_originalContent m /\
  fm_changes m = "Analyzed for " ++ categoryName (an_category analysis)
                   ++ " fix: " ++ an_rootCause analysis.

Section Facts.
Variable W : Type.
Variable existsSync : W -> string -> bool.
Variable readFileSync : string -> M W string.
Variable pathJoin : string -> string -> string.

Lemma readAffected_post analysis projectRoot files :
  forall acc w found w',
    readAffected W existsSync readFileSync pathJoin analysis projectRoot files acc w
      = (Returned found, w') ->
    exists new,
      found = (acc ++ new)%list /\
      Forall (untouched analysis) new /\
      subsequence (map fm_filePath new) files.
Proof.
  induction files as [|file rest IH]; intros acc w found w' Run; simpl in Run.
  - inversion Run; subst. exists []. rewrite app_nil_r. repeat constructor.
  - unfold bind at 1, get in Run.
    destruct (existsSync w (pathJoin projectRoot file)); cbn [negb] in Run.
    + apply bind_Returned in Run. destruct Run as (content & w1 & _ & Run).
      apply IH in Run. destruct Run as (new & E & U & S).
      unfold push in E. rewrite <- app_assoc in E.
      eexists. split; [exact E|]. split.
      * constructor; [split; reflexivity | exact U].
      * simpl. now constructor.
    + apply IH in Run. destruct Run as (new & E & U & S).
      exists new. repeat split; auto. now constructor.
Qed.

End Facts.

(** X17. When the coding agent returns, its fix carries the analysis it was
    given; it lists, in order, files among the first [maxFilesPerFix]
    affected files, and for each of them the modified content is the
    original content: the agent itself changes no file. It reports
    success exactly when the fix says the TypeScript is valid, which is
    always so when validation is off or no file was read. *)
Theorem runCodingAgent_changes_nothing
    (W : Type) existsSync readFileSync validateTypeScript pathJoin isoNow
    generateFixReport (input : CodingAgentInput) (w w' : W) (out : CodingAgentOutput) :
  runCodingAgent W existsSync readFileSync validateTypeScript pathJoin isoNow
    generateFixReport input w = (Returned out, w') ->
  fix_analysis (ca_fix out) = ca_analysis input /\
  Forall (untouched (ca_analysis input)) (fix_filesModified (ca_fix out)) /\
  subsequence (map fm_filePath (fix_filesModified (ca_fix out)))
              (firstn (maxFilesPerFix (ca_config input))
                      (an_affectedFiles (ca_analysis input))) /\
  (length (fix_filesModified (ca_fix out)) <= maxFilesPerFix (ca_config input))%nat /\
  ca_success out = fix_typescriptValid (ca_fix out) /\
  (validateTypescript (ca_config input) = false \/ fix_filesModified (ca_fix out) = [] ->
   ca_success out = true).
Proof.
  unfold runCodingAgent. intros Run.
  apply bind_Returned in Run. destruct Run as (files & w1 & R & Run).
  apply readAffected_post in R. destruct R as (new & E & U & S). simpl in E. subst new.
  apply bind_Returned in Run. destruct Run as (valid & w2 & V & Run).
  apply bind_Returned in Run. destruct Run as (ts & w3 & _ & Run).
  apply bind_Returned in Run. destruct Run as (path & w4 & _ & Run).
  inversion Run; subst out w4. clear Run. cbn [ca_fix ca_success fix_analysis
    fix_filesModified fix_typescriptValid].
  split; [reflexivity|]. split; [exact U|]. split; [exact S|]. split.
  - apply subsequence_length in S. rewrite length_map in S.
    etransitivity; [exact S | apply firstn_le_length].
  - split; [reflexivity|]. intros Off.
    destruct (validateTypescript (ca_config input)) eqn:On.
    + destruct Off as [Off | Off]; [discriminate|]. subst files.
      cbn [andb length Nat.ltb Nat.leb] in V. now inversion V.
    + cbn [andb] in V. now inversion V.
Qed.

(** A project with one of the first two affected files on disk, whose
    TypeScript does not compile. *)
Definition sampleInput : CodingAgentInput :=
  {| ca_analysis :=
       mkAnalysis (Some "Save workout") "save-workout.yaml" "click on Save" (Some "save")
         "Element not found" selector ["src/Missing.tsx"; "src/App.tsx"; "src/Late.tsx"]
         "Check the selector" high "2025-01-01T00:00:00.000Z";
     ca_projectRoot := "/app"; ca_reportsDir := "reports";
     ca_config := mkCodingAgentConfig true 2 true |}.

Definition sampleRun : M unit CodingAgentOutput :=
  runCodingAgent unit (fun _ path => String.eqb path "/app/src/App.tsx")
    (fun path => ret ("// " ++ path)) (fun _ w => (false, w))
    Script.pathJoin (fun w => ("2025-01-01T00:00:00.000Z", w))
    (fun _ _ => ret "reports/fix.json") sampleInput.

Lemma runCodingAgent_changes_nothing_witness :
  exists out,
    sampleRun tt = (Returned out, tt) /\
    fix_filesModified (ca_fix out)
    = [mkFileModification "src/App.tsx" "// /app/src/App.tsx" "// /app/src/App.tsx"
         "Analyzed for selector fix: Element not found"] /\
    ca_success out = false /\
    fix_analysis (ca_fix out) = ca_analysis sampleInput /\
    Forall (untouched (ca_analysis sampleInput)) (fix_filesModified (ca_fix out)) /\
    subsequence (map fm_filePath (fix_filesModified (ca_fix out)))
                (firstn (maxFilesPerFix (ca_config sampleInput))
                        (an_affectedFiles (ca_analysis sampleInput))) /\
    (length (fix_filesModified (ca_fix out)) <= maxFilesPerFix (ca_config sampleInput))%nat /\
    ca_success out = fix_typescriptValid (ca_fix out) /\
    (validateTypescript (ca_config sampleInput) = false
     \/ fix_filesModified (ca_fix out) = [] ->
     ca_success out = true).
Proof.
  eexists. split; [vm_compute; reflexivity|].
  split; [vm_compute; reflexivity|]. split; [vm_compute; reflexivity|].
  eapply (runCodingAgent_changes_nothing unit
            (fun _ path => String.eqb path "/app/src/App.tsx")
            (fun path => ret ("// " ++ path)) (fun _ w => (false, w))
            Script.pathJoin (fun w => ("2025-01-01T00:00:00.000Z", w))
            (fun _ _ => ret "reports/fix.json") sampleInput tt tt).
  vm_compute. reflexivity.
Defined.

End CodingAgent.

(** ** Dependency resolution of the mobile runner
       (e2e/src/parser.ts, [resolveDependencies]) *)
Module Dependencies.
Import JS AppiumParser.

(** The two accumulators of [resolveDependencies]: the set of visited
    ids and the order built so far. *)
Record Visit := mkVisit { visited : list string; order : list string }.

(** How a visit ends: normally, by throwing on an id that is not in the
    map, or (in this model only) by exhausting the recursion budget. *)
Inductive Visited :=
| Done (st : Visit)
| Unknown (id : string)
| OutOfFuel.

Definition requiresOf (scenario : TestScenario) : list string :=
  match ts_requires scenario with Some l => l | None => [] end.

(** [for (const dep of deps) visit(dep)] *)
Definition forEach (visit : string -> Visit -> Visited) : list string -> Visit -> Visited :=
  fix each (deps : list string) (st : Visit) : Visited :=
    match deps with
    | [] => Done st
    | dep :: rest =>
        match visit dep st with
        | Done st' => each rest st'
        | stopped => stopped
        end
    end.

Section Resolve.
Variable scenarios : SMap.t TestScenario.

(** The inner function [visit]; [fuel] bounds the depth of the recursion. *)
Fixpoint visit (fuel : nat) (id : string) (st : Visit) {struct fuel} : Visited :=
  match fuel with
  | O => OutOfFuel
  | S fuel' =>
      if existsb (String.eqb id) (visited st) then Done st
      else
        let st1 := {| visited := id :: visited st; order := order st |} in
        match SMap.get scenarios id with
        | None => Unknown id
        | Some scenario =>
            match forEach (visit fuel') (requiresOf scenario) st1 with
            | Done st2 => Done {| visited := visited st2; order := push (order st2) id |}
            | stopped => stopped
            end
        end
  end.

Inductive Resolution :=
| Resolved (order : list string)
| UnknownDependency (id : string)
| DepthExceeded.

(** Each nested visit marks one more key of the map, so the depth never
    passes the number of entries plus one. *)
Definition resolveDependencies (scenarioId : string) : Resolution :=
  match visit (S (length scenarios)) scenarioId (mkVisit [] []) with
  | Done st => Resolved (order st)
  | Unknown id => UnknownDependency id
  | OutOfFuel => DepthExceeded
  end.

(** *** Properties *)

Definition seen (st : Visit) (id : string) : bool := existsb (String.eqb id) (visited st).

(** The keys of the map not visited yet, with their repetitions. *)
Definition unvisited (st : Visit) : nat :=
  length (filter (fun k => negb (seen st k)) (SMap.keys scenarios)).

Lemma seen_In st id : seen st id = true <-> In id (visited st).
Proof.
  unfold seen. rewrite existsb_exists. split.
  - intros (x & I & E). apply String.eqb_eq in E. now subst x.
  - intros I. exists id. split; [exact I | apply String.eqb_refl].
Qed.

Lemma seen_false st id : seen st id = false <-> ~ In id (visited st).
Proof.
  rewrite <- seen_In. destruct (seen st id); split; congruence.
Qed.

Lemma get_In_keys id scenario : SMap.get scenarios id = Some scenario -> In id (SMap.keys scenarios).
Proof.
  intros G. apply SMapFacts.get_Some_In in G.
  unfold SMap.keys. change id with (fst (id, scenario)). now apply in_map.
Qed.

Lemma filter_length_le {A} (p q : A -> bool) l :
  (forall x, p x = true -> q x = true) ->
  (length (filter p l) <= length (filter q l))%nat.
Proof.
  intros H. induction l as [|x l IH]; simpl; [lia|].
  destruct (p x) eqn:P.
  - rewrite (H x P). simpl. lia.
  - destruct (q x); simpl; lia.
Qed.

Lemma filter_length_lt {A} (p q : A -> bool) l x :
  (forall y, p y = true -> q y = true) ->
  In x l -> p x = false -> q x = true ->
  (length (filter p l) < length (filter q l))%nat.
Proof.
  intros H I P Q. induction l as [|y l IH]; simpl; [contradiction|].
  destruct I as [-> | I].
  - rewrite P, Q. simpl. pose proof (filter_length_le p q l H). lia.
  - specialize (IH I). destruct (p y) eqn:Py.
    + rewrite (H y Py). simpl. lia.
    + destruct (q y); simpl; lia.
Qed.

Lemma unvisited_mono st st' :
  incl (visited st) (visited st') -> (unvisited st' <= unvisited st)%nat.
Proof.
  intros I. unfold unvisited. apply filter_length_le. intros k.
  rewrite !negb_true_iff, !seen_false. intros N H. apply N, I, H.
Qed.

Lemma unvisited_mark st id scenario :
  SMap.get scenarios id = Some scenario -> seen st id = false ->
  (unvisited {| visited := id :: visited st; order := order st |} < unvisited st)%nat.
Proof.
  intros G N. unfold unvisited. apply filter_length_lt with (x := id).
  - intros k. rewrite !negb_true_iff, !seen_false. simpl. tauto.
  - eapply get_In_keys, G.
  - apply negb_false_iff, seen_In. now left.
  - now rewrite N.
Qed.

(** What a visit that ends normally has done: it appended [new] to the
    order; [new] has no repetition and is exactly what it added to the
    visited set; and every id of [new] is in the map with all its
    requirements visited. *)
Definition grows (st st' : Visit) (new : list string) : Prop :=
  order st' = (order st ++ new)%list /\
  NoDup new /\
  (forall x, In x (visited st') <-> In x (visited st) \/ In x new) /\
  (forall x, In x new -> ~ In x (visited st)) /\
  (forall x, In x new ->
     exists scenario,
       SMap.get scenarios x = Some scenario /\
       forall d, In d (requiresOf scenario) -> In d (visited st')).

Lemma grows_refl st : grows st st [].
Proof.
  unfold grows. rewrite app_nil_r.
  split; [reflexivity|]. split; [constructor|]. split; [|split].
  - intros x. simpl. tauto.
  - intros x [].
  - intros x [].
Qed.

Lemma grows_trans st st1 st2 new1 new2 :
  grows st st1 new1 -> grows st1 st2 new2 -> grows st st2 (new1 ++ new2).
Proof.
  intros (O1 & N1 & V1 & F1 & C1) (O2 & N2 & V2 & F2 & C2). unfold grows.
  split; [now rewrite O2, O1, app_assoc|]. split; [|split; [|split]].
  - apply NoDup_app; [exact N1 | exact N2 |].
    intros x I1 I2. apply (F2 x I2). apply V1. now right.
  - intros x. rewrite V2, V1, in_app_iff. tauto.
  - intros x I. apply in_app_iff in I. destruct I as [I | I]; [now apply F1|].
    intros H. apply (F2 x I). apply V1. now left.
  - intros x I. apply in_app_iff in I. destruct I as [I | I].
    + destruct (C1 x I) as (sc & G & D). exists sc. split; [exact G|].
      intros d Id. apply V2. left. now apply D.
    + now apply C2.
Qed.

Lemma grows_incl st st' new : grows st st' new -> incl (visited st) (visited st').
Proof. intros (_ & _ & V & _) x I. apply V. now left. Qed.

Definition visitSpec (fuel : nat) : Prop :=
  forall id st,
    match visit fuel id st with
    | Done st' =>
        exists new,
          grows st st' new /\ In id (visited st') /\
          (~ In id (visited st) -> exists pre, new = (pre ++ [id])%list)
    | Unknown u => SMap.get scenarios u = None
    | OutOfFuel => (fuel <= unvisited st)%nat
    end.

Lemma forEach_spec fuel :
  visitSpec fuel ->
  forall deps st,
    match forEach (visit fuel) deps st with
    | Done st' =>
        exists new, grows st st' new /\ forall d, In d deps -> In d (visited st')
    | Unknown u => SMap.get scenarios u = None
    | OutOfFuel => (fuel <= unvisited st)%nat
    end.
Proof.
  intros Spec. induction deps as [|dep rest IH]; intros st; cbn [forEach].
  - exists []. split; [apply grows_refl | intros d []].
  - specialize (Spec dep st). destruct (visit fuel dep st) as [st1 | u |]; try exact Spec.
    destruct Spec as (new1 & G1 & I1 & _).
    specialize (IH st1).
    change ((fix each (deps : list string) (st : Visit) {struct deps} : Visited :=
               match deps with
               | [] => Done st
               | dep :: rest =>
                   match visit fuel dep st with
                   | Done st' => each rest st'
                   | Unknown id => Unknown id
                   | OutOfFuel => OutOfFuel
                   end
               end) rest st1)
      with (forEach (visit fuel) rest st1).
    destruct (forEach (visit fuel) rest st1) as [st2 | u |].
    + destruct IH as (new2 & G2 & I2). exists (new1 ++ new2)%list.
      split; [eapply grows_trans; eassumption|].
      intros d [<- | I]; [|now apply I2].
      eapply grows_incl; eassumption.
    + exact IH.
    + pose proof (unvisited_mono st st1 (grows_incl _ _ _ G1)). lia.
Qed.

Lemma visit_spec fuel : visitSpec fuel.
Proof.
  induction fuel as [|fuel IH]; intros id st; cbn [visit].
  - lia.
  - fold (seen st id). destruct (seen st id) eqn:S.
    + exists []. split; [apply grows_refl|]. apply seen_In in S.
      split; [exact S | intros N; contradiction].
    + destruct (SMap.get scenarios id) as [scenario|] eqn:G; [|exact G].
      pose proof (forEach_spec fuel IH (requiresOf scenario)
                    {| visited := id :: visited st; order := order st |}) as F.
      destruct (forEach (visit fuel) (requiresOf scenario) _) as [st2 | u |].
      * destruct F as (new & (O & N & V & Fr & C) & D). apply seen_false in S.
        exists (new ++ [id])%list. cbn [visited order] in *. split; [|split].
        -- unfold grows. cbn [visited order]. unfold push.
           split; [now rewrite O, app_assoc|]. split; [|split; [|split]].
           ++ apply SMapFacts.NoDup_snoc; [exact N|].
              intros I. apply (Fr id I). now left.
           ++ intros x. rewrite V, in_app_iff. simpl. intuition (subst; auto).
           ++ intros x I. apply in_app_iff in I. destruct I as [I | [<- | []]]; [|exact S].
              intros H. apply (Fr x I). now right.
           ++ intros x I. apply in_app_iff in I. destruct I as [I | [<- | []]].
              ** now apply C.
              ** exists scenario. split; [exact G | exact D].
        -- apply V. left. now left.
        -- intros _. now exists new.
      * exact F.
      * pose proof (unvisited_mark st id scenario G S). lia.
Qed.

End Resolve.

(** X18. [resolveDependencies] always terminates, also on cyclic requirements.
    It throws only for an id that is not in the map (the requested one or
    one required along the way). Otherwise the order it returns has no id
    twice, ends with the requested scenario, and holds only ids of the
    map, each together with everything it requires. *)
Theorem resolveDependencies_closed_order
    (scenarios : SMap.t TestScenario) (scenarioId : string) :
  match resolveDependencies scenarios scenarioId with
  | Resolved order =>
      NoDup order /\
      (exists pre, order = (pre ++ [scenarioId])%list) /\
      forall id, In id order ->
        exists scenario,
          SMap.get scenarios id = Some scenario /\
          forall d, In d (requiresOf scenario) -> In d order
  | UnknownDependency id => SMap.get scenarios id = None
  | DepthExceeded => False
  end.
Proof.
  unfold resolveDependencies.
  pose proof (visit_spec scenarios (S (length scenarios)) scenarioId (mkVisit [] [])) as Spec.
  destruct (visit scenarios _ scenarioId _) as [st | u |].
  - destruct Spec as (new & (O & N & V & _ & C) & _ & Last).
    cbn [order visited app] in *. subst new.
    split; [exact N|]. split; [apply Last; intros []|].
    intros id I. destruct (C id I) as (sc & G & D). exists sc. split; [exact G|].
    intros d Id. apply D in Id. apply V in Id. destruct Id as [[] | Id]. exact Id.
  - exact Spec.
  - unfold unvisited in Spec.
    pose proof (filter_length_le
                  (fun k => negb (seen (mkVisit [] []) k)) (fun _ => true)
                  (SMap.keys scenarios) (fun _ _ => eq_refl)) as L.
    assert (K : length (filter (fun _ : string => true) (SMap.keys scenarios))
                = length scenarios).
    { unfold SMap.keys. rewrite <- (length_map fst scenarios).
      f_equal. clear. induction (map fst scenarios) as [|x l IH]; simpl; congruence. }
    lia.
Qed.

(** *** Requirements come first *)

Section Earlier.
Variable scenarios : SMap.t TestScenario.

(** [x] requires [z], directly or through other scenarios of the map
    (or is [z] itself). *)
Inductive reaches : string -> string -> Prop :=
| reaches_self x : reaches x x
| reaches_step x y z scenario :
    SMap.get scenarios x = Some scenario -> In y (requiresOf scenario) ->
    reaches y z -> reaches x z.

Lemma reaches_trans x y z : reaches x y -> reaches y z -> reaches x z.
Proof.
  induction 1 as [|x y0 y sc G I _ IH]; intros R; [exact R|].
  eapply reaches_step; eauto.
Qed.

(** Every requirement of an id of [new] stands earlier (in [before] or
    earlier in [new]), unless that requirement itself requires the id. *)
Fixpoint earlyFrom (before new : list string) : Prop :=
  match new with
  | [] => True
  | x :: rest =>
      (forall scenario d,
         SMap.get scenarios x = Some scenario -> In d (requiresOf scenario) ->
         In d before \/ reaches d x) /\
      earlyFrom (before ++ [x]) rest
  end.

Lemma earlyFrom_app before new1 new2 :
  earlyFrom before (new1 ++ new2) <->
  earlyFrom before new1 /\ earlyFrom (before ++ new1) new2.
Proof.
  revert before. induction new1 as [|x new1 IH]; intros before; simpl.
  - rewrite app_nil_r. tauto.
  - rewrite IH, <- app_assoc. simpl. tauto.
Qed.

(** An id marked as visited but not yet in the order: a visit of it is
    still under way. *)
Definition pending (st : Visit) (y : string) : Prop :=
  In y (visited st) /\ ~ In y (order st).

Definition earlySpec (fuel : nat) : Prop :=
  forall id st,
    (forall y, pending st y -> reaches y id) ->
    incl (order st) (visited st) ->
    match visit scenarios fuel id st with
    | Done st' =>
        incl (order st') (visited st') /\
        (forall y, pending st' y -> pending st y) /\
        exists new, order st' = (order st ++ new)%list /\ earlyFrom (order st) new
    | _ => True
    end.

Lemma forEach_early fuel :
  earlySpec fuel ->
  forall deps st,
    (forall y d, pending st y -> In d deps -> reaches y d) ->
    incl (order st) (visited st) ->
    match forEach (visit scenarios fuel) deps st with
    | Done st' =>
        incl (order st') (visited st') /\
        (forall y, pending st' y -> pending st y) /\
        exists new, order st' = (order st ++ new)%list /\ earlyFrom (order st) new
    | _ => True
    end.
Proof.
  intros Spec. induction deps as [|dep rest IH]; intros st P I; cbn [forEach].
  - split; [exact I|]. split; [auto|]. exists []. now rewrite app_nil_r.
  - specialize (Spec dep st (fun y Py => P y dep Py (or_introl eq_refl)) I).
    destruct (visit scenarios fuel dep st) as [st1 | u |]; try exact Logic.I.
    destruct Spec as (I1 & P1 & new1 & O1 & E1).
    specialize (IH st1 (fun y d Py Id => P y d (P1 y Py) (or_intror Id)) I1).
    change ((fix each (deps : list string) (st : Visit) {struct deps} : Visited :=
               match deps with
               | [] => Done st
               | dep :: rest =>
                   match visit scenarios fuel dep st with
                   | Done st' => each rest st'
                   | Unknown id => Unknown id
                   | OutOfFuel => OutOfFuel
                   end
               end) rest st1)
      with (forEach (visit scenarios fuel) rest st1).
    destruct (forEach (visit scenarios fuel) rest st1) as [st2 | u |]; try exact Logic.I.
    destruct IH as (I2 & P2 & new2 & O2 & E2).
    split; [exact I2|]. split; [auto|].
    exists (new1 ++ new2)%list. split; [now rewrite O2, O1, app_assoc|].
    apply earlyFrom_app. split; [exact E1 | now rewrite <- O1].
Qed.

Lemma visit_early fuel : earlySpec fuel.
Proof.
  induction fuel as [|fuel IH]; intros id st P I; cbn [visit]; [exact Logic.I|].
  fold (seen st id). destruct (seen st id) eqn:S.
  - split; [exact I|]. split; [auto|]. exists []. now rewrite app_nil_r.
  - destruct (SMap.get scenarios id) as [scenario|] eqn:G; [|exact Logic.I].
    apply seen_false in S.
    assert (NotYet : ~ In id (order st)) by (intros H; apply S, I, H).
    pose proof (forEach_spec scenarios fuel (visit_spec scenarios fuel)
                  (requiresOf scenario)
                  {| visited := id :: visited st; order := order st |}) as Grow.
    pose proof (forEach_early fuel IH (requiresOf scenario)
                  {| visited := id :: visited st; order := order st |}) as Early.
    destruct (forEach (visit scenarios fuel) (requiresOf scenario) _) as [st2 | u |];
      try exact Logic.I.
    destruct Grow as (grown & Gr & Deps).
    destruct Early as (I2 & P2 & new & O2 & E2).
    + intros y d [Vy Oy] Id. cbn [visited order] in Vy, Oy.
      destruct Vy as [<- | Vy].
      * eapply reaches_step; [exact G | exact Id | apply reaches_self].
      * eapply reaches_trans; [apply P; split; assumption|].
        eapply reaches_step; [exact G | exact Id | apply reaches_self].
    + cbn [visited order]. intros x H. right. now apply I.
    + cbn [visited order] in *.
      assert (Vid : In id (visited st2)).
      { eapply (grows_incl scenarios); [exact Gr|]. now left. }
      split; [|split].
      * unfold push. intros x H. apply in_app_iff in H.
        destruct H as [H | [<- | []]]; [now apply I2 | exact Vid].
      * intros y [Vy Oy]. unfold push in Oy.
        assert (Py : pending st2 y).
        { split; [exact Vy|]. intros H. apply Oy, in_app_iff. now left. }
        apply P2 in Py. destruct Py as [Vy1 Oy1]. cbn [visited order] in Vy1, Oy1.
        destruct Vy1 as [<- | Vy1]; [|split; assumption].
        exfalso. apply Oy, in_app_iff. right. now left.
      * exists (new ++ [id])%list. unfold push.
        split; [now rewrite O2, app_assoc|].
        apply earlyFrom_app. split; [exact E2|]. simpl. split; [|exact Logic.I].
        intros sc d Gs Id. rewrite G in Gs. inversion Gs; subst sc.
        destruct (in_dec string_dec d (order st2)) as [In2 | Out2].
        -- left. now rewrite <- O2.
        -- right. assert (Pd : pending st2 d) by (split; [now apply Deps | exact Out2]).
           apply P2 in Pd. destruct Pd as [Vd Od]. cbn [visited order] in Vd, Od.
           destruct Vd as [<- | Vd]; [apply reaches_self|].
           apply P. split; assumption.
Qed.

End Earlier.

(** X19. In the order that [resolveDependencies] returns, every requirement
    of an entry stands before that entry, unless the requirement itself
    requires the entry (a cycle), in which case it may stand after it. *)
Theorem resolveDependencies_requirements_first
    (scenarios : SMap.t TestScenario) (scenarioId : string) (order : list string) :
  resolveDependencies scenarios scenarioId = Resolved order ->
  forall pre id post scenario d,
    order = (pre ++ id :: post)%list ->
    SMap.get scenarios id = Some scenario -> In d (requiresOf scenario) ->
    In d pre \/ reaches scenarios d id.
Proof.
  unfold resolveDependencies. intros Run pre id post scenario d Split G Id.
  pose proof (visit_early scenarios (S (length scenarios)) scenarioId (mkVisit [] [])) as E.
  destruct (visit scenarios _ scenarioId _) as [st | u |]; try discriminate.
  destruct E as (_ & _ & new & O & Early).
  - intros y [[] _].
  - intros x [].
  - injection Run as R. rewrite <- R, O in Split. cbn [Dependencies.order app] in Split.
    subst new.
    apply earlyFrom_app in Early. destruct Early as [_ Early]. simpl in Early.
    destruct Early as [Early _]. exact (Early scenario d G Id).
Qed.

Lemma resolveDependencies_requirements_first_witness :
  resolveDependencies
    [("smoke", mkTestScenario (Some "Smoke") None None None (Some []));
     ("create", mkTestScenario (Some "Create") None None (Some ["smoke"]) (Some []));
     ("edit", mkTestScenario (Some "Edit") None None (Some ["smoke"; "create"]) (Some []))]
    "edit"
  = Resolved ["smoke"; "create"; "edit"] /\
  (In "create" ["smoke"; "create"] \/
   reaches
     [("smoke", mkTestScenario (Some "Smoke") None None None (Some []));
      ("create", mkTestScenario (Some "Create") None None (Some ["smoke"]) (Some []));
      ("edit", mkTestScenario (Some "Edit") None None (Some ["smoke"; "create"]) (Some []))]
     "create" "edit").
Proof.
  split; [reflexivity|].
  apply (resolveDependencies_requirements_first
           [("smoke", mkTestScenario (Some "Smoke") None None None (Some []));
            ("create", mkTestScenario (Some "Create") None None (Some ["smoke"]) (Some []));
            ("edit", mkTestScenario (Some "Edit") None None (Some ["smoke"; "create"])
                       (Some []))]
           "edit" ["smoke"; "create"; "edit"] eq_refl
           ["smoke"; "create"] "edit" []
           (mkTestScenario (Some "Edit") None None (Some ["smoke"; "create"]) (Some []))
           "create" eq_refl eq_refl).
  simpl. tauto.
Defined.

(** A smoke test that two scenarios require, one of which requires the
    other; a cycle; a missing scenario. *)
Example resolveDependencies_examples :
  let scenario requires := mkTestScenario (Some "s") None None requires (Some []) in
  resolveDependencies
    [("smoke", scenario None); ("create", scenario (Some ["smoke"]));
     ("edit", scenario (Some ["smoke"; "create"]))] "edit"
  = Resolved ["smoke"; "create"; "edit"] /\
  resolveDependencies
    [("a", scenario (Some ["b"])); ("b", scenario (Some ["a"]))] "a"
  = Resolved ["b"; "a"] /\
  resolveDependencies [("a", scenario (Some ["ghost"]))] "a" = UnknownDependency "ghost".
Proof. repeat split. Qed.

End Dependencies.

(** ** What the test runner does with errors *)
Module RunnerErrors.
Import JS Eff Eff.Notations Types PlaywrightAdapter TestRunner.

(** The computation returns from this state (it does not throw). *)
Definition returns {S A} (c : M S A) (s : S) : Prop :=
  exists a s', c s = (Returned a, s').

Lemma returns_ret {S A} (a : A) (s : S) : returns (ret a) s.
Proof. now exists a, s. Qed.

Lemma returns_total {S A} (f : S -> A * S) s : returns (total f) s.
Proof. unfold returns, total. destruct (f s). eauto. Qed.

Lemma returns_bind {S A B} (c : M S A) (k : A -> M S B) s :
  returns c s ->
  (forall a s1, c s = (Returned a, s1) -> returns (k a) s1) ->
  returns (bind c k) s.
Proof.
  intros (a & s1 & E) K. unfold returns, bind. rewrite E. now apply K.
Qed.

Lemma returns_tryCatch {S A} (c : M S A) (h : string -> M S A) s :
  (forall msg s1, returns (h msg) s1) -> returns (tryCatch c h) s.
Proof.
  intros H. unfold returns, tryCatch.
  destruct (c s) as [[a|msg] s1]; [eauto | apply H].
Qed.

Section Runner.
Context {W : Type} (env : Harness.Env W).

(** The browser can always be closed and the report always written. *)
Hypothesis cleanup_returns : forall a, returns (Harness.cleanup env) a.
Hypothesis report_returns :
  forall result dir w, returns (Harness.generateTestResultReport env result dir) w.

Lemma runner_returns input w : returns (Harness.runTestRunner env input) w.
Proof.
  unfold Harness.runTestRunner, runTestRunner.
  apply returns_bind.
  { apply returns_tryCatch. intros. apply returns_ret. }
  intros [error | scenario] w1 _.
  - apply returns_bind; [apply returns_total | intros; apply returns_ret].
  - destruct (0 <? length (ScenarioParser.validateScenario scenario))%nat.
    + apply returns_bind; [apply returns_total | intros; apply returns_ret].
    + apply returns_bind.
      * unfold withAdapter, returns.
        match goal with
        | |- exists a s', (let (o, a0) := ?c ?a1 in _) = _ =>
            assert (R : returns c a1)
        end.
        { apply returns_bind.
          - apply returns_tryCatch. intros. apply returns_total.
          - intros r a1 _. apply returns_bind; [apply cleanup_returns|].
            intros; apply returns_ret. }
        destruct R as (r & a2 & R). rewrite R. eauto.
      * intros r w2 _. apply returns_bind; [apply report_returns|].
        intros; apply returns_ret.
Qed.

End Runner.

(** X20. As long as the browser can be closed and the report can be written,
    the test runner never throws: a scenario file that does not parse or
    validate, a browser that does not start and a page that fails while
    the scenario is set up all come back as a result. When it is the
    browser start that throws, the result is failed, without steps, and
    carries the error message as its only console error. *)
Theorem runTestRunner_returns_a_result
    (W : Type) (env : Harness.Env W) (input : TestRunnerInput) (w : W) :
  (forall a, exists a', Harness.cleanup env a = (Returned tt, a')) ->
  (forall result dir w0, exists path w1,
     Harness.generateTestResultReport env result dir w0 = (Returned path, w1)) ->
  (exists out w', Harness.runTestRunner env input w = (Returned out, w')) /\
  (forall scenario w1 msg a1,
     ScenarioParser.parseScenarioFile (Harness.readYaml env)
       (Harness.pathJoin env (scenariosDir input) (scenarioFile input)) w
       = (Returned scenario, w1) ->
     ScenarioParser.validateScenario scenario = [] ->
     Harness.initialize env (mkAdapter w1 [] []) = (Threw msg, a1) ->
     exists out w',
       Harness.runTestRunner env input w = (Returned out, w') /\
       success out = false /\ tr_status (result out) = test_failed /\
       tr_steps (result out) = [] /\ tr_consoleErrors (result out) = [msg]).
Proof.
  intros C R.
  assert (C' : forall a, returns (Harness.cleanup env) a).
  { intros a. destruct (C a) as (a' & E). now exists tt, a'. }
  split; [now apply runner_returns|].
  intros scenario w1 msg a1 P V I.
  unfold Harness.runTestRunner, runTestRunner.
  unfold bind at 1, tryCatch at 1, bind at 1. rewrite P. unfold ret at 1.
  rewrite V. cbn [length Nat.ltb Nat.leb].
  unfold bind at 1, withAdapter, bind at 1, tryCatch at 1, bind at 1.
  rewrite I. unfold total, onPage, createFailedResult.
  destruct (Harness.isoNow env (page a1)) as [ts w2].
  cbv beta iota. unfold bind at 1.
  match goal with
  | |- context [Harness.cleanup env ?a] => destruct (C a) as (a3 & E); rewrite E
  end.
  unfold ret at 1. unfold bind at 1.
  match goal with
  | |- context [Harness.generateTestResultReport env ?r ?d ?w0] =>
      destruct (R r d w0) as (path & w3 & E2); rewrite E2
  end.
  eexists _, _. split; [reflexivity|]. repeat split.
Qed.

Lemma runTestRunner_returns_a_result_witness :
  exists out w',
    Harness.runTestRunner
      {| Harness.readYaml := Script.readYaml;
         Harness.readdirSync := Script.readdirSync;
         Harness.pathJoin := Script.pathJoin;
         Harness.existsSync := fun _ _ => true;
         Harness.ensureDirectories := Script.quiet;
         Harness.initialize := throw "browserType.launch: Executable doesn't exist";
         Harness.cleanup := ret tt;
         Harness.pageGoto := Script.quiet;
         Harness.waitForAppLoaded := Script.quiet;
         Harness.pageScreenshot := fun _ _ => ret tt;
         Harness.waitForTimeout := Script.quiet;
         Harness.executeAction := Script.executeAction;
         Harness.checkExpectation := Script.checkExpectation;
         Harness.ensureDir := Script.quiet;
         Harness.dateNow := Script.dateNow;
         Harness.isoNow := Script.isoNow;
         Harness.dateParse := fun _ => 0%Z;
         Harness.generateTestResultReport := fun _ _ => ret "reports/result.json";
         Harness.generateAnalysisReport := fun _ _ => ret "reports/analysis.json";
         Harness.writeReportFiles := fun _ _ => ret tt;
         Harness.generateCodingAgentPrompt := fun _ _ => ret "prompt";
         Harness.runCodingAgent := Script.runCodingAgent |}
      (Script.runnerInput "green" "settings.yaml") Script.world0
    = (Returned out, w') /\
    success out = false /\ tr_status (result out) = test_failed /\
    tr_steps (result out) = [] /\
    tr_consoleErrors (result out) = ["browserType.launch: Executable doesn't exist"].
Proof.
  eapply (proj2 (runTestRunner_returns_a_result Script.World _
                   (Script.runnerInput "green" "settings.yaml") Script.world0 _ _)).
  - vm_compute. reflexivity.
  - vm_compute. reflexivity.
  - vm_compute. reflexivity.
  Unshelve.
  + intros a. exists a. reflexivity.
  + intros r d w0. exists "reports/result.json", w0. reflexivity.
Defined.

End RunnerErrors.
